(* ===== verification/_CoqProject ===== *)
-Q . S2P
Prelude.v
World.v
Memory.v
Libc.v
Escape.v
MdcIface.v
Mdc.v
JsonFormat.v
Mdclog.v
Within.v
Api.v
Threads.v
Faults.v
Interleave.v
LogLevel.v
ParseRace.v
Startup.v
Process.v
Json.v
Types.v
