(* ===== verification/Prelude.v ===== *)
(** * mdclog: a verification library for the structured logging library

    libmdclog writes log entries as JSON objects, one per line, to the standard
    output.  A program names itself, sets a logging level and calls [mdclog_write];
    each thread has a list of key-value pairs (mapped diagnostic contexts, MDCs) that
    go into every entry it writes.  This development translates the C code of the
    library (src/src/*.c) into functions of a state monad over an explicit heap, and
    proves what they do.

    ** The program and the files

    - World.v: the state ([world]: heap, allocation outcomes, errno, the running
      thread, the statics of mdc.c and mdclog.c, the part of the operating system the
      library talks to), the monad [M] and its weakest preconditions [wp], which say
      that a computation returns and what holds then.
    - Memory.v, Libc.v: C's memory operations and the functions of the C library the
      code calls.  Reading outside a block, reading an indeterminate value, using a
      freed block or freeing it again stops a computation with [UndefinedBehaviour].
      [owns_step] is the frame: which blocks a call owned before and owns after, and
      that it touched no other.
    - Escape.v: mdclog_internal_escape, _deescape, _escaped_size and
      _contains_special_characters of src/src/json_format.c.
    - MdcIface.v: the classes [MdcAccess] and [MdcWalk], what the formatter needs of
      the MDC list (src/include/private/mdc.h).
    - JsonFormat.v: the formatter of src/src/json_format.c, against that interface.
      [entry_text] is the text of an entry, as a pure function.
    - Mdc.v: src/src/mdc.c, the list of the running thread (doubly linked, its head in
      a pthread key), and the instance of the interface.
    - Mdclog.v: the functions of src/src/mdclog.c but for the configuration file.
      [lib] is the state of the library between two calls.
    - Within.v: relations on states that every run of a function respects, proved by
      the structure of the code (class [Within]): allocation failures do not come back,
      the setup of the process stays, only certain messages are printed.
    - Api.v: attribute objects, and the properties of each public function.
    - Threads.v: calls of several threads ([run_events]), the abstract machine they
      implement ([sp_events]), the invariant of the process ([shared]).
    - Faults.v: the same calls when allocations fail: the machine [f_events] draws the
      outcome of every allocation, in the code's order, from the plan ([supply] in
      Memory.v, the "any" rules of Mdc.v, JsonFormat.v and Mdclog.v).
    - Interleave.v: initialisation, [mdclog_lib_clean] and the use of the identity cut
      into accesses to the shared configuration, in any interleaving.
    - LogLevel.v: the environment, the configuration file and its parser, the level,
      the monitor thread.  ParseRace.v: two threads inside the parser.  Startup.v:
      [mdclog_format_initialize] on top of all that.
    - Process.v: the calls of Threads.v, initialisations, edits of the files and the
      turns of the monitor threads in one process ([run_pevents]), and the machine they
      implement ([sp_pevents]).  The monitors' own blocks are the frame [F] of the
      invariant [shared].
    - Json.v: a reader and a writer of JSON, entries as JSON objects, and what a reader
      of the standard output of the process finds.
    - Types.v: heaps without dangling and mistyped pointers ([well_typed]).

    The functions call each other as in C: mdclog_write initialises the library
    (init_library), takes the read lock, gets the head of the thread's list
    (Mdc, through the key), formats the entry into a buffer of its own (JsonFormat,
    which walks the list through the interface and escapes the message with Escape),
    releases the lock and writes the line, repeating the system call after temporary
    failures.

    ** What is shown

    - The whole process: [Process.process_refines] (callers, initialisations and monitor
      threads behave as one abstract machine), [Process.process_leaks] (all that is ever
      lost is one copy of the file name for each monitor), [Process.change_sets_level] (a
      change the monitor sees is everybody's level).
    - Refinement: [Threads.public_api_refines] (any sequence of calls, by any threads,
      behaves as the abstract machine: answers, output, level), with the invariant
      [Threads.reachable_shared], progress, isolation of the threads and the absence of
      leaks.
    - Without memory: [Faults.faulty_refines] (with any plan of good and bad allocations,
      calls answer and write what the machine of the failures says), [Faults.failures_pass]
      (memory that comes back makes the calls normal again), [Faults.faulty_leaks] (what is
      lost in the end), [Faults.torn_put_fatal] (the one failure that is not survived),
      [Types.heap_typed] (no pointer dangles in any state in between).
    - The public functions: [Api.mdclog_write_emits] (one line is made and handed to
      write; what becomes of it for each outcome of the system call), the round trip of MDCs, attributes and their ownership, cleaning up and starting
      over, the retry macro, every error result.
    - The components: the list operations are those of association lists and free what
      they unlink (Mdc); escaping is exact, bounded and reversible (Escape); the
      formatter writes [entry_text] within its buffer, cuts long messages off between
      characters, and drops an entry exactly when no room is left (JsonFormat).
    - The log: [Json.entry_is_object] (a reader gets the fields back: which bindings and
      how much of the message is given exactly, and so is the case where there is no
      entry) and [Json.output_is_json] (in the whole process the lines written are single
      objects a pipe takes in one piece, and there is one other text on the standard
      output, the message about a missing log level).
    - Startup and level: which fields are stored, which level a file sets, what the
      monitor thread follows and when it ends; nothing is left allocated but what the
      library keeps.
    - Interleaving: [Interleave.init_interleaves_safely] (no bad access, no deadlock).
    - What goes wrong: a failed copy of a key or a value leaves a freed entry in the list
      ([Faults.torn_put_fatal]); a list that cannot be made the value of the key is lost
      ([Faults.faulty_leaks]); [parse_file] uses null and out-of-scope pointers
      ([LogLevel.parse_file_broken], [parse_file_scope]); a long identity is cut inside
      an escape ([Json.identity_cut_breaks_json]); a message that is not JSON is printed
      among the entries ([Json.invalid_level_breaks_json]); a short write tears a line
      ([Api.mdclog_write_emits]); the flag of the monitor does not tell
      monitors apart ([Process.monitors_multiply]); the unlocked test of init_done and
      mdclog_lib_clean race with other threads ([Interleave.init_race_loses_identity],
      [lib_clean_race_uses_freed]), and so do two threads that read the file
      ([ParseRace.strtok_race]).

    ** Conventions

    A [char] is the integer C sees, -128 to 127; strings are lists of them.  [size_t]
    arithmetic wraps at 2^64 ([u64]); counters of type [int] that could overflow stop
    with [UndefinedBehaviour] ([int_incr]), and theorems bound the strings by
    [INT_MAX].  A pointer is null, an offset in a block, or a place in a string
    literal.  [plan] lists the outcomes of the coming allocations; when it is empty
    they succeed.  [sys_writes] lists the outcomes of the coming system calls [write];
    when it is empty they succeed; Threads.v, Faults.v and Process.v take it to be empty,
    Api.v does not.  Texts for the buffered streams ([sys_stdio]) are kept apart from the
    system calls, because the C library decides when they come out.  A severity or a
    level is any integer; the type of the code is an enumeration without negative values.
    Attribute objects occur in sequences of calls in the way of [Api.configure]:
    initialised, named, used and destroyed.

    Loops have fuel.  It is computed from the state where the loop starts (the number
    of characters up to the end of the block for strings, the number of blocks for
    lists, the number of prescribed outcomes for retries, the length of the file for
    lines), and the theorems that a function returns show that it is enough.

    ** What is not modelled

    - Interleaving inside a call or a round of a monitor, except for the configuration
      (Interleave.v) and the reading of the file (ParseRace.v); Process.v takes a call or
      a turn of a monitor as one step, so that its parsers do not overlap.
      The lists are thread-local and the heap's allocator is taken to be thread-safe.  The
      memory model is sequentially consistent.
    - Failing allocations in the functions of the configuration file and the monitor:
      Process.v assumes that memory does not run out (Faults.v does not, for the calls of
      the library), that the storage of the array in [parse_file] outlives its block
      ([parse_file_scope] is what happens otherwise) and that no file has a line without
      a token; single functions have theorems for these cases.  After a torn put Faults.v
      says what the next look at the key does, and nothing of the calls after it.
    - TEMP_FAILURE_RETRY is the macro of src/include/private/system.h, used where the
      C library has none of its own; glibc's, which the build of the repository gets,
      repeats after EINTR only.  [Api.mdclog_write_emits] speaks of EINTR only and holds
      of both.
    - select, inotify and strerror are parameters or inputs; pthread_create records the
      argument of the new thread and gives the results it is told to; stdio is a
      list of the messages given to it; format strings have the conversions of Libc.v.
    - The vendored googletest, the unit tests and their mock of write, packaging and
      documentation: no logic of the library. *)

From Stdlib Require Import Ascii ZArith Lia.
From stdpp Require Export base list gmap strings ssreflect.

#[export] Set Warnings "-rewrite-rw,-clear-no-such-hyp".
#[export] Set Default Goal Selector "!".
#[global] Open Scope Z_scope.

(** ** Definitions *)

Declare Scope mdclog_scope.
Delimit Scope mdclog_scope with mdclog.
#[global] Open Scope mdclog_scope.

(** A [char] is the integer C sees (on the supported platforms a signed 8-bit
    value); a C string is the list of its characters, without the zero. *)
Abbreviation char := Z (only parsing).
Abbreviation bytes := (list Z) (only parsing).

Definition NUL : char := 0.
Definition NL : char := 10.
Definition SPACE : char := 32.
Definition DQUOTE : char := 34.
Definition PERCENT : char := 37.
Definition COMMA : char := 44.
Definition SLASH : char := 47.
Definition COLON : char := 58.
Definition BACKSLASH : char := 92.
Definition LBRACE : char := 123.
Definition RBRACE : char := 125.

(** [lit s] is the C string literal with the characters of [s]. *)
Fixpoint lit (s : string) : list Z :=
  match s with
  | EmptyString => []
  | String a s' => Z.of_N (N_of_ascii a) :: lit s'
  end.

(** [qlit s] is the literal in which every apostrophe of [s] stands for a
    double quotation mark (no literal of the program has an apostrophe). *)
Definition qlit (s : string) : list Z :=
  (λ c, if c =? 39 then DQUOTE else c) <$> lit s.

(** Lengths of lists as integers, the way [size_t] and [int] values are
    written in the code. *)
Definition zlen {A} (l : list A) : Z := Z.of_nat (length l).

(** [size_t] is 64 bits wide and wraps; so does a conversion to it. *)
Definition u64 (z : Z) : Z := z mod 2 ^ 64.

(** Largest value of [int] on the supported platforms. *)
Definition INT_MAX : Z := 2147483647.

(** The errno values the library sets or tests. *)
Definition EINTR : Z := 4.
Definition EAGAIN : Z := 11.
Definition ENOMEM : Z := 12.
Definition EINVAL : Z := 22.

(** [holds cs o xs]: the cells [cs] hold the characters [xs] from index [o]
    on.  Cells are [None] while they have an indeterminate value. *)
Definition holds (cs : list (option Z)) (o : Z) (xs : list Z) : Prop :=
  0 ≤ o ∧ ∀ i x, xs !! i = Some x → cs !! (Z.to_nat o + i)%nat = Some (Some x).

(** [same_outside o n cs cs']: [cs'] differs from [cs] at most in the [n]
    cells from index [o] on. *)
Definition same_outside (o n : Z) (cs cs' : list (option Z)) : Prop :=
  length cs' = length cs ∧
  ∀ i : nat, (Z.of_nat i < o ∨ o + n ≤ Z.of_nat i) → cs' !! i = cs !! i.

(** [k] is the greatest number up to [n] with the property [P]. *)
Definition longest (P : nat → Prop) (n k : nat) : Prop :=
  (k ≤ n)%nat ∧ P k ∧ ∀ j, (k < j ≤ n)%nat → ¬ P j.

(** The longest prefix of a text whose characters satisfy [f], and the rest. *)
Fixpoint take_while (f : Z → bool) (s : list Z) : list Z :=
  match s with
  | [] => []
  | c :: s' => if f c then c :: take_while f s' else []
  end.

Fixpoint drop_while (f : Z → bool) (s : list Z) : list Z :=
  match s with
  | [] => []
  | c :: s' => if f c then drop_while f s' else s
  end.

#[global] Arguments u64 : simpl never.
#[global] Arguments zlen : simpl never.

(** ** Automation *)

Create HintDb mdclog.
Create Rewrite HintDb zlen.
Create Rewrite HintDb zlens.

(** [zsimp] normalises integer lengths. *)
#[export] Hint Rewrite @length_app @length_cons @length_nil @length_fmap
  @length_take @length_drop @length_insert @length_replicate : zlen.

Ltac zl := unfold zlen in *; autorewrite with zlen in *; cbn [length] in *; lia.

(** ** Lengths *)

Lemma zlen_nil {A} : zlen (@nil A) = 0.
Proof. done. Qed.

Lemma zlen_cons {A} (x : A) l : zlen (x :: l) = 1 + zlen l.
Proof. zl. Qed.

Lemma zlen_app {A} (k l : list A) : zlen (k ++ l) = zlen k + zlen l.
Proof. zl. Qed.

Lemma zlen_nonneg {A} (l : list A) : 0 ≤ zlen l.
Proof. zl. Qed.

Lemma zlen_fmap {A B} (f : A → B) l : zlen (f <$> l) = zlen l.
Proof. zl. Qed.

Lemma zlen_take {A} (n : nat) (l : list A) : zlen (take n l) = Z.min (Z.of_nat n) (zlen l).
Proof. zl. Qed.

Lemma zlen_zero {A} (l : list A) : zlen l = 0 → l = [].
Proof. destruct l; [done|zl]. Qed.

#[export] Hint Rewrite @zlen_nil @zlen_cons @zlen_app @zlen_fmap @zlen_take : zlens.
#[export] Hint Resolve zlen_nonneg : mdclog.

Lemma longest_iff (P Q : nat → Prop) n k :
  (∀ j, (j ≤ n)%nat → P j ↔ Q j) → longest P n k → longest Q n k.
Proof.
  intros Hpq (Hk & HP & Hmax). split_and!; [done|by apply Hpq|]. intros j Hj HQ. apply (Hmax j Hj). by apply Hpq; [lia|].
Qed.

Lemma list_filter_all {A} (P : A → Prop) `{!∀ x, Decision (P x)} (l : list A) :
  Forall P l → filter P l = l.
Proof. induction 1 as [|x l Hx _ IH]; [done|]. by rewrite filter_cons_True // IH. Qed.

(** ** Prefixes *)

Lemma take_drop_while (f : Z → bool) s : take_while f s ++ drop_while f s = s.
Proof. induction s as [|c s IH]; cbn; [done|]. destruct (f c); cbn; [by rewrite IH|done]. Qed.

Lemma drop_while_head (f : Z → bool) s c r : drop_while f s = c :: r → f c = false.
Proof. induction s as [|c' s IH]; cbn; [done|]. destruct (f c') eqn:Hf; [done|]. by intros [= -> _]. Qed.

(** ** Machine arithmetic *)

Lemma u64_small z : 0 ≤ z < 2 ^ 64 → u64 z = z.
Proof. apply Z.mod_small. Qed.

Lemma u64_range z : 0 ≤ u64 z < 2 ^ 64.
Proof. by apply Z.mod_pos_bound. Qed.

(** ** Windows of cells *)

Lemma holds_nil cs o : 0 ≤ o → holds cs o [].
Proof. done. Qed.

Lemma holds_app cs o xs ys :
  holds cs o (xs ++ ys) ↔ holds cs o xs ∧ holds cs (o + zlen xs) ys.
Proof.
  split.
  - intros [Ho H]; split; split; [done| | zl |].
    + intros i x Hi. by apply H, lookup_app_l_Some.
    + intros i x Hi. replace (Z.to_nat (o + zlen xs) + i)%nat
        with (Z.to_nat o + (length xs + i))%nat by zl.
      apply H. rewrite lookup_app_r; last lia. by replace (_ - _)%nat with i by lia.
  - intros [[Ho H1] [_ H2]]; split; [done|]. intros i x [Hi|[Hle Hi]]%lookup_app_Some.
    + by apply H1.
    + replace (Z.to_nat o + i)%nat
        with (Z.to_nat (o + zlen xs) + (i - length xs))%nat by zl. by apply H2.
Qed.

Lemma holds_single cs o c :
  0 ≤ o → cs !! Z.to_nat o = Some (Some c) → holds cs o [c].
Proof.
  intros Ho Hc; split; [done|]. intros [|i] x ?; simplify_eq/=.
  by rewrite Nat.add_0_r.
Qed.

Lemma holds_range cs o xs : holds cs o xs → xs ≠ [] → o + zlen xs ≤ zlen cs.
Proof.
  intros [Ho H] Hne. destruct xs as [|x xs _] using rev_ind; [done|].
  assert (Hl : cs !! (Z.to_nat o + length xs)%nat = Some (Some x)).
  { apply H. rewrite lookup_app_r; last lia. by rewrite Nat.sub_diag. }
  apply lookup_lt_Some in Hl. zl.
Qed.

Lemma holds_lookup cs o xs i x :
  holds cs o xs → xs !! i = Some x → cs !! Z.to_nat (o + Z.of_nat i) = Some (Some x).
Proof.
  intros [Ho H] Hi. replace (Z.to_nat _) with (Z.to_nat o + i)%nat by lia. by apply H.
Qed.

Lemma same_outside_refl o n cs : same_outside o n cs cs.
Proof. done. Qed.

Lemma same_outside_trans o n cs1 cs2 cs3 :
  same_outside o n cs1 cs2 → same_outside o n cs2 cs3 → same_outside o n cs1 cs3.
Proof.
  intros [Hl1 H1] [Hl2 H2]; split; [congruence|].
  intros i Hi. by rewrite H2 // H1.
Qed.

Lemma same_outside_weaken o n o' n' cs cs' :
  same_outside o n cs cs' → o' ≤ o → o + n ≤ o' + n' → same_outside o' n' cs cs'.
Proof. intros [Hl H] ??; split; [done|]. intros i Hi. apply H. lia. Qed.

Lemma same_outside_zlen o n cs cs' : same_outside o n cs cs' → zlen cs' = zlen cs.
Proof. intros [Hl _]. zl. Qed.

Lemma same_outside_insert cs o n i c :
  o ≤ i < o + n → 0 ≤ i → same_outside o n cs (<[Z.to_nat i := c]> cs).
Proof.
  intros Hi H0; split; [by rewrite length_insert|].
  intros j Hj. rewrite list_lookup_insert_ne //. lia.
Qed.

Lemma holds_frame cs cs' o n p xs :
  holds cs p xs → same_outside o n cs cs' → p + zlen xs ≤ o ∨ o + n ≤ p →
  holds cs' p xs.
Proof.
  intros [Hp H] [_ Hs] Hd; split; [done|]. intros i x Hi.
  rewrite Hs; first by apply H. apply lookup_lt_Some in Hi. zl.
Qed.

Lemma holds_insert cs o xs c i :
  holds cs o xs → i = o + zlen xs → i < zlen cs →
  holds (<[Z.to_nat i := Some c]> cs) o (xs ++ [c]).
Proof.
  intros Hh -> Hlt. pose proof Hh as [Ho _]. apply holds_app; split.
  - eapply holds_frame; [done| |left; reflexivity].
    apply (same_outside_insert _ _ 1); zl.
  - apply holds_single; [zl|]. apply list_lookup_insert_eq. zl.
Qed.

Lemma holds_unique cs o xs ys :
  holds cs o xs → holds cs o ys → length xs = length ys → xs = ys.
Proof.
  intros [_ H1] [_ H2] Hl. apply list_eq. intros i.
  destruct (xs !! i) as [x|] eqn:Hx, (ys !! i) as [y|] eqn:Hy; try done.
  - pose proof (H1 _ _ Hx). pose proof (H2 _ _ Hy). congruence.
  - apply lookup_lt_Some in Hx. apply lookup_ge_None in Hy. lia.
  - apply lookup_lt_Some in Hy. apply lookup_ge_None in Hx. lia.
Qed.

#[export] Hint Resolve same_outside_refl holds_nil : mdclog.
