(* ===== verification/World.v ===== *)
(** The state the library runs in and the monad its functions are written in.

    The state has the heap (a finite map from block identifiers to typed
    blocks, with a never reused next identifier, so a dangling pointer is never
    valid again), the outcome of the coming allocations, [errno], the statics of
    [mdc.c] and of [mdclog.c] and the part of the operating system the library
    talks to.  A computation ends with a result and a new state, or stops: by
    undefined behaviour, by running out of the fuel of a loop, by [abort], or by
    blocking on a lock its own thread holds. *)

From S2P Require Import Prelude.

(** ** Data *)

Abbreviation loc := positive (only parsing).
Abbreviation tid := positive (only parsing).

(** Pointers: null, an address in a heap block, or an address in a string
    literal (or another immutable string of the process image). *)
Inductive ptr :=
| Null
| Ptr (b : loc) (o : Z)
| Lit (s : list Z) (o : Z).

(** [struct mdc] of mdc.c. *)
Record mdc := Mdc {
  mdc_prev : ptr;
  mdc_next : ptr;
  mdc_key : ptr;
  mdc_value : ptr
}.

(** Heap blocks: character arrays, and the three structs that are allocated.
    [BList] is [struct mdclist] with its [head], [BAttr] is [struct mdclog_attr]
    with its [identity], [BAttrPtr] is a [mdclog_attr_t *] variable. *)
Inductive block :=
| BChars (cs : list (option Z))
| BMdc (n : mdc)
| BList (head : ptr)
| BAttr (identity : ptr)
| BAttrPtr (attr : ptr).

(** State of a [pthread_rwlock_t]. *)
Inductive rwlock :=
| Unlocked
| ReadLocked (readers : nat)
| WriteLocked.

(** The statics of mdc.c: whether [mdcpthreadkey] exists, and the value the key
    has in each thread. *)
Record tls_state := Tls {
  tls_key : bool;
  tls_values : gmap tid ptr
}.

(** The statics of mdclog.c. *)
Record config := Config {
  current_level : Z;
  init_done : Z;
  log_format_init_done : Z;
  identity : ptr;
  config_mutex : rwlock
}.

(** Outcome of one [write] system call: a byte count, or -1 with an errno. *)
Inductive write_outcome :=
| Written (n : Z)
| WriteError (e : Z).

(** The buffered streams of the C library. *)
Inductive stream := Stdout | Stderr.

(** What the library sees of the operating system and of libc's statics:
    [sys_stdout] are the [write]s to the standard output, [sys_stdio] the texts given
    to the buffered streams (when a text for the standard output gets there, and so its
    place between the [write]s, is up to the C library), [sys_creates] the results of the coming calls of
    [pthread_create] (when it is empty they succeed), [sys_threads] the arguments of
    the threads that were created. *)
Record sys := Sys {
  sys_progname : ptr;
  sys_env : gmap (list Z) (list Z);
  sys_files : gmap (list Z) (list Z);
  sys_time : Z * Z;
  sys_pid : Z;
  sys_key_create : bool;
  sys_stdout : list (list Z);
  sys_writes : list write_outcome;
  sys_strtok : ptr;
  sys_stdio : list (stream * list Z);
  sys_creates : list Z;
  sys_threads : list ptr
}.

Record world := World {
  heap : gmap loc block;
  next : loc;
  plan : list bool;
  errno : Z;
  self : tid;
  tls : tls_state;
  cfg : config;
  os : sys
}.

(** ** Updates *)

Definition with_heap (h : gmap loc block) (w : world) : world :=
  World h (next w) (plan w) (errno w) (self w) (tls w) (cfg w) (os w).
Definition with_next (n : loc) (w : world) : world :=
  World (heap w) n (plan w) (errno w) (self w) (tls w) (cfg w) (os w).
Definition with_plan (p : list bool) (w : world) : world :=
  World (heap w) (next w) p (errno w) (self w) (tls w) (cfg w) (os w).
Definition with_errno (e : Z) (w : world) : world :=
  World (heap w) (next w) (plan w) e (self w) (tls w) (cfg w) (os w).
Definition with_self (t : tid) (w : world) : world :=
  World (heap w) (next w) (plan w) (errno w) t (tls w) (cfg w) (os w).
Definition with_tls (t : tls_state) (w : world) : world :=
  World (heap w) (next w) (plan w) (errno w) (self w) t (cfg w) (os w).
Definition with_cfg (c : config) (w : world) : world :=
  World (heap w) (next w) (plan w) (errno w) (self w) (tls w) c (os w).
Definition with_os (s : sys) (w : world) : world :=
  World (heap w) (next w) (plan w) (errno w) (self w) (tls w) (cfg w) s.

Definition with_level (l : Z) (c : config) : config :=
  Config l (init_done c) (log_format_init_done c) (identity c) (config_mutex c).
Definition with_init_done (i : Z) (c : config) : config :=
  Config (current_level c) i (log_format_init_done c) (identity c) (config_mutex c).
Definition with_format_done (i : Z) (c : config) : config :=
  Config (current_level c) (init_done c) i (identity c) (config_mutex c).
Definition with_identity (p : ptr) (c : config) : config :=
  Config (current_level c) (init_done c) (log_format_init_done c) p (config_mutex c).
Definition with_mutex (m : rwlock) (c : config) : config :=
  Config (current_level c) (init_done c) (log_format_init_done c) (identity c) m.

Definition with_stdout (o : list (list Z)) (ws : list write_outcome) (s : sys) : sys :=
  Sys (sys_progname s) (sys_env s) (sys_files s) (sys_time s) (sys_pid s)
    (sys_key_create s) o ws (sys_strtok s) (sys_stdio s) (sys_creates s) (sys_threads s).
Definition with_strtok (p : ptr) (s : sys) : sys :=
  Sys (sys_progname s) (sys_env s) (sys_files s) (sys_time s) (sys_pid s)
    (sys_key_create s) (sys_stdout s) (sys_writes s) p (sys_stdio s) (sys_creates s) (sys_threads s).
Definition with_stdio (o : list (stream * list Z)) (s : sys) : sys :=
  Sys (sys_progname s) (sys_env s) (sys_files s) (sys_time s) (sys_pid s)
    (sys_key_create s) (sys_stdout s) (sys_writes s) (sys_strtok s) o (sys_creates s) (sys_threads s).
Definition with_files (f : gmap (list Z) (list Z)) (s : sys) : sys :=
  Sys (sys_progname s) (sys_env s) f (sys_time s) (sys_pid s)
    (sys_key_create s) (sys_stdout s) (sys_writes s) (sys_strtok s) (sys_stdio s) (sys_creates s) (sys_threads s).
Definition with_time (tv : Z * Z) (s : sys) : sys :=
  Sys (sys_progname s) (sys_env s) (sys_files s) tv (sys_pid s)
    (sys_key_create s) (sys_stdout s) (sys_writes s) (sys_strtok s) (sys_stdio s) (sys_creates s) (sys_threads s).

Definition with_threads (rs : list Z) (ts : list ptr) (s : sys) : sys :=
  Sys (sys_progname s) (sys_env s) (sys_files s) (sys_time s) (sys_pid s)
    (sys_key_create s) (sys_stdout s) (sys_writes s) (sys_strtok s) (sys_stdio s) rs ts.

(** A process at its start: nothing allocated, nothing set up, the default
    logging level, and every call to the system succeeding. *)
Definition boot (progname : ptr) : world :=
  World ∅ 1 [] 0 1 (Tls false ∅) (Config 1 0 0 Null Unlocked)
    (Sys progname ∅ ∅ (0, 0) 1 true [] [] Null [] [] []).

(** ** The monad *)

(** Why a computation does not return. *)
Inductive stop :=
| UndefinedBehaviour
| OutOfFuel
| Aborted
| Blocked.

Inductive result (A : Type) :=
| Ok (a : A) (w : world)
| Stop (s : stop).
Arguments Ok {A} a w.
Arguments Stop {A} s.

Definition M (A : Type) : Type := world → result A.

#[global] Instance M_ret : MRet M := λ A a w, Ok a w.
#[global] Instance M_bind : MBind M := λ A B k m w,
  match m w with
  | Ok a w' => k a w'
  | Stop s => Stop s
  end.

Definition stopped {A} (s : stop) : M A := λ _, Stop s.
Definition undefined {A} : M A := stopped UndefinedBehaviour.
Definition gets {A} (f : world → A) : M A := λ w, Ok (f w) w.
Definition modify (f : world → world) : M unit := λ w, Ok tt (f w).
Definition set_errno (e : Z) : M unit := modify (with_errno e).

(** [wp m w Q]: run in [w], the computation [m] returns a result and a state
    that satisfy [Q] (total correctness: it does not stop). *)
Definition wp {A} (m : M A) (w : world) (Q : A → world → Prop) : Prop :=
  match m w with
  | Ok a w' => Q a w'
  | Stop _ => False
  end.

(** ** Rules *)

Lemma wp_run {A} (m : M A) w Q : wp m w Q ↔ ∃ a w', m w = Ok a w' ∧ Q a w'.
Proof.
  rewrite /wp. destruct (m w) as [a w'|s]; [naive_solver|].
  split; [done|]. by intros (?&?&?&_).
Qed.

Lemma wp_eq {A} (m : M A) w (Q : A → world → Prop) a w' :
  m w = Ok a w' → Q a w' → wp m w Q.
Proof. by rewrite /wp => ->. Qed.

(** The result of a computation that is known exactly. *)
Lemma wp_exact {A} (m : M A) w (r : result A) : wp m w (λ a w', Ok a w' = r) → m w = r.
Proof. intros (a & w' & -> & ?)%wp_run. done. Qed.

Lemma wp_ret {A} (a : A) w (Q : A → world → Prop) : Q a w → wp (mret a) w Q.
Proof. done. Qed.

Lemma wp_bind {A B} (m : M A) (k : A → M B) w Q :
  wp m w (λ a w', wp (k a) w' Q) → wp (m ≫= k) w Q.
Proof. rewrite /wp /mbind /M_bind. by destruct (m w). Qed.

Lemma wp_bind_inv {A B} (m : M A) (k : A → M B) w Q :
  wp (m ≫= k) w Q → wp m w (λ a w', wp (k a) w' Q).
Proof. rewrite /wp /mbind /M_bind. by destruct (m w). Qed.

Lemma wp_mono {A} (m : M A) w (Q Q' : A → world → Prop) :
  wp m w Q → (∀ a w', Q a w' → Q' a w') → wp m w Q'.
Proof. rewrite /wp. destruct (m w); [eauto|done]. Qed.

Lemma wp_and {A} (m : M A) w (Q Q' : A → world → Prop) :
  wp m w Q → wp m w Q' → wp m w (λ a w', Q a w' ∧ Q' a w').
Proof. rewrite /wp. destruct (m w); by auto. Qed.

Lemma wp_gets {A} (f : world → A) w (Q : A → world → Prop) :
  Q (f w) w → wp (gets f) w Q.
Proof. done. Qed.

Lemma wp_modify f w (Q : unit → world → Prop) : Q tt (f w) → wp (modify f) w Q.
Proof. done. Qed.

Lemma wp_set_errno e w (Q : unit → world → Prop) :
  Q tt (with_errno e w) → wp (set_errno e) w Q.
Proof. done. Qed.

(** A computation that stops in its first part stops. *)
Lemma bind_stop {A B} (m : M A) (k : A → M B) w s :
  m w = Stop s → (m ≫= k) w = Stop s.
Proof. by rewrite /mbind /M_bind => ->. Qed.

Lemma bind_ok {A B} (m : M A) (k : A → M B) w a w' :
  m w = Ok a w' → (m ≫= k) w = k a w'.
Proof. by rewrite /mbind /M_bind => ->. Qed.

(** ** Automation *)

(** [step H] runs the first statement of the goal with the rule [H]; [steps]
    runs the statements that have a computation rule. *)
Tactic Notation "step" uconstr(H) := apply wp_bind; eapply H.

Ltac wp_pure :=
  lazymatch goal with
  | |- wp (_ ≫= _) _ _ => apply wp_bind; wp_pure
  | |- wp (mret _) _ _ => apply wp_ret; cbn beta
  | |- wp (gets _) _ _ => apply wp_gets; cbn beta
  | |- wp (modify _) _ _ => apply wp_modify; cbn beta
  | |- wp (set_errno _) _ _ => apply wp_set_errno; cbn beta
  end.
