(* ===== verification/Memory.v ===== *)
(** The memory operations of C on the heap of [World]: bounds-checked loads and
    stores of characters, loads and stores of structs, [malloc] and [free], and
    the contents of C strings.  Every access outside a live block, every read of
    an indeterminate value and every [free] of something that is not the start
    of a live block is undefined behaviour.  [supply] is a computation that draws the
    outcomes of allocations from the plan. *)

From S2P Require Import Prelude World.

(** ** Operations *)

Definition is_null (p : ptr) : bool :=
  match p with Null => true | _ => false end.

(** Pointer arithmetic, [p + i]. *)
Definition ptr_add (p : ptr) (i : Z) : ptr :=
  match p with
  | Null => Null
  | Ptr b o => Ptr b (o + i)
  | Lit s o => Lit s (o + i)
  end.
Infix "+ₚ" := ptr_add (at level 50, left associativity) : mdclog_scope.

(** Equality of pointers, as [==] on pointers to structs tests it. *)
Definition ptr_eqb (p q : ptr) : bool :=
  match p, q with
  | Null, Null => true
  | Ptr b o, Ptr b' o' => Pos.eqb b b' && (o =? o')
  | _, _ => false
  end.

(** The heap block a pointer points into. *)
Definition ptr_block (p : ptr) : option loc :=
  match p with Ptr b _ => Some b | _ => None end.

(** The cells from the target of [p] to the end of its block. *)
Definition cells_at (h : gmap loc block) (p : ptr) : option (list (option Z)) :=
  match p with
  | Null => None
  | Ptr b o =>
      match h !! b with
      | Some (BChars cs) =>
          if (0 <=? o) && (o <=? zlen cs) then Some (drop (Z.to_nat o) cs) else None
      | _ => None
      end
  | Lit s o =>
      if (0 <=? o) && (o <=? zlen s + 1) then Some (drop (Z.to_nat o) (Some <$> (s ++ [NUL])))
      else None
  end.

(** The characters up to the terminating zero. *)
Fixpoint until_nul (cs : list (option Z)) : option (list Z) :=
  match cs with
  | Some c :: cs' => if c =? NUL then Some [] else cons c <$> until_nul cs'
  | _ => None
  end.

(** The C string a pointer points to, if it points to one. *)
Definition get_cstr (h : gmap loc block) (p : ptr) : option (list Z) :=
  cells_at h p ≫= until_nul.

(** The first [n] characters or the characters up to the terminating zero. *)
Fixpoint until_nul_n (n : nat) (cs : list (option Z)) : option (list Z) :=
  match n, cs with
  | O, _ => Some []
  | S n', Some c :: cs' => if c =? NUL then Some [] else cons c <$> until_nul_n n' cs'
  | S _, _ => None
  end.

Definition get_cstr_n (h : gmap loc block) (n : nat) (p : ptr) : option (list Z) :=
  match n with
  | O => Some []
  | _ => cells_at h p ≫= until_nul_n n
  end.

(** [lift_option o]: the value, or undefined behaviour. *)
Definition lift_option {A} (o : option A) : M A :=
  match o with Some a => mret a | None => undefined end.

Definition read_cstr (p : ptr) : M (list Z) := λ w, lift_option (get_cstr (heap w) p) w.

(** [*p] of type [char]. *)
Definition load_char (p : ptr) : M Z := λ w,
  match cells_at (heap w) p with
  | Some (Some c :: _) => Ok c w
  | _ => Stop UndefinedBehaviour
  end.

(** [*p = c] of type [char]. *)
Definition store_char (p : ptr) (c : Z) : M unit := λ w,
  match p with
  | Ptr b o =>
      match heap w !! b with
      | Some (BChars cs) =>
          if (0 <=? o) && (o <? zlen cs)
          then Ok tt (with_heap (<[b := BChars (<[Z.to_nat o := Some c]> cs)]> (heap w)) w)
          else Stop UndefinedBehaviour
      | _ => Stop UndefinedBehaviour
      end
  | _ => Stop UndefinedBehaviour
  end.

(** Copying [xs] to [p], [p + 1], ... *)
Fixpoint store_chars (p : ptr) (xs : list Z) : M unit :=
  match xs with
  | [] => mret tt
  | x :: xs' => store_char p x ;; store_chars (p +ₚ 1) xs'
  end.

(** Number of characters that can be read from [p] on: the fuel of the loops
    that scan a string (a longer scan leaves the block). *)
Definition room (h : gmap loc block) (p : ptr) : nat :=
  match cells_at h p with Some cs => length cs | None => O end.

(** A whole block, addressed by the pointer to its start. *)
Definition get_block (h : gmap loc block) (p : ptr) : option block :=
  match p with
  | Ptr b 0 => h !! b
  | _ => None
  end.

Definition load_mdc (p : ptr) : M mdc := λ w,
  match get_block (heap w) p with
  | Some (BMdc n) => Ok n w
  | _ => Stop UndefinedBehaviour
  end.

Definition load_list (p : ptr) : M ptr := λ w,
  match get_block (heap w) p with
  | Some (BList head) => Ok head w
  | _ => Stop UndefinedBehaviour
  end.

Definition load_attr (p : ptr) : M ptr := λ w,
  match get_block (heap w) p with
  | Some (BAttr ident) => Ok ident w
  | _ => Stop UndefinedBehaviour
  end.

Definition load_attr_ptr (p : ptr) : M ptr := λ w,
  match get_block (heap w) p with
  | Some (BAttrPtr attr) => Ok attr w
  | _ => Stop UndefinedBehaviour
  end.

(** Overwriting the block [p] points to. *)
Definition put_block (p : ptr) (x : block) : M unit := λ w,
  match p with
  | Ptr b 0 => Ok tt (with_heap (<[b := x]> (heap w)) w)
  | _ => Stop UndefinedBehaviour
  end.

Definition store_mdc (p : ptr) (n : mdc) : M unit := load_mdc p ;; put_block p (BMdc n).
Definition store_list (p : ptr) (head : ptr) : M unit := load_list p ;; put_block p (BList head).
Definition store_attr (p : ptr) (ident : ptr) : M unit :=
  load_attr p ;; put_block p (BAttr ident).
Definition store_attr_ptr (p : ptr) (attr : ptr) : M unit :=
  load_attr_ptr p ;; put_block p (BAttrPtr attr).

(** A fresh block, without a check of the allocation plan (a local variable). *)
Definition alloc (x : block) : M ptr := λ w,
  Ok (Ptr (next w) 0)
     (with_next (Pos.succ (next w)) (with_heap (<[next w := x]> (heap w)) w)).

(** The next allocation succeeds. *)
Definition plan_ok (l : list bool) : bool := match l with [] => true | b :: _ => b end.

(** [malloc]: the head of the plan says whether it succeeds (an exhausted plan
    means it does); on failure it returns null and sets [errno]. *)
Definition malloc (x : block) : M ptr :=
  ok ← gets (λ w, plan_ok (plan w));
  modify (λ w, with_plan (tail (plan w)) w) ;;
  if (ok : bool) then alloc x else set_errno ENOMEM ;; mret Null.

(** [malloc(n)] used as a character buffer: [n] cells with indeterminate values. *)
Definition malloc_chars (n : Z) : M ptr := malloc (BChars (replicate (Z.to_nat n) None)).

(** [free]. *)
Definition free (p : ptr) : M unit := λ w,
  match p with
  | Null => Ok tt w
  | Ptr b 0 =>
      match heap w !! b with
      | Some _ => Ok tt (with_heap (delete b (heap w)) w)
      | None => Stop UndefinedBehaviour
      end
  | _ => Stop UndefinedBehaviour
  end.

(** A local array of [n] characters for the duration of [body]. *)
Definition with_local {A} (n : Z) (body : ptr → M A) : M A :=
  p ← alloc (BChars (replicate (Z.to_nat n) None));
  r ← body p;
  free p ;;
  mret r.

(** A string: characters that are not the terminating zero. *)
Definition is_str (s : list Z) : Prop := Forall (λ c, c ≠ NUL) s.

(** [s[i]], the terminating zero at the end included. *)
Definition str_at (s : list Z) (i : Z) : Z := default NUL (s !! Z.to_nat i).

(** The next [n] allocations succeed. *)
Definition allocs_ok (n : nat) (w : world) : Prop := Forall (λ b, b = true) (take n (plan w)).

(** State after a successful and after a failed allocation. *)
Definition alloc_world (x : block) (w : world) : world :=
  with_next (Pos.succ (next w)) (with_heap (<[next w := x]> (heap w)) w).
Definition malloc_world (x : block) (w : world) : world :=
  alloc_world x (with_plan (tail (plan w)) w).
Definition enomem_world (w : world) : world :=
  with_errno ENOMEM (with_plan (tail (plan w)) w).

(** What a function does may depend on the outcomes of its allocations.  [supply A] is
    a result that is computed from the outcomes to come, and those that are left;
    [draw] is the outcome of the next one. *)
Definition supply (A : Type) : Type := list bool → A * list bool.

#[global] Instance supply_ret : MRet supply := λ A a p, (a, p).
#[global] Instance supply_bind : MBind supply := λ A B k m p, let '(a, p') := m p in k a p'.

Definition draw : supply bool := λ p, (plan_ok p, tail p).

(** No block has an identifier that is still to be given out. *)
Definition wf_heap (w : world) : Prop := ∀ b, (next w ≤ b)%positive → heap w !! b = None.

(** [owns_step F w F' w']: going from [w] to [w'], code that owns the blocks [F]
    changed no other block that existed before, and [F'] is what is left alive
    of [F] and of the blocks allocated on the way: nothing else is leaked. *)
Record owns_step (F : gset loc) (w : world) (F' : gset loc) (w' : world) : Prop := {
  step_frame : ∀ b, b ∉ F → (b < next w)%positive → heap w' !! b = heap w !! b;
  step_owned : ∀ b, b ∈ F' ↔ (b ∈ F ∨ (next w ≤ b)%positive) ∧ is_Some (heap w' !! b);
  step_next : (next w ≤ next w')%positive;
  step_wf : wf_heap w'
}.

(** The parts of the state that are not memory are unchanged. *)
Definition same_statics (w w' : world) : Prop :=
  tls w' = tls w ∧ cfg w' = cfg w ∧ os w' = os w ∧ self w' = self w.

#[global] Arguments get_cstr : simpl never.
#[global] Arguments get_cstr_n : simpl never.
#[global] Arguments room : simpl never.
#[global] Arguments str_at : simpl never.

(** ** Strings *)

Lemma is_str_app s t : is_str (s ++ t) ↔ is_str s ∧ is_str t.
Proof. apply Forall_app. Qed.

Lemma is_str_take n s : is_str s → is_str (take n s).
Proof. apply Forall_take. Qed.

Lemma str_at_end s : str_at s (zlen s) = NUL.
Proof. rewrite /str_at lookup_ge_None_2 //. zl. Qed.

Lemma str_at_lookup s i c : s !! i = Some c → str_at s (Z.of_nat i) = c.
Proof. rewrite /str_at Nat2Z.id. by move=> ->. Qed.

Lemma str_at_app_r s t i : 0 ≤ i → str_at (s ++ t) (zlen s + i) = str_at t i.
Proof.
  intros. rewrite /str_at lookup_app_r; last zl.
  by replace (_ - _)%nat with (Z.to_nat i) by zl.
Qed.

Lemma str_at_head s c t : str_at (s ++ c :: t) (zlen s) = c.
Proof. rewrite -(Z.add_0_r (zlen s)) str_at_app_r //. Qed.

Lemma until_nul_nonzero cs s : until_nul cs = Some s → is_str s.
Proof.
  revert s. induction cs as [|[c|] cs IH]; intros s; cbn; [done| |done].
  destruct (Z.eqb_spec c NUL).
  - intros [= <-]. constructor.
  - destruct (until_nul cs) as [s'|]; cbn; [|done]. intros [= <-].
    constructor; [done|]. by apply IH.
Qed.

Lemma until_nul_str s r : is_str s → until_nul ((Some <$> s) ++ Some NUL :: r) = Some s.
Proof.
  induction 1 as [|c s Hc _ IH]; [done|]. cbn in *.
  destruct (Z.eqb_spec c NUL); [done|]. by rewrite IH.
Qed.

(** The cells a string occupies. *)
Lemma until_nul_cells cs s :
  until_nul cs = Some s → ∃ r, cs = (Some <$> s) ++ Some NUL :: r.
Proof.
  revert s. induction cs as [|[c|] cs IH]; intros s; cbn; [done| |done].
  destruct (Z.eqb_spec c NUL) as [->|].
  - intros [= <-]. by eexists.
  - destruct (until_nul cs) as [s'|]; cbn; [|done]. intros [= <-].
    destruct (IH s') as [r ->]; [done|]. by eexists.
Qed.

Lemma until_nul_n_str n s r :
  is_str s → until_nul_n n ((Some <$> s) ++ Some NUL :: r) = Some (take n s).
Proof.
  intros Hs. revert n. induction Hs as [|c s Hc _ IH]; intros [|n]; try done.
  cbn in *. destruct (Z.eqb_spec c NUL); [done|]. by rewrite IH.
Qed.

Lemma get_cstr_nonzero h p s : get_cstr h p = Some s → is_str s.
Proof.
  rewrite /get_cstr. destruct (cells_at h p); [|done]. apply until_nul_nonzero.
Qed.

Lemma get_cstr_cells h p s :
  get_cstr h p = Some s → ∃ r, cells_at h p = Some ((Some <$> s) ++ Some NUL :: r).
Proof.
  rewrite /get_cstr. destruct (cells_at h p) as [cs|]; [|done].
  intros [r ->]%until_nul_cells. by eexists.
Qed.

Lemma get_cstr_n_str h p n s :
  get_cstr h p = Some s → get_cstr_n h n p = Some (take n s).
Proof.
  intros Hp. pose proof (get_cstr_nonzero _ _ _ Hp) as Hs.
  destruct (get_cstr_cells _ _ _ Hp) as [r Hr]. destruct n as [|n]; [done|].
  rewrite /get_cstr_n Hr. by apply (until_nul_n_str (S n)).
Qed.

Lemma until_nul_n_nonzero n cs s : until_nul_n n cs = Some s → is_str s.
Proof.
  revert cs s. induction n as [|n IH]; intros cs s; [intros [= <-]; constructor|].
  destruct cs as [|[c|] cs]; cbn; [done| |done]. destruct (Z.eqb_spec c NUL).
  - intros [= <-]. constructor.
  - intros (t & Ht & ->)%fmap_Some. constructor; [done|]. by eapply IH.
Qed.

Lemma get_cstr_n_nonzero h n p s : get_cstr_n h n p = Some s → is_str s.
Proof.
  destruct n as [|n]; [intros [= <-]; constructor|]. rewrite /get_cstr_n.
  intros (cs & _ & Hc)%bind_Some. by eapply until_nul_n_nonzero.
Qed.

Lemma get_cstr_not_null h p s : get_cstr h p = Some s → is_null p = false.
Proof. by destruct p. Qed.

Lemma get_cstr_lit h s : is_str s → get_cstr h (Lit s 0) = Some s.
Proof.
  intros Hs. rewrite /get_cstr /cells_at. cbn [Z.leb].
  assert ((0 <=? zlen s + 1) = true) as -> by (pose proof (zlen_nonneg s); lia).
  cbn [andb option_bind mbind]. rewrite drop_0 fmap_app. by apply until_nul_str.
Qed.

Lemma cells_at_add h p i cs :
  cells_at h p = Some cs → 0 ≤ i ≤ zlen cs →
  cells_at h (p +ₚ i) = Some (drop (Z.to_nat i) cs).
Proof.
  intros Hp Hi. destruct p as [|b o|s o]; cbn in *; [done| |].
  - destruct (h !! b) as [[cs'| | | |]|]; try done.
    destruct (Z.leb_spec 0 o); [|done]. destruct (Z.leb_spec o (zlen cs')); [|done].
    cbn in *. simplify_eq. destruct (Z.leb_spec 0 (o + i)); [|lia].
    destruct (Z.leb_spec (o + i) (zlen cs')); [|zl].
    cbn. by rewrite drop_drop -Z2Nat.inj_add; try lia.
  - destruct (Z.leb_spec 0 o); [|done]. destruct (Z.leb_spec o (zlen s + 1)); [|done].
    cbn in *. simplify_eq. destruct (Z.leb_spec 0 (o + i)); [|lia].
    destruct (Z.leb_spec (o + i) (zlen s + 1)); [|zl].
    cbn. by rewrite drop_drop -Z2Nat.inj_add; try lia.
Qed.

Lemma get_cstr_add h p s i :
  get_cstr h p = Some s → 0 ≤ i ≤ zlen s →
  get_cstr h (p +ₚ i) = Some (drop (Z.to_nat i) s).
Proof.
  intros Hp Hi. pose proof (get_cstr_nonzero _ _ _ Hp) as Hs.
  destruct (get_cstr_cells _ _ _ Hp) as [r Hr].
  rewrite /get_cstr (cells_at_add _ _ _ _ Hr); last zl. cbn.
  rewrite drop_app_le; last zl. rewrite -fmap_drop until_nul_str //. by apply Forall_drop.
Qed.

Lemma cells_at_insert_ne h b x p :
  ptr_block p ≠ Some b → cells_at (<[b := x]> h) p = cells_at h p.
Proof.
  destruct p as [|b' o|s o]; cbn; [done| |done]. intros Hne.
  rewrite lookup_insert_ne //. congruence.
Qed.

Lemma cells_at_delete_ne h b p :
  ptr_block p ≠ Some b → cells_at (delete b h) p = cells_at h p.
Proof.
  destruct p as [|b' o|s o]; cbn; [done| |done]. intros Hne.
  rewrite lookup_delete_ne //. congruence.
Qed.

Lemma get_cstr_insert_ne h b x p :
  ptr_block p ≠ Some b → get_cstr (<[b := x]> h) p = get_cstr h p.
Proof. intros. by rewrite /get_cstr cells_at_insert_ne. Qed.

Lemma get_cstr_delete_ne h b p :
  ptr_block p ≠ Some b → get_cstr (delete b h) p = get_cstr h p.
Proof. intros. by rewrite /get_cstr cells_at_delete_ne. Qed.

Lemma get_cstr_live h b o s : get_cstr h (Ptr b o) = Some s → is_Some (h !! b).
Proof. rewrite /get_cstr /=. destruct (h !! b) as [[]|]; by eauto. Qed.

(** What the window predicate says of a string. *)
Lemma holds_cells cs o xs :
  holds cs o xs → o ≤ zlen cs → ∃ r, drop (Z.to_nat o) cs = (Some <$> xs) ++ r.
Proof.
  intros [Ho H] Hle. exists (drop (Z.to_nat o + length xs) cs).
  apply list_eq. intros i. rewrite lookup_drop lookup_app list_lookup_fmap.
  destruct (xs !! i) as [x|] eqn:Hx; cbn.
  - by apply H.
  - rewrite lookup_drop. f_equal. apply lookup_ge_None in Hx.
    rewrite length_fmap. lia.
Qed.

Lemma holds_all cs xs : holds cs 0 xs → zlen cs = zlen xs → cs = Some <$> xs.
Proof.
  intros Hh Hl. destruct (holds_cells _ _ _ Hh) as [r Hr]; [zl|]. rewrite drop_0 in Hr. subst cs.
  destruct r; [by rewrite app_nil_r|zl].
Qed.

Lemma get_cstr_holds h b cs o s :
  h !! b = Some (BChars cs) → holds cs o (s ++ [NUL]) → is_str s →
  get_cstr h (Ptr b o) = Some s.
Proof.
  intros Hb Hh Hs. pose proof (holds_range _ _ _ Hh ltac:(by destruct s)) as Hr.
  pose proof Hh as [Ho _]. rewrite /get_cstr /= Hb.
  destruct (Z.leb_spec 0 o); [|lia]. destruct (Z.leb_spec o (zlen cs)); [|zl]. cbn.
  destruct (holds_cells _ _ _ Hh) as [r ->]; [done|].
  rewrite fmap_app -assoc. by apply until_nul_str.
Qed.

Lemma holds_get_cstr h b cs o s :
  h !! b = Some (BChars cs) → get_cstr h (Ptr b o) = Some s → holds cs o (s ++ [NUL]).
Proof.
  rewrite /get_cstr /= => ->. destruct (Z.leb_spec 0 o); [|done].
  destruct (Z.leb_spec o (zlen cs)); [|done]. cbn.
  intros [r Hr]%until_nul_cells. split; [done|]. intros i x Hi.
  rewrite -lookup_drop Hr (app_assoc _ [Some NUL] r) -(fmap_app Some s [NUL]).
  rewrite lookup_app_l; last by (apply lookup_lt_Some in Hi; zl).
  by rewrite list_lookup_fmap Hi.
Qed.

(** ** Rules of the memory operations *)

Section rules.
Implicit Types (w : world).

Lemma wp_lift_option {A} (o : option A) a w (Q : A → world → Prop) :
  o = Some a → Q a w → wp (lift_option o) w Q.
Proof. by intros ->. Qed.

Lemma wp_read_cstr p s w (Q : list Z → world → Prop) :
  get_cstr (heap w) p = Some s → Q s w → wp (read_cstr p) w Q.
Proof. by rewrite /read_cstr /wp => ->. Qed.

Lemma wp_load_cstr p s i w (Q : Z → world → Prop) :
  get_cstr (heap w) p = Some s → 0 ≤ i ≤ zlen s → Q (str_at s i) w →
  wp (load_char (p +ₚ i)) w Q.
Proof.
  intros Hp Hi HQ. destruct (get_cstr_cells _ _ _ Hp) as [r Hr].
  rewrite /wp /load_char (cells_at_add _ _ _ _ Hr); last zl.
  rewrite drop_app_le; last zl. rewrite -fmap_drop /str_at in HQ |- *.
  destruct (s !! Z.to_nat i) as [c|] eqn:Hc.
  - by rewrite (drop_S _ _ _ Hc).
  - rewrite drop_ge; [done|by apply lookup_ge_None].
Qed.

Lemma wp_load_holds b cs o c w (Q : Z → world → Prop) :
  heap w !! b = Some (BChars cs) → holds cs o [c] → Q c w →
  wp (load_char (Ptr b o)) w Q.
Proof.
  intros Hb Hh HQ. pose proof (holds_range _ _ _ Hh ltac:(done)).
  pose proof Hh as [Ho _]. rewrite /wp /load_char /= Hb.
  destruct (Z.leb_spec 0 o); [|lia]. destruct (Z.leb_spec o (zlen cs)); [|zl]. cbn.
  destruct (holds_cells _ _ _ Hh) as [r ->]; [lia|done].
Qed.

Lemma wp_store_char b o c cs w (Q : unit → world → Prop) :
  heap w !! b = Some (BChars cs) → 0 ≤ o < zlen cs →
  Q tt (with_heap (<[b := BChars (<[Z.to_nat o := Some c]> cs)]> (heap w)) w) →
  wp (store_char (Ptr b o) c) w Q.
Proof.
  intros Hb Ho HQ. rewrite /wp /store_char Hb.
  destruct (Z.leb_spec 0 o); [|lia]. by destruct (Z.ltb_spec o (zlen cs)); [|lia].
Qed.

Lemma with_heap_id w : with_heap (heap w) w = w.
Proof. by destruct w. Qed.

Lemma wp_store_chars b o xs cs w (Q : unit → world → Prop) :
  heap w !! b = Some (BChars cs) → 0 ≤ o → o + zlen xs ≤ zlen cs →
  (∀ cs', holds cs' o xs → same_outside o (zlen xs) cs cs' →
     Q tt (with_heap (<[b := BChars cs']> (heap w)) w)) →
  wp (store_chars (Ptr b o) xs) w Q.
Proof.
  revert o cs w. induction xs as [|x xs IH]; intros o cs w Hb Ho Hle HQ; cbn.
  - apply wp_ret. specialize (HQ cs ltac:(done) ltac:(done)).
    by rewrite insert_id ?with_heap_id in HQ.
  - step wp_store_char; [done|zl|]. eapply IH; [apply lookup_insert_eq|lia|zl|].
    cbn. intros cs' Hh Hs. rewrite insert_insert_eq. apply HQ.
    + apply (holds_app _ _ [x]). split; [|done].
      eapply holds_frame; [|apply Hs|left; reflexivity].
      apply holds_single; [done|]. apply list_lookup_insert_eq. zl.
    + eapply same_outside_trans; first apply (same_outside_insert _ _ _ o (Some x)).
      * zl.
      * done.
      * eapply same_outside_weaken; [done|lia|zl].
Qed.

(** Appending a character to what a window of [n] cells holds. *)
Lemma wp_store_snoc b o n c xs cs w (Q : unit → world → Prop) :
  heap w !! b = Some (BChars cs) → holds cs o xs → zlen xs < n → o + n ≤ zlen cs →
  (∀ cs', same_outside o n cs cs' → holds cs' o (xs ++ [c]) →
     Q tt (with_heap (<[b := BChars cs']> (heap w)) w)) →
  wp (store_char (Ptr b (o + zlen xs)) c) w Q.
Proof.
  intros Hb Hh Hn Hle HQ. pose proof Hh as [Ho _].
  eapply wp_store_char; [done|zl|]. apply HQ.
  - apply same_outside_insert; zl.
  - by apply holds_insert; [|zl|zl].
Qed.

(** Making the window the empty string. *)
Lemma wp_store_nul b o n cs w (Q : unit → world → Prop) :
  heap w !! b = Some (BChars cs) → 0 ≤ o → 1 ≤ n → o + n ≤ zlen cs →
  (∀ cs', same_outside o n cs cs' → holds cs' o [NUL] →
     Q tt (with_heap (<[b := BChars cs']> (heap w)) w)) →
  wp (store_char (Ptr b o) NUL) w Q.
Proof.
  intros Hb Ho Hn Hle HQ. pose proof (wp_store_snoc b o n NUL [] cs w Q) as H.
  rewrite zlen_nil Z.add_0_r in H. apply H; [done|by apply holds_nil|lia|done|done].
Qed.

Lemma wp_alloc x w (Q : ptr → world → Prop) :
  Q (Ptr (next w) 0)
    (with_next (Pos.succ (next w)) (with_heap (<[next w := x]> (heap w)) w)) →
  wp (alloc x) w Q.
Proof. done. Qed.

Lemma wp_free_null w (Q : unit → world → Prop) : Q tt w → wp (free Null) w Q.
Proof. done. Qed.

Lemma wp_free b x w (Q : unit → world → Prop) :
  heap w !! b = Some x → Q tt (with_heap (delete b (heap w)) w) →
  wp (free (Ptr b 0)) w Q.
Proof. intros Hb HQ. by rewrite /wp /free Hb. Qed.

Lemma wp_load_mdc b n w (Q : mdc → world → Prop) :
  heap w !! b = Some (BMdc n) → Q n w → wp (load_mdc (Ptr b 0)) w Q.
Proof. intros Hb HQ. by rewrite /wp /load_mdc /= Hb. Qed.

Lemma wp_load_list b p w (Q : ptr → world → Prop) :
  heap w !! b = Some (BList p) → Q p w → wp (load_list (Ptr b 0)) w Q.
Proof. intros Hb HQ. by rewrite /wp /load_list /= Hb. Qed.

Lemma wp_load_attr b p w (Q : ptr → world → Prop) :
  heap w !! b = Some (BAttr p) → Q p w → wp (load_attr (Ptr b 0)) w Q.
Proof. intros Hb HQ. by rewrite /wp /load_attr /= Hb. Qed.

Lemma wp_load_attr_ptr b p w (Q : ptr → world → Prop) :
  heap w !! b = Some (BAttrPtr p) → Q p w → wp (load_attr_ptr (Ptr b 0)) w Q.
Proof. intros Hb HQ. by rewrite /wp /load_attr_ptr /= Hb. Qed.

Lemma wp_store_mdc b n n' w (Q : unit → world → Prop) :
  heap w !! b = Some (BMdc n) → Q tt (with_heap (<[b := BMdc n']> (heap w)) w) →
  wp (store_mdc (Ptr b 0) n') w Q.
Proof. intros Hb HQ. rewrite /store_mdc. step wp_load_mdc; done. Qed.

Lemma wp_store_list b p p' w (Q : unit → world → Prop) :
  heap w !! b = Some (BList p) → Q tt (with_heap (<[b := BList p']> (heap w)) w) →
  wp (store_list (Ptr b 0) p') w Q.
Proof. intros Hb HQ. rewrite /store_list. step wp_load_list; done. Qed.

Lemma wp_store_attr b p p' w (Q : unit → world → Prop) :
  heap w !! b = Some (BAttr p) → Q tt (with_heap (<[b := BAttr p']> (heap w)) w) →
  wp (store_attr (Ptr b 0) p') w Q.
Proof. intros Hb HQ. rewrite /store_attr. step wp_load_attr; done. Qed.

Lemma wp_store_attr_ptr b p p' w (Q : unit → world → Prop) :
  heap w !! b = Some (BAttrPtr p) → Q tt (with_heap (<[b := BAttrPtr p']> (heap w)) w) →
  wp (store_attr_ptr (Ptr b 0) p') w Q.
Proof. intros Hb HQ. rewrite /store_attr_ptr. step wp_load_attr_ptr; done. Qed.
End rules.

Lemma wp_with_local {A} n (body : ptr → M A) w (Q : A → world → Prop) :
  wp (body (Ptr (next w) 0)) (alloc_world (BChars (replicate (Z.to_nat n) None)) w)
    (λ r w', is_Some (heap w' !! next w) ∧ Q r (with_heap (delete (next w) (heap w')) w')) →
  wp (with_local n body) w Q.
Proof.
  intros H. rewrite /with_local. apply wp_bind. apply wp_alloc, wp_bind. eapply wp_mono; [exact H|].
  intros r w' [[x Hx] HQ]. cbn beta. apply wp_bind. eapply wp_free; [exact Hx|]. by apply wp_ret.
Qed.

(** ** Allocation *)

Section allocation.
Implicit Types (w : world).

Lemma wp_malloc x w (Q : ptr → world → Prop) :
  (plan_ok (plan w) = true → Q (Ptr (next w) 0) (malloc_world x w)) →
  (plan_ok (plan w) = false → Q Null (enomem_world w)) →
  wp (malloc x) w Q.
Proof.
  intros H1 H2. rewrite /malloc. do 2 wp_pure.
  destruct (plan_ok (plan w)); [by apply H1|by apply H2].
Qed.

Lemma draw_nil : draw [] = (true, []).
Proof. done. Qed.

Lemma supply_bind_eq {A B} (m : supply A) (k : A → supply B) p a p' :
  m p = (a, p') → (m ≫= k) p = k a p'.
Proof. by rewrite {1}/mbind /supply_bind => ->. Qed.

Lemma supply_bind_inv {A B} (m : supply A) (k : A → supply B) p b p' :
  (m ≫= k) p = (b, p') → ∃ a p1, m p = (a, p1) ∧ k a p1 = (b, p').
Proof. rewrite {1}/mbind /supply_bind. destruct (m p) as [a p1]. by exists a, p1. Qed.

(** The outcomes of computations of known length, when they all are good. *)
Lemma allocs_ok_draw n w : allocs_ok (S n) w →
  plan_ok (plan w) = true ∧ Forall (λ b, b = true) (take n (tail (plan w))).
Proof. rewrite /allocs_ok. destruct (plan w) as [|b l]; [by destruct n|]. cbn. by intros [-> ?]%Forall_cons. Qed.

Lemma wp_malloc_ok n x w (Q : ptr → world → Prop) :
  allocs_ok (S n) w →
  (allocs_ok n (malloc_world x w) → Q (Ptr (next w) 0) (malloc_world x w)) →
  wp (malloc x) w Q.
Proof.
  rewrite /allocs_ok => Hok HQ. apply wp_malloc.
  - intros _. apply HQ. cbn. destruct (plan w) as [|b l]; [by destruct n|].
    by inversion Hok.
  - destruct (plan w) as [|b l]; cbn in *; [done|]. by inversion Hok; subst.
Qed.

Lemma wp_malloc_fail x w (Q : ptr → world → Prop) :
  plan_ok (plan w) = false → Q Null (enomem_world w) → wp (malloc x) w Q.
Proof. intros Hp HQ. apply wp_malloc; [congruence|done]. Qed.

Lemma allocs_ok_nil n w : plan w = [] → allocs_ok n w.
Proof. rewrite /allocs_ok => ->. by destruct n. Qed.

Lemma allocs_ok_le n m w : allocs_ok n w → (m ≤ n)%nat → allocs_ok m w.
Proof.
  rewrite /allocs_ok => H Hle. replace m with (m `min` n)%nat by lia.
  rewrite -take_take. by apply Forall_take.
Qed.

Lemma allocs_ok_plan n w w' : plan w' = plan w → allocs_ok n w → allocs_ok n w'.
Proof. by rewrite /allocs_ok => ->. Qed.

Lemma wf_heap_fresh w : wf_heap w → heap w !! next w = None.
Proof. intros H. apply H. lia. Qed.

Lemma wf_heap_lt w b x : wf_heap w → heap w !! b = Some x → (b < next w)%positive.
Proof.
  intros Hw Hb. destruct (decide (b < next w)%positive); [done|].
  rewrite Hw in Hb; [done|lia].
Qed.

Lemma wf_heap_ne w b x : wf_heap w → heap w !! b = Some x → b ≠ next w.
Proof. intros Hw Hb. pose proof (wf_heap_lt _ _ _ Hw Hb). lia. Qed.

Lemma wf_heap_alloc x w : wf_heap w → wf_heap (alloc_world x w).
Proof. intros Hw b Hb. cbn in *. rewrite lookup_insert_ne; [apply Hw|]; lia. Qed.

Lemma wf_heap_insert b x y w :
  wf_heap w → heap w !! b = Some y → wf_heap (with_heap (<[b := x]> (heap w)) w).
Proof.
  intros Hw Hb b' Hb'. cbn in *. rewrite lookup_insert_ne; [by apply Hw|].
  intros ->. rewrite Hw in Hb; done.
Qed.

Lemma wf_heap_delete b w :
  wf_heap w → wf_heap (with_heap (delete b (heap w)) w).
Proof. intros Hw b' Hb'. cbn in *. apply lookup_delete_None. right. by apply Hw. Qed.
End allocation.

#[export] Hint Resolve wf_heap_alloc wf_heap_insert wf_heap_delete : mdclog.

(** ** Footprints *)

Section footprints.
Implicit Types (w : world) (F G : gset loc).

Lemma owns_step_refl F w :
  wf_heap w → (∀ b, b ∈ F → is_Some (heap w !! b)) → owns_step F w F w.
Proof.
  intros Hw HF. split; [done| |lia|done]. intros b. split; [by auto|].
  intros [[Hb|Hb] [x Hx]]; [done|]. by rewrite Hw in Hx.
Qed.

Lemma owns_step_trans F w F1 w1 F2 w2 :
  owns_step F w F1 w1 → owns_step F1 w1 F2 w2 → owns_step F w F2 w2.
Proof.
  intros [Ha1 Ho1 Hn1 _] [Ha2 Ho2 Hn2 Hw2]. split; [| |lia|done].
  - intros b Hb Hlt. rewrite Ha2; [by apply Ha1| |lia].
    intros [[?|?] _]%Ho1; [done|lia].
  - intros b. rewrite Ho2. split.
    + intros [[[? _]%Ho1|?] ?]; (split; [|done]); [done|right; lia].
    + intros [Hb Hs]. split; [|done].
      destruct (decide (b ∈ F1)) as [|Hnb]; [by left|right].
      destruct (decide (b < next w1)%positive); [|lia].
      rewrite Ha2 // in Hs. destruct Hnb. by apply Ho1.
Qed.

(** Blocks that are not used stay owned. *)
Lemma owns_step_frame F w F' w' G :
  owns_step F w F' w' → wf_heap w → F ## G →
  (∀ b, b ∈ G → is_Some (heap w !! b)) → owns_step (F ∪ G) w (F' ∪ G) w'.
Proof.
  intros [Ha Ho Hn Hw'] Hw Hd HG. split; [|intros b; split|done|done].
  - intros b Hb. apply Ha. set_solver.
  - intros [Hb|Hb]%elem_of_union.
    + apply Ho in Hb. set_solver.
    + pose proof (HG _ Hb) as [x Hx]. split; [set_solver|].
      rewrite Ha; [by eauto|set_solver|by eapply wf_heap_lt].
  - intros [Hb Hs]. apply elem_of_union. destruct (decide (b ∈ G)); [by right|left].
    apply Ho. set_solver.
Qed.

Lemma owns_step_alloc x w : wf_heap w → owns_step ∅ w {[next w]} (alloc_world x w).
Proof.
  intros Hw. split; cbn; [| |lia|by apply wf_heap_alloc].
  - intros b _ Hb. rewrite lookup_insert_ne //. lia.
  - intros b. rewrite elem_of_singleton. split.
    + intros ->. rewrite lookup_insert_eq. split; [right; lia|done].
    + intros [[?|Hb] Hs]; [set_solver|]. destruct (decide (b = next w)); [done|].
      destruct Hs as [y' Hy]. by rewrite lookup_insert_ne // Hw in Hy.
Qed.

Lemma owns_step_delete b w :
  wf_heap w → (b < next w)%positive →
  owns_step {[b]} w ∅ (with_heap (delete b (heap w)) w).
Proof.
  intros Hw Hb. split; cbn; [| |lia|by apply wf_heap_delete].
  - intros b' Hb' _. rewrite lookup_delete_ne //. set_solver.
  - intros b'. split; [set_solver|]. intros [[->%elem_of_singleton|Hb'] Hs].
    + rewrite lookup_delete_eq in Hs. by destruct Hs.
    + destruct Hs as [y Hy]. rewrite lookup_delete_ne ?Hw // in Hy; lia.
Qed.

Lemma owns_step_insert b x y w :
  wf_heap w → heap w !! b = Some y →
  owns_step {[b]} w {[b]} (with_heap (<[b := x]> (heap w)) w).
Proof.
  intros Hw Hb. split; cbn; [| |lia|by eapply wf_heap_insert].
  - intros b' Hb' _. rewrite lookup_insert_ne //. set_solver.
  - intros b'. rewrite elem_of_singleton. split.
    + intros ->. rewrite lookup_insert_eq. by auto.
    + intros [[->|Hb'] Hs]; [done|]. destruct (decide (b = b')); [done|].
      destruct Hs as [y' Hy]. by rewrite lookup_insert_ne // Hw in Hy.
Qed.

(** Extending a footprint by one more operation. *)
Lemma owns_step_same F w F' w1 w2 :
  owns_step F w F' w1 → heap w2 = heap w1 → next w2 = next w1 → owns_step F w F' w2.
Proof.
  intros [Ha Ho Hn Hw] Hh Hx. split.
  - intros b. rewrite Hh. apply Ha.
  - intros b. rewrite Hh. apply Ho.
  - by rewrite Hx.
  - intros b. rewrite Hh Hx. apply Hw.
Qed.

Lemma owns_step_bulk F w F1 w1 F2 h :
  owns_step F w F1 w1 → (∀ b, b ∉ F1 → h !! b = heap w1 !! b) → F2 ⊆ F1 →
  (∀ b, b ∈ F1 → (b ∈ F2) ↔ is_Some (h !! b)) → owns_step F w F2 (with_heap h w1).
Proof.
  intros H Hout Hsub Hin. eapply owns_step_trans; [done|]. pose proof (step_wf _ _ _ _ H) as Hw.
  assert (Hf : ∀ b, (next w1 ≤ b)%positive → (b ∉ F1) ∧ h !! b = None).
  { intros b Hb. assert (Hb1 : b ∉ F1).
    { intros [_ [x Hx]]%(step_owned _ _ _ _ H). by rewrite Hw in Hx. }
    split; [done|]. rewrite Hout // Hw //. }
  split; cbn [heap with_heap next]; [by intros b Hb _; apply Hout| |lia|].
  - intros b. split.
    + intros Hb. pose proof (Hsub _ Hb). split; [by left|]. by apply Hin.
    + intros [[Hb|Hb] Hs]; [by apply Hin|]. destruct (Hf b Hb) as [_ E].
      rewrite E in Hs. by destruct Hs.
  - intros b Hb. by apply Hf.
Qed.

Lemma owns_step_store F w F' w1 b x :
  owns_step F w F' w1 → b ∈ F' → owns_step F w F' (with_heap (<[b := x]> (heap w1)) w1).
Proof.
  intros H Hb. eapply owns_step_bulk; [done| |done|].
  - intros b' Hb'. apply lookup_insert_ne. by intros ->.
  - intros b' Hb'. split; [|done]. intros _. apply lookup_insert_is_Some'.
    right. by apply (step_owned _ _ _ _ H).
Qed.

Lemma owns_step_free F w F' w1 b :
  owns_step F w F' w1 → b ∈ F' →
  owns_step F w (F' ∖ {[b]}) (with_heap (delete b (heap w1)) w1).
Proof.
  intros H Hb. eapply owns_step_bulk; [done| |set_solver|].
  - intros b' Hb'. apply lookup_delete_ne. by intros ->.
  - intros b' Hb'. rewrite elem_of_difference elem_of_singleton lookup_delete_is_Some.
    pose proof (proj1 (step_owned _ _ _ _ H _) Hb') as [_ ?].
    split; [intros [_ ?]; by split|intros [? _]; by split].
Qed.

Lemma owns_step_malloc F w F' w1 x :
  owns_step F w F' w1 → owns_step F w ({[next w1]} ∪ F') (malloc_world x w1).
Proof.
  intros H. pose proof (step_wf _ _ _ _ H) as Hw. eapply owns_step_trans; [done|].
  pose proof (owns_step_alloc x (with_plan (tail (plan w1)) w1) Hw) as Ha.
  pose proof (owns_step_frame _ _ _ _ F' Ha Hw) as Hfr. rewrite left_id_L in Hfr.
  destruct Hfr as [H1 H2 H3 H4]; [set_solver| |by split].
  intros b Hb. by apply (step_owned _ _ _ _ H).
Qed.

Lemma owns_step_live F w F' w' b :
  owns_step F w F' w' → b ∈ F' → is_Some (heap w' !! b).
Proof. intros H Hb. by apply (step_owned _ _ _ _ H) in Hb as [_ ?]. Qed.

(** Identifiers may be skipped. *)
Lemma owns_step_next F w F' w1 w2 :
  owns_step F w F' w1 → heap w2 = heap w1 → (next w1 ≤ next w2)%positive → owns_step F w F' w2.
Proof.
  intros [Ha Ho Hn Hw] Hh Hx. split.
  - intros b. rewrite Hh. apply Ha.
  - intros b. rewrite Hh. apply Ho.
  - lia.
  - intros b Hb. rewrite Hh. apply Hw. lia.
Qed.

Lemma owns_step_alloc_more F w F' w1 x :
  owns_step F w F' w1 → owns_step F w (F' ∪ {[next w1]}) (alloc_world x w1).
Proof.
  intros H. pose proof (owns_step_malloc _ _ _ _ x H) as Hm. rewrite (union_comm_L F').
  by eapply owns_step_same.
Qed.

Lemma owns_step_lt F w F' w' b : owns_step F w F' w' → b ∈ F' → (b < next w')%positive.
Proof.
  intros H Hb. destruct (owns_step_live _ _ _ _ _ H Hb) as [x Hx].
  eapply wf_heap_lt; [apply (step_wf _ _ _ _ H)|done].
Qed.
End footprints.

(** [p] does not point into the blocks [F]. *)
Definition outside (F : gset loc) (p : ptr) : Prop := ∀ b, ptr_block p = Some b → b ∉ F.

(** Strings outside the footprint keep their contents. *)
Lemma get_cstr_step F w F' w' p s :
  owns_step F w F' w' → wf_heap w → outside F p →
  get_cstr (heap w) p = Some s → get_cstr (heap w') p = Some s.
Proof.
  intros H Hw Hp Hs. destruct p as [|b o|t o]; [done| |done].
  destruct (get_cstr_live _ _ _ _ Hs) as [x Hx].
  rewrite -Hs /get_cstr /cells_at (step_frame _ _ _ _ H b) //; [by apply Hp|].
  by eapply wf_heap_lt.
Qed.

Lemma outside_step F w F' w' p s :
  owns_step F w F' w' → wf_heap w → outside F p → get_cstr (heap w) p = Some s →
  outside F' p.
Proof.
  intros H Hw Hp Hs b Hb. destruct p as [|b' o|t o]; cbn in Hb; simplify_eq.
  destruct (get_cstr_live _ _ _ _ Hs) as [x Hx]. pose proof (wf_heap_lt _ _ _ Hw Hx).
  intros [[?|?] _]%(step_owned _ _ _ _ H); [by eapply Hp|lia].
Qed.

Lemma outside_lit F s o : outside F (Lit s o).
Proof. by intros b Hb. Qed.

#[export] Hint Resolve outside_lit : mdclog.

Lemma same_statics_refl w : same_statics w w.
Proof. done. Qed.

Lemma same_statics_trans w1 w2 w3 :
  same_statics w1 w2 → same_statics w2 w3 → same_statics w1 w3.
Proof. rewrite /same_statics. intuition congruence. Qed.

#[export] Hint Resolve same_statics_refl : mdclog.
