(* ===== verification/Libc.v ===== *)
(** The functions of the C standard library that the program calls, as the
    standard documents them: character classes, the string functions, and the
    [printf] family for the conversions the program uses ([%s], [%.*s], [%d],
    [%llu], [%%]).  A format with another conversion has no meaning here, so
    nothing is claimed of a call that uses one. *)

From S2P Require Import Prelude World Memory.

(** ** Characters and strings *)

(** [isprint] in the C locale (false for every negative [char]). *)
Definition isprint (c : Z) : bool := (32 <=? c) && (c <=? 126).

(** [tolower] in the C locale. *)
Definition tolower (c : Z) : Z := if (65 <=? c) && (c <=? 90) then c + 32 else c.

Definition strlen (p : ptr) : M Z := s ← read_cstr p; mret (zlen s).

(** [strcmp] and [strcasecmp], as far as the test for 0 goes. *)
Definition strcmp (p q : ptr) : M Z :=
  s ← read_cstr p; t ← read_cstr q; mret (if decide (s = t) then 0 else 1).
Definition strcasecmp (p q : ptr) : M Z :=
  s ← read_cstr p; t ← read_cstr q;
  mret (if decide (tolower <$> s = tolower <$> t) then 0 else 1).

Definition strdup (p : ptr) : M ptr :=
  s ← read_cstr p;
  q ← malloc_chars (zlen s + 1);
  if is_null q then mret Null
  else store_chars q (s ++ [NUL]) ;; mret q.

(** ** Decimal numbers *)

Fixpoint dec_digits (fuel : nat) (n : Z) : list Z :=
  match fuel with
  | O => []
  | S fuel' => if n <? 10 then [48 + n] else dec_digits fuel' (n / 10) ++ [48 + n mod 10]
  end.

(** The decimal representation of [n >= 0], and of any [n] with its sign. *)
Definition dec (n : Z) : list Z := dec_digits (S (Z.to_nat (Z.log2 n))) n.
Definition dec_signed (n : Z) : list Z := if n <? 0 then 45 :: dec (- n) else dec n.

(** The number a string of digits denotes. *)
Definition undec (s : list Z) : Z := foldl (λ a c, 10 * a + (c - 48)) 0 s.

Definition isdigit (c : Z) : bool := (48 <=? c) && (c <=? 57).

(** ** The printf family *)

(** Arguments after the format: a [char *], an [int], an [unsigned long long]. *)
Inductive arg :=
| AStr (p : ptr)
| AInt (n : Z)
| AULL (n : Z).

Inductive directive :=
| DChar (c : Z)
| DStr
| DStrN
| DInt
| DULL.

Fixpoint parse_format (f : list Z) : option (list directive) :=
  match f with
  | [] => Some []
  | c :: f =>
      if c =? PERCENT then
        match f with
        | [] => None
        | d :: f =>
            if d =? 115 then cons DStr <$> parse_format f
            else if d =? 100 then cons DInt <$> parse_format f
            else if d =? PERCENT then cons (DChar PERCENT) <$> parse_format f
            else
              match f with
              | e1 :: e2 :: f =>
                  if (d =? 46) && (e1 =? 42) && (e2 =? 115)
                  then cons DStrN <$> parse_format f
                  else if (d =? 108) && (e1 =? 108) && (e2 =? 117)
                  then cons DULL <$> parse_format f
                  else None
              | _ => None
              end
        end
      else cons (DChar c) <$> parse_format f
  end.

Fixpoint render (h : gmap loc block) (ds : list directive) (args : list arg)
  : option (list Z) :=
  match ds, args with
  | [], _ => Some []
  | DChar c :: ds, _ => cons c <$> render h ds args
  | DStr :: ds, AStr p :: args => s ← get_cstr h p; app s <$> render h ds args
  | DStrN :: ds, AInt n :: AStr p :: args =>
      s ← (if n <? 0 then get_cstr h p else get_cstr_n h (Z.to_nat n) p);
      app s <$> render h ds args
  | DInt :: ds, AInt n :: args => app (dec_signed n) <$> render h ds args
  | DULL :: ds, AULL n :: args => app (dec n) <$> render h ds args
  | _, _ => None
  end.

(** The characters a format and its arguments expand to. *)
Definition vformat (h : gmap loc block) (f : list Z) (args : list arg) : option (list Z) :=
  ds ← parse_format f; render h ds args.

Definition expand (format : ptr) (args : list arg) : M (list Z) :=
  f ← read_cstr format;
  h ← gets heap;
  lift_option (vformat h f args).

Definition EOVERFLOW : Z := 75.

(** What the functions return: the number of characters, or -1 with [errno] set
    when an [int] cannot hold it. *)
Definition printf_result (out : list Z) : M Z :=
  if zlen out <=? INT_MAX then mret (zlen out) else set_errno EOVERFLOW ;; mret (-1).

Definition vsnprintf (s : ptr) (n : Z) (format : ptr) (args : list arg) : M Z :=
  out ← expand format args;
  (if n =? 0 then mret tt else store_chars s (take (Z.to_nat (n - 1)) out ++ [NUL])) ;;
  printf_result out.

Definition snprintf (s : ptr) (n : Z) (format : ptr) (args : list arg) : M Z :=
  vsnprintf s n format args.

Definition sprintf (s : ptr) (format : ptr) (args : list arg) : M Z :=
  out ← expand format args;
  store_chars s (out ++ [NUL]) ;;
  printf_result out.

(** A string as it is stored in a block of exactly its size. *)
Definition cstr_block (s : list Z) : block := BChars (Some <$> (s ++ [NUL])).

#[global] Arguments dec : simpl never.
#[global] Arguments vformat : simpl never.

(** ** Rules of the string functions *)

Section rules.
Implicit Types (w : world).

Lemma get_cstr_block h b s : h !! b = Some (cstr_block s) → is_str s → get_cstr h (Ptr b 0) = Some s.
Proof.
  intros Hb Hs. eapply get_cstr_holds; [done| |done]. split; [done|]. intros i x Hi.
  by rewrite list_lookup_fmap Hi.
Qed.

Lemma wp_strlen p s w (Q : Z → world → Prop) :
  get_cstr (heap w) p = Some s → Q (zlen s) w → wp (strlen p) w Q.
Proof. intros Hs HQ. rewrite /strlen. by step wp_read_cstr. Qed.

Lemma wp_strcmp p q s t w (Q : Z → world → Prop) :
  get_cstr (heap w) p = Some s → get_cstr (heap w) q = Some t →
  Q (if decide (s = t) then 0 else 1) w → wp (strcmp p q) w Q.
Proof. intros Hs Ht HQ. rewrite /strcmp. step wp_read_cstr; [done|]. by step wp_read_cstr. Qed.

Lemma wp_strcasecmp p q s t w (Q : Z → world → Prop) :
  get_cstr (heap w) p = Some s → get_cstr (heap w) q = Some t →
  Q (if decide (tolower <$> s = tolower <$> t) then 0 else 1) w → wp (strcasecmp p q) w Q.
Proof.
  intros Hs Ht HQ. rewrite /strcasecmp. step wp_read_cstr; [done|]. by step wp_read_cstr.
Qed.

(** Filling a block that has just been allocated. *)
Lemma wp_fill_block xs w w0 (Q : unit → world → Prop) :
  w = malloc_world (BChars (replicate (length xs) None)) w0 →
  Q tt (malloc_world (BChars (Some <$> xs)) w0) →
  wp (store_chars (Ptr (next w0) 0) xs) w Q.
Proof.
  intros -> HQ. eapply wp_store_chars; [apply lookup_insert_eq|done|zl|].
  intros cs' Hh Hs. cbn. rewrite insert_insert_eq.
  rewrite (holds_all cs' xs) //. apply same_outside_zlen in Hs. zl.
Qed.

Lemma wp_strdup p s w (Q : ptr → world → Prop) :
  get_cstr (heap w) p = Some s →
  (plan_ok (plan w) = true → Q (Ptr (next w) 0) (malloc_world (cstr_block s) w)) →
  (plan_ok (plan w) = false → Q Null (enomem_world w)) →
  wp (strdup p) w Q.
Proof.
  intros Hs H1 H2. rewrite /strdup. step wp_read_cstr; [done|].
  step wp_malloc; [|by intros; apply wp_ret, H2]. intros Hp. cbn [is_null].
  step (wp_fill_block (s ++ [NUL])); [f_equal; f_equal; f_equal; zl|].
  by apply wp_ret, H1.
Qed.

Lemma wp_strdup_ok n p s w (Q : ptr → world → Prop) :
  get_cstr (heap w) p = Some s → allocs_ok (S n) w →
  (allocs_ok n (malloc_world (cstr_block s) w) →
   Q (Ptr (next w) 0) (malloc_world (cstr_block s) w)) →
  wp (strdup p) w Q.
Proof.
  intros Hs Hok HQ. rewrite /strdup. step wp_read_cstr; [done|].
  step (wp_malloc_ok n); [done|]. intros Hok'. cbn [is_null].
  step (wp_fill_block (s ++ [NUL])); [f_equal; f_equal; f_equal; zl|].
  by apply wp_ret, HQ.
Qed.
End rules.

(** ** Decimal numbers *)

Section decimal.
Implicit Types (n : Z) (fuel : nat).

Lemma dec_fuel_div n : 10 ≤ n → (Z.to_nat (Z.log2 (n / 10)) < Z.to_nat (Z.log2 n))%nat.
Proof.
  intros Hn. pose proof (Z.div_pos n 10 ltac:(lia) ltac:(lia)).
  assert (Z.log2 (n / 10) < Z.log2 n); [|pose proof (Z.log2_nonneg (n / 10)); lia].
  assert (Hle : Z.log2 (n / 10) ≤ Z.log2 (n / 2)).
  { apply Z.log2_le_mono, Z.div_le_compat_l; lia. }
  change (n / 2) with (n / 2 ^ 1) in Hle.
  rewrite -Z.shiftr_div_pow2 // Z.log2_shiftr in Hle; last lia.
  pose proof (Z.log2_pos n ltac:(lia)). lia.
Qed.

(** Induction along the recursion of [dec_digits], with enough fuel. *)
Lemma dec_digits_ind (P : Z → list Z → Prop) :
  (∀ n, 0 ≤ n < 10 → P n [48 + n]) →
  (∀ n l, 10 ≤ n → P (n / 10) l → P n (l ++ [48 + n mod 10])) →
  ∀ n, 0 ≤ n → P n (dec n).
Proof.
  intros H1 H2 n Hn. rewrite /dec.
  assert (Hf : ∀ fuel n, 0 ≤ n → (Z.to_nat (Z.log2 n) < fuel)%nat → P n (dec_digits fuel n)).
  { clear n Hn. induction fuel as [|fuel IH]; intros n Hn Hf; [lia|]. cbn [dec_digits].
    destruct (Z.ltb_spec n 10); [by apply H1|].
    apply H2; [done|]. apply IH; [by apply Z.div_pos|].
    pose proof (dec_fuel_div n). lia. }
  apply Hf; [done|lia].
Qed.

Lemma dec_isdigit n : 0 ≤ n → Forall (λ c, isdigit c = true) (dec n).
Proof.
  revert n. apply (dec_digits_ind (λ _ l, Forall (λ c, isdigit c = true) l)).
  - intros n Hn. repeat constructor. rewrite /isdigit. lia.
  - intros n l Hn Hl. apply Forall_app. split; [done|].
    repeat constructor. pose proof (Z.mod_pos_bound n 10). rewrite /isdigit. lia.
Qed.

Lemma undec_dec n : 0 ≤ n → undec (dec n) = n.
Proof.
  revert n. apply (dec_digits_ind (λ n l, undec l = n)); rewrite /undec.
  - intros n Hn. cbn. lia.
  - intros n l Hn Hl. rewrite foldl_app Hl. cbn.
    pose proof (Z.div_mod n 10). lia.
Qed.

(** No leading zeros. *)
Lemma dec_head n : 0 ≤ n → ∃ c l, dec n = c :: l ∧ (0 < n → c ≠ 48).
Proof.
  revert n. apply (dec_digits_ind (λ n l, ∃ c l', l = c :: l' ∧ (0 < n → c ≠ 48))).
  - intros n Hn. eexists _, _. split; [done|lia].
  - intros n l Hn (c & l' & -> & Hc). eexists _, _. split; [done|].
    intros _. apply Hc, Z.div_str_pos. lia.
Qed.

Lemma dec_len n k : 0 ≤ n < 10 ^ k → 1 ≤ k → zlen (dec n) ≤ k.
Proof.
  intros [Hn Hk]. revert k Hk. revert n Hn.
  apply (dec_digits_ind (λ n l, ∀ k, n < 10 ^ k → 1 ≤ k → zlen l ≤ k)).
  - intros n Hn k Hk H1. zl.
  - intros n l Hn IH k Hk H1. destruct (decide (k = 1)) as [->|]; [lia|].
    specialize (IH (k - 1)).
    assert (n / 10 < 10 ^ (k - 1)); [|zl].
    apply Z.div_lt_upper_bound; [lia|]. by rewrite -Z.pow_succ_r ?Z.sub_1_r ?Z.succ_pred; last lia.
Qed.

Lemma isdigit_nonzero c : isdigit c = true → c ≠ NUL.
Proof. rewrite /isdigit /NUL. lia. Qed.

Lemma dec_is_str n : 0 ≤ n → is_str (dec n).
Proof. intros Hn. eapply Forall_impl; [by apply dec_isdigit|]. apply isdigit_nonzero. Qed.

Lemma dec_signed_is_str n : is_str (dec_signed n).
Proof.
  rewrite /dec_signed. destruct (Z.ltb_spec n 0); [constructor; [done|]|]; apply dec_is_str; lia.
Qed.
End decimal.

(** ** Rules of the printf family *)

Section printf.
Implicit Types (w : world).

Lemma render_is_str h ds args out :
  Forall (λ d, d ≠ DChar NUL) ds → Forall (λ a, if a is AULL n then 0 ≤ n else True) args →
  render h ds args = Some out → is_str out.
Proof.
  intros Hds. revert args out.
  induction Hds as [|d ds Hd _ IH]; intros args out Ha; cbn; [by intros [= <-]; constructor|].
  assert (Hcons : ∀ t args', Forall (λ a, if a is AULL n then 0 ≤ n else True) args' →
    is_str t → app t <$> render h ds args' = Some out → is_str out).
  { intros t args' Ha' Ht (r & Hr & ->)%fmap_Some. apply is_str_app.
    split; [done|]. by eapply IH. }
  destruct d as [c| | | |].
  - apply (Hcons [c]); [done|]. constructor; [congruence|constructor].
  - destruct Ha as [|[p|n|n] args Hx Ha]; try done.
    intros (s & Hs & Hr)%bind_Some. eapply Hcons; [| |done]; [done|].
    by eapply get_cstr_nonzero.
  - destruct Ha as [|[p|n|n] args Hx Ha]; try done.
    destruct Ha as [|[p|n'|n'] args Hx' Ha]; try done.
    intros (s & Hs & Hr)%bind_Some. eapply Hcons; [| |done]; [done|].
    destruct (n <? 0); [by eapply get_cstr_nonzero|by eapply get_cstr_n_nonzero].
  - destruct Ha as [|[p|n|n] args Hx Ha]; try done.
    apply Hcons; [done|apply dec_signed_is_str].
  - destruct Ha as [|[p|n|n] args Hx Ha]; try done.
    apply Hcons; [done|by apply dec_is_str].
Qed.

Lemma wp_expand format args f out w (Q : list Z → world → Prop) :
  get_cstr (heap w) format = Some f → vformat (heap w) f args = Some out →
  Q out w → wp (expand format args) w Q.
Proof.
  intros Hf Ho HQ. rewrite /expand. step wp_read_cstr; [done|]. wp_pure.
  by rewrite Ho; apply wp_ret.
Qed.

Lemma wp_printf_result out w (Q : Z → world → Prop) :
  zlen out ≤ INT_MAX → Q (zlen out) w → wp (printf_result out) w Q.
Proof.
  intros Hl HQ. rewrite /printf_result.
  by destruct (Z.leb_spec (zlen out) INT_MAX); [apply wp_ret|lia].
Qed.

(** Writing at most [n] characters, the terminating zero included. *)
Lemma wp_vsnprintf b o n format args f out cs w (Q : Z → world → Prop) :
  heap w !! b = Some (BChars cs) → 0 ≤ o → 0 ≤ n → o + n ≤ zlen cs →
  get_cstr (heap w) format = Some f → vformat (heap w) f args = Some out →
  zlen out ≤ INT_MAX →
  (∀ cs', same_outside o n cs cs' →
     (0 < n → holds cs' o (take (Z.to_nat (n - 1)) out ++ [NUL])) →
     Q (zlen out) (with_heap (<[b := BChars cs']> (heap w)) w)) →
  wp (vsnprintf (Ptr b o) n format args) w Q.
Proof.
  intros Hb Ho Hn Hle Hf Hout Hmax HQ. rewrite /vsnprintf. step wp_expand; [done..|].
  destruct (Z.eqb_spec n 0) as [->|].
  - wp_pure. apply wp_printf_result; [done|].
    specialize (HQ cs ltac:(done)). rewrite insert_id // with_heap_id in HQ. apply HQ. lia.
  - step wp_store_chars; [done|done|zl|]. intros cs' Hh Hs.
    apply wp_printf_result; [done|]. apply HQ; [|done].
    eapply same_outside_weaken; [done|lia|zl].
Qed.

Lemma wp_sprintf b o format args f out cs w (Q : Z → world → Prop) :
  heap w !! b = Some (BChars cs) → 0 ≤ o → o + zlen out + 1 ≤ zlen cs →
  get_cstr (heap w) format = Some f → vformat (heap w) f args = Some out →
  zlen out ≤ INT_MAX →
  (∀ cs', same_outside o (zlen out + 1) cs cs' → holds cs' o (out ++ [NUL]) →
     Q (zlen out) (with_heap (<[b := BChars cs']> (heap w)) w)) →
  wp (sprintf (Ptr b o) format args) w Q.
Proof.
  intros Hb Ho Hle Hf Hout Hmax HQ. rewrite /sprintf. step wp_expand; [done..|].
  step wp_store_chars; [done|done|zl|]. intros cs' Hh Hs.
  apply wp_printf_result; [done|]. apply HQ; [|done].
  eapply same_outside_weaken; [done|lia|zl].
Qed.
End printf.

(** ** Formats in a changed heap *)

(** An argument that does not point into the blocks [F]; an unsigned one is not
    negative. *)
Definition arg_ok (F : gset positive) (a : arg) : Prop :=
  match a with
  | AStr p => outside F p
  | AInt _ => True
  | AULL n => 0 ≤ n
  end.

Section frame.
Context (h h' : gmap positive block) (F : gset positive).
Context (Hagree : ∀ b', b' ∉ F → is_Some (h !! b') → h' !! b' = h !! b').

Lemma cells_at_agree p cs : outside F p → cells_at h p = Some cs → cells_at h' p = Some cs.
Proof.
  destruct p as [|b' o|s o]; cbn; [done| |done]. intros Hne.
  destruct (h !! b') as [x|] eqn:Hb'; [|done]. rewrite Hagree ?Hb'; [done|by apply Hne|by eauto].
Qed.

Lemma get_cstr_agree p s : outside F p → get_cstr h p = Some s → get_cstr h' p = Some s.
Proof.
  rewrite /get_cstr. intros Hne (cs & Hcs & Hs)%bind_Some. by rewrite (cells_at_agree p cs).
Qed.

Lemma get_cstr_n_agree n p s :
  outside F p → get_cstr_n h n p = Some s → get_cstr_n h' n p = Some s.
Proof.
  destruct n as [|n]; [done|]. rewrite /get_cstr_n. intros Hne (cs & Hcs & Hs)%bind_Some.
  by rewrite (cells_at_agree p cs).
Qed.

Lemma render_agree ds args out :
  Forall (arg_ok F) args → render h ds args = Some out → render h' ds args = Some out.
Proof.
  intros Ha. revert args Ha out. induction ds as [|d ds IH]; intros args Ha out; [done|].
  destruct d as [c| | | |]; cbn.
  - intros (r & Hr & ->)%fmap_Some. by erewrite IH.
  - destruct Ha as [|[p|n|n] args Hp Ha]; try done. intros (s & Hs & (r & Hr & ->)%fmap_Some)%bind_Some.
    rewrite (get_cstr_agree p s) //=. by erewrite IH.
  - destruct Ha as [|[p|n|n] args Hp Ha]; try done. destruct Ha as [|[p|n'|n'] args Hp' Ha]; try done.
    intros (s & Hs & (r & Hr & ->)%fmap_Some)%bind_Some.
    assert ((if n <? 0 then get_cstr h' p else get_cstr_n h' (Z.to_nat n) p) = Some s) as ->.
    { destruct (n <? 0); [by apply get_cstr_agree|by apply get_cstr_n_agree]. }
    cbn. by erewrite IH.
  - destruct Ha as [|[p|n|n] args Hp Ha]; try done. intros (r & Hr & ->)%fmap_Some. by erewrite IH.
  - destruct Ha as [|[p|n|n] args Hp Ha]; try done. intros (r & Hr & ->)%fmap_Some. by erewrite IH.
Qed.
End frame.

Lemma parse_format_chars f ds :
  is_str f → parse_format f = Some ds → Forall (λ d, d ≠ DChar NUL) ds.
Proof.
  remember (length f) as n eqn:Hn. assert (Hle : (length f ≤ n)%nat) by lia. clear Hn.
  revert f ds Hle. induction n as [|n IH]; intros f ds Hle Hf; [destruct f; cbn in *; [|lia]; intros; simplify_eq; constructor|].
  destruct Hf as [|c f Hc Hf]; cbn in *; [intros; simplify_eq; constructor|].
  assert (Hcons : ∀ d f, (length f ≤ n)%nat → is_str f → d ≠ DChar NUL → ∀ ds,
    cons d <$> parse_format f = Some ds → Forall (λ d, d ≠ DChar NUL) ds).
  { intros d f' Hl Hf' Hd ds' (r & Hr & ->)%fmap_Some. constructor; [done|]. by eapply IH. }
  destruct (c =? PERCENT); [|apply Hcons; [lia|done|congruence]].
  destruct Hf as [|d f Hd Hf]; [done|]. cbn in *.
  destruct (d =? 115); [by apply Hcons; [lia|..]|]. destruct (d =? 100); [by apply Hcons; [lia|..]|].
  destruct (d =? PERCENT); [by apply Hcons; [lia|..]|].
  destruct Hf as [|e1 f He1 Hf]; [done|]. destruct Hf as [|e2 f He2 Hf]; [done|]. cbn in *.
  destruct (_ && _ && _); [by apply Hcons; [lia|..]|].
  destruct (_ && _ && _); [by apply Hcons; [lia|..]|done].
Qed.

Lemma vformat_is_str h F f args out :
  is_str f → Forall (arg_ok F) args → vformat h f args = Some out → is_str out.
Proof.
  intros Hf Ha (ds & Hds & Hr)%bind_Some. eapply render_is_str; [by eapply parse_format_chars| |done].
  eapply Forall_impl; [done|]. by intros [].
Qed.
