(* ===== verification/Escape.v ===== *)
(** The escaping functions of src/json_format.c: [mdclog_internal_escape],
    [mdclog_internal_deescape], [mdclog_internal_escaped_size] and
    [mdclog_internal_contains_special_characters], with the pure functions on
    strings that specify them. *)

From S2P Require Import Prelude World Memory Libc.

(** ** The code *)

Definition REPLACEMENT_CHAR : Z := SPACE.

(** The test for a backslash or a double quotation mark. *)
Definition needs_escape (c : Z) : bool := (c =? BACKSLASH) || (c =? DQUOTE).

(** The loop of [mdclog_internal_escape]; its result is the final [s] and [d]. *)
Fixpoint escape_loop (fuel : nat) (buffer : ptr) (len : Z) (str : ptr) (s d : Z) : M (Z * Z) :=
  match fuel with
  | O => stopped OutOfFuel
  | S fuel' =>
      if d <? u64 (len - 1) then
        c ← load_char (str +ₚ s);
        if c =? NUL then mret (s, d)
        else
          d ← (if needs_escape c then store_char (buffer +ₚ d) BACKSLASH ;; mret (d + 1)
               else mret d);
          c ← load_char (str +ₚ s);
          store_char (buffer +ₚ d) (if isprint c then c else REPLACEMENT_CHAR) ;;
          escape_loop fuel' buffer len str (s + 1) (d + 1)
      else mret (s, d)
  end.

(** The result is the return value and [*truncated] (a caller that passes a null
    [truncated] drops the second component). *)
Definition mdclog_internal_escape (buffer : ptr) (len : Z) (str : ptr) : M (Z * Z) :=
  fuel ← gets (λ w, S (room (heap w) str));
  '(s, d) ← escape_loop fuel buffer len str 0 0;
  if d =? len then
    store_char (buffer +ₚ (u64 (len - 2))) NUL ;;
    mret (u64 (len - 2), 1)
  else
    store_char (buffer +ₚ d) NUL ;;
    c ← load_char (str +ₚ s);
    mret (d, if c =? NUL then 0 else 1).

Fixpoint deescape_loop (fuel : nat) (buffer : ptr) (len : Z) (str : ptr) (s d : Z)
  : M (option Z) :=
  match fuel with
  | O => stopped OutOfFuel
  | S fuel' =>
      if d <? u64 (len - 1) then
        c ← load_char (str +ₚ s);
        if c =? NUL then mret (Some d)
        else if c =? BACKSLASH then
          c' ← load_char (str +ₚ (s + 1));
          if needs_escape c' then
            store_char (buffer +ₚ d) c' ;;
            deescape_loop fuel' buffer len str (s + 2) (d + 1)
          else
            store_char buffer NUL ;;
            mret None
        else
          store_char (buffer +ₚ d) c ;;
          deescape_loop fuel' buffer len str (s + 1) (d + 1)
      else mret (Some d)
  end.

(** The loop gives [None] for the early [return 0] of an invalid escape. *)
Definition mdclog_internal_deescape (buffer : ptr) (len : Z) (str : ptr) : M Z :=
  fuel ← gets (λ w, S (room (heap w) str));
  r ← deescape_loop fuel buffer len str 0 0;
  match r with
  | None => mret 0
  | Some d => store_char (buffer +ₚ d) NUL ;; mret d
  end.

Fixpoint escaped_size_loop (fuel : nat) (str : ptr) (i len : Z) : M Z :=
  match fuel with
  | O => stopped OutOfFuel
  | S fuel' =>
      c ← load_char (str +ₚ i);
      if c =? NUL then mret len
      else
        let len := if needs_escape c then u64 (len + 1) else len in
        escaped_size_loop fuel' str (i + 1) (u64 (len + 1))
  end.

Definition mdclog_internal_escaped_size (str : ptr) : M Z :=
  fuel ← gets (λ w, S (room (heap w) str));
  len ← escaped_size_loop fuel str 0 0;
  mret (u64 (len + 1)).

(** [i++] on an [int]: overflow is undefined. *)
Definition int_incr (i : Z) : M Z := if i <? INT_MAX then mret (i + 1) else undefined.

Fixpoint contains_special_loop (fuel : nat) (str : ptr) (i : Z) : M Z :=
  match fuel with
  | O => stopped OutOfFuel
  | S fuel' =>
      c ← load_char (str +ₚ i);
      if c =? NUL then mret 0
      else if negb (isprint c) || (c =? BACKSLASH) || (c =? DQUOTE) then mret 1
      else i ← int_incr i; contains_special_loop fuel' str i
  end.

Definition mdclog_internal_contains_special_characters (str : ptr) : M Z :=
  fuel ← gets (λ w, S (room (heap w) str));
  contains_special_loop fuel str 0.

(** ** Specification *)

(** What one character is escaped to. *)
Definition esc_char (c : Z) : list Z :=
  if needs_escape c then [BACKSLASH; c] else [if isprint c then c else REPLACEMENT_CHAR].

(** The escaped string. *)
Definition esc (s : list Z) : list Z := s ≫= esc_char.

(** The escape of the longest prefix of [s] whose escape has at most [n]
    characters, and the rest of [s]. *)
Fixpoint esc_take (n : Z) (s : list Z) : list Z :=
  match s with
  | [] => []
  | c :: s' =>
      if zlen (esc_char c) <=? n
      then esc_char c ++ esc_take (n - zlen (esc_char c)) s'
      else []
  end.

Fixpoint esc_rest (n : Z) (s : list Z) : list Z :=
  match s with
  | [] => []
  | c :: s' =>
      if zlen (esc_char c) <=? n then esc_rest (n - zlen (esc_char c)) s' else s
  end.

(** The inverse of [esc] on its image: [None] for an invalid escape. *)
Fixpoint deesc (s : list Z) : option (list Z) :=
  match s with
  | [] => Some []
  | c :: s' =>
      if c =? BACKSLASH then
        match s' with
        | c' :: s'' => if needs_escape c' then cons c' <$> deesc s'' else None
        | [] => None
        end
      else cons c <$> deesc s'
  end.

(** The first [n] characters of what [s] de-escapes to; an invalid escape among
    the characters read is an error. *)
Fixpoint deesc_upto (n : nat) (s : list Z) : option (list Z) :=
  match n, s with
  | O, _ | _, [] => Some []
  | S n', c :: s' =>
      if c =? BACKSLASH then
        match s' with
        | c' :: s'' => if needs_escape c' then cons c' <$> deesc_upto n' s'' else None
        | [] => None
        end
      else cons c <$> deesc_upto n' s'
  end.

(** [sanitize s]: [s] with every non-printable character replaced. *)
Definition sanitize (s : list Z) : list Z :=
  (λ c, if isprint c then c else REPLACEMENT_CHAR) <$> s.

(** A character the escape function would change, and a string with one. *)
Definition special (c : Z) : bool := negb (isprint c) || needs_escape c.
Definition has_special (s : list Z) : bool := existsb special s.

#[global] Arguments esc : simpl never.
#[global] Arguments esc_char : simpl never.

(** ** Lemmas on the specification *)

Section spec.
Implicit Types (s t : list Z) (c n : Z).

Lemma esc_char_len c : 1 ≤ zlen (esc_char c) ≤ 2.
Proof. rewrite /esc_char. destruct (needs_escape c); zl. Qed.

Lemma esc_cons c s : esc (c :: s) = esc_char c ++ esc s.
Proof. done. Qed.

Lemma esc_app s t : esc (s ++ t) = esc s ++ esc t.
Proof. apply bind_app. Qed.

Lemma esc_len_ge s : zlen s ≤ zlen (esc s).
Proof.
  induction s as [|c s IH]; [done|]. pose proof (esc_char_len c).
  rewrite esc_cons. zl.
Qed.

Lemma esc_len_le s : zlen (esc s) ≤ 2 * zlen s.
Proof. induction s as [|c s IH]; [done|]. pose proof (esc_char_len c). rewrite esc_cons. zl. Qed.

Lemma needs_escape_isprint c : needs_escape c = true → isprint c = true.
Proof. rewrite /needs_escape /isprint /BACKSLASH /DQUOTE. lia. Qed.

Lemma needs_escape_nonzero c : needs_escape c = true → c ≠ NUL.
Proof. rewrite /needs_escape /NUL /BACKSLASH /DQUOTE. lia. Qed.

Lemma isprint_nonzero c : isprint c = true → c ≠ NUL.
Proof. rewrite /isprint /NUL. lia. Qed.

Lemma isprint_replacement c : isprint (if isprint c then c else REPLACEMENT_CHAR) = true.
Proof. by destruct (isprint c) eqn:E; rewrite ?E. Qed.

Lemma esc_char_print c : Forall (λ x, isprint x = true) (esc_char c).
Proof.
  rewrite /esc_char. destruct (needs_escape c) eqn:E.
  - repeat constructor. by apply needs_escape_isprint.
  - repeat constructor. apply isprint_replacement.
Qed.

Lemma esc_print s : Forall (λ x, isprint x = true) (esc s).
Proof.
  induction s as [|c s IH]; [constructor|]. rewrite esc_cons.
  apply Forall_app. split; [apply esc_char_print|done].
Qed.

Lemma print_is_str s : Forall (λ x, isprint x = true) s → is_str s.
Proof. intros H. eapply Forall_impl; [done|]. apply isprint_nonzero. Qed.

Lemma esc_is_str s : is_str (esc s).
Proof. apply print_is_str, esc_print. Qed.

(** [esc_take] is the escape of a prefix; [esc_rest] is what follows it. *)
Lemma esc_take_rest n s : ∃ k, s = take k s ++ esc_rest n s ∧ esc_take n s = esc (take k s).
Proof.
  revert n. induction s as [|c s IH]; intros n; cbn; [by exists O|].
  destruct (Z.leb_spec (zlen (esc_char c)) n).
  - destruct (IH (n - zlen (esc_char c))) as (k & Hs & Ht). exists (S k).
    cbn [take app]. rewrite esc_cons -Ht -Hs. done.
  - by exists O.
Qed.

Lemma esc_split n s : esc s = esc_take n s ++ esc (esc_rest n s).
Proof. destruct (esc_take_rest n s) as (k & Hs & ->). by rewrite {1}Hs esc_app. Qed.

Lemma esc_take_len n s : 0 ≤ n → zlen (esc_take n s) ≤ n.
Proof.
  revert n. induction s as [|c s IH]; intros n Hn; cbn; [done|].
  destruct (Z.leb_spec (zlen (esc_char c)) n); [|done].
  pose proof (IH (n - zlen (esc_char c)) ltac:(lia)). zl.
Qed.

(** It is the longest one: the next character does not fit. *)
Lemma esc_rest_stop n s c t :
  esc_rest n s = c :: t → n < zlen (esc_take n s) + zlen (esc_char c).
Proof.
  revert n. induction s as [|d s IH]; intros n; cbn; [done|].
  destruct (Z.leb_spec (zlen (esc_char d)) n).
  - intros Hr%IH. zl.
  - intros [= -> ->]. zl.
Qed.

Lemma esc_rest_nil n s : 0 ≤ n → esc_rest n s = [] ↔ zlen (esc s) ≤ n.
Proof.
  intros Hn. rewrite (esc_split n s). split.
  - intros ->. rewrite app_nil_r. by apply esc_take_len.
  - destruct (esc_rest n s) as [|c t] eqn:Hr; [done|].
    pose proof (esc_rest_stop _ _ _ _ Hr). rewrite esc_cons. zl.
Qed.

(** The truncation flag of the escape function. *)
Lemma truncated_flag n s :
  0 ≤ n → is_str s →
  (if str_at (esc_rest n s) 0 =? NUL then 0 else 1) = (if zlen (esc s) <=? n then 0 else 1).
Proof.
  intros Hn Hs. pose proof (esc_rest_nil n s Hn) as Hnil.
  destruct (esc_take_rest n s) as (k & Hk & _). rewrite Hk in Hs.
  apply is_str_app in Hs as [_ Hr].
  destruct (esc_rest n s) as [|c r]; destruct (Z.leb_spec (zlen (esc s)) n) as [Hle|Hgt].
  - done.
  - by pose proof (proj1 Hnil eq_refl); lia.
  - by apply Hnil in Hle.
  - apply Forall_cons in Hr as [Hc _]. change (str_at (c :: r) 0) with c.
    by destruct (Z.eqb_spec c NUL).
Qed.

Lemma esc_take_all n s : 0 ≤ n → zlen (esc s) ≤ n → esc_take n s = esc s.
Proof.
  intros Hn Hs. rewrite (esc_split n s).
  by rewrite (proj2 (esc_rest_nil n s Hn) Hs) app_nil_r.
Qed.

(** What does not fit any more does not matter. *)
Lemma esc_take_app_stop n s t :
  (∀ c t', t = c :: t' → n < zlen (esc s) + zlen (esc_char c)) →
  esc_take n (s ++ t) = esc_take n s.
Proof.
  revert n. induction s as [|c s IH]; intros n Ht; cbn [app esc_take].
  - destruct t as [|c t]; [done|]. cbn [esc_take]. specialize (Ht c t eq_refl).
    change (esc []) with (@nil Z) in Ht. rewrite zlen_nil in Ht.
    by destruct (Z.leb_spec (zlen (esc_char c)) n); [lia|].
  - destruct (zlen (esc_char c) <=? n); [|done]. rewrite IH; [done|].
    intros c' t' ->. specialize (Ht c' t' eq_refl). rewrite esc_cons zlen_app in Ht. lia.
Qed.

Lemma esc_take_take (n m : Z) s : n ≤ m → esc_take n (take (Z.to_nat m) s) = esc_take n s.
Proof.
  intros Hnm. rewrite -{2}(take_drop (Z.to_nat m) s). symmetry. apply esc_take_app_stop.
  intros c t Hd. assert (Hl : length (drop (Z.to_nat m) s) ≠ 0%nat) by by rewrite Hd.
  rewrite length_drop in Hl. pose proof (esc_char_len c).
  pose proof (esc_len_ge (take (Z.to_nat m) s)) as Hg. rewrite zlen_take in Hg. zl.
Qed.

(** Cutting off twice is cutting off once. *)
Lemma esc_take_twice n m s p :
  m ≤ n → s = p ++ esc_rest n s → esc_take n s = esc p → esc_take m p = esc_take m s.
Proof.
  intros Hle Hs Hp. rewrite {1}Hs. symmetry. apply esc_take_app_stop.
  intros c t Hr%esc_rest_stop. rewrite -Hp. lia.
Qed.

Lemma esc_take_longest n s :
  0 ≤ n → ∃ k, esc_take n s = esc (take k s) ∧
    ∀ j, zlen (esc (take j s)) ≤ n → zlen (take j s) ≤ zlen (take k s).
Proof.
  revert n. induction s as [|c s IH]; intros n Hn; cbn [esc_take].
  { exists O. split; [done|]. intros j _. rewrite take_nil. done. }
  destruct (Z.leb_spec (zlen (esc_char c)) n).
  - destruct (IH (n - zlen (esc_char c))) as (k & Hk & Hmax); [lia|]. exists (S k).
    cbn [take]. rewrite esc_cons -Hk. split; [done|]. intros [|j]; cbn [take]; [zl|].
    rewrite esc_cons. intros Hj. specialize (Hmax j). zl.
  - exists O. split; [done|]. intros [|j]; cbn [take]; [done|]. rewrite esc_cons. zl.
Qed.

(** The same with a length. *)
Lemma esc_take_most n s :
  0 ≤ n → ∃ k, esc_take n s = esc (take k s) ∧ longest (λ j, zlen (esc (take j s)) ≤ n) (length s) k.
Proof.
  intros Hn. destruct (esc_take_longest n s Hn) as (k & Hk & Hmax). exists (k `min` length s)%nat.
  assert (Ht : take (k `min` length s) s = take k s) by by rewrite -take_take firstn_all.
  rewrite Ht. split; [done|]. split_and!; [lia|rewrite Ht -Hk; by apply esc_take_len|].
  intros j Hj Hle%Hmax. rewrite /zlen !length_take in Hle. lia.
Qed.

Lemma esc_take_print n s : Forall (λ x, isprint x = true) (esc_take n s).
Proof. destruct (esc_take_rest n s) as (k & _ & ->). apply esc_print. Qed.

(** Escaping a string without special characters changes nothing. *)
Lemma esc_char_special c : special c = false ↔ esc_char c = [c].
Proof.
  rewrite /special /esc_char. destruct (needs_escape c) eqn:E.
  - rewrite orb_true_r. done.
  - rewrite orb_false_r. destruct (isprint c) eqn:P; [done|].
    split; [done|]. intros [= <-]. done.
Qed.

Lemma esc_no_special s : has_special s = false ↔ esc s = s.
Proof.
  induction s as [|c s IH]; [done|]. rewrite esc_cons. cbn [has_special existsb].
  rewrite orb_false_iff IH esc_char_special. split.
  - by intros [-> ->].
  - intros H. assert (Hl : zlen (esc_char c) = 1).
    { pose proof (esc_char_len c). pose proof (esc_len_ge s).
      apply (f_equal zlen) in H. zl. }
    destruct (esc_char c) as [|x [|y l]]; [done| |zl].
    by injection H as -> H.
Qed.

(** De-escaping undoes escaping, except for the replaced characters. *)
Lemma deesc_esc_char c s :
  deesc (esc_char c ++ s) = cons (if isprint c then c else REPLACEMENT_CHAR) <$> deesc s.
Proof.
  rewrite /esc_char. destruct (needs_escape c) eqn:E.
  - cbn. rewrite E. by rewrite (needs_escape_isprint _ E).
  - cbn. destruct (isprint c); [|done].
    rewrite /needs_escape in E. by apply orb_false_iff in E as [-> _].
Qed.

Lemma deesc_esc s : deesc (esc s) = Some (sanitize s).
Proof.
  induction s as [|c s IH]; [done|]. by rewrite esc_cons deesc_esc_char IH.
Qed.

Lemma deesc_upto_take (n : nat) s t : deesc s = Some t → deesc_upto n s = Some (take n t).
Proof.
  revert s t. induction n as [|n IH]; intros s t Hd; [done|].
  destruct s as [|c s]; cbn in *; [by simplify_eq|].
  destruct (c =? BACKSLASH).
  - destruct s as [|c' s]; [done|]. destruct (needs_escape c'); [|done].
    apply fmap_Some in Hd as (t' & Hd & ->). by rewrite (IH _ _ Hd).
  - apply fmap_Some in Hd as (t' & Hd & ->). by rewrite (IH _ _ Hd).
Qed.

Lemma deesc_upto_len (n : nat) s :
  zlen (default [] (deesc_upto n s)) ≤ Z.of_nat n.
Proof.
  revert s. induction n as [|n IH]; intros s; [done|].
  destruct s as [|c s]; cbn [deesc_upto]; [zl|]. destruct (c =? BACKSLASH).
  - destruct s as [|c' s]; [zl|]. destruct (needs_escape c'); [|zl].
    specialize (IH s). destruct (deesc_upto n s); cbn in *; zl.
  - specialize (IH s). destruct (deesc_upto n s); cbn in *; zl.
Qed.

Lemma sanitize_is_str s : is_str (sanitize s).
Proof.
  apply print_is_str, Forall_fmap, Forall_forall. intros c _. apply isprint_replacement.
Qed.

Lemma sanitize_len s : zlen (sanitize s) = zlen s.
Proof. apply zlen_fmap. Qed.
End spec.

#[export] Hint Resolve esc_is_str print_is_str esc_take_print esc_print : mdclog.

(** ** The loop of [mdclog_internal_escape] *)

(** How [escape_loop] ends: either every character it took is in the buffer
    ([d] is the length of the output and [s] the index of the first character not
    taken), or the last character was escaped and only its backslash fits. *)
Definition escape_exit (len : Z) (pre rest out : list Z) (n : Z) (s d : Z) : Prop :=
  (d = zlen out ∧ d ≤ len - 1 ∧ 0 ≤ s ≤ zlen (pre ++ rest) ∧
   str_at (pre ++ rest) s = str_at (esc_rest n rest) 0) ∨
  (d = len ∧ zlen out = len - 2 ∧ esc_rest n rest ≠ []).

Section escape_loop.
Context (b : positive) (o len : Z) (str : ptr).
Context (Hlen : 1 ≤ len < 2 ^ 64) (Hstr : ptr_block str ≠ Some b).
Implicit Types (w : world) (Q : Z * Z → world → Prop).

Lemma escape_exit_cons pre c rest out n s d :
  zlen (esc_char c) ≤ n →
  escape_exit len (pre ++ [c]) rest out (n - zlen (esc_char c)) s d →
  escape_exit len pre (c :: rest) out n s d.
Proof.
  intros Hc. rewrite /escape_exit -assoc /=.
  by destruct (Z.leb_spec (zlen (esc_char c)) n); [|lia].
Qed.

(** One iteration writes [esc_char c] when it fits. *)
Lemma escape_loop_step fuel pre c rest done cs w Q :
  heap w !! b = Some (BChars cs) →
  get_cstr (heap w) str = Some (pre ++ c :: rest) →
  holds cs o done → o + len ≤ zlen cs →
  zlen done < len - 1 → zlen done + zlen (esc_char c) ≤ len →
  (∀ cs', same_outside o len cs cs' → holds cs' o (done ++ esc_char c) →
     wp (escape_loop fuel (Ptr b o) len str (zlen pre + 1) (zlen done + zlen (esc_char c)))
       (with_heap (<[b := BChars cs']> (heap w)) w) Q) →
  wp (escape_loop (S fuel) (Ptr b o) len str (zlen pre) (zlen done)) w Q.
Proof.
  intros Hb Hs Hh Hle Hd Hfit HQ. pose proof Hh as [Ho _].
  pose proof (get_cstr_nonzero _ _ _ Hs) as Hnz.
  apply is_str_app in Hnz as [_ [Hc _]%Forall_cons].
  pose proof (zlen_nonneg pre). pose proof (zlen_nonneg rest). pose proof (zlen_nonneg done).
  cbn [escape_loop]. rewrite u64_small; last lia.
  destruct (Z.ltb_spec (zlen done) (len - 1)); [|lia].
  step wp_load_cstr; [done|zl|]. rewrite str_at_head.
  destruct (Z.eqb_spec c NUL); [done|].
  rewrite /esc_char in HQ Hfit. destruct (needs_escape c) eqn:E.
  - apply wp_bind. step wp_store_char; [done|zl|]. wp_pure.
    step wp_load_cstr; [by rewrite get_cstr_insert_ne|zl|]. rewrite str_at_head.
    rewrite (needs_escape_isprint _ E).
    step wp_store_char; [apply lookup_insert_eq|zl|]. cbn.
    rewrite insert_insert_eq -!Z.add_assoc. apply HQ.
    + eapply same_outside_trans; apply same_outside_insert; zl.
    + rewrite (app_assoc done [BACKSLASH] [c]) !Z.add_assoc.
      apply holds_insert; [apply holds_insert; [done|zl|zl]|zl|zl].
  - wp_pure. step wp_load_cstr; [done|zl|]. rewrite str_at_head.
    step wp_store_char; [done|zl|]. cbn. apply HQ.
    + apply same_outside_insert; zl.
    + by apply holds_insert; [|zl|zl].
Qed.

Lemma escape_loop_spec fuel pre rest done cs w Q :
  heap w !! b = Some (BChars cs) →
  get_cstr (heap w) str = Some (pre ++ rest) →
  holds cs o done → o + len ≤ zlen cs → zlen done ≤ len - 1 →
  (length rest < fuel)%nat →
  let n := len - 1 - zlen done in
  (∀ cs' s d, same_outside o len cs cs' → holds cs' o (done ++ esc_take n rest) →
     escape_exit len pre rest (done ++ esc_take n rest) n s d →
     Q (s, d) (with_heap (<[b := BChars cs']> (heap w)) w)) →
  wp (escape_loop fuel (Ptr b o) len str (zlen pre) (zlen done)) w Q.
Proof.
  revert fuel pre done cs w. induction rest as [|c rest IH];
    intros fuel pre done cs w Hb Hs Hh Hle Hd Hf n HQ; (destruct fuel as [|fuel]; [lia|]).
  - assert (HQ' : Q (zlen pre, zlen done) w).
    { specialize (HQ cs (zlen pre) (zlen done)). rewrite insert_id // with_heap_id in HQ.
      cbn in HQ. rewrite !app_nil_r in HQ. apply HQ; [done..|].
      left. rewrite app_nil_r str_at_end. repeat split; zl. }
    cbn [escape_loop]. rewrite u64_small; last lia.
    destruct (Z.ltb_spec (zlen done) (len - 1)); [|by apply wp_ret].
    step wp_load_cstr; [done|zl|]. rewrite app_nil_r str_at_end. by apply wp_ret.
  - cbn [length] in Hf. cbn [esc_take] in HQ.
    destruct (Z.leb_spec (zlen (esc_char c)) n) as [Hc|Hc].
    + pose proof (esc_char_len c).
      eapply escape_loop_step; [done..|lia|lia|]. intros cs' Hs' Hh'.
      replace (zlen pre + 1) with (zlen (pre ++ [c])) by zl. rewrite -zlen_app.
      eapply IH; [apply lookup_insert_eq| |done| |zl|lia|].
      * cbn. by rewrite get_cstr_insert_ne // -assoc.
      * by rewrite (same_outside_zlen _ _ _ _ Hs').
      * replace (len - 1 - zlen (done ++ esc_char c)) with (n - zlen (esc_char c)) by zl.
        cbn. intros cs'' s d Hs'' Hh'' He. rewrite insert_insert_eq.
        rewrite -assoc in Hh'' He. apply HQ.
        -- by eapply same_outside_trans.
        -- done.
        -- by apply escape_exit_cons.
    + rewrite app_nil_r in HQ. pose proof (esc_char_len c). destruct (decide (n = 0)) as [Hn|Hn].
      * cbn [escape_loop]. rewrite u64_small; last lia.
        destruct (Z.ltb_spec (zlen done) (len - 1)); [lia|]. apply wp_ret.
        specialize (HQ cs (zlen pre) (zlen done)). rewrite insert_id // with_heap_id in HQ.
        apply HQ; [done..|]. left. cbn. rewrite str_at_head.
        destruct (Z.leb_spec (zlen (esc_char c)) n); [lia|]. repeat split; zl.
      * eapply escape_loop_step; [done..|lia|lia|]. intros cs' Hs' Hh'.
        apply holds_app in Hh' as [Hh' _]. destruct fuel as [|fuel]; [lia|].
        cbn [escape_loop]. rewrite u64_small; last lia.
        destruct (Z.ltb_spec (zlen done + zlen (esc_char c)) (len - 1)); [lia|].
        apply wp_ret. apply HQ; [done..|]. right. cbn.
        destruct (Z.leb_spec (zlen (esc_char c)) n); [lia|]. repeat split; [lia|lia|done].
Qed.
End escape_loop.

(** ** Rules of the functions *)

Lemma room_cstr h p s : get_cstr h p = Some s → (length s < room h p)%nat.
Proof.
  intros (r & Hr)%get_cstr_cells. rewrite /room Hr length_app length_fmap /=. lia.
Qed.

Lemma room_frame h b x p : ptr_block p ≠ Some b → room (<[b := x]> h) p = room h p.
Proof. intros. by rewrite /room cells_at_insert_ne. Qed.

Section rules.
Implicit Types (w : world).

Lemma wp_escape b o len str s cs w (Q : Z * Z → world → Prop) :
  heap w !! b = Some (BChars cs) → get_cstr (heap w) str = Some s →
  ptr_block str ≠ Some b → 0 ≤ o → 1 ≤ len < 2 ^ 64 → o + len ≤ zlen cs →
  (∀ cs', same_outside o len cs cs' → holds cs' o (esc_take (len - 1) s ++ [NUL]) →
     Q (zlen (esc_take (len - 1) s), if zlen (esc s) <=? len - 1 then 0 else 1)
       (with_heap (<[b := BChars cs']> (heap w)) w)) →
  wp (mdclog_internal_escape (Ptr b o) len str) w Q.
Proof.
  intros Hb Hs Hne Ho Hlen Hle HQ. rewrite /mdclog_internal_escape. wp_pure. apply wp_bind.
  eapply (escape_loop_spec b o len str Hlen Hne _ [] s []);
    [done|done|by apply holds_nil|done|zl|pose proof (room_cstr _ _ _ Hs); lia|].
  rewrite zlen_nil Z.sub_0_r app_nil_l /=. intros cs' i d Hs' Hh' He.
  pose proof (same_outside_zlen _ _ _ _ Hs') as Hz.
  destruct He as [(-> & Hd & Hi & Hat)|(-> & Hd & Hrest)].
  - destruct (Z.eqb_spec (zlen (esc_take (len - 1) s)) len); [lia|].
    step (wp_store_snoc b o len); [apply lookup_insert_eq|done|lia|lia|]. intros cs'' Hs'' Hh''.
    step wp_load_cstr; [by rewrite /= !get_cstr_insert_ne|done|]. apply wp_ret.
    cbn. rewrite insert_insert_eq Hat truncated_flag; [|lia|by eapply get_cstr_nonzero].
    apply HQ; [by eapply same_outside_trans|done].
  - rewrite Z.eqb_refl u64_small; last zl. rewrite -Hd.
    step (wp_store_snoc b o len); [apply lookup_insert_eq|done|lia|lia|].
    intros cs'' Hs'' Hh''. apply wp_ret.
    rewrite (esc_rest_nil (len - 1) s) in Hrest; last lia.
    cbn. rewrite insert_insert_eq. destruct (Z.leb_spec (zlen (esc s)) (len - 1)); [done|].
    apply HQ; [by eapply same_outside_trans|done].
Qed.

Lemma deescape_loop_spec b o len str (fuel n : nat) pre rest done cs w (Q : option Z → world → Prop) :
  ptr_block str ≠ Some b → len < 2 ^ 64 →
  heap w !! b = Some (BChars cs) → get_cstr (heap w) str = Some (pre ++ rest) →
  holds cs o done → o + len ≤ zlen cs → Z.of_nat n = len - 1 - zlen done →
  (length rest < fuel)%nat →
  (∀ cs', same_outside o len cs cs' →
     match deesc_upto n rest with
     | None => holds cs' o [NUL] → Q None (with_heap (<[b := BChars cs']> (heap w)) w)
     | Some t => holds cs' o (done ++ t) →
         Q (Some (zlen (done ++ t))) (with_heap (<[b := BChars cs']> (heap w)) w)
     end) →
  wp (deescape_loop fuel (Ptr b o) len str (zlen pre) (zlen done)) w Q.
Proof.
  intros Hne Hlen. revert n pre rest done cs w.
  induction fuel as [|fuel IH]; intros n pre rest done cs w Hb Hs Hh Hle Hn Hf HQ; [lia|].
  pose proof Hh as [Ho _]. pose proof (get_cstr_nonzero _ _ _ Hs) as Hnz.
  assert (Hend : deesc_upto n rest = Some [] → Q (Some (zlen done)) w).
  { intros E. specialize (HQ cs ltac:(done)). rewrite E app_nil_r insert_id // with_heap_id in HQ.
    by apply HQ. }
  (** One character [c] is copied, [skip] characters of the input are used. *)
  assert (Hcopy : ∀ c skip rest' n', rest = skip ++ rest' → skip ≠ [] → n = S n' →
    deesc_upto n rest = cons c <$> deesc_upto n' rest' →
    wp (store_char (Ptr b o +ₚ zlen done) c ;;
        deescape_loop fuel (Ptr b o) len str (zlen pre + zlen skip) (zlen done + 1)) w Q).
  { intros c skip rest' n' -> Hskip -> E. step (wp_store_snoc b o len); [done|done|zl|done|].
    intros cs' Hs' Hh'. pose proof (same_outside_zlen _ _ _ _ Hs').
    replace (zlen done + 1) with (zlen (done ++ [c])) by zl. rewrite -zlen_app.
    eapply (IH n' _ rest'); [apply lookup_insert_eq| |done|zl|zl| |].
    - by rewrite /= get_cstr_insert_ne // -assoc.
    - destruct skip; [done|]. cbn in Hf. rewrite length_app in Hf. lia.
    - intros cs'' Hs''. cbn. rewrite insert_insert_eq.
      specialize (HQ cs'' (same_outside_trans _ _ _ _ _ Hs' Hs'')). rewrite E in HQ.
      destruct (deesc_upto n' rest'); [|done]. by rewrite -assoc. }
  cbn [deescape_loop]. destruct n as [|n].
  { rewrite u64_small; last zl. destruct (Z.ltb_spec (zlen done) (len - 1)); [lia|].
    by apply wp_ret, Hend. }
  rewrite u64_small; last zl. destruct (Z.ltb_spec (zlen done) (len - 1)); [|lia].
  step wp_load_cstr; [done|zl|]. destruct rest as [|c rest].
  { rewrite app_nil_r str_at_end. by apply wp_ret, Hend. }
  rewrite str_at_head. apply is_str_app in Hnz as [_ [Hc Hnz]%Forall_cons].
  destruct (Z.eqb_spec c NUL); [done|]. destruct (Z.eqb_spec c BACKSLASH) as [->|Hbs].
  - assert (Hload : get_cstr (heap w) str = Some ((pre ++ [BACKSLASH]) ++ rest)) by by rewrite -assoc.
    step wp_load_cstr; [done|zl|].
    replace (zlen pre + 1) with (zlen (pre ++ [BACKSLASH])) by zl.
    destruct rest as [|c' rest].
    + rewrite app_nil_r str_at_end /=. step (wp_store_nul b o len); [done|done|zl|done|].
      intros cs'. apply HQ.
    + rewrite str_at_head. destruct (needs_escape c') eqn:E.
      * replace (zlen pre + 2) with (zlen pre + zlen [BACKSLASH; c']) by zl.
        by apply (Hcopy c' [BACKSLASH; c'] rest n); [..|rewrite /= E].
      * step (wp_store_nul b o len); [done|done|zl|done|].
        rewrite /= E in HQ. intros cs'. apply HQ.
  - apply (Hcopy c [c] rest n); [done..|]. cbn [deesc_upto].
    by destruct (Z.eqb_spec c BACKSLASH).
Qed.

Lemma wp_deescape b o len str s cs w (Q : Z → world → Prop) :
  heap w !! b = Some (BChars cs) → get_cstr (heap w) str = Some s →
  ptr_block str ≠ Some b → 0 ≤ o → 1 ≤ len < 2 ^ 64 → o + len ≤ zlen cs →
  (∀ cs', same_outside o len cs cs' →
     let t := default [] (deesc_upto (Z.to_nat (len - 1)) s) in
     holds cs' o (t ++ [NUL]) → Q (zlen t) (with_heap (<[b := BChars cs']> (heap w)) w)) →
  wp (mdclog_internal_deescape (Ptr b o) len str) w Q.
Proof.
  intros Hb Hs Hne Ho Hlen Hle HQ. rewrite /mdclog_internal_deescape. wp_pure. apply wp_bind.
  assert (Hend : ∀ t cs', same_outside o len cs cs' → holds cs' o t → zlen t ≤ len - 1 →
    t = default [] (deesc_upto (Z.to_nat (len - 1)) s) →
    wp (store_char (Ptr b o +ₚ zlen t) NUL ;; mret (zlen t))
       (with_heap (<[b := BChars cs']> (heap w)) w) Q).
  { intros t cs' Hs' Hh' Ht ->. pose proof (same_outside_zlen _ _ _ _ Hs').
    step (wp_store_snoc b o len); [apply lookup_insert_eq|done|lia|lia|].
    intros cs'' Hs'' Hh''. apply wp_ret. cbn. rewrite insert_insert_eq.
    apply HQ; [by eapply same_outside_trans|done]. }
  eapply (deescape_loop_spec b o len str _ (Z.to_nat (len - 1)) [] s []);
    [done|lia|done|done|by apply holds_nil|done|zl|pose proof (room_cstr _ _ _ Hs); lia|].
  intros cs' Hs'. pose proof (deesc_upto_len (Z.to_nat (len - 1)) s) as Hl.
  rewrite Z2Nat.id in Hl; last lia.
  destruct (deesc_upto (Z.to_nat (len - 1)) s) as [t|]; intros Hh'.
  - apply Hend; [done..|by cbn in Hl|done].
  - apply wp_ret. by apply (HQ cs').
Qed.

Lemma escaped_size_loop_spec fuel str pre rest n w (Q : Z → world → Prop) :
  get_cstr (heap w) str = Some (pre ++ rest) → (length rest < fuel)%nat →
  0 ≤ n → n + zlen (esc rest) < 2 ^ 64 →
  Q (n + zlen (esc rest)) w → wp (escaped_size_loop fuel str (zlen pre) n) w Q.
Proof.
  revert pre rest n. induction fuel as [|fuel IH]; intros pre rest n Hs Hf H0 Hn HQ; [lia|].
  cbn [escaped_size_loop]. step wp_load_cstr; [done|zl|]. destruct rest as [|c rest].
  { rewrite app_nil_r str_at_end. apply wp_ret. by rewrite Z.add_0_r in HQ. }
  pose proof (get_cstr_nonzero _ _ _ Hs) as [_ [Hc _]%Forall_cons]%is_str_app.
  rewrite str_at_head. destruct (Z.eqb_spec c NUL); [done|].
  replace (zlen pre + 1) with (zlen (pre ++ [c])) by zl.
  rewrite esc_cons zlen_app in HQ Hn.
  assert (Hz : u64 ((if needs_escape c then u64 (n + 1) else n) + 1) = n + zlen (esc_char c)).
  { rewrite /esc_char in Hn |- *. destruct (needs_escape c); rewrite !u64_small; zl. }
  rewrite Hz. apply (IH _ rest); [by rewrite -assoc|cbn in Hf; lia|zl|lia|].
  by rewrite -Z.add_assoc.
Qed.

Lemma wp_escaped_size str s w (Q : Z → world → Prop) :
  get_cstr (heap w) str = Some s → zlen (esc s) + 1 < 2 ^ 64 →
  Q (zlen (esc s) + 1) w → wp (mdclog_internal_escaped_size str) w Q.
Proof.
  intros Hs Hl HQ. rewrite /mdclog_internal_escaped_size. wp_pure.
  step (escaped_size_loop_spec _ _ [] s 0);
    [done|pose proof (room_cstr _ _ _ Hs); lia|lia|lia|].
  apply wp_ret. rewrite u64_small; [done|zl].
Qed.

Lemma contains_special_loop_spec fuel str pre rest w (Q : Z → world → Prop) :
  get_cstr (heap w) str = Some (pre ++ rest) → (length rest < fuel)%nat →
  zlen (pre ++ rest) ≤ INT_MAX →
  Q (if has_special rest then 1 else 0) w →
  wp (contains_special_loop fuel str (zlen pre)) w Q.
Proof.
  revert pre rest. induction fuel as [|fuel IH]; intros pre rest Hs Hf Hm HQ; [lia|].
  cbn [contains_special_loop]. step wp_load_cstr; [done|zl|]. destruct rest as [|c rest].
  { rewrite app_nil_r str_at_end. by apply wp_ret. }
  pose proof (get_cstr_nonzero _ _ _ Hs) as [_ [Hc _]%Forall_cons]%is_str_app.
  rewrite str_at_head. destruct (Z.eqb_spec c NUL); [done|].
  cbn [has_special existsb] in HQ. rewrite /special /needs_escape orb_assoc in HQ.
  destruct (negb (isprint c) || (c =? BACKSLASH) || (c =? DQUOTE)); [by apply wp_ret|].
  rewrite /int_incr. destruct (Z.ltb_spec (zlen pre) INT_MAX); [|zl]. wp_pure.
  replace (zlen pre + 1) with (zlen (pre ++ [c])) by zl.
  apply (IH _ rest); [by rewrite -assoc|cbn in Hf; lia|by rewrite -assoc|done].
Qed.

Lemma wp_contains_special str s w (Q : Z → world → Prop) :
  get_cstr (heap w) str = Some s → zlen s ≤ INT_MAX →
  Q (if has_special s then 1 else 0) w →
  wp (mdclog_internal_contains_special_characters str) w Q.
Proof.
  intros Hs Hl HQ. rewrite /mdclog_internal_contains_special_characters. wp_pure.
  apply (contains_special_loop_spec _ _ [] s);
    [done|pose proof (room_cstr _ _ _ Hs); lia|done|done].
Qed.
End rules.

(** ** Properties *)

(** A buffer of [n] cells in block 1 of an otherwise empty process. *)
Definition buffer_world (n : nat) : world :=
  with_next 2 (with_heap {[1%positive := BChars (replicate n None)]} (boot Null)).

(** C21: [mdclog_internal_escape] never writes outside the [len] bytes of its
    buffer; it leaves there the zero-terminated escape of the longest prefix of
    the string whose escape fits (so an escape sequence is never cut), returns its
    length, and reports truncation exactly when the whole escape does not fit. *)
Theorem mdclog_internal_escape_correct b o len str s cs w :
  heap w !! b = Some (BChars cs) → get_cstr (heap w) str = Some s →
  ptr_block str ≠ Some b → 0 ≤ o → 1 ≤ len < 2 ^ 64 → o + len ≤ zlen cs →
  ∃ k cs',
    let h' := <[b := BChars cs']> (heap w) in
    mdclog_internal_escape (Ptr b o) len str w =
      Ok (zlen (esc (take k s)), if decide (zlen (esc s) < len) then 0 else 1) (with_heap h' w) ∧
    same_outside o len cs cs' ∧
    get_cstr h' (Ptr b o) = Some (esc (take k s)) ∧
    zlen (esc (take k s)) < len ∧
    (∀ j, zlen (esc (take j s)) < len → zlen (take j s) ≤ zlen (take k s)).
Proof.
  intros Hb Hs Hne Ho Hlen Hle.
  destruct (proj1 (wp_run (mdclog_internal_escape (Ptr b o) len str) w (λ r w', ∃ cs',
      same_outside o len cs cs' ∧ holds cs' o (esc_take (len - 1) s ++ [NUL]) ∧
      r = (zlen (esc_take (len - 1) s), if zlen (esc s) <=? len - 1 then 0 else 1) ∧
      w' = with_heap (<[b := BChars cs']> (heap w)) w)))
    as (r & w' & Hrun & cs' & Hso & Hh & -> & ->).
  { by eapply wp_escape; [..|eauto 6]. }
  destruct (esc_take_longest (len - 1) s) as (k & Hk & Hmax); [lia|].
  exists k, cs'. rewrite -Hk. split_and!.
  - rewrite Hrun. f_equal. f_equal.
    destruct (Z.leb_spec (zlen (esc s)) (len - 1)); case_decide; lia.
  - done.
  - eapply get_cstr_holds; [apply lookup_insert_eq|done|auto with mdclog].
  - pose proof (esc_take_len (len - 1) s). lia.
  - intros j Hj. apply Hmax. lia.
Qed.

Lemma mdclog_internal_escape_correct_witness : ∃ k cs',
  let h' := <[1%positive := BChars cs']> (heap (buffer_world 4)) in
  mdclog_internal_escape (Ptr 1 0) 3 (Lit (lit "A\") 0) (buffer_world 4) =
    Ok (zlen (esc (take k (lit "A\"))), 1) (with_heap h' (buffer_world 4)) ∧
  get_cstr h' (Ptr 1 0) = Some (esc (take k (lit "A\"))).
Proof.
  destruct (mdclog_internal_escape_correct 1 0 3 (Lit (lit "A\") 0) (lit "A\")
    (replicate 4 None) (buffer_world 4)) as (k & cs' & H1 & _ & H2 & _);
    [reflexivity|reflexivity|discriminate|lia|lia|vm_compute; discriminate|].
  exists k, cs'. split; [exact H1|exact H2].
Defined.

(** C24: de-escaping what was escaped into a large enough buffer gives back the
    string, with its non-printable characters replaced by spaces. *)
Theorem deescape_escape_roundtrip b1 b2 str s cs1 cs2 w :
  b1 ≠ b2 → heap w !! b1 = Some (BChars cs1) → heap w !! b2 = Some (BChars cs2) →
  get_cstr (heap w) str = Some s → ptr_block str ≠ Some b1 →
  zlen (esc s) < zlen cs1 < 2 ^ 64 → zlen s < zlen cs2 < 2 ^ 64 →
  ∃ w', (mdclog_internal_escape (Ptr b1 0) (zlen cs1) str ;;
         mdclog_internal_deescape (Ptr b2 0) (zlen cs2) (Ptr b1 0)) w = Ok (zlen s) w' ∧
        get_cstr (heap w') (Ptr b1 0) = Some (esc s) ∧
        get_cstr (heap w') (Ptr b2 0) = Some (sanitize s).
Proof.
  intros Hne H1 H2 Hs Hstr Hl1 Hl2.
  destruct (proj1 (wp_run (mdclog_internal_escape (Ptr b1 0) (zlen cs1) str ;;
      mdclog_internal_deescape (Ptr b2 0) (zlen cs2) (Ptr b1 0)) w (λ r w',
      r = zlen s ∧ get_cstr (heap w') (Ptr b1 0) = Some (esc s) ∧
      get_cstr (heap w') (Ptr b2 0) = Some (sanitize s)))) as (r & w' & ? & -> & ?);
    [|by exists w'].
  step wp_escape; [done..|lia|pose proof (zlen_nonneg (esc s)); lia|lia|]. intros cs1' Hso1 Hh1.
  rewrite esc_take_all in Hh1 |- *; [|zl..].
  assert (Hc1 : get_cstr (<[b1 := BChars cs1']> (heap w)) (Ptr b1 0) = Some (esc s)).
  { eapply get_cstr_holds; [apply lookup_insert_eq|done|apply esc_is_str]. }
  eapply wp_deescape; cbn [heap with_heap];
    [by rewrite lookup_insert_ne|done|cbn; congruence|lia|zl|lia|].
  rewrite (deesc_upto_take _ _ _ (deesc_esc s)) take_ge; cbn; last (pose proof (sanitize_len s); zl).
  intros cs2' Hso2 Hh2. split_and!.
  - apply sanitize_len.
  - cbn [heap with_heap]. rewrite get_cstr_insert_ne; [done|cbn; congruence].
  - eapply get_cstr_holds; [apply lookup_insert_eq|done|apply sanitize_is_str].
Qed.

Lemma deescape_escape_roundtrip_witness :
  let w := with_heap {[1%positive := BChars (replicate 8 None);
                       2%positive := BChars (replicate 8 None)]} (boot Null) in
  ∃ w', (mdclog_internal_escape (Ptr 1 0) 8 (Lit (lit "\A") 0) ;;
         mdclog_internal_deescape (Ptr 2 0) 8 (Ptr 1 0)) w = Ok 2 w' ∧
        get_cstr (heap w') (Ptr 2 0) = Some (sanitize (lit "\A")).
Proof.
  destruct (deescape_escape_roundtrip 1 2 (Lit (lit "\A") 0) (lit "\A")
    (replicate 8 None) (replicate 8 None)
    (with_heap {[1%positive := BChars (replicate 8 None);
                 2%positive := BChars (replicate 8 None)]} (boot Null)))
    as (w' & H1 & _ & H2);
    [discriminate|reflexivity|reflexivity|reflexivity|discriminate|vm_compute; split; reflexivity
    |vm_compute; split; reflexivity|].
  exists w'. split; [exact H1|exact H2].
Defined.

(** C28: [mdclog_internal_escaped_size] is exact: escaping into a buffer of that
    size gives the whole escape, without truncation, and uses the last byte. *)
Theorem escaped_size_exact b str s cs w :
  heap w !! b = Some (BChars cs) → get_cstr (heap w) str = Some s →
  ptr_block str ≠ Some b → zlen cs = zlen (esc s) + 1 → zlen cs < 2 ^ 64 →
  ∃ cs',
    (len ← mdclog_internal_escaped_size str; mdclog_internal_escape (Ptr b 0) len str) w =
      Ok (zlen cs - 1, 0) (with_heap (<[b := BChars cs']> (heap w)) w) ∧
    cs' = Some <$> (esc s ++ [NUL]).
Proof.
  intros Hb Hs Hne Hcs Hlt.
  destruct (proj1 (wp_run (len ← mdclog_internal_escaped_size str;
      mdclog_internal_escape (Ptr b 0) len str) w (λ r w', ∃ cs',
      r = (zlen cs - 1, 0) ∧ w' = with_heap (<[b := BChars cs']> (heap w)) w ∧
      cs' = Some <$> (esc s ++ [NUL])))) as (r & w' & Hrun & cs' & -> & -> & ?);
    [|by exists cs'].
  pose proof (zlen_nonneg (esc s)).
  step wp_escaped_size; [done|lia|]. eapply wp_escape; [done|done|done|lia|lia|lia|].
  intros cs' Hso Hh. replace (zlen (esc s) + 1 - 1) with (zlen (esc s)) in * by lia.
  rewrite esc_take_all in Hh |- *; [|zl..]. rewrite Z.leb_refl.
  exists cs'. split_and!; [f_equal; lia|done|].
  apply holds_all; [done|]. apply same_outside_zlen in Hso. zl.
Qed.

Lemma escaped_size_exact_witness : ∃ cs',
  (len ← mdclog_internal_escaped_size (Lit (lit "\A") 0);
   mdclog_internal_escape (Ptr 1 0) len (Lit (lit "\A") 0)) (buffer_world 4) =
    Ok (3, 0) (with_heap (<[1%positive := BChars cs']> (heap (buffer_world 4))) (buffer_world 4)) ∧
  cs' = Some <$> (esc (lit "\A") ++ [NUL]).
Proof.
  exact (escaped_size_exact 1 (Lit (lit "\A") 0) (lit "\A") (replicate 4 None) (buffer_world 4)
    eq_refl eq_refl ltac:(discriminate) eq_refl eq_refl).
Defined.

(** C29: [mdclog_internal_contains_special_characters] returns 1 exactly for the
    strings that escaping would change, and touches no state. *)
Theorem contains_special_iff_escape_changes str s w :
  get_cstr (heap w) str = Some s → zlen s ≤ INT_MAX →
  mdclog_internal_contains_special_characters str w =
    Ok (if decide (esc s = s) then 0 else 1) w.
Proof.
  intros Hs Hl.
  destruct (proj1 (wp_run (mdclog_internal_contains_special_characters str) w (λ r w',
      r = (if has_special s then 1 else 0) ∧ w' = w))) as (r & w' & -> & -> & ->).
  { by eapply wp_contains_special. }
  pose proof (esc_no_special s). f_equal.
  destruct (has_special s); case_decide; intuition congruence.
Qed.

Lemma contains_special_iff_escape_changes_witness :
  mdclog_internal_contains_special_characters (Lit (lit "id\") 0) (boot Null) = Ok 1 (boot Null) ∧
  mdclog_internal_contains_special_characters (Lit (lit "id") 0) (boot Null) = Ok 0 (boot Null).
Proof.
  split.
  - exact (contains_special_iff_escape_changes (Lit (lit "id\") 0) (lit "id\") (boot Null)
      eq_refl ltac:(vm_compute; discriminate)).
  - exact (contains_special_iff_escape_changes (Lit (lit "id") 0) (lit "id") (boot Null)
      eq_refl ltac:(vm_compute; discriminate)).
Defined.
