(* ===== verification/MdcIface.v ===== *)
(** What the formatter needs of the MDC list: the three accessors of
    src/include/private/mdc.h it calls, and what they promise.  JsonFormat is
    written and proved against this interface; Mdc implements it. *)

From S2P Require Import Prelude World Memory Libc.

(** [mdclog_internal_get_next_mdc], [mdclog_internal_get_mdc_key] and
    [mdclog_internal_get_mdc_val]. *)
Class MdcAccess := {
  get_next_mdc : ptr → M ptr;
  get_mdc_key : ptr → M ptr;
  get_mdc_val : ptr → M ptr
}.

(** [chain h F p l]: walking from [p] in the heap [h] visits entries with the keys
    and values [l], all of them in the blocks [F]. *)
Class MdcWalk `{MdcAccess} := {
  chain : gmap positive block → gset positive → ptr → list (list Z * list Z) → Prop;
  chain_frame h h' F p l : (∀ b, b ∈ F → h' !! b = h !! b) → chain h F p l → chain h' F p l;
  chain_nil h F p : chain h F p [] → p = Null;
  chain_cons w F p k v l : chain (heap w) F p ((k, v) :: l) →
    is_null p = false ∧
    (∃ kp, get_mdc_key p w = Ok kp w ∧ get_cstr (heap w) kp = Some k) ∧
    (∃ vp, get_mdc_val p w = Ok vp w ∧ get_cstr (heap w) vp = Some v) ∧
    (∃ p', get_next_mdc p w = Ok p' w ∧ chain (heap w) F p' l);
  chain_length h F p l : chain h F p l → (length l < S (size h))%nat
}.
