(* ===== verification/Mdc.v ===== *)
(** src/mdc.c: the thread-specific list of mapped diagnostic contexts.

    The list is a doubly-linked list of heap nodes; its head is kept in a heap
    block whose address is the value of a pthread key of the thread.  The
    definitions follow the C functions statement by statement, null checks,
    failing allocations and [errno] included.  [mlist] says what heap represents
    a list of entries; the rules of the operations are proved against it, and
    the properties at the end relate them to operations on association lists. *)

From S2P Require Import Prelude World Memory Libc Escape MdcIface.

(** ** Struct fields *)

(** A pointer with an indeterminate value: neither null nor usable. *)
Definition wild : ptr := Lit [] (-1).

Definition get_prev (p : ptr) : M ptr := n ← load_mdc p; mret (mdc_prev n).
Definition get_next (p : ptr) : M ptr := n ← load_mdc p; mret (mdc_next n).
Definition get_key (p : ptr) : M ptr := n ← load_mdc p; mret (mdc_key n).
Definition get_value (p : ptr) : M ptr := n ← load_mdc p; mret (mdc_value n).

Definition set_prev (p x : ptr) : M unit :=
  n ← load_mdc p; store_mdc p (Mdc x (mdc_next n) (mdc_key n) (mdc_value n)).
Definition set_next (p x : ptr) : M unit :=
  n ← load_mdc p; store_mdc p (Mdc (mdc_prev n) x (mdc_key n) (mdc_value n)).
Definition set_key (p x : ptr) : M unit :=
  n ← load_mdc p; store_mdc p (Mdc (mdc_prev n) (mdc_next n) x (mdc_value n)).
Definition set_value (p x : ptr) : M unit :=
  n ← load_mdc p; store_mdc p (Mdc (mdc_prev n) (mdc_next n) (mdc_key n) x).

(** [if (c) { m }] *)
Definition when (c : bool) (m : M unit) : M unit := if c then m else mret tt.

(** ** The list functions *)

Definition alloc_entry : M ptr :=
  mdc ← malloc (BMdc (Mdc wild wild wild wild));
  when (negb (is_null mdc)) (store_mdc mdc (Mdc Null Null Null Null)) ;;
  mret mdc.

Definition add_to_list (mdc list : ptr) : M unit :=
  head ← load_list list;
  when (negb (is_null head)) (
    set_next mdc head ;;
    set_prev head mdc) ;;
  store_list list mdc.

Definition list_head (list : ptr) : M ptr := load_list list.

Definition mdc_destroy (mdc : ptr) : M unit :=
  key ← get_key mdc;
  when (negb (is_null key)) (free key) ;;
  value ← get_value mdc;
  when (negb (is_null value)) (free value) ;;
  free mdc.

Definition rm_from_list (mdc list : ptr) : M unit :=
  head ← load_list list;
  when (ptr_eqb mdc head) (next ← get_next mdc; store_list list next) ;;
  prev ← get_prev mdc;
  when (negb (is_null prev)) (next ← get_next mdc; set_next prev next) ;;
  next ← get_next mdc;
  when (negb (is_null next)) (prev ← get_prev mdc; set_prev next prev) ;;
  mdc_destroy mdc.

Fixpoint empty_list_loop (fuel : nat) (mdc list : ptr) : M unit :=
  match fuel with
  | O => stopped OutOfFuel
  | S fuel' =>
      if is_null mdc then mret tt
      else
        next ← get_next mdc;
        rm_from_list mdc list ;;
        empty_list_loop fuel' next list
  end.

(** The nodes of a list are distinct blocks, so a walk of more steps than there
    are blocks never ends. *)
Definition walk_fuel : M nat := gets (λ w, S (size (heap w))).

Definition empty_list (list : ptr) : M unit :=
  if is_null list then mret tt
  else
    mdc ← list_head list;
    fuel ← walk_fuel;
    empty_list_loop fuel mdc list.

(** ** The pthread key *)

(** [pthread_getspecific(mdcpthreadkey)]; undefined if the key does not exist. *)
Definition pthread_getspecific : M ptr := λ w,
  if tls_key (tls w) then Ok (default Null (tls_values (tls w) !! self w)) w
  else Stop UndefinedBehaviour.

(** [pthread_setspecific(mdcpthreadkey, v)]: storing a value may need memory, so
    it takes an outcome from the allocation plan and returns [ENOMEM] if that is
    a failure; storing null does not. *)
Definition pthread_setspecific (v : ptr) : M Z := λ w,
  if tls_key (tls w) then
    let set w := with_tls (Tls true (<[self w := v]> (tls_values (tls w)))) w in
    if is_null v then Ok 0 (set w)
    else if plan_ok (plan w) then Ok 0 (set (with_plan (tail (plan w)) w))
    else Ok ENOMEM (with_plan (tail (plan w)) w)
  else Stop UndefinedBehaviour.

Definition destroy_list (list : ptr) : M unit :=
  empty_list list ;;
  free list ;;
  ec ← pthread_setspecific Null;
  mret tt.

(** [abort] if the key cannot be created. *)
Definition create_pthread_key : M unit :=
  ok ← gets (λ w, sys_key_create (os w));
  if (ok : bool) then modify (λ w, with_tls (Tls true (tls_values (tls w))) w)
  else stopped Aborted.

(** [pthread_once] runs its function the first time only, and returns 0. *)
Definition pthread_once (init : M unit) : M Z :=
  done ← gets (λ w, tls_key (tls w));
  if (done : bool) then mret 0 else init ;; mret 0.

Definition mdclog_internal_init_mdc : M Z :=
  ec ← pthread_once create_pthread_key;
  if ec =? 0 then mret 0 else set_errno ec ;; mret (-1).

Definition get_list : M ptr :=
  list ← pthread_getspecific;
  if is_null list then
    list ← malloc (BList wild);
    if is_null list then set_errno ENOMEM ;; mret Null
    else
      store_list list Null ;;
      ec ← pthread_setspecific list;
      if ec =? 0 then mret list else set_errno ec ;; mret Null
  else mret list.

(** ** The MDC functions *)

Definition escape_and_copy (str : ptr) : M ptr :=
  len ← mdclog_internal_escaped_size str;
  buf ← malloc_chars len;
  if is_null buf then mret Null
  else mdclog_internal_escape buf len str ;; mret buf.

Fixpoint search_loop (fuel : nat) (key mdc : ptr) : M ptr :=
  match fuel with
  | O => stopped OutOfFuel
  | S fuel' =>
      if is_null mdc then mret Null
      else
        k ← get_key mdc;
        c ← strcmp key k;
        if c =? 0 then mret mdc
        else next ← get_next mdc; search_loop fuel' key next
  end.

Definition mdclog_internal_search_mdc (key : ptr) : M ptr :=
  list ← get_list;
  if is_null list then mret Null
  else
    mdc ← list_head list;
    fuel ← walk_fuel;
    search_loop fuel key mdc.

Definition mdclog_internal_put_mdc (key value : ptr) : M Z :=
  list ← get_list;
  if is_null list then mret (-1)
  else
    mdc ← mdclog_internal_search_mdc key;
    mdc ← (if is_null mdc then
             mdc ← alloc_entry;
             if is_null mdc then mret Null
             else
               k ← strdup key;
               set_key mdc k ;;
               add_to_list mdc list ;;
               mret mdc
           else
             v ← get_value mdc;
             free v ;;
             mret mdc);
    if is_null mdc then set_errno ENOMEM ;; mret (-1)
    else
      v ← escape_and_copy value;
      set_value mdc v ;;
      k ← get_key mdc;
      v ← get_value mdc;
      if negb (is_null k) && negb (is_null v) then mret 0
      else
        mdc_destroy mdc ;;
        set_errno ENOMEM ;;
        mret (-1).

Definition mdclog_internal_rm_mdc (key : ptr) : M unit :=
  mdc ← mdclog_internal_search_mdc key;
  when (negb (is_null mdc)) (list ← get_list; rm_from_list mdc list).

Definition mdclog_internal_get_first_mdc : M ptr :=
  list ← get_list;
  if is_null list then mret Null else list_head list.

Definition mdclog_internal_get_next_mdc (mdc : ptr) : M ptr :=
  if is_null mdc then mret Null else get_next mdc.

Definition mdclog_internal_get_mdc_val (mdc : ptr) : M ptr :=
  if is_null mdc then mret Null else get_value mdc.

Definition mdclog_internal_get_mdc_key (mdc : ptr) : M ptr :=
  if is_null mdc then mret Null else get_key mdc.

Definition mdclog_internal_clean_mdclist : M unit := list ← get_list; empty_list list.

Definition mdclog_internal_destroy_mdclist : M unit := list ← get_list; destroy_list list.

(** ** What a heap represents *)

(** An entry: where its node, its key and its value are, and what they hold. *)
Record ent := Ent {
  e_node : positive;
  e_kloc : positive;
  e_vloc : positive;
  e_key : list Z;
  e_val : list Z
}.

Definition e_ptr (e : ent) : ptr := Ptr (e_node e) 0.
Definition e_mdc (e : ent) (prev next : ptr) : mdc :=
  Mdc prev next (Ptr (e_kloc e) 0) (Ptr (e_vloc e) 0).
Definition e_locs (e : ent) : list positive := [e_node e; e_kloc e; e_vloc e].

(** The pointer to the first entry, or [next]; to the last one, or [prev]. *)
Definition first_ptr (es : list ent) (next : ptr) : ptr :=
  match es with [] => next | e :: _ => e_ptr e end.
Fixpoint last_ptr (prev : ptr) (es : list ent) : ptr :=
  match es with [] => prev | e :: es' => last_ptr (e_ptr e) es' end.

(** The strings of an entry are in their blocks. *)
Record ent_strs (h : gmap positive block) (e : ent) : Prop := {
  ent_kblock : h !! e_kloc e = Some (cstr_block (e_key e));
  ent_vblock : h !! e_vloc e = Some (cstr_block (e_val e));
  ent_kstr : is_str (e_key e);
  ent_vstr : is_str (e_val e)
}.

(** A doubly-linked segment between the nodes [prev] and [next]. *)
Fixpoint seg (h : gmap positive block) (prev : ptr) (es : list ent) (next : ptr) : Prop :=
  match es with
  | [] => True
  | e :: es' =>
      h !! e_node e = Some (BMdc (e_mdc e prev (first_ptr es' next))) ∧
      ent_strs h e ∧ seg h (e_ptr e) es' next
  end.

Definition ents_locs (es : list ent) : list positive := es ≫= e_locs.

(** Block [l] is a [struct mdclist] with the entries [es]. *)
Record mlist (h : gmap positive block) (l : positive) (es : list ent) : Prop := {
  mlist_head : h !! l = Some (BList (first_ptr es Null));
  mlist_seg : seg h Null es Null;
  mlist_nodup : NoDup (l :: ents_locs es);
  mlist_keys : NoDup (e_key <$> es)
}.

(** The list of thread [t]: not created yet, or block [l] with entries [es]. *)
Definition thread_mdcs (w : world) (t : positive) (lo : option positive) (es : list ent) : Prop :=
  tls_key (tls w) = true ∧
  match lo with
  | None => default Null (tls_values (tls w) !! t) = Null ∧ es = []
  | Some l => tls_values (tls w) !! t = Some (Ptr l 0) ∧ mlist (heap w) l es
  end.

(** The blocks of a thread's list. *)
Definition footprint (lo : option positive) (es : list ent) : gset positive :=
  list_to_set (option_list lo ++ ents_locs es).

(** The keys and values of the entries, in list order. *)
Definition e_pair (e : ent) : list Z * list Z := (e_key e, e_val e).
Definition mdcs (es : list ent) : list (list Z * list Z) := e_pair <$> es.

(** ** The operations on association lists *)

Definition al_keys (l : list (list Z * list Z)) : list (list Z) := l.*1.

Fixpoint al_get (k : list Z) (l : list (list Z * list Z)) : option (list Z) :=
  match l with
  | [] => None
  | (k', v) :: l' => if decide (k = k') then Some v else al_get k l'
  end.

(** Replacing the value of [k] in place, or a new pair in front. *)
Definition al_put (k v : list Z) (l : list (list Z * list Z)) : list (list Z * list Z) :=
  if decide (k ∈ al_keys l)
  then (λ '(k', v'), if decide (k = k') then (k', v) else (k', v')) <$> l
  else (k, v) :: l.

Definition al_remove (k : list Z) (l : list (list Z * list Z)) : list (list Z * list Z) :=
  filter (λ p, p.1 ≠ k) l.

Section assoc.
Implicit Types (l : list (list Z * list Z)) (k v : list Z).

Lemma al_get_none k l : al_get k l = None ↔ k ∉ al_keys l.
Proof.
  induction l as [|[k' v'] l IH]; cbn; [split; [intros _ ?%elem_of_nil|]; done|].
  rewrite not_elem_of_cons. case_decide; naive_solver.
Qed.

Lemma al_get_put k v k' l : al_get k' (al_put k v l) = if decide (k' = k) then Some v else al_get k' l.
Proof.
  rewrite /al_put. case_decide as Hin; [|by cbn].
  induction l as [|[k2 v2] l IH]; cbn; [by apply elem_of_nil in Hin|].
  destruct (decide (k = k2)) as [<-|Hne]; cbn.
  - case_decide; [done|]. destruct (decide (k ∈ al_keys l)) as [?|Hn]; [by rewrite IH|].
    clear IH Hin. induction l as [|[k3 v3] l IH2]; cbn; [done|].
    cbn in Hn. apply not_elem_of_cons in Hn as [Hk Hn]. rewrite (decide_False (P:=k = k3)) //=. case_decide; [done|by apply IH2].
  - cbn in Hin. apply elem_of_cons in Hin as [?|Hin]; [done|]. rewrite IH //.
    destruct (decide (k' = k2)) as [->|]; [by rewrite decide_False|done].
Qed.

Lemma al_get_remove k k' l : al_get k' (al_remove k l) = if decide (k' = k) then None else al_get k' l.
Proof.
  rewrite /al_remove. induction l as [|[k2 v2] l IH]; [by cbn; case_decide|].
  rewrite filter_cons /=. destruct (decide (k2 = k)) as [->|Hne].
  - rewrite decide_False; [|tauto]. rewrite IH. by destruct (decide (k' = k)).
  - rewrite decide_True //= IH. destruct (decide (k' = k2)) as [->|]; [by rewrite decide_False|done].
Qed.
End assoc.

(** Turns [H : NoDup l], [l] built from conses, into the inequalities it says. *)
Ltac split_nodup H :=
  unfold e_locs in H; cbn [app] in H;
  rewrite ?NoDup_cons ?not_elem_of_cons ?not_elem_of_app in H; destruct_and? H.

(** ** Segments *)

Section segments.
Implicit Types (h : gmap positive block) (e : ent) (es : list ent) (p n : ptr).

Lemma first_ptr_app es1 es2 n : first_ptr (es1 ++ es2) n = first_ptr es1 (first_ptr es2 n).
Proof. by destruct es1. Qed.

Lemma last_ptr_snoc p es e : last_ptr p (es ++ [e]) = e_ptr e.
Proof. revert p. induction es as [|e' es IH]; intros p; [done|]. apply IH. Qed.

Lemma ents_locs_app es1 es2 : ents_locs (es1 ++ es2) = ents_locs es1 ++ ents_locs es2.
Proof. apply bind_app. Qed.

Lemma ents_locs_cons e es : ents_locs (e :: es) = e_locs e ++ ents_locs es.
Proof. done. Qed.

Lemma seg_app h p es1 es2 n :
  seg h p (es1 ++ es2) n ↔
  seg h p es1 (first_ptr es2 n) ∧ seg h (last_ptr p es1) es2 n.
Proof.
  revert p. induction es1 as [|e es1 IH]; intros p; cbn; [naive_solver|].
  rewrite first_ptr_app IH. naive_solver.
Qed.

Lemma ent_strs_frame h h' e :
  h' !! e_kloc e = h !! e_kloc e → h' !! e_vloc e = h !! e_vloc e →
  ent_strs h e → ent_strs h' e.
Proof. intros Hk Hv [????]. split; by rewrite ?Hk ?Hv. Qed.

(** A segment depends on its own blocks only. *)
Lemma seg_frame h h' p es n :
  (∀ b, b ∈ ents_locs es → h' !! b = h !! b) → seg h p es n → seg h' p es n.
Proof.
  revert p. induction es as [|e es IH]; intros p Hf; [done|].
  rewrite ents_locs_cons in Hf. intros (Hn & Hs & Hseg). split_and!.
  - rewrite Hf //. set_solver.
  - apply (ent_strs_frame h); [apply Hf; set_solver..|done].
  - apply IH; [|done]. intros b Hb. apply Hf. set_solver.
Qed.

Lemma seg_insert h b x p es n :
  b ∉ ents_locs es → seg h p es n → seg (<[b := x]> h) p es n.
Proof.
  intros Hb. apply seg_frame. intros b' Hb'. apply lookup_insert_ne. set_solver.
Qed.

Lemma seg_delete h b p es n :
  b ∉ ents_locs es → seg h p es n → seg (delete b h) p es n.
Proof.
  intros Hb. apply seg_frame. intros b' Hb'. apply lookup_delete_ne. set_solver.
Qed.

Lemma first_ptr_own es n :
  es ≠ [] → ∃ b, first_ptr es n = Ptr b 0 ∧ b ∈ ents_locs es.
Proof.
  destruct es as [|e es]; [done|]. intros _. exists (e_node e). split; [done|].
  rewrite ents_locs_cons. set_solver.
Qed.

Lemma ents_locs_perm es1 e es2 :
  ents_locs (es1 ++ e :: es2) ≡ₚ e_locs e ++ ents_locs es1 ++ ents_locs es2.
Proof. rewrite ents_locs_app ents_locs_cons. apply Permutation_app_swap_app. Qed.

Lemma ents_locs_snoc_nodup es e :
  NoDup (ents_locs (es ++ [e])) →
  (e_node e ∉ ents_locs es) ∧ e_node e ≠ e_kloc e ∧ e_node e ≠ e_vloc e.
Proof.
  intros Hd. rewrite ents_locs_perm app_nil_r in Hd. split_nodup Hd. by split_and!.
Qed.

(** Where the blocks of an entry in the middle are not. *)
Lemma ents_locs_split l es1 e es2 :
  NoDup (l :: ents_locs (es1 ++ e :: es2)) →
  NoDup (e_locs e ++ ents_locs es2) ∧ NoDup (l :: ents_locs (es1 ++ es2)) ∧
  (∀ b, b ∈ l :: ents_locs es1 → b ∉ e_locs e ++ ents_locs es2) ∧
  (∀ b, b ∈ e_locs e → b ∉ l :: ents_locs (es1 ++ es2)).
Proof.
  rewrite !ents_locs_app ents_locs_cons.
  intros (H1 & Hd & H2)%(NoDup_app (l :: ents_locs es1)).
  pose proof H2 as (H3 & Hd2 & H4)%NoDup_app. split_and!; [done| |done|].
  - apply (NoDup_app (l :: ents_locs es1)). split_and!; [done| |done].
    intros b Hb Hb'. apply (Hd b Hb), elem_of_app. by right.
  - intros b Hb [Hb'|Hb']%(elem_of_app (l :: ents_locs es1)); [|by eapply Hd2].
    apply (Hd b Hb'), elem_of_app. by left.
Qed.

Lemma e_node_own es e : e_node e ∈ ents_locs (es ++ [e]).
Proof. rewrite ents_locs_perm. apply elem_of_app. left. apply list_elem_of_here. Qed.

Lemma seg_live h p es n b : seg h p es n → b ∈ ents_locs es → is_Some (h !! b).
Proof.
  revert p. induction es as [|e es IH]; intros p; [set_solver|].
  rewrite ents_locs_cons. intros (Hn & [] & Hseg) [Hb|Hb]%elem_of_app; [|by eapply IH].
  repeat (apply elem_of_cons in Hb as [->|Hb]; [by eauto|]). set_solver.
Qed.

(** Redirecting the pointer out of the end, or out of the start. *)
Lemma seg_set_next h p es e n n' :
  e_node e ∉ ents_locs es → e_node e ≠ e_kloc e → e_node e ≠ e_vloc e →
  seg h p (es ++ [e]) n →
  seg (<[e_node e := BMdc (e_mdc e (last_ptr p es) n')]> h) p (es ++ [e]) n'.
Proof.
  intros Hd Hk Hv. rewrite !seg_app. intros [H1 (Hn & Hs & _)]. cbn. split_and!.
  - by apply seg_insert.
  - by rewrite lookup_insert_eq.
  - apply (ent_strs_frame h); [by rewrite lookup_insert_ne..|done].
  - done.
Qed.

Lemma seg_set_prev h p p' es e n :
  e_node e ∉ ents_locs es → e_node e ≠ e_kloc e → e_node e ≠ e_vloc e →
  seg h p (e :: es) n →
  seg (<[e_node e := BMdc (e_mdc e p' (first_ptr es n))]> h) p' (e :: es) n.
Proof.
  intros Hd Hk Hv (Hn & Hs & Hseg). cbn. split_and!.
  - by rewrite lookup_insert_eq.
  - apply (ent_strs_frame h); [by rewrite lookup_insert_ne..|done].
  - by apply seg_insert.
Qed.

Lemma mlist_frame h h' l es :
  (∀ b, b ∈ l :: ents_locs es → h' !! b = h !! b) → mlist h l es → mlist h' l es.
Proof.
  intros Hf [Hh Hs Hn Hk]. split; [|..|done|done].
  - rewrite Hf //. set_solver.
  - eapply seg_frame; [|done]. set_solver.
Qed.
End segments.

(** Goals [b ∉ ents_locs (e :: es)] from such inequalities. *)
Ltac not_own :=
  rewrite ?ents_locs_app ?ents_locs_cons; unfold e_locs; cbn [app];
  rewrite ?not_elem_of_cons ?not_elem_of_app ?not_elem_of_cons; split_and?;
  first [done|congruence|set_solver].

(** ** Rules of the list functions *)

Section list_rules.
Implicit Types (w : world) (es : list ent) (e : ent) (k : M unit).

Lemma nodup_keys_remove es1 e es2 :
  NoDup (e_key <$> es1 ++ e :: es2) → NoDup (e_key <$> es1 ++ es2).
Proof.
  rewrite !fmap_app fmap_cons !NoDup_app NoDup_cons. intros (?&Hd&?&?).
  split_and!; [done| |done]. intros x Hx Hx'. apply (Hd x Hx). by right.
Qed.

(** The fields of an entry's node. *)
Lemma wp_get_field (f : mdc → ptr) b n w (Q : ptr → world → Prop) :
  heap w !! b = Some (BMdc n) → Q (f n) w →
  wp (n ← load_mdc (Ptr b 0); mret (f n)) w Q.
Proof. intros Hb HQ. by step wp_load_mdc. Qed.

Lemma wp_set_field (f : mdc → mdc) b n w (Q : unit → world → Prop) :
  heap w !! b = Some (BMdc n) → Q tt (with_heap (<[b := BMdc (f n)]> (heap w)) w) →
  wp (n ← load_mdc (Ptr b 0); store_mdc (Ptr b 0) (f n)) w Q.
Proof. intros Hb HQ. step wp_load_mdc; [done|]. by eapply wp_store_mdc. Qed.

(** A string that may be freed, if there is one, and the heap without it. *)
Definition freeable (h : gmap positive block) (p : ptr) : Prop :=
  match p with Null => True | Ptr b 0 => is_Some (h !! b) | _ => False end.
Definition freed (p : ptr) (h : gmap positive block) : gmap positive block :=
  match p with Ptr b _ => delete b h | _ => h end.

Lemma wp_free_str p w (Q : unit → world → Prop) :
  freeable (heap w) p → Q tt (with_heap (freed p (heap w)) w) → wp (when (negb (is_null p)) (free p)) w Q.
Proof.
  destruct p as [|b [| |]|]; try done; cbn [is_null negb when freeable freed].
  - intros _. rewrite with_heap_id. by apply wp_ret.
  - intros [x Hx]. by eapply wp_free.
Qed.

Lemma wp_mdc_destroy_any nd pv nx kp vp w (Q : unit → world → Prop) :
  heap w !! nd = Some (BMdc (Mdc pv nx kp vp)) → freeable (heap w) kp → freeable (freed kp (heap w)) vp →
  ptr_block kp ≠ Some nd → ptr_block vp ≠ Some nd →
  Q tt (with_heap (delete nd (freed vp (freed kp (heap w)))) w) → wp (mdc_destroy (Ptr nd 0)) w Q.
Proof.
  intros Hn Hk Hv Hkn Hvn HQ.
  assert (Hf : ∀ p h, ptr_block p ≠ Some nd → freed p h !! nd = h !! nd).
  { intros p h Hp. destruct p; cbn; [done|apply lookup_delete_ne; cbn in Hp; congruence|done]. }
  rewrite /mdc_destroy /get_key /get_value.
  step wp_get_field; [done|]. cbn [mdc_key]. step wp_free_str; [done|].
  step wp_get_field; [by rewrite /= Hf|]. cbn [mdc_value]. step wp_free_str; [done|].
  eapply wp_free; [by rewrite /= !Hf|done].
Qed.

Lemma wp_mdc_destroy e prev next w (Q : unit → world → Prop) :
  heap w !! e_node e = Some (BMdc (e_mdc e prev next)) → ent_strs (heap w) e →
  NoDup (e_locs e) →
  Q tt (with_heap (delete (e_node e) (delete (e_vloc e) (delete (e_kloc e) (heap w)))) w) →
  wp (mdc_destroy (e_ptr e)) w Q.
Proof.
  intros Hn [Hk Hv _ _] Hnd HQ. split_nodup Hnd.
  eapply wp_mdc_destroy_any; [exact Hn|by eexists| |cbn; congruence|cbn; congruence|done].
  cbn. rewrite lookup_delete_ne //.
Qed.

Lemma wp_add_to_list l nd kp vp es w (Q : unit → world → Prop) :
  heap w !! nd = Some (BMdc (Mdc Null Null kp vp)) → heap w !! l = Some (BList (first_ptr es Null)) →
  seg (heap w) Null es Null → NoDup (l :: nd :: ents_locs es) →
  (∀ h', h' !! l = Some (BList (Ptr nd 0)) →
     h' !! nd = Some (BMdc (Mdc Null (first_ptr es Null) kp vp)) →
     seg h' (Ptr nd 0) es Null →
     (∀ b, b ∉ l :: nd :: ents_locs es → h' !! b = heap w !! b) →
     Q tt (with_heap h' w)) →
  wp (add_to_list (Ptr nd 0) (Ptr l 0)) w Q.
Proof.
  intros Hnd Hl Hseg Hdup HQ.
  rewrite /add_to_list /set_next /set_prev. step wp_load_list; [done|].
  destruct es as [|e es]; cbn [first_ptr is_null negb when].
  - split_nodup Hdup. wp_pure. eapply wp_store_list; [done|]. apply HQ; [by rewrite lookup_insert_eq| |done|].
    + by rewrite lookup_insert_ne.
    + intros b Hb. rewrite lookup_insert_ne //. set_solver.
  - destruct Hseg as (Hn & Hs & Hseg). rewrite ents_locs_cons in Hdup HQ |- *.
    split_nodup Hdup. apply wp_bind. step wp_set_field; [done|].
    eapply wp_set_field; [by rewrite /= lookup_insert_ne|].
    eapply wp_store_list; [by rewrite /= !lookup_insert_ne|]. cbn.
    apply HQ.
    + by rewrite lookup_insert_eq.
    + rewrite lookup_insert_ne // lookup_insert_ne // lookup_insert_eq //.
    + apply seg_insert; [by not_own|]. apply (seg_set_prev _ Null); [done|congruence..|].
      by apply seg_insert; [not_own|].
    + intros b Hb. split_nodup Hb. rewrite !lookup_insert_ne //; congruence.
Qed.

(** The first half of [rm_from_list]: the list head and the previous node stop
    pointing to the entry. *)
Lemma wp_unlink_prev l es1 e es2 k w (Q : unit → world → Prop) :
  mlist (heap w) l (es1 ++ e :: es2) →
  (∀ h', h' !! l = Some (BList (first_ptr (es1 ++ es2) Null)) →
     seg h' Null es1 (first_ptr es2 Null) →
     (∀ b, b ∉ l :: ents_locs es1 → h' !! b = heap w !! b) →
     wp k (with_heap h' w) Q) →
  wp (head ← load_list (Ptr l 0);
      when (ptr_eqb (e_ptr e) head) (next ← get_next (e_ptr e); store_list (Ptr l 0) next) ;;
      prev ← get_prev (e_ptr e);
      when (negb (is_null prev)) (next ← get_next (e_ptr e); set_next prev next) ;;
      k) w Q.
Proof.
  intros [Hl Hseg Hdup _] HQ. rewrite ents_locs_perm in Hdup.
  assert (Hd1 : NoDup (ents_locs es1) ∧ ∀ x, x ∈ ents_locs es1 → x ≠ l ∧ x ≠ e_node e).
  { apply NoDup_cons in Hdup as [Hl1 [_ [Hx Hd]]%NoDup_app].
    apply NoDup_app in Hd as (Hd & _). split; [done|]. intros x Hin. split.
    - intros ->. apply Hl1. rewrite !elem_of_app. auto.
    - intros ->. apply (Hx (e_node e)); [apply list_elem_of_here|]. apply elem_of_app. auto. }
  destruct Hd1 as [Hd1 Hx].
  split_nodup Hdup. apply seg_app in Hseg as (Hseg1 & Hn & Hs & Hseg2).
  rewrite /get_prev /get_next /set_next. step wp_load_list; [done|].
  destruct es1 as [|e1 es1 _] using rev_ind; cbn [app first_ptr last_ptr] in *.
  - rewrite /ptr_eqb /e_ptr Pos.eqb_refl Z.eqb_refl. cbn [andb when]. apply wp_bind.
    step wp_get_field; [done|]. eapply wp_store_list; [done|].
    step wp_get_field; [by rewrite /= lookup_insert_ne|]. cbn [mdc_prev e_mdc is_null negb when].
    wp_pure. apply HQ; [by rewrite lookup_insert_eq|done|].
    intros b Hb. apply lookup_insert_ne. intros <-. apply Hb. left.
  - pose proof (e_node_own es1 e1) as Hown.
    apply ents_locs_snoc_nodup in Hd1 as (?&?&?).
    destruct (first_ptr_own (es1 ++ [e1]) (e_ptr e)) as (b & Hb & Hbin); [by destruct es1|].
    assert (Hl' : ∀ es, first_ptr ((es1 ++ [e1]) ++ es) Null = Ptr b 0).
    { intros es. rewrite first_ptr_app -Hb. by destruct es1. }
    rewrite last_ptr_snoc in Hn Hseg2. rewrite Hl' in Hl HQ |- *.
    destruct (Hx _ Hown) as [? ?], (Hx _ Hbin) as [? ?].
    cbn [ptr_eqb e_ptr]. rewrite (proj2 (Pos.eqb_neq (e_node e) b)); last done. cbn [andb when].
    wp_pure. step wp_get_field; [done|]. cbn [mdc_prev e_mdc is_null negb when].
    apply seg_app in Hseg1 as [Hseg1 (Hn1 & Hs1 & _)]. apply wp_bind.
    step wp_get_field; [done|]. cbn [mdc_next e_mdc]. eapply wp_set_field; [done|].
    apply HQ.
    + by rewrite lookup_insert_ne // Hl'.
    + apply (seg_set_next _ _ es1 e1 (e_ptr e)); [done..|]. by apply seg_app.
    + intros b' Hb'. apply lookup_insert_ne. intros <-. apply Hb'. by right.
Qed.

(** The second half: the next node gets the entry's [prev]. *)
Lemma wp_unlink_next e p es2 k w (Q : unit → world → Prop) :
  heap w !! e_node e = Some (BMdc (e_mdc e p (first_ptr es2 Null))) →
  seg (heap w) (e_ptr e) es2 Null → NoDup (e_locs e ++ ents_locs es2) →
  (∀ h', seg h' p es2 Null → (∀ b, b ∉ ents_locs es2 → h' !! b = heap w !! b) →
     wp k (with_heap h' w) Q) →
  wp (next ← get_next (e_ptr e);
      when (negb (is_null next)) (prev ← get_prev (e_ptr e); set_prev next prev) ;;
      k) w Q.
Proof.
  intros Hn Hseg Hdup HQ. rewrite /get_prev /get_next /set_prev.
  step wp_get_field; [done|]. destruct es2 as [|e2 es2]; cbn [mdc_next e_mdc first_ptr].
  - cbn [is_null negb when]. wp_pure. rewrite -(with_heap_id w). by apply HQ.
  - rewrite ents_locs_cons in Hdup HQ. split_nodup Hdup.
    cbn [is_null negb when]. apply wp_bind. step wp_get_field; [done|]. cbn [mdc_prev e_mdc].
    pose proof Hseg as (Hn2 & Hs2 & Hseg2).
    eapply wp_set_field; [done|]. apply HQ.
    + by apply (seg_set_prev _ (e_ptr e)).
    + intros b Hb. apply lookup_insert_ne. intros <-. apply Hb. left.
Qed.

Lemma wp_rm_from_list l es1 e es2 w (Q : unit → world → Prop) :
  mlist (heap w) l (es1 ++ e :: es2) →
  (∀ h', mlist h' l (es1 ++ es2) →
     (∀ b, b ∉ l :: ents_locs (es1 ++ e :: es2) → h' !! b = heap w !! b) →
     (∀ b, b ∈ e_locs e → h' !! b = None) → Q tt (with_heap h' w)) →
  wp (rm_from_list (e_ptr e) (Ptr l 0)) w Q.
Proof.
  intros Hm HQ. pose proof Hm as [_ Hseg Hdup Hkeys].
  apply seg_app in Hseg as (_ & Hn & Hs & Hseg2).
  pose proof (ents_locs_split _ _ _ _ Hdup) as (Hd & Hdup' & Hd1 & Hde).
  pose proof Hd as (Hnd & Hd2 & _)%NoDup_app.
  assert (Hin : ∀ b, b ∈ e_locs e ++ ents_locs es2 → b ∉ l :: ents_locs es1).
  { intros b Hb Hb'. by apply (Hd1 b). }
  setoid_rewrite elem_of_app in Hin. rewrite /rm_from_list.
  apply (wp_unlink_prev l es1 e es2); [done|]. intros h1 Hl1 Hseg1 Hf1.
  assert (Hse : ∀ h', (∀ b, b ∈ e_locs e → h' !! b = heap w !! b) → ent_strs h' e ∧
      h' !! e_node e = Some (BMdc (e_mdc e (last_ptr Null es1) (first_ptr es2 Null)))).
  { intros h' Hf. rewrite (Hf (e_node e)); [split; [|done]|by left].
    apply (ent_strs_frame (heap w)); [apply Hf|apply Hf|done]; rewrite /e_locs; set_solver. }
  apply (wp_unlink_next e (last_ptr Null es1) es2); cbn [heap with_heap].
  { apply Hse. intros b Hb. apply Hf1, Hin. by left. }
  { eapply seg_frame; [|done]. intros b Hb. apply Hf1, Hin. by right. }
  { done. }
  intros h2 Hseg2' Hf2.
  assert (Hf : ∀ b, b ∉ l :: ents_locs (es1 ++ es2) → h2 !! b = heap w !! b).
  { intros b Hb. rewrite ents_locs_app not_elem_of_cons not_elem_of_app in Hb.
    destruct Hb as (?&?&?). rewrite Hf2 // Hf1 //. by apply not_elem_of_cons. }
  assert (Hm2 : mlist h2 l (es1 ++ es2)).
  { assert (Hf2' : ∀ b, b ∈ l :: ents_locs es1 → h2 !! b = h1 !! b).
    { intros b Hb. apply Hf2. intros Hb'. apply (Hd1 b Hb), elem_of_app. by right. }
    split; [|apply seg_app; split| |].
    - rewrite Hf2'; [done|left].
    - eapply seg_frame; [|done]. intros b Hb. apply Hf2'. by right.
    - done.
    - done.
    - by eapply nodup_keys_remove. }
  destruct (Hse h2) as [Hs2 Hn2]; [by intros b Hb; apply Hf, Hde|].
  eapply wp_mdc_destroy; cbn [heap with_heap]; [done..|].
  assert (Hout : ∀ b, b ∉ e_locs e →
    delete (e_node e) (delete (e_vloc e) (delete (e_kloc e) h2)) !! b = h2 !! b).
  { intros b Hb. rewrite !lookup_delete_ne //; intros <-; apply Hb; rewrite /e_locs; set_solver. }
  apply HQ.
  - eapply mlist_frame; [|done]. intros b Hb. apply Hout. intros Hb'. by apply (Hde b).
  - intros b Hb. rewrite ents_locs_perm in Hb.
    rewrite not_elem_of_cons !not_elem_of_app -not_elem_of_app -ents_locs_app in Hb.
    destruct Hb as (?&?&?). rewrite Hout // Hf //. by apply not_elem_of_cons.
  - intros b Hb. rewrite !lookup_delete_None. rewrite /e_locs in Hb. set_solver.
Qed.

Lemma wp_empty_list_loop fuel l es w (Q : unit → world → Prop) :
  mlist (heap w) l es → (length es < fuel)%nat →
  (∀ h', mlist h' l [] → (∀ b, b ∉ l :: ents_locs es → h' !! b = heap w !! b) →
     (∀ b, b ∈ ents_locs es → h' !! b = None) → Q tt (with_heap h' w)) →
  wp (empty_list_loop fuel (first_ptr es Null) (Ptr l 0)) w Q.
Proof.
  revert w fuel. induction es as [|e es IH]; intros w fuel Hm Hf HQ;
    (destruct fuel as [|fuel]; [cbn in Hf; lia|]); cbn [empty_list_loop first_ptr is_null].
  - apply wp_ret. rewrite -(with_heap_id w). apply HQ; [done..|]. by intros b Hb%elem_of_nil.
  - cbn [e_ptr]. pose proof Hm as [_ (Hn & _ & _) Hdup _]. rewrite /get_next.
    step wp_get_field; [done|]. cbn [mdc_next e_mdc].
    pose proof (ents_locs_split l [] e es Hdup) as (_ & _ & _ & Hde).
    step (wp_rm_from_list l [] e es); [done|]. intros h1 Hm1 Hf1 He1. cbn [app] in *.
    apply (IH _ fuel); [done|cbn in Hf; lia|]. cbn [heap with_heap].
    intros h2 Hm2 Hf2 He2. apply HQ; [done| |].
    + intros b Hb. rewrite Hf2; [by apply Hf1|].
      intros [->|Hb']%elem_of_cons; apply Hb; [left|right]. apply elem_of_app. by right.
    + intros b Hb. destruct (decide (b ∈ ents_locs es)); [by apply He2|].
      rewrite ents_locs_cons in Hb. apply elem_of_app in Hb as [Hb|]; [|done].
      rewrite Hf2; [by apply He1|by apply Hde].
Qed.

(** A list has no more entries than the heap has blocks. *)
Lemma seg_size h p es n :
  seg h p es n → NoDup (ents_locs es) → (length es < S (size h))%nat.
Proof.
  intros Hs Hdup. assert (Hle : list_to_set (ents_locs es) ⊆ dom h).
  { intros b Hb%elem_of_list_to_set. apply elem_of_dom. by eapply seg_live. }
  apply subseteq_size in Hle. rewrite size_list_to_set // size_dom in Hle.
  assert (length es ≤ length (ents_locs es))%nat; [|lia].
  clear. induction es as [|e es IH]; [done|]. rewrite ents_locs_cons length_app /=. lia.
Qed.

Lemma mlist_size h l es : mlist h l es → (length es < S (size h))%nat.
Proof. intros [_ Hs [_ Hdup]%NoDup_cons _]. by eapply seg_size. Qed.

Lemma wp_empty_list l es w (Q : unit → world → Prop) :
  mlist (heap w) l es →
  (∀ h', mlist h' l [] → (∀ b, b ∉ l :: ents_locs es → h' !! b = heap w !! b) →
     (∀ b, b ∈ ents_locs es → h' !! b = None) → Q tt (with_heap h' w)) →
  wp (empty_list (Ptr l 0)) w Q.
Proof.
  intros Hm HQ. rewrite /empty_list /list_head /walk_fuel. cbn [is_null].
  step wp_load_list; [apply (mlist_head _ _ _ Hm)|]. wp_pure.
  eapply wp_empty_list_loop; [done|by eapply mlist_size|done].
Qed.
End list_rules.

(** ** Entries and association lists *)

(** The entry with key [k]. *)
Fixpoint find_ent (k : list Z) (es : list ent) : option ent :=
  match es with
  | [] => None
  | e :: es' => if decide (k = e_key e) then Some e else find_ent k es'
  end.

Definition ent_ptr (o : option ent) : ptr :=
  match o with Some e => e_ptr e | None => Null end.

(** [e] with another value, in another block. *)
Definition set_e_val (e : ent) (b : positive) (v : list Z) : ent :=
  Ent (e_node e) (e_kloc e) b (e_key e) v.

Section assoc.
Implicit Types (es : list ent) (e : ent) (k v : list Z).

Lemma mdcs_keys es : al_keys (mdcs es) = e_key <$> es.
Proof. rewrite /al_keys /mdcs -list_fmap_compose. by apply list_fmap_ext. Qed.

Lemma find_ent_get k es : al_get k (mdcs es) = e_val <$> find_ent k es.
Proof.
  induction es as [|e es IH]; [done|]. cbn. by case_decide.
Qed.

Lemma find_ent_some k es e :
  find_ent k es = Some e → e_key e = k ∧ ∃ es1 es2, es = es1 ++ e :: es2.
Proof.
  induction es as [|e' es IH]; cbn; [done|]. case_decide as Hk.
  - intros [= ->]. split; [done|]. by exists [], es.
  - intros [? (es1 & es2 & ->)]%IH. split; [done|]. by exists (e' :: es1), es2.
Qed.

Lemma find_ent_none k es : find_ent k es = None ↔ k ∉ e_key <$> es.
Proof.
  induction es as [|e es IH]; cbn; [by split; [intros _ ?%elem_of_nil|]|].
  rewrite not_elem_of_cons -IH. case_decide; naive_solver.
Qed.

Lemma keys_middle es1 e es2 :
  NoDup (e_key <$> es1 ++ e :: es2) →
  Forall (λ e', e_key e' ≠ e_key e) es1 ∧ Forall (λ e', e_key e' ≠ e_key e) es2.
Proof.
  rewrite fmap_app fmap_cons NoDup_app NoDup_cons. intros (_ & Hd & Hn & _).
  rewrite !Forall_forall. split; intros e' He' Heq.
  - apply (Hd (e_key e)); [|left]. rewrite -Heq. by apply list_elem_of_fmap_2.
  - apply Hn. rewrite -Heq. by apply list_elem_of_fmap_2.
Qed.

Lemma al_put_new k v es : find_ent k es = None → al_put k v (mdcs es) = (k, v) :: mdcs es.
Proof. rewrite /al_put mdcs_keys => /find_ent_none Hk. by rewrite decide_False. Qed.

Lemma al_put_old es1 e es2 b v :
  NoDup (e_key <$> es1 ++ e :: es2) →
  al_put (e_key e) v (mdcs (es1 ++ e :: es2)) = mdcs (es1 ++ set_e_val e b v :: es2).
Proof.
  intros [H1 H2]%keys_middle. rewrite /al_put mdcs_keys decide_True.
  2: { rewrite fmap_app fmap_cons. apply elem_of_app. right. left. }
  rewrite /mdcs -list_fmap_compose !fmap_app !fmap_cons.
  f_equal; [|f_equal; [by rewrite /= decide_True|]]; apply list_fmap_ext; intros i e' Hi;
    eapply Forall_lookup_1 in Hi; [|done| |done]; cbn in *; by rewrite decide_False.
Qed.

Lemma al_remove_none k es : find_ent k es = None → al_remove k (mdcs es) = mdcs es.
Proof.
  intros Hk%find_ent_none. rewrite /al_remove. apply list_filter_all.
  apply Forall_fmap, Forall_forall. intros e He. cbn. intros <-.
  apply Hk. by apply list_elem_of_fmap_2.
Qed.

Lemma al_remove_middle es1 e es2 :
  NoDup (e_key <$> es1 ++ e :: es2) →
  al_remove (e_key e) (mdcs (es1 ++ e :: es2)) = mdcs (es1 ++ es2).
Proof.
  intros [H1 H2]%keys_middle. rewrite /al_remove /mdcs !fmap_app fmap_cons filter_app.
  rewrite filter_cons_False; [|by cbn; auto]. f_equal; apply list_filter_all; by apply Forall_fmap.
Qed.
End assoc.

(** ** Steps of the thread's list *)

(** Going from [w] to [w'] took the list of the running thread from [lo], [es]
    to [lo'], [es']; it changed no block outside the list, leaked none, and
    changed nothing of another thread and none of the statics of mdclog.c. *)
Record mdc_step (lo : option positive) (es : list ent) (w : world)
    (lo' : option positive) (es' : list ent) (w' : world) : Prop := {
  ms_repr : thread_mdcs w' (self w) lo' es';
  ms_owns : owns_step (footprint lo es) w (footprint lo' es') w';
  ms_tls : ∀ t, t ≠ self w → tls_values (tls w') !! t = tls_values (tls w) !! t;
  ms_cfg : cfg w' = cfg w;
  ms_os : os w' = os w;
  ms_self : self w' = self w
}.

(** Whether there is a list after [get_list], and whether a block was lost. *)
Definition is_list (lo : option positive) : bool := match lo with Some _ => true | None => false end.

Definition make_list (has : bool) : supply (bool * bool) :=
  if has then mret (true, false)
  else
    ok ← draw;
    if (ok : bool) then set ← draw; mret (set, negb set) else mret (false, false).

(** The lost block. *)
Definition lost_list (lost : bool) (b : positive) : gmap positive block :=
  if lost then {[b := BList Null]} else ∅.

(** The same when the call also left blocks [G] behind that are nobody's. *)
Record mdc_give (lo : option positive) (es : list ent) (w : world) (G : gmap positive block)
    (lo' : option positive) (es' : list ent) (w' : world) : Prop := {
  mg_repr : thread_mdcs w' (self w) lo' es';
  mg_owns : owns_step (footprint lo es) w (footprint lo' es' ∪ dom G) w';
  mg_given : G ⊆ heap w';
  mg_apart : footprint lo' es' ## dom G;
  mg_tls : ∀ t, t ≠ self w → tls_values (tls w') !! t = tls_values (tls w) !! t;
  mg_cfg : cfg w' = cfg w;
  mg_os : os w' = os w;
  mg_self : self w' = self w
}.

(** How many allocations it takes to have a list. *)
Definition list_allocs (lo : option positive) : nat := match lo with Some _ => 0 | None => 2 end%nat.

Section steps.
Implicit Types (w : world) (es : list ent) (e : ent) (lo : option positive) (n : nat).

Lemma footprint_live w t lo es b :
  thread_mdcs w t lo es → b ∈ footprint lo es → is_Some (heap w !! b).
Proof.
  rewrite /footprint elem_of_list_to_set. destruct lo as [l|]; intros [_ H]; cbn.
  - destruct H as [_ [Hh Hs _ _]]. intros [->|Hb]%elem_of_cons; [by eauto|].
    by eapply seg_live.
  - destruct H as [_ ->]. by intros ?%elem_of_nil.
Qed.

Lemma footprint_lt w t lo es b :
  wf_heap w → thread_mdcs w t lo es → b ∈ footprint lo es → (b < next w)%positive.
Proof. intros Hw Ht Hb. destruct (footprint_live _ _ _ _ _ Ht Hb). by eapply wf_heap_lt. Qed.

Lemma mdc_step_refl lo es w :
  thread_mdcs w (self w) lo es → wf_heap w → mdc_step lo es w lo es w.
Proof.
  intros Ht Hw. split; [done| |done..]. apply owns_step_refl; [done|].
  intros b. by eapply footprint_live.
Qed.

Lemma mdc_step_trans lo es w lo1 es1 w1 lo2 es2 w2 :
  mdc_step lo es w lo1 es1 w1 → mdc_step lo1 es1 w1 lo2 es2 w2 → mdc_step lo es w lo2 es2 w2.
Proof.
  intros [Hr1 Ho1 Ht1 Hc1 Hs1 Hi1] [Hr2 Ho2 Ht2 Hc2 Hs2 Hi2]. rewrite Hi1 in Hr2 Ht2. split.
  - done.
  - by eapply owns_step_trans.
  - intros t Ht. by rewrite Ht2 // Ht1.
  - congruence.
  - congruence.
  - congruence.
Qed.

Lemma mdc_step_same_heap lo es w lo' es' w1 w2 :
  mdc_step lo es w lo' es' w1 → heap w2 = heap w1 → next w2 = next w1 → same_statics w1 w2 →
  mdc_step lo es w lo' es' w2.
Proof.
  intros [Hr Ho Ht Hc Hs Hi] Hh Hn (Htls & Hcfg & Hos & Hself). split; try congruence.
  - destruct Hr as [Hk Hr]. split; [by rewrite Htls|]. by rewrite Htls Hh.
  - by eapply owns_step_same.
  - intros t Hne. rewrite Htls. by apply Ht.
Qed.

(** A step that leaves the statics alone. *)
Lemma mdc_step_intro l es w es' w' :
  thread_mdcs w (self w) (Some l) es → same_statics w w' → mlist (heap w') l es' →
  owns_step (footprint (Some l) es) w (footprint (Some l) es') w' →
  mdc_step (Some l) es w (Some l) es' w'.
Proof.
  intros (Hk & Hv & _) (Htls & Hcfg & Hos & Hself) Hm Ho. split; try done.
  - split; rewrite Htls; done.
  - by rewrite Htls.
Qed.

(** Another thread's list stays what it is. *)
Lemma mdc_step_other lo es w lo' es' w' t lo2 es2 :
  mdc_step lo es w lo' es' w' → wf_heap w → t ≠ self w → thread_mdcs w t lo2 es2 →
  footprint lo es ## footprint lo2 es2 → thread_mdcs w' t lo2 es2.
Proof.
  intros [[Hk' _] Ho Htls _ _ _] Hw Ht H2 Hd.
  assert (Hf : ∀ b, b ∈ footprint lo2 es2 → heap w' !! b = heap w !! b).
  { intros b Hb. apply (step_frame _ _ _ _ Ho); [|by eapply footprint_lt].
    intros Hb'. by apply (proj1 (elem_of_disjoint _ _) Hd b). }
  destruct H2 as [Hk H2]. split; [done|]. destruct lo2 as [l|]; rewrite Htls //.
  destruct H2 as [Hv Hm]. split; [done|]. eapply mlist_frame; [|done].
  intros b Hb. apply Hf. by apply elem_of_list_to_set.
Qed.

Lemma wp_get_list_some l w (Q : ptr → world → Prop) :
  tls_key (tls w) = true → tls_values (tls w) !! self w = Some (Ptr l 0) →
  Q (Ptr l 0) w → wp get_list w Q.
Proof.
  intros Hk Hv HQ. rewrite /get_list /wp /mbind /M_bind /pthread_getspecific Hk Hv. done.
Qed.

Lemma footprint_fresh w : wf_heap w →
  owns_step ∅ w (footprint (Some (next w)) []) (malloc_world (BList Null) w).
Proof.
  intros Hw. rewrite /footprint /=.
  apply owns_step_malloc. by apply owns_step_refl.
Qed.

(** The state after [get_list] has failed: no list, or one that was allocated but not
    made the value of the key, which is [lost]. *)
Record lost_step (lost : bool) (w w' : world) : Prop := {
  ls_heap : heap w' = lost_list lost (next w) ∪ heap w;
  ls_next : (next w ≤ next w')%positive;
  ls_wf : wf_heap w';
  ls_statics : same_statics w w';
  ls_errno : errno w' = ENOMEM
}.

Lemma lost_step_owns F lost w w' :
  lost_step lost w w' → wf_heap w → (∀ b, b ∈ F → is_Some (heap w !! b)) →
  owns_step F w (F ∪ dom (lost_list lost (next w))) w'.
Proof.
  intros [Hh Hn Hw' _ _] Hw HF.
  assert (Hlost : ∀ b, b ∈ dom (lost_list lost (next w)) → b = next w).
  { destruct lost; cbn; intros b; [rewrite dom_singleton_L|rewrite dom_empty_L]; set_solver. }
  split; [| |done|done].
  - intros b _ Hlt. rewrite Hh lookup_union_r //. apply not_elem_of_dom. intros ->%Hlost. lia.
  - intros b. rewrite elem_of_union Hh lookup_union_is_Some -elem_of_dom. split.
    + intros [Hb|Hb]; [split; [by left|right; by apply HF]|]. split; [right; rewrite (Hlost b) //; lia|by left].
    + intros [Hb [?|Hs]]; [by right|left]. destruct Hb as [?|Hb]; [done|]. rewrite Hw // in Hs.
Qed.

Lemma make_list_none p :
  make_list false p =
    if plan_ok p then ((plan_ok (tail p), negb (plan_ok (tail p))), tail (tail p)) else ((false, false), tail p).
Proof. rewrite /make_list /mbind /supply_bind /draw. by destruct (plan_ok p). Qed.

Lemma mdc_step_give lo es w lo' es' w' : mdc_step lo es w lo' es' w' → mdc_give lo es w ∅ lo' es' w'.
Proof.
  intros [Hr Ho Ht Hc Hs Hi]. split; try done; [by rewrite dom_empty_L right_id_L|apply map_empty_subseteq].
Qed.

Lemma lost_step_give lost w w' :
  thread_mdcs w (self w) None [] → wf_heap w → lost_step lost w w' →
  mdc_give None [] w (lost_list lost (next w)) None [] w'.
Proof.
  intros Ht Hw Hl. pose proof Hl as [Hh _ _ (Htls & Hcfg & Hos & Hself) _].
  split; [by rewrite /thread_mdcs Htls|..]; try done.
  - apply lost_step_owns; [done..|]. by intros b ?%not_elem_of_empty.
  - rewrite Hh. by apply map_union_subseteq_l.
  - by rewrite Htls.
Qed.

(** [get_list] finds or makes the list, or fails. *)
Lemma wp_get_list_any lo es w (Q : ptr → world → Prop) :
  thread_mdcs w (self w) lo es → wf_heap w →
  (∀ l w', (∀ l', lo = Some l' → l = l' ∧ w' = w) → mdc_step lo es w (Some l) es w' →
     (∀ p s, get_cstr (heap w) p = Some s → get_cstr (heap w') p = Some s) →
     make_list (is_list lo) (plan w) = (true, false, plan w') → errno w' = errno w → Q (Ptr l 0) w') →
  (∀ lost w', lo = None → make_list (is_list lo) (plan w) = (false, lost, plan w') → lost_step lost w w' → Q Null w') →
  wp get_list w Q.
Proof.
  intros Ht Hw HQ HN. pose proof (mdc_step_refl _ _ _ Ht Hw) as Hr.
  destruct lo as [l|], Ht as [Hk Hv].
  - eapply wp_get_list_some; [done|apply Hv|]. apply HQ; [|done..]. naive_solver.
  - destruct Hv as [Hv ->]. rewrite /get_list. pose proof (make_list_none (plan w)) as Hm.
    apply wp_bind. rewrite {1}/wp /pthread_getspecific Hk Hv. cbn [is_null].
    step wp_malloc; intros Hp; rewrite Hp in Hm; cbn [is_null].
    2: { wp_pure. apply wp_ret, (HN false); [done|exact Hm|]. split; cbn; [by rewrite left_id_L|lia|done..]. }
    step wp_store_list; [apply lookup_insert_eq|]. cbn. rewrite insert_insert_eq.
    apply wp_bind. rewrite {1}/wp /pthread_setspecific. cbn. rewrite Hk.
    destruct (plan_ok (tail (plan w))) eqn:Hp2; cbn.
    2: { wp_pure. apply wp_ret, (HN true); [done|exact Hm|]. split; cbn; [by rewrite insert_union_singleton_l|lia| |done..].
         by apply (wf_heap_alloc (BList Null) w). }
    apply wp_ret, HQ; [done| | |exact Hm|done].
    + split; cbn; [|rewrite /footprint /=|..]; try done.
      * split; cbn; [done|]. rewrite lookup_insert_eq. split; [done|].
        split; cbn; [by rewrite lookup_insert_eq|done| |constructor].
        constructor; [by intros ?%elem_of_nil|constructor].
      * eapply owns_step_same; [by apply footprint_fresh|done..].
      * intros t Hne. by rewrite lookup_insert_ne.
    + intros p s Hp'. change (get_cstr (heap (malloc_world (BList Null) w)) p = Some s).
      eapply (get_cstr_step ∅ w); [by apply footprint_fresh|done| |done].
      intros b _. apply not_elem_of_empty.
Qed.

Lemma make_list_ok lo n w : allocs_ok (list_allocs lo + n) w →
  (make_list (is_list lo) (plan w)).1 = (true, false) ∧ Forall (λ b, b = true) (take n (make_list (is_list lo) (plan w)).2).
Proof.
  destruct lo; cbn [list_allocs make_list]; [done|].
  rewrite /allocs_ok /mbind /supply_bind /draw. destruct (plan w) as [|b1 [|b2 p]]; cbn.
  - by destruct n.
  - intros [-> _]%Forall_cons. cbn. by destruct n.
  - by intros [-> [-> ?]%Forall_cons]%Forall_cons.
Qed.

(** [get_list] when no allocation fails. *)
Lemma wp_get_list n lo es w (Q : ptr → world → Prop) :
  thread_mdcs w (self w) lo es → wf_heap w → allocs_ok (list_allocs lo + n) w →
  (∀ l w', (∀ l', lo = Some l' → l = l' ∧ w' = w) → mdc_step lo es w (Some l) es w' →
     (∀ p s, get_cstr (heap w) p = Some s → get_cstr (heap w') p = Some s) →
     allocs_ok n w' → errno w' = errno w → Q (Ptr l 0) w') →
  wp get_list w Q.
Proof.
  intros Ht Hw [H1 H2]%make_list_ok HQ. eapply wp_get_list_any; [done|done|..].
  - intros l w' Hs Hst Hstr Hd He. rewrite Hd in H2. by apply HQ.
  - intros lost w' _ Hd _. by rewrite Hd in H1.
Qed.

Lemma search_loop_spec fuel key k p es w (Q : ptr → world → Prop) :
  get_cstr (heap w) key = Some k → seg (heap w) p es Null → (length es < fuel)%nat →
  Q (ent_ptr (find_ent k es)) w → wp (search_loop fuel key (first_ptr es Null)) w Q.
Proof.
  revert p fuel. induction es as [|e es IH]; intros p fuel Hk Hs Hf HQ;
    (destruct fuel as [|fuel]; [cbn in Hf; lia|]); cbn [search_loop first_ptr is_null].
  - by apply wp_ret.
  - destruct Hs as (Hn & Hst & Hs). rewrite /get_key /get_next.
    cbn [e_ptr is_null]. step wp_get_field; [done|]. cbn [mdc_key e_mdc].
    step wp_strcmp; [done|apply get_cstr_block; apply Hst|].
    cbn [find_ent] in HQ. case_decide; cbn [Z.eqb]; [by apply wp_ret|].
    step wp_get_field; [done|]. cbn [mdc_next e_mdc].
    eapply IH; [done|done|cbn in Hf; lia|done].
Qed.

(** [mdclog_internal_search_mdc] finds the entry with the key. *)
Lemma wp_search_any lo es key k w (Q : ptr → world → Prop) :
  thread_mdcs w (self w) lo es → wf_heap w → get_cstr (heap w) key = Some k →
  (∀ l w', (∀ l', lo = Some l' → l = l' ∧ w' = w) → mdc_step lo es w (Some l) es w' →
     (∀ p s, get_cstr (heap w) p = Some s → get_cstr (heap w') p = Some s) →
     make_list (is_list lo) (plan w) = (true, false, plan w') → errno w' = errno w → Q (ent_ptr (find_ent k es)) w') →
  (∀ lost w', lo = None → make_list (is_list lo) (plan w) = (false, lost, plan w') → lost_step lost w w' → Q Null w') →
  wp (mdclog_internal_search_mdc key) w Q.
Proof.
  intros Ht Hw Hk HQ HN. rewrite /mdclog_internal_search_mdc. apply wp_bind.
  eapply wp_get_list_any; [done|done| |]; [|intros lost w' Hlo Hd Hl; by apply wp_ret, (HN lost)].
  intros l w' Hsame Hst Hstr Hd He. cbn [is_null].
  pose proof (ms_repr _ _ _ _ _ _ Hst) as (_ & _ & Hm). rewrite /list_head.
  step wp_load_list; [apply (mlist_head _ _ _ Hm)|]. rewrite /walk_fuel. wp_pure.
  eapply search_loop_spec; [by apply Hstr|apply (mlist_seg _ _ _ Hm)|by eapply mlist_size|].
  by eapply HQ.
Qed.

Lemma wp_search n lo es key k w (Q : ptr → world → Prop) :
  thread_mdcs w (self w) lo es → wf_heap w → allocs_ok (list_allocs lo + n) w →
  get_cstr (heap w) key = Some k →
  (∀ l w', (∀ l', lo = Some l' → l = l' ∧ w' = w) → mdc_step lo es w (Some l) es w' →
     (∀ p s, get_cstr (heap w) p = Some s → get_cstr (heap w') p = Some s) →
     allocs_ok n w' → errno w' = errno w → Q (ent_ptr (find_ent k es)) w') →
  wp (mdclog_internal_search_mdc key) w Q.
Proof.
  intros Ht Hw [H1 H2]%make_list_ok Hk HQ. eapply wp_search_any; [done..| |].
  - intros l w' Hs Hst Hstr Hd He. rewrite Hd in H2. by eapply HQ.
  - intros lost w' _ Hd _. by rewrite Hd in H1.
Qed.

(** Where there is a list, it is searched. *)
Lemma wp_search_some l es key k w (Q : ptr → world → Prop) :
  thread_mdcs w (self w) (Some l) es → wf_heap w → get_cstr (heap w) key = Some k →
  Q (ent_ptr (find_ent k es)) w → wp (mdclog_internal_search_mdc key) w Q.
Proof.
  intros Ht Hw Hk HQ. eapply wp_search_any; [done..| |by intros]. intros l' w' Hs _ _ _ _.
  by destruct (Hs l) as [_ ->].
Qed.
End steps.

(** ** Rules of put *)

Section put_rules.
Implicit Types (w : world) (es : list ent) (e : ent) (lo : option positive) (n : nat).

Lemma malloc_world_store x y w :
  with_heap (<[next w := y]> (heap (malloc_world x w))) (malloc_world x w) = malloc_world y w.
Proof. rewrite /malloc_world /alloc_world /with_heap /with_next /with_plan /=. by rewrite insert_insert_eq. Qed.

Lemma wp_alloc_entry w (Q : ptr → world → Prop) :
  (plan_ok (plan w) = true → Q (Ptr (next w) 0) (malloc_world (BMdc (Mdc Null Null Null Null)) w)) →
  (plan_ok (plan w) = false → Q Null (enomem_world w)) →
  wp alloc_entry w Q.
Proof.
  intros H1 H2. rewrite /alloc_entry. step wp_malloc; [|by intros; apply wp_ret, H2].
  intros Hp. cbn [is_null negb when]. step wp_store_mdc; [apply lookup_insert_eq|].
  rewrite malloc_world_store. by apply wp_ret, H1.
Qed.

Lemma wp_escape_and_copy value v w (Q : ptr → world → Prop) :
  get_cstr (heap w) value = Some v → zlen (esc v) + 1 < 2 ^ 64 → wf_heap w →
  (plan_ok (plan w) = true → Q (Ptr (next w) 0) (malloc_world (cstr_block (esc v)) w)) →
  (plan_ok (plan w) = false → Q Null (enomem_world w)) →
  wp (escape_and_copy value) w Q.
Proof.
  intros Hv Hl Hw H1 H2. rewrite /escape_and_copy. step wp_escaped_size; [done..|].
  step wp_malloc; [|by intros; apply wp_ret, H2]. intros Hp. cbn [is_null].
  pose proof (zlen_nonneg (esc v)).
  assert (Hb : ptr_block value ≠ Some (next w)).
  { intros Hb. destruct value as [|b o|]; cbn in Hb; simplify_eq.
    destruct (get_cstr_live _ _ _ _ Hv) as [x Hx]. rewrite wf_heap_fresh // in Hx. }
  step wp_escape; [apply lookup_insert_eq|by cbn; rewrite get_cstr_insert_ne|done|lia|lia|zl|].
  intros cs' Hso Hh. cbn [fst]. rewrite malloc_world_store.
  replace (zlen (esc v) + 1 - 1) with (zlen (esc v)) in Hh by lia.
  rewrite esc_take_all // in Hh.
  rewrite (holds_all cs' (esc v ++ [NUL])) //; [by apply wp_ret, H1|].
  apply same_outside_zlen in Hso. zl.
Qed.

(** What becomes of a put: the value is stored; there is no list, and a block may be
    lost; there is no entry; the entry is torn down while it is in the list. *)
Inductive put_result :=
| Stored
| NoList (lost : bool)
| NoRoom
| Torn.

(** The copies of a put into a list that has the key or not. *)
Definition put_copies (found : bool) : supply put_result :=
  if found then v ← draw; mret (if v : bool then Stored else Torn)
  else
    n ← draw;
    if (n : bool) then k ← draw; v ← draw; mret (if (k : bool) && v then Stored else Torn)
    else mret NoRoom.

Definition put_outcome (has found : bool) : supply put_result :=
  '(has', lost) ← make_list has;
  if (has' : bool) then put_copies found else mret (NoList lost).

Lemma put_outcome_ok lo found w : allocs_ok (list_allocs lo + 3) w → (put_outcome (is_list lo) found (plan w)).1 = Stored.
Proof.
  intros [H1 H2]%make_list_ok. rewrite /put_outcome. destruct (make_list (is_list lo) (plan w)) as [hl p] eqn:Hd. cbn in H1, H2.
  subst hl. rewrite (supply_bind_eq _ _ _ _ _ Hd) /put_copies /mbind /supply_bind /draw /=.
  destruct found, p as [|[] [|[] [|[] ?]]]; cbn; try done; repeat (apply Forall_cons in H2 as [? H2]); done.
Qed.

(** The last part of put, on a node [nd] without a value: it gets one. *)
Definition put_value (mdc value : ptr) : M Z :=
  v ← escape_and_copy value;
  set_value mdc v ;;
  k ← get_key mdc;
  v ← get_value mdc;
  if negb (is_null k) && negb (is_null v) then mret 0
  else mdc_destroy mdc ;; set_errno ENOMEM ;; mret (-1).

Lemma wp_put_value nd pv nx k v0 value v w (Q : Z → world → Prop) :
  heap w !! nd = Some (BMdc (Mdc pv nx k v0)) → is_null k = false →
  get_cstr (heap w) value = Some v → zlen (esc v) + 1 < 2 ^ 64 → wf_heap w →
  plan_ok (plan w) = true →
  Q 0 (with_heap (<[nd := BMdc (Mdc pv nx k (Ptr (next w) 0))]>
         (heap (malloc_world (cstr_block (esc v)) w))) (malloc_world (cstr_block (esc v)) w)) →
  wp (put_value (Ptr nd 0) value) w Q.
Proof.
  intros Hn Hk Hv Hl Hw Hp HQ. pose proof (wf_heap_ne _ _ _ Hw Hn) as Hne.
  rewrite /put_value /set_value /get_key /get_value.
  step wp_escape_and_copy; [done..|intros _|congruence].
  step wp_set_field; [by rewrite /= lookup_insert_ne|].
  step wp_get_field; [apply lookup_insert_eq|]. step wp_get_field; [apply lookup_insert_eq|].
  cbn [mdc_prev mdc_next mdc_key mdc_value is_null]. rewrite Hk. by apply wp_ret.
Qed.

Lemma footprint_middle l es1 e es2 :
  footprint (Some l) (es1 ++ e :: es2) =
  {[e_node e; e_kloc e; e_vloc e]} ∪ footprint (Some l) (es1 ++ es2).
Proof.
  rewrite /footprint /= (list_to_set_perm_L _ _ (ents_locs_perm es1 e es2)) ents_locs_app /=.
  set_solver.
Qed.

(** Without memory for the key or for the value the node is freed. *)
Lemma wp_put_value_torn nd pv nx kp v0 value v w (Q : Z → world → Prop) :
  heap w !! nd = Some (BMdc (Mdc pv nx kp v0)) → freeable (heap w) kp → ptr_block kp ≠ Some nd →
  is_null kp = true ∨ plan_ok (plan w) = false →
  get_cstr (heap w) value = Some v → zlen (esc v) + 1 < 2 ^ 64 → wf_heap w →
  (∀ w', heap w' !! nd = None →
     (∀ b, b ≠ nd → ptr_block kp ≠ Some b → (b < next w)%positive → heap w' !! b = heap w !! b) →
     same_statics w w' → errno w' = ENOMEM → plan w' = tail (plan w) → Q (-1) w') →
  wp (put_value (Ptr nd 0) value) w Q.
Proof.
  intros Hn Hk Hkn Hp Hv Hl Hw HQ. pose proof (wf_heap_ne _ _ _ Hw Hn) as Hne.
  rewrite /put_value /set_value /get_key /get_value.
  step wp_escape_and_copy; [done..|intros Hok|intros Hok];
    (step wp_set_field; [by rewrite /= ?lookup_insert_ne|]);
    cbn [mdc_prev mdc_next mdc_key];
    (step wp_get_field; [apply lookup_insert_eq|]); (step wp_get_field; [apply lookup_insert_eq|]);
    cbn [mdc_key mdc_value is_null negb andb].
  - destruct Hp as [Hnull|Hp]; [|congruence]. destruct kp; try done. cbn [is_null negb andb].
    apply wp_bind. eapply wp_mdc_destroy_any; [apply lookup_insert_eq|done| |done|cbn; congruence|].
    { cbn. rewrite lookup_insert_ne // lookup_insert_eq. by eauto. }
    wp_pure. apply wp_ret, HQ; cbn; [apply lookup_delete_eq| |done..].
    intros b Hb _ Hlt. rewrite lookup_delete_ne // lookup_delete_ne; [|lia]. rewrite lookup_insert_ne //.
    rewrite lookup_insert_ne //. lia.
  - rewrite andb_false_r. apply wp_bind. eapply wp_mdc_destroy_any; [apply lookup_insert_eq| |done|done|done|].
    { destruct kp as [|kl [| |]|]; try done. cbn in Hkn |- *. rewrite lookup_insert_ne //. congruence. }
    wp_pure. apply wp_ret, HQ; cbn; [apply lookup_delete_eq| |done..].
    intros b Hb Hkb Hlt. rewrite lookup_delete_ne //. destruct kp; cbn in Hkb |- *;
      rewrite ?lookup_delete_ne ?lookup_insert_ne //; congruence.
Qed.

(** The list of the thread has a node that has been freed, where the entry of [k] was
    or was to be. *)
Definition torn (w : world) (k : list Z) : Prop :=
  ∃ l es nd, tls_key (tls w) = true ∧ tls_values (tls w) !! self w = Some (Ptr l 0) ∧
    heap w !! l = Some (BList (first_ptr es (Ptr nd 0))) ∧ seg (heap w) Null es (Ptr nd 0) ∧
    NoDup (ents_locs es) ∧ heap w !! nd = None ∧ k ∉ e_key <$> es.

(** The same where the node is the head of the list. *)
Definition torn_head (w : world) : Prop :=
  ∃ l nd, tls_key (tls w) = true ∧ tls_values (tls w) !! self w = Some (Ptr l 0) ∧
    heap w !! l = Some (BList (Ptr nd 0)) ∧ heap w !! nd = None.

Lemma torn_head_torn w k : torn_head w → torn w k.
Proof.
  intros (l & nd & Hkey & Hval & Hl & Hnd). exists l, [], nd. split_and!; try done; [constructor|by intros ?%elem_of_nil].
Qed.

Lemma torn_head_search w key : torn_head w → mdclog_internal_search_mdc key w = Stop UndefinedBehaviour.
Proof.
  intros (l & nd & Hkey & Hval & Hl & Hnd).
  assert (Hg : get_list w = Ok (Ptr l 0) w).
  { by rewrite /get_list /mbind /M_bind /pthread_getspecific Hkey Hval. }
  assert (Hh : list_head (Ptr l 0) w = Ok (Ptr nd 0) w) by by rewrite /list_head /load_list /= Hl.
  rewrite /mdclog_internal_search_mdc (bind_ok _ _ _ _ _ Hg) /= (bind_ok _ _ _ _ _ Hh).
  apply (bind_stop (get_key (Ptr nd 0))), bind_stop. by rewrite /load_mdc /= Hnd.
Qed.

Lemma search_loop_torn fuel key k p es nd w :
  get_cstr (heap w) key = Some k → seg (heap w) p es (Ptr nd 0) → (length es < fuel)%nat →
  heap w !! nd = None → k ∉ e_key <$> es →
  search_loop fuel key (first_ptr es (Ptr nd 0)) w = Stop UndefinedBehaviour.
Proof.
  revert p fuel. induction es as [|e es IH]; intros p fuel Hk Hs Hf Hnd Hn;
    (destruct fuel as [|fuel]; [cbn in Hf; lia|]); cbn [search_loop first_ptr is_null].
  - apply (bind_stop (get_key (Ptr nd 0))), bind_stop. by rewrite /load_mdc /= Hnd.
  - destruct Hs as (He & [Hek _ Hks _] & Hs). apply not_elem_of_cons in Hn as [Hne Hn].
    assert (Hgk : get_key (e_ptr e) w = Ok (Ptr (e_kloc e) 0) w).
    { by rewrite /get_key /mbind /M_bind /load_mdc /= He. }
    assert (Hgn : get_next (e_ptr e) w = Ok (first_ptr es (Ptr nd 0)) w).
    { by rewrite /get_next /mbind /M_bind /load_mdc /= He. }
    assert (Hc : ∃ c, strcmp key (Ptr (e_kloc e) 0) w = Ok c w ∧ c ≠ 0).
    { destruct (proj1 (wp_run (strcmp key (Ptr (e_kloc e) 0)) w (λ c w', w' = w ∧ c ≠ 0))) as (c & ? & ? & -> & ?); [|by eauto].
      eapply wp_strcmp; [done|by apply get_cstr_block|]. by rewrite decide_False. }
    destruct Hc as (c & Hc & Hc0). cbn [e_ptr is_null]. rewrite (bind_ok _ _ _ _ _ Hgk) (bind_ok _ _ _ _ _ Hc).
    destruct (Z.eqb_spec c 0); [done|]. rewrite (bind_ok _ _ _ _ _ Hgn). eapply IH; [done|done|cbn in Hf; lia|done..].
Qed.

(** Whoever looks for the key again reads freed memory. *)
Lemma torn_search key k w :
  torn w k → get_cstr (heap w) key = Some k → mdclog_internal_search_mdc key w = Stop UndefinedBehaviour.
Proof.
  intros (l & es & nd & Hkey & Hval & Hl & Hs & Hd & Hnd & Hn) Hk.
  assert (Hg : get_list w = Ok (Ptr l 0) w).
  { by rewrite /get_list /mbind /M_bind /pthread_getspecific Hkey Hval. }
  assert (Hh : list_head (Ptr l 0) w = Ok (first_ptr es (Ptr nd 0)) w) by by rewrite /list_head /load_list /= Hl.
  rewrite /mdclog_internal_search_mdc (bind_ok _ _ _ _ _ Hg) /= (bind_ok _ _ _ _ _ Hh) /walk_fuel.
  rewrite {1}/mbind {1}/M_bind {1}/gets. eapply search_loop_torn; [done|done|by eapply seg_size|done..].
Qed.

(** Replacing the value of an entry. *)
Lemma mlist_set_val h h' l es1 e es2 b v :
  mlist h l (es1 ++ e :: es2) → b ∉ l :: ents_locs (es1 ++ e :: es2) → is_str v →
  h' !! e_node e = Some (BMdc (e_mdc (set_e_val e b v) (last_ptr Null es1) (first_ptr es2 Null))) →
  h' !! b = Some (cstr_block v) →
  (∀ b', b' ∈ l :: ents_locs (es1 ++ e :: es2) → b' ≠ e_node e → b' ≠ e_vloc e → h' !! b' = h !! b') →
  mlist h' l (es1 ++ set_e_val e b v :: es2).
Proof.
  intros [Hh Hseg Hdup Hkeys] Hb Hv Hn Hbv Hf. rewrite first_ptr_app in Hh.
  pose proof (ents_locs_split _ _ _ _ Hdup) as (Hd & Hdup' & Hd1 & Hde).
  pose proof Hd as (Hnd & Hd2 & _)%NoDup_app.
  rewrite ents_locs_perm not_elem_of_cons !not_elem_of_app in Hb. destruct Hb as (Hbl & Hbe & Hb1 & Hb2).
  assert (Hin : ∀ b', b' ∈ l :: ents_locs (es1 ++ es2) → h' !! b' = h !! b').
  { intros b' Hb'. assert (b' ∉ e_locs e) as Hnb by (intros ?; by apply (Hde b')).
    rewrite /e_locs !not_elem_of_cons in Hnb. destruct Hnb as (?&?&?&_). apply Hf; [|done..].
    rewrite elem_of_cons ents_locs_perm !elem_of_app.
    rewrite elem_of_cons ents_locs_app elem_of_app in Hb'. tauto. }
  rewrite ents_locs_app in Hin. setoid_rewrite elem_of_cons in Hin. setoid_rewrite elem_of_app in Hin.
  apply seg_app in Hseg as (Hs1 & Hne & [Hek Hev Hks Hvs] & Hs2). split.
  - rewrite first_ptr_app. cbn [first_ptr e_ptr set_e_val e_node].
    rewrite Hin; [done|by left].
  - apply seg_app. split; [|split; [|split; [split|]]]; cbn [set_e_val e_node e_kloc e_vloc e_key e_val]; try done.
    + eapply seg_frame; [|done]. intros b' Hb'. apply Hin. tauto.
    + unfold e_locs in Hnd. split_nodup Hnd. rewrite Hf //.
      rewrite elem_of_cons ents_locs_perm elem_of_app /e_locs. set_solver.
    + eapply seg_frame; [|done]. intros b' Hb'. apply Hin. tauto.
  - rewrite ents_locs_perm in Hdup. rewrite ents_locs_perm.
    unfold e_locs in Hdup, Hbe |- *. cbn [app set_e_val e_node e_kloc e_vloc] in *.
    rewrite !not_elem_of_cons in Hbe.
    rewrite -> !NoDup_cons, !not_elem_of_cons, !not_elem_of_app in Hdup |- *.
    destruct_and! Hdup. destruct_and! Hbe. split_and!; try done; congruence.
  - rewrite fmap_app fmap_cons. by rewrite fmap_app fmap_cons in Hkeys.
Qed.

Lemma locs_lt l es w b :
  wf_heap w → thread_mdcs w (self w) (Some l) es → b ∈ l :: ents_locs es → (b < next w)%positive.
Proof.
  intros Hw Ht Hb. eapply footprint_lt; [done..|]. by apply elem_of_list_to_set.
Qed.

Lemma footprint_set_val l es1 e es2 b v :
  NoDup (l :: ents_locs (es1 ++ e :: es2)) →
  {[b]} ∪ footprint (Some l) (es1 ++ e :: es2) ∖ {[e_vloc e]} =
  footprint (Some l) (es1 ++ set_e_val e b v :: es2).
Proof.
  intros Hd. rewrite ents_locs_perm -ents_locs_app in Hd. rewrite !footprint_middle.
  assert (e_vloc e ∉ footprint (Some l) (es1 ++ es2)) as Hv.
  { rewrite /footprint elem_of_list_to_set /= elem_of_cons. split_nodup Hd.
    intros [?|?]; congruence. }
  split_nodup Hd. cbn [set_e_val e_node e_kloc e_vloc].
  generalize dependent (footprint (Some l) (es1 ++ es2)). intros G HG. apply set_eq. intros b'.
  rewrite !elem_of_union elem_of_difference !elem_of_union !elem_of_singleton.
  destruct (decide (b' = e_vloc e)) as [->|]; intuition congruence.
Qed.

(** Replacing a value that exists. *)
Lemma wp_put_found l es1 e es2 value v w (Q : Z → world → Prop) :
  thread_mdcs w (self w) (Some l) (es1 ++ e :: es2) → wf_heap w → plan_ok (plan w) = true →
  get_cstr (heap w) value = Some v → outside (footprint (Some l) (es1 ++ e :: es2)) value →
  zlen (esc v) + 1 < 2 ^ 64 →
  (∀ b w', mdc_step (Some l) (es1 ++ e :: es2) w
       (Some l) (es1 ++ set_e_val e b (esc v) :: es2) w' → errno w' = errno w →
     plan w' = tail (plan w) → Q 0 w') →
  wp (mdc ← (v ← get_value (e_ptr e); free v ;; mret (e_ptr e));
      if is_null mdc then set_errno ENOMEM ;; mret (-1) else put_value mdc value) w Q.
Proof.
  intros Ht Hw Hp Hv Hout Hl HQ. pose proof Ht as (_ & _ & Hm).
  pose proof Hm as [_ Hs Hdup _]. pose proof Hdup as Hdup'.
  apply seg_app in Hs as (_ & Hn & [Hek Hev _ _] & _).
  rewrite ents_locs_perm in Hdup'. split_nodup Hdup'.
  set (F := footprint (Some l) (es1 ++ e :: es2)) in *.
  assert (Hf : e_vloc e ∈ F ∧ e_node e ∈ F) by (rewrite /F footprint_middle; set_solver).
  destruct Hf as [HvF HnF].
  assert (Ho1 : owns_step F w F w).
  { apply owns_step_refl; [done|]. intros b. by eapply footprint_live. }
  rewrite /get_value. apply wp_bind. step wp_get_field; [done|]. cbn [mdc_value e_mdc].
  step wp_free; [done|]. apply wp_ret. cbn [is_null e_ptr].
  apply (owns_step_free _ _ _ _ _ Ho1) in HvF as Ho2. set (w1 := with_heap _ _) in *.
  assert (Hv1 : get_cstr (heap w1) value = Some v) by by eapply get_cstr_step.
  eapply wp_put_value; [by rewrite /= lookup_delete_ne|done|done|done|apply Ho2|done|].
  apply (owns_step_malloc _ _ _ _ (cstr_block (esc v))) in Ho2 as Ho3.
  assert (HnF' : e_node e ∈ {[next w1]} ∪ F ∖ {[e_vloc e]}).
  { apply elem_of_union. right. apply elem_of_difference.
    split; [done|]. rewrite elem_of_singleton. congruence. }
  eapply (owns_step_store _ _ _ _ _ (BMdc _) Ho3) in HnF' as Ho4.
  assert (Hnew : ∀ b, b ∈ l :: ents_locs (es1 ++ e :: es2) → b ≠ next w).
  { intros b Hb. pose proof (locs_lt _ _ _ _ Hw Ht Hb). cbn. lia. }
  apply (HQ (next w)); [|done..]. apply mdc_step_intro; [done|done| |].
  - eapply mlist_set_val; [exact Hm| |apply esc_is_str| | |]; cbn [heap with_heap malloc_world alloc_world with_next with_plan].
    + intros Hb. by apply (Hnew (next w)).
    + by rewrite lookup_insert_eq.
    + rewrite lookup_insert_ne; [by rewrite lookup_insert_eq|].
      apply Hnew. rewrite elem_of_cons ents_locs_perm. right. left.
    + intros b Hb Hb1 Hb2. rewrite lookup_insert_ne; [|congruence].
      rewrite lookup_insert_ne; [|apply not_eq_sym, Hnew, Hb]. by rewrite lookup_delete_ne; [|congruence].
  - rewrite -(footprint_set_val _ _ _ _ (next w)) //.
Qed.

Lemma mlist_cons h l nd kl vl k v es :
  h !! l = Some (BList (Ptr nd 0)) →
  h !! nd = Some (BMdc (Mdc Null (first_ptr es Null) (Ptr kl 0) (Ptr vl 0))) →
  h !! kl = Some (cstr_block k) → h !! vl = Some (cstr_block v) → is_str k → is_str v →
  seg h (Ptr nd 0) es Null → NoDup (l :: nd :: kl :: vl :: ents_locs es) →
  NoDup (k :: (e_key <$> es)) → mlist h l (Ent nd kl vl k v :: es).
Proof. intros Hl Hn Hk Hv Hks Hvs Hs Hd Hdk. by split. Qed.

(** A list block with a new node [nd] in front of the entries, its value unset. *)
Record new_node (h : gmap positive block) (l nd kl : positive) (k : list Z) (es : list ent) : Prop := {
  nn_list : h !! l = Some (BList (Ptr nd 0));
  nn_node : h !! nd = Some (BMdc (Mdc Null (first_ptr es Null) (Ptr kl 0) Null));
  nn_key : h !! kl = Some (cstr_block k);
  nn_seg : seg h (Ptr nd 0) es Null;
  nn_nodup : NoDup (l :: nd :: kl :: ents_locs es)
}.

Lemma wp_new_node l es key k w (Q : ptr → world → Prop) :
  thread_mdcs w (self w) (Some l) es → wf_heap w →
  plan_ok (plan w) = true → plan_ok (tail (plan w)) = true →
  get_cstr (heap w) key = Some k → outside (footprint (Some l) es) key →
  (∀ nd kl w', new_node (heap w') l nd kl k es →
     owns_step (footprint (Some l) es) w ({[kl]} ∪ ({[nd]} ∪ footprint (Some l) es)) w' →
     same_statics w w' → errno w' = errno w → plan w' = tail (tail (plan w)) → Q (Ptr nd 0) w') →
  wp (mdc ← alloc_entry;
      if is_null mdc then mret Null
      else
        kp ← strdup key;
        set_key mdc kp ;;
        add_to_list mdc (Ptr l 0) ;;
        mret mdc) w Q.
Proof.
  intros Ht Hw Hp1 Hp2 Hk Hko HQ. pose proof Ht as (_ & _ & Hm).
  pose proof Hm as [Hh Hs Hdup _]. set (F := footprint (Some l) es) in *.
  assert (Ho1 : owns_step F w F w).
  { apply owns_step_refl; [done|]. intros b. by eapply footprint_live. }
  assert (Hnew : ∀ b, b ∈ l :: ents_locs es → (b < next w)%positive) by (intros b; by apply locs_lt).
  assert (HlF : ∀ b, b ∈ l :: ents_locs es → b ∈ F) by (intros b Hb; by apply elem_of_list_to_set).
  step wp_alloc_entry; [intros _|congruence]. cbn [is_null].
  apply (owns_step_malloc _ _ _ _ (BMdc (Mdc Null Null Null Null))) in Ho1 as Ho2.
  set (w1 := malloc_world _ w) in *.
  step wp_strdup; [by eapply (get_cstr_step F w)|intros _|intros ?; cbn in *; congruence].
  apply (owns_step_malloc _ _ _ _ (cstr_block k)) in Ho2 as Ho3. set (w2 := malloc_world _ w1) in *.
  rewrite /set_key. step wp_set_field.
  { cbn. rewrite lookup_insert_ne; [apply lookup_insert_eq|lia]. }
  cbn [mdc_prev mdc_next mdc_value].
  set (F' := {[next w1]} ∪ ({[next w]} ∪ F)) in *. assert (HnF : next w ∈ F') by set_solver.
  assert (HF : ∀ b, b ∈ F → b ∈ F') by (intros b Hb; by do 2 apply elem_of_union_r).
  eapply (owns_step_store _ _ _ _ _ (BMdc (Mdc Null Null (Ptr (next w1) 0) Null)) Ho3) in HnF as Ho4.
  set (w3 := with_heap _ w2) in *.
  assert (Hold : ∀ b, (b < next w)%positive → heap w3 !! b = heap w !! b).
  { intros b Hb. cbn. rewrite !lookup_insert_ne //; lia. }
  assert (Hdup' : NoDup (l :: next w :: next w1 :: ents_locs es)).
  { apply NoDup_cons in Hdup as [Hl1 Hdup]. pose proof (Hnew l ltac:(left)) as Hl.
    assert (∀ x, (next w ≤ x)%positive → x ∉ ents_locs es).
    { intros x Hx Hb. pose proof (Hnew x ltac:(by right)). lia. }
    rewrite !NoDup_cons !not_elem_of_cons. cbn. split_and!; try done; first [lia|auto with lia]. }
  step (wp_add_to_list l (next w) (Ptr (next w1) 0) Null es);
    [apply lookup_insert_eq|rewrite Hold; [done|]; apply Hnew; left| | |].
  { eapply seg_frame; [|done]. intros b Hb. apply Hold, Hnew. by right. }
  { split_nodup Hdup'. by rewrite !NoDup_cons not_elem_of_cons. }
  intros h4 Hl4 Hn4 Hs4 Hf4. apply wp_ret, (HQ _ (next w1)); [split; try done| |done..].
  - rewrite Hf4; [|by split_nodup Hdup'; rewrite !not_elem_of_cons; split_and!; try done; congruence].
    cbn. rewrite lookup_insert_ne; [|lia]. apply lookup_insert_eq.
  - eapply owns_step_bulk; [done| |done|].
    + intros b Hb. apply Hf4. intros Hin. apply Hb.
      apply elem_of_cons in Hin as [->|[->|Hin]%elem_of_cons]; [apply HF, HlF; left|done|].
      by apply HF, HlF; right.
    + intros b Hb. split; [intros _|done].
      destruct (decide (b ∈ l :: next w :: ents_locs es)) as [Hin|Hin];
        [|rewrite Hf4 //; by eapply owns_step_live].
      apply elem_of_cons in Hin as [->|[->|Hin]%elem_of_cons]; [by eauto..|]. by eapply seg_live.
Qed.

(** A new entry in front of the list. *)
Lemma wp_put_new l es key k value v w (Q : Z → world → Prop) :
  thread_mdcs w (self w) (Some l) es → wf_heap w →
  plan_ok (plan w) = true → plan_ok (tail (plan w)) = true → plan_ok (tail (tail (plan w))) = true →
  find_ent k es = None → get_cstr (heap w) key = Some k → outside (footprint (Some l) es) key →
  get_cstr (heap w) value = Some v → outside (footprint (Some l) es) value →
  zlen (esc v) + 1 < 2 ^ 64 →
  (∀ e w', e_pair e = (k, esc v) → mdc_step (Some l) es w (Some l) (e :: es) w' →
     errno w' = errno w → plan w' = tail (tail (tail (plan w))) → Q 0 w') →
  wp (mdc ← (mdc ← alloc_entry;
             if is_null mdc then mret Null
             else
               kp ← strdup key;
               set_key mdc kp ;;
               add_to_list mdc (Ptr l 0) ;;
               mret mdc);
      if is_null mdc then set_errno ENOMEM ;; mret (-1) else put_value mdc value) w Q.
Proof.
  intros Ht Hw Hp1 Hp2 Hp3 Hfk Hk Hko Hv Hvo Hl HQ.
  pose proof Ht as (_ & _ & Hm).
  step wp_new_node; [done..|]. intros nd kl w1 [Hl1 Hn1 Hk1 Hs1 Hd1] Ho1 Hst He1 Hpl.
  cbn [is_null]. assert (Hval : get_cstr (heap w1) value = Some v) by by eapply get_cstr_step.
  eapply wp_put_value; [exact Hn1|done|exact Hval|done|apply Ho1|by rewrite Hpl|].
  set (F := footprint (Some l) es) in *. set (F1 := {[kl]} ∪ ({[nd]} ∪ F)) in *.
  assert (HF1 : ∀ b, b ∈ l :: nd :: kl :: ents_locs es → b ∈ F1).
  { intros b. rewrite /F1 /F /footprint !elem_of_cons !elem_of_union elem_of_list_to_set.
    rewrite !elem_of_singleton. intros [->|[->|[->|Hb]]]; by eauto. }
  assert (Hne : ∀ b, b ∈ l :: nd :: kl :: ents_locs es → b ≠ next w1).
  { intros b Hb%HF1. pose proof (owns_step_lt _ _ _ _ _ Ho1 Hb). lia. }
  apply (owns_step_malloc _ _ _ _ (cstr_block (esc v))) in Ho1 as Ho2.
  assert (HnF : nd ∈ {[next w1]} ∪ F1) by (apply elem_of_union_r, HF1; right; left).
  eapply (owns_step_store _ _ _ _ _ (BMdc _) Ho2) in HnF as Ho3.
  pose proof Hd1 as Hd1'. split_nodup Hd1'.
  apply (HQ (Ent nd kl (next w1) k (esc v))); [done| |done|by rewrite -Hpl].
  apply mdc_step_intro; [done|by apply same_statics_trans with w1| |].
  - assert (Hkeep : ∀ b, b ∈ l :: nd :: kl :: ents_locs es → b ≠ nd →
      <[nd := BMdc (Mdc Null (first_ptr es Null) (Ptr kl 0) (Ptr (next w1) 0))]>
        (<[next w1 := cstr_block (esc v)]> (heap w1)) !! b = heap w1 !! b).
    { intros b Hb Hbn. rewrite lookup_insert_ne // lookup_insert_ne //. by apply not_eq_sym, Hne. }
    apply mlist_cons; cbn [heap with_heap malloc_world alloc_world with_next with_plan].
    + rewrite Hkeep; [done|left|congruence].
    + apply lookup_insert_eq.
    + rewrite Hkeep; [done|right; right; left|congruence].
    + rewrite lookup_insert_ne; [apply lookup_insert_eq|]. apply Hne. right. left.
    + by eapply get_cstr_nonzero.
    + apply esc_is_str.
    + eapply seg_frame; [|done]. intros b Hb. apply Hkeep; [by right; right; right|congruence].
    + change (NoDup ([l; nd; kl] ++ next w1 :: ents_locs es)). rewrite -Permutation_middle.
      constructor; [|exact Hd1]. intros Hb. by apply (Hne (next w1)).
    + constructor; [by apply find_ent_none|]. apply (mlist_keys _ _ _ Hm).
  - replace (footprint (Some l) (_ :: es)) with ({[next w1]} ∪ F1); [done|].
    rewrite (footprint_middle l [] _ es) /=. rewrite /F1 -/F.
    apply set_eq. intros b. rewrite !elem_of_union !elem_of_singleton. tauto.
Qed.

(** The value of an entry is freed before the new one is made: without memory for
    that, the entry is freed as well. *)
Lemma wp_put_found_torn l es1 e es2 value v w (Q : Z → world → Prop) :
  thread_mdcs w (self w) (Some l) (es1 ++ e :: es2) → wf_heap w → plan_ok (plan w) = false →
  get_cstr (heap w) value = Some v → outside (footprint (Some l) (es1 ++ e :: es2)) value →
  zlen (esc v) + 1 < 2 ^ 64 →
  (∀ w', torn w' (e_key e) → same_statics w w' → errno w' = ENOMEM → plan w' = tail (plan w) → Q (-1) w') →
  wp (mdc ← (v ← get_value (e_ptr e); free v ;; mret (e_ptr e));
      if is_null mdc then set_errno ENOMEM ;; mret (-1) else put_value mdc value) w Q.
Proof.
  intros Ht Hw Hp Hv Hout Hl HQ. pose proof Ht as (Hkey & Hval & Hm). pose proof Hm as [Hh Hs Hdup Hkeys].
  rewrite first_ptr_app in Hh. apply seg_app in Hs as (Hs1 & Hn & [Hek Hev _ _] & _).
  pose proof (ents_locs_split _ _ _ _ Hdup) as (Hd & Hdup' & _ & Hde).
  pose proof Hd as (Hnd & _ & _)%NoDup_app. unfold e_locs in Hnd. split_nodup Hnd.
  assert (HvF : e_vloc e ∈ footprint (Some l) (es1 ++ e :: es2)) by (rewrite footprint_middle; set_solver).
  assert (Ho1 := owns_step_refl _ w Hw (λ b, footprint_live _ _ _ _ b Ht)).
  apply (owns_step_free _ _ _ _ _ Ho1) in HvF as Ho2. set (w1 := with_heap _ w) in Ho2.
  rewrite /get_value. apply wp_bind. step wp_get_field; [done|]. cbn [mdc_value e_mdc].
  step wp_free; [done|]. apply wp_ret. cbn [is_null e_ptr]. fold w1.
  eapply (wp_put_value_torn (e_node e)); [by rewrite /= lookup_delete_ne| |cbn; congruence|by right|by eapply get_cstr_step|done|apply Ho2|].
  { cbn. rewrite lookup_delete_ne //. }
  intros w2 Hnone Hf (Htls & Hcfg & Hos & Hself) He Hpl. apply HQ; [|done..].
  assert (Hold : ∀ b, b ∈ l :: ents_locs (es1 ++ es2) → heap w2 !! b = heap w !! b).
  { intros b Hb. assert (Hnb : b ∉ e_locs e) by (intros ?; by apply (Hde b)).
    rewrite /e_locs !not_elem_of_cons in Hnb. destruct Hnb as (? & ? & ? & _).
    rewrite Hf; [cbn; by rewrite lookup_delete_ne|done|cbn; congruence|].
    apply (locs_lt l (es1 ++ e :: es2) w); [done..|]. rewrite elem_of_cons ents_locs_perm !elem_of_app.
    rewrite elem_of_cons ents_locs_app elem_of_app in Hb. tauto. }
  exists l, es1, (e_node e). rewrite Htls Hself. split_and!; try done.
  - rewrite Hold; [done|left].
  - eapply seg_frame; [|done]. intros b Hb. apply Hold. right. rewrite ents_locs_app. by apply elem_of_app; left.
  - rewrite ents_locs_app in Hdup'. apply NoDup_cons in Hdup' as [_ Hdup']. by apply NoDup_app in Hdup' as (? & _).
  - rewrite fmap_app fmap_cons in Hkeys. apply NoDup_app in Hkeys as (_ & Hk & _). intros Hin. apply (Hk _ Hin). left.
Qed.

(** A node without a key, in front of the entries. *)
Lemma wp_new_node_torn l es key k w (Q : ptr → world → Prop) :
  thread_mdcs w (self w) (Some l) es → wf_heap w →
  plan_ok (plan w) = true → plan_ok (tail (plan w)) = false →
  get_cstr (heap w) key = Some k → outside (footprint (Some l) es) key →
  (∀ nd nx w', heap w' !! l = Some (BList (Ptr nd 0)) → heap w' !! nd = Some (BMdc (Mdc Null nx Null Null)) →
     l ≠ nd → owns_step (footprint (Some l) es) w ({[nd]} ∪ footprint (Some l) es) w' →
     same_statics w w' → plan w' = tail (tail (plan w)) → Q (Ptr nd 0) w') →
  wp (mdc ← alloc_entry;
      if is_null mdc then mret Null
      else
        kp ← strdup key;
        set_key mdc kp ;;
        add_to_list mdc (Ptr l 0) ;;
        mret mdc) w Q.
Proof.
  intros Ht Hw Hp1 Hp2 Hk Hko HQ. pose proof Ht as (_ & _ & [Hh Hs Hdup _]).
  assert (Ho1 := owns_step_refl _ w Hw (λ b, footprint_live _ _ _ _ b Ht)).
  assert (Hnew : ∀ b, b ∈ l :: ents_locs es → (b < next w)%positive) by (intros b; by apply locs_lt).
  step wp_alloc_entry; [intros _|congruence]. cbn [is_null].
  apply (owns_step_malloc _ _ _ _ (BMdc (Mdc Null Null Null Null))) in Ho1 as Ho2.
  step wp_strdup; [by eapply (get_cstr_step _ w)|intros ?; cbn in *; congruence|intros _].
  rewrite /set_key. step wp_set_field; [apply lookup_insert_eq|]. cbn [mdc_prev mdc_next mdc_value].
  set (w3 := with_heap _ _).
  assert (Ho3 : owns_step (footprint (Some l) es) w ({[next w]} ∪ footprint (Some l) es) w3).
  { eapply owns_step_same; [apply (owns_step_store _ _ _ _ (next w) (BMdc (Mdc Null Null Null Null)) Ho2)|done..].
    apply elem_of_union_l. by apply elem_of_singleton. }
  assert (Hold : ∀ b, (b < next w)%positive → heap w3 !! b = heap w !! b).
  { intros b Hb. cbn. rewrite !lookup_insert_ne //; lia. }
  assert (Hl : l ≠ next w) by (pose proof (Hnew l ltac:(left)); lia).
  step (wp_add_to_list l (next w) Null Null es);
    [apply lookup_insert_eq|rewrite Hold; [done|]; apply Hnew; left| | |].
  { eapply seg_frame; [|done]. intros b Hb. apply Hold, Hnew. by right. }
  { apply NoDup_cons in Hdup as [Hl1 Hdup]. rewrite !NoDup_cons not_elem_of_cons. split_and!; try done.
    intros Hb. pose proof (Hnew (next w) ltac:(by right)). lia. }
  intros h4 Hl4 Hn4 Hs4 Hf4. apply wp_ret, (HQ (next w) (first_ptr es Null)); [done..| |done|done].
  eapply owns_step_bulk; [done| |done|].
  - intros b Hb. apply Hf4. intros Hin. apply Hb. rewrite elem_of_union elem_of_singleton elem_of_list_to_set.
    apply elem_of_cons in Hin as [->|[->|Hin]%elem_of_cons]; [right; left|by left|right; by right].
  - intros b Hb. split; [intros _|done].
    destruct (decide (b ∈ l :: next w :: ents_locs es)) as [Hin|Hin]; [|rewrite Hf4 //; by eapply owns_step_live].
    apply elem_of_cons in Hin as [->|[->|Hin]%elem_of_cons]; [by eauto..|]. by eapply seg_live.
Qed.

(** A new entry whose strings cannot be made is freed, but it is the head of the list. *)
Lemma wp_put_new_torn l es key k value v w (Q : Z → world → Prop) :
  thread_mdcs w (self w) (Some l) es → wf_heap w → plan_ok (plan w) = true →
  plan_ok (tail (plan w)) && plan_ok (tail (tail (plan w))) = false →
  get_cstr (heap w) key = Some k → outside (footprint (Some l) es) key →
  get_cstr (heap w) value = Some v → outside (footprint (Some l) es) value →
  zlen (esc v) + 1 < 2 ^ 64 →
  (∀ w', torn_head w' → same_statics w w' → errno w' = ENOMEM → plan w' = tail (tail (tail (plan w))) → Q (-1) w') →
  wp (mdc ← (mdc ← alloc_entry;
             if is_null mdc then mret Null
             else
               kp ← strdup key;
               set_key mdc kp ;;
               add_to_list mdc (Ptr l 0) ;;
               mret mdc);
      if is_null mdc then set_errno ENOMEM ;; mret (-1) else put_value mdc value) w Q.
Proof.
  intros Ht Hw Hp1 Hp2 Hk Hko Hv Hvo Hl HQ. pose proof Ht as (Hkey & Hval & _).
  assert (Hend : ∀ nd nx kp F' w1, heap w1 !! l = Some (BList (Ptr nd 0)) → heap w1 !! nd = Some (BMdc (Mdc Null nx kp Null)) →
    l ≠ nd → freeable (heap w1) kp → ptr_block kp ≠ Some nd → ptr_block kp ≠ Some l →
    is_null kp = true ∨ plan_ok (plan w1) = false → owns_step (footprint (Some l) es) w F' w1 →
    same_statics w w1 → plan w1 = tail (tail (plan w)) → wp (put_value (Ptr nd 0) value) w1 Q).
  { intros nd nx kp F' w1 Hl1 Hn1 Hne Hfr Hkn Hkl Hnull Ho1 Hst Hpl.
    eapply wp_put_value_torn; [exact Hn1|done..|by eapply get_cstr_step|done|apply Ho1|].
    intros w2 Hnone Hf Hst2 He Hpl2. pose proof (same_statics_trans _ _ _ Hst Hst2) as Hst'.
    pose proof Hst' as (Htls & _ & _ & Hself). apply HQ; [|done..|by rewrite Hpl2 Hpl].
    exists l, nd. rewrite Htls Hself. split_and!; try done. rewrite Hf //. by eapply wf_heap_lt; [apply Ho1|]. }
  destruct (plan_ok (tail (plan w))) eqn:Hp3.
  - step wp_new_node; [done..|]. intros nd kl w1 [Hl1 Hn1 Hk1 _ Hd1] Ho1 Hst _ Hpl. cbn [is_null]. split_nodup Hd1.
    eapply Hend; [exact Hl1|exact Hn1|done|by eexists|cbn; congruence|cbn; congruence|right; by rewrite Hpl|done..].
  - step wp_new_node_torn; [done..|]. intros nd nx w1 Hl1 Hn1 Hne Ho1 Hst Hpl. cbn [is_null].
    eapply Hend; [exact Hl1|exact Hn1|done|done|done|done|by left|done..].
Qed.

(** The part of [mdclog_internal_put_mdc] after the search, which found [mdc]. *)
Definition put_entry (mdc key value list : ptr) : M Z :=
  mdc ← (if is_null mdc then
           mdc ← alloc_entry;
           if is_null mdc then mret Null
           else
             k ← strdup key;
             set_key mdc k ;;
             add_to_list mdc list ;;
             mret mdc
         else
           v ← get_value mdc;
           free v ;;
           mret mdc);
  if is_null mdc then set_errno ENOMEM ;; mret (-1) else put_value mdc value.

(** The put of a thread that has a list, from the outcomes of its allocations. *)
Lemma wp_put_entry l es key k value v w (Q : Z → world → Prop) :
  thread_mdcs w (self w) (Some l) es → wf_heap w →
  get_cstr (heap w) key = Some k → outside (footprint (Some l) es) key →
  get_cstr (heap w) value = Some v → outside (footprint (Some l) es) value →
  zlen (esc v) + 1 < 2 ^ 64 →
  (∀ es' w', put_copies (bool_decide (k ∈ al_keys (mdcs es))) (plan w) = (Stored, plan w') →
     mdc_step (Some l) es w (Some l) es' w' → mdcs es' = al_put k (esc v) (mdcs es) →
     errno w' = errno w → Q 0 w') →
  (∀ w', put_copies (bool_decide (k ∈ al_keys (mdcs es))) (plan w) = (NoRoom, plan w') →
     w' = enomem_world w → Q (-1) w') →
  (∀ w', put_copies (bool_decide (k ∈ al_keys (mdcs es))) (plan w) = (Torn, plan w') →
     torn w' k → same_statics w w' → errno w' = ENOMEM → Q (-1) w') →
  wp (put_entry (ent_ptr (find_ent k es)) key value (Ptr l 0)) w Q.
Proof.
  intros Ht Hw Hk Hko Hv Hvo Hl HS HN HT. rewrite /put_entry.
  destruct (find_ent k es) as [e|] eqn:Hf; cbn [ent_ptr is_null e_ptr].
  - apply find_ent_some in Hf as [<- (es1 & es2 & ->)]. pose proof Ht as (_ & _ & [_ _ _ Hkeys]).
    rewrite bool_decide_eq_true_2 in HS, HT |- *; [|rewrite mdcs_keys fmap_app; apply elem_of_app; right; left].
    rewrite /put_copies /mbind /supply_bind /draw in HS, HT. destruct (plan_ok (plan w)) eqn:Hp.
    + eapply wp_put_found; [done..|]. intros b w2 Hst He Hpl. eapply HS; [by rewrite -Hpl|done| |done].
      by rewrite (al_put_old es1 e es2 b).
    + eapply wp_put_found_torn; [done..|]. intros w2 Htn Hst He Hpl. apply HT; [by rewrite -Hpl|done..].
  - assert (Hfind := Hf). apply find_ent_none in Hf.
    rewrite bool_decide_eq_false_2 in HS, HN, HT |- *; [|by rewrite mdcs_keys].
    rewrite /put_copies /mbind /supply_bind /draw in HS, HN, HT.
    destruct (plan_ok (plan w)) eqn:Hp1; [destruct (plan_ok (tail (plan w))) eqn:Hp2;
      [destruct (plan_ok (tail (tail (plan w)))) eqn:Hp3|]|].
    + eapply wp_put_new; [done..|]. intros e w2 Hpr Hst He Hpl. eapply HS; [by rewrite -Hpl|done| |done].
      by rewrite al_put_new // /mdcs fmap_cons Hpr.
    + eapply wp_put_new_torn; [try done..|]; [by rewrite Hp3 andb_false_r|].
      intros w2 Htn Hst He Hpl. apply HT; [by rewrite -Hpl|by apply torn_head_torn|done..].
    + eapply wp_put_new_torn; [try done..|]; [by rewrite Hp2|].
      intros w2 Htn Hst He Hpl. apply HT; [by rewrite -Hpl|by apply torn_head_torn|done..].
    + apply wp_bind. step wp_alloc_entry; [congruence|intros _]. cbn [is_null]. apply wp_ret. cbn [is_null].
      wp_pure. by apply wp_ret, HN.
Qed.

(** [mdclog_internal_put_mdc], from the outcomes of its allocations. *)
Lemma wp_put_any lo es key k value v w (Q : Z → world → Prop) :
  thread_mdcs w (self w) lo es → wf_heap w →
  get_cstr (heap w) key = Some k → outside (footprint lo es) key →
  get_cstr (heap w) value = Some v → outside (footprint lo es) value →
  zlen (esc v) + 1 < 2 ^ 64 →
  let out := put_outcome (is_list lo) (bool_decide (k ∈ al_keys (mdcs es))) (plan w) in
  (∀ l es' w', out = (Stored, plan w') → mdc_step lo es w (Some l) es' w' →
     mdcs es' = al_put k (esc v) (mdcs es) → errno w' = errno w → Q 0 w') →
  (∀ l w', out = (NoRoom, plan w') → mdc_step lo es w (Some l) es w' → errno w' = ENOMEM → Q (-1) w') →
  (∀ lost w', out = (NoList lost, plan w') → lo = None → lost_step lost w w' → Q (-1) w') →
  (∀ w', out = (Torn, plan w') → torn w' k → cfg w' = cfg w → os w' = os w → self w' = self w →
     errno w' = ENOMEM → Q (-1) w') →
  wp (mdclog_internal_put_mdc key value) w Q.
Proof.
  intros Ht Hw Hk Hko Hv Hvo Hl out HS HN HL HT. rewrite /mdclog_internal_put_mdc.
  apply wp_bind. eapply wp_get_list_any; [done..| |].
  2: { intros lost w' Hlo Hd Hst. apply wp_ret, (HL lost); [|done..]. by rewrite /out /put_outcome (supply_bind_eq _ _ _ _ _ Hd). }
  intros l w1 _ Hst1 Hstr1 Hd He1. cbn [is_null].
  assert (Hout : out = put_copies (bool_decide (k ∈ al_keys (mdcs es))) (plan w1)).
  { by rewrite /out /put_outcome (supply_bind_eq _ _ _ _ _ Hd). }
  pose proof Hst1 as [Hr1 Ho1 _ Hc1 Hos1 Hself1]. rewrite -Hself1 in Hr1.
  step wp_search_some; [done|apply Ho1|by apply Hstr1|].
  eapply wp_put_entry; [done|apply Ho1|by apply Hstr1|by eapply outside_step|by apply Hstr1|by eapply outside_step|done| | |].
  - intros es' w2 Ho Hst Hes He. eapply HS; [by rewrite Hout|by eapply mdc_step_trans|done|congruence].
  - intros w2 Ho ->. eapply HN; [by rewrite Hout|by eapply mdc_step_same_heap|done].
  - intros w2 Ho Htorn (_ & Hc2 & Hos2 & Hself2) He. apply HT; try done; [by rewrite Hout|congruence..].
Qed.

(** [mdclog_internal_put_mdc] when no allocation fails. *)
Lemma wp_put lo es key k value v w (Q : Z → world → Prop) :
  thread_mdcs w (self w) lo es → wf_heap w → allocs_ok (list_allocs lo + 3) w →
  get_cstr (heap w) key = Some k → outside (footprint lo es) key →
  get_cstr (heap w) value = Some v → outside (footprint lo es) value →
  zlen (esc v) + 1 < 2 ^ 64 →
  (∀ l es' w', mdc_step lo es w (Some l) es' w' →
     mdcs es' = al_put k (esc v) (mdcs es) → errno w' = errno w → Q 0 w') →
  wp (mdclog_internal_put_mdc key value) w Q.
Proof.
  intros Ht Hw Hok Hk Hko Hv Hvo Hl HQ. pose proof (put_outcome_ok lo (bool_decide (k ∈ al_keys (mdcs es))) w Hok) as Hs.
  eapply wp_put_any; [done..| | | |]; [intros l es' w' _; apply HQ|intros l w' Ho|intros lost w' Ho|intros w' Ho];
    by rewrite Ho in Hs.
Qed.
End put_rules.

(** ** Rules of remove, clean and destroy *)

Section remove_rules.
Implicit Types (w : world) (es : list ent) (e : ent) (lo : option positive) (n : nat).

(** Removing entries, and freeing their blocks. *)
Lemma mdc_step_shrink l es es' h' w :
  thread_mdcs w (self w) (Some l) es → wf_heap w → mlist h' l es' →
  ents_locs es' ⊆ ents_locs es →
  (∀ b, b ∉ l :: ents_locs es → h' !! b = heap w !! b) →
  (∀ b, b ∈ ents_locs es → b ∉ ents_locs es' → h' !! b = None) →
  mdc_step (Some l) es w (Some l) es' (with_heap h' w).
Proof.
  intros Ht Hw Hm Hsub Hout Hnone. pose proof (mdc_step_refl _ _ _ Ht Hw) as [_ Ho _ _ _ _].
  assert (Hfp : ∀ es b, b ∈ footprint (Some l) es ↔ b ∈ l :: ents_locs es).
  { intros es'' b. apply elem_of_list_to_set. }
  split; [|eapply owns_step_bulk; [exact Ho|..]|done..].
  - destruct Ht as (Hk & Hv & _). by split.
  - intros b Hb. apply Hout. by rewrite -Hfp.
  - intros b. rewrite !Hfp !elem_of_cons. intros [?|?%Hsub]; tauto.
  - intros b. rewrite !Hfp. intros Hb. split.
    + intros [->|Hb']%elem_of_cons; [rewrite (mlist_head _ _ _ Hm); by eauto|].
      eapply seg_live; [apply (mlist_seg _ _ _ Hm)|done].
    + intros [x Hx]. apply elem_of_cons in Hb as [->|Hb]; [left|right].
      destruct (decide (b ∈ ents_locs es')) as [|Hn]; [done|]. rewrite (Hnone b) // in Hx.
Qed.

Lemma wp_rm_any lo es key k w (Q : unit → world → Prop) :
  thread_mdcs w (self w) lo es → wf_heap w → get_cstr (heap w) key = Some k →
  (∀ l es' w', make_list (is_list lo) (plan w) = (true, false, plan w') → mdc_step lo es w (Some l) es' w' →
     mdcs es' = al_remove k (mdcs es) → errno w' = errno w → Q tt w') →
  (∀ lost w', lo = None → make_list (is_list lo) (plan w) = (false, lost, plan w') → lost_step lost w w' → Q tt w') →
  wp (mdclog_internal_rm_mdc key) w Q.
Proof.
  intros Ht Hw Hk HQ HN. rewrite /mdclog_internal_rm_mdc. apply wp_bind.
  eapply wp_search_any; [done..| |]; [|intros lost w1 Hlo Hd Hst; by apply wp_ret, (HN lost)].
  intros l w1 _ Hst1 _ Hd He1. pose proof Hst1 as [Hr1 Ho1 _ _ _ Hself1]. rewrite -Hself1 in Hr1.
  destruct (find_ent k es) as [e|] eqn:Hf; cbn [ent_ptr is_null e_ptr negb when].
  - apply find_ent_some in Hf as [<- (es1 & es2 & ->)]. pose proof Hr1 as (Hkey & Hval & Hm).
    step wp_get_list_some; [done..|]. eapply (wp_rm_from_list _ _ e); [done|].
    intros h' Hm' Hout Hnone. eapply HQ; [done|eapply mdc_step_trans; [done|]| |done].
    + apply (mdc_step_shrink _ _ (es1 ++ es2)); [done|apply Ho1|done| |done|].
      * intros b. rewrite ents_locs_perm ents_locs_app !elem_of_app. tauto.
      * intros b. rewrite ents_locs_perm -ents_locs_app elem_of_app. intros [?|?] ?; [by apply Hnone|done].
    + rewrite al_remove_middle //. apply (mlist_keys _ _ _ Hm).
  - apply wp_ret. eapply HQ; [done|done|by rewrite al_remove_none|done].
Qed.

Lemma wp_rm lo es key k w (Q : unit → world → Prop) :
  thread_mdcs w (self w) lo es → wf_heap w → allocs_ok (list_allocs lo) w →
  get_cstr (heap w) key = Some k →
  (∀ l es' w', mdc_step lo es w (Some l) es' w' → mdcs es' = al_remove k (mdcs es) →
     errno w' = errno w → Q tt w') →
  wp (mdclog_internal_rm_mdc key) w Q.
Proof.
  intros Ht Hw Hok Hk HQ. rewrite -(Nat.add_0_r (list_allocs lo)) in Hok. apply make_list_ok in Hok as [H1 _].
  eapply wp_rm_any; [done..|intros l es' w' _; apply HQ|]. intros lost w' _ Hd. by rewrite Hd in H1.
Qed.

Lemma wp_clean_any lo es w (Q : unit → world → Prop) :
  thread_mdcs w (self w) lo es → wf_heap w →
  (∀ l w', make_list (is_list lo) (plan w) = (true, false, plan w') → mdc_step lo es w (Some l) [] w' →
     errno w' = errno w → Q tt w') →
  (∀ lost w', lo = None → make_list (is_list lo) (plan w) = (false, lost, plan w') → lost_step lost w w' → Q tt w') →
  wp mdclog_internal_clean_mdclist w Q.
Proof.
  intros Ht Hw HQ HN. rewrite /mdclog_internal_clean_mdclist. apply wp_bind.
  eapply wp_get_list_any; [done..| |]; [|intros lost w1 Hlo Hd Hst; by apply wp_ret, (HN lost)].
  intros l w1 _ Hst1 _ Hd He1. pose proof Hst1 as [Hr1 Ho1 _ _ _ Hself1]. rewrite -Hself1 in Hr1.
  eapply wp_empty_list; [apply Hr1|]. intros h' Hm' Hout Hnone.
  eapply HQ; [done|eapply mdc_step_trans; [done|]|done].
  apply (mdc_step_shrink _ _ []); [done|apply Ho1|done| |done|by auto]. by intros b ?%elem_of_nil.
Qed.

Lemma wp_clean lo es w (Q : unit → world → Prop) :
  thread_mdcs w (self w) lo es → wf_heap w → allocs_ok (list_allocs lo) w →
  (∀ l w', mdc_step lo es w (Some l) [] w' → errno w' = errno w → Q tt w') →
  wp mdclog_internal_clean_mdclist w Q.
Proof.
  intros Ht Hw Hok HQ. rewrite -(Nat.add_0_r (list_allocs lo)) in Hok. apply make_list_ok in Hok as [H1 _].
  eapply wp_clean_any; [done..|intros l w' _; apply HQ|]. intros lost w' _ Hd. by rewrite Hd in H1.
Qed.

(** [destroy_list] is also the destructor of the key: the value of the key may
    have been cleared before. *)
Lemma wp_destroy_list l es w (Q : unit → world → Prop) :
  mlist (heap w) l es → tls_key (tls w) = true → wf_heap w →
  (∀ w', thread_mdcs w' (self w) None [] → owns_step (footprint (Some l) es) w (footprint None []) w' →
     (∀ t, t ≠ self w → tls_values (tls w') !! t = tls_values (tls w) !! t) →
     cfg w' = cfg w → os w' = os w → self w' = self w → errno w' = errno w → plan w' = plan w → Q tt w') →
  wp (destroy_list (Ptr l 0)) w Q.
Proof.
  intros Hm Hkey Hw HQ. rewrite /destroy_list.
  step wp_empty_list; [done|]. intros h' Hm' Hout Hnone.
  step wp_free; [apply (mlist_head _ _ _ Hm')|]. apply wp_bind.
  rewrite {1}/wp /pthread_setspecific /=. rewrite Hkey. apply wp_ret, HQ; try done.
  - split; cbn; [done|]. split; [|done]. by rewrite lookup_insert_eq.
  - eapply owns_step_same; [eapply (owns_step_bulk _ _ (footprint (Some l) es) w (footprint None []) (delete l h'))| |]; try done.
    + apply owns_step_refl; [done|]. intros b Hb. apply elem_of_list_to_set in Hb. destruct Hm as [Hh Hs _ _].
      apply elem_of_cons in Hb as [->|Hb]; [by eauto|by eapply seg_live].
    + intros b Hb. assert (Hb' : b ∉ l :: ents_locs es).
      { intros Hb'. apply Hb. by apply elem_of_list_to_set. }
      rewrite lookup_delete_ne; [by apply Hout|]. intros ->. apply Hb'. left.
    + intros b Hb. apply elem_of_list_to_set in Hb. split; [by intros ?%elem_of_list_to_set%elem_of_nil|].
      assert (Hn : delete l h' !! b = None); [|rewrite Hn; by intros []].
      destruct (decide (b = l)) as [->|]; [by rewrite lookup_delete_eq|].
      apply elem_of_cons in Hb as [->|Hb]; [done|]. by rewrite lookup_delete_ne // Hnone.
  - intros t Hne. cbn. by rewrite lookup_insert_ne.
Qed.

Lemma wp_destroy lo es w (Q : unit → world → Prop) :
  thread_mdcs w (self w) lo es → wf_heap w → allocs_ok (list_allocs lo) w →
  (∀ w', mdc_step lo es w None [] w' → errno w' = errno w → Q tt w') →
  wp mdclog_internal_destroy_mdclist w Q.
Proof.
  intros Ht Hw Hok HQ. rewrite /mdclog_internal_destroy_mdclist.
  step (wp_get_list 0); [done|done|by rewrite Nat.add_0_r|].
  intros l w1 _ [Hr1 Ho1 Ht1 Hc1 Hs1 Hself1] _ _ He1.
  rewrite -Hself1 in Hr1. pose proof Hr1 as (Hkey & _ & Hm).
  eapply wp_destroy_list; [done|done|apply Ho1|]. rewrite Hself1.
  intros w' Hr' Ho' Ht' Hc' Hos' Hself' He' _. apply HQ; [|congruence].
  split; try congruence; [by eapply owns_step_trans|]. intros t Hne. rewrite Ht' //. by apply Ht1.
Qed.

Lemma wp_get_first lo es w (Q : ptr → world → Prop) :
  thread_mdcs w (self w) lo es → wf_heap w →
  (∀ lo' lost w', make_list (is_list lo) (plan w) = (is_list lo', lost, plan w') →
     mdc_give lo es w (lost_list lost (next w)) lo' es w' → (is_Some lo' → errno w' = errno w) →
     Q (first_ptr es Null) w') →
  wp mdclog_internal_get_first_mdc w Q.
Proof.
  intros Ht Hw HQ. rewrite /mdclog_internal_get_first_mdc. apply wp_bind.
  eapply wp_get_list_any; [done..| |].
  - intros l w1 _ Hst1 _ Hd He1. cbn [is_null]. pose proof (ms_repr _ _ _ _ _ _ Hst1) as (_ & _ & Hm).
    eapply wp_load_list; [apply (mlist_head _ _ _ Hm)|]. eapply (HQ (Some l) false); [done|by apply mdc_step_give|done].
  - intros lost w1 -> Hd Hst. apply wp_ret. destruct Ht as (Hk & Hv & ->).
    eapply (HQ None lost); [done|by apply lost_step_give|by intros [? ?]].
Qed.
End remove_rules.

(** ** The list as the formatter sees it *)

#[export] Instance mdc_access : MdcAccess := {|
  get_next_mdc := mdclog_internal_get_next_mdc;
  get_mdc_key := mdclog_internal_get_mdc_key;
  get_mdc_val := mdclog_internal_get_mdc_val
|}.

Definition mdc_chain (h : gmap positive block) (F : gset positive) (p : ptr)
    (l : list (list Z * list Z)) : Prop :=
  ∃ prev es, p = first_ptr es Null ∧ mdcs es = l ∧ seg h prev es Null ∧
    NoDup (ents_locs es) ∧ ∀ b, b ∈ ents_locs es → b ∈ F.

#[export] Program Instance mdc_walk : MdcWalk := {| chain := mdc_chain |}.
Next Obligation.
  intros h h' F p l Hf (prev & es & -> & <- & Hs & Hd & HF). exists prev, es.
  split_and!; try done. eapply seg_frame; [|done]. by auto.
Qed.
Next Obligation. intros h F p (prev & [|e es] & -> & Hl & _); [done|discriminate]. Qed.
Next Obligation.
  intros w F p k v l (prev & es & -> & Hl & Hs & Hd & HF). destruct es as [|e es]; [done|].
  destruct Hs as (Hn & [Hk Hv Hks Hvs] & Hs).
  injection Hl as <- <- <-. cbn [first_ptr e_ptr is_null]. split; [done|].
  rewrite /get_mdc_key /get_mdc_val /get_next_mdc /=. split_and!.
  - exists (Ptr (e_kloc e) 0). split; [|by apply get_cstr_block].
    by rewrite /mdclog_internal_get_mdc_key /get_key /mbind /M_bind /load_mdc /= Hn.
  - exists (Ptr (e_vloc e) 0). split; [|by apply get_cstr_block].
    by rewrite /mdclog_internal_get_mdc_val /get_value /mbind /M_bind /load_mdc /= Hn.
  - exists (first_ptr es Null). split; [by rewrite /mdclog_internal_get_next_mdc /get_next /mbind /M_bind /load_mdc /= Hn|].
    exists (e_ptr e), es. rewrite ents_locs_cons in Hd HF. apply NoDup_app in Hd as (_ & _ & Hd).
    split_and!; try done. intros b Hb. apply HF, elem_of_app. by right.
Qed.
Next Obligation.
  intros h F p l (prev & es & -> & <- & Hs & Hd & _). rewrite length_fmap. by eapply seg_size.
Qed.

Lemma thread_chain w t lo es : thread_mdcs w t lo es →
  mdc_chain (heap w) (footprint lo es) (first_ptr es Null) (mdcs es).
Proof.
  destruct lo as [l|]; intros [_ H].
  - destruct H as [_ [_ Hs [_ Hd]%NoDup_cons _]]. exists Null, es. split_and!; try done.
    intros b Hb. apply elem_of_list_to_set. by right.
  - destruct H as [_ ->]. exists Null, []. split_and!; try done; [constructor|]. by intros b ?%elem_of_nil.
Qed.

(** ** Properties *)

(** A process whose thread 1 has no list yet, and one whose thread has an empty
    list in block 1. *)
Definition key_world : world := with_tls (Tls true ∅) (boot Null).
Definition list_world : world :=
  with_next 2 (with_heap {[1%positive := BList Null]}
    (with_tls (Tls true {[1%positive := Ptr 1 0]}) (boot Null))).

Lemma list_world_mdcs : thread_mdcs list_world (self list_world) (Some 1%positive) [].
Proof.
  split; [done|]. split; [done|]. split; [done|done|apply NoDup_singleton|constructor].
Qed.

Lemma key_world_mdcs : thread_mdcs key_world (self key_world) None [].
Proof. done. Qed.

Lemma list_world_wf : wf_heap list_world.
Proof. intros b Hb. cbn in *. rewrite lookup_singleton_ne //. lia. Qed.

Lemma key_world_wf : wf_heap key_world.
Proof. done. Qed.

(** C10: when memory does not run out, [mdclog_internal_put_mdc] returns 0 and
    takes the list of the running thread to the list with the key bound to the
    escaped value: in place if the key was there, in front otherwise.  It creates
    the list if the thread has none, and it changes no other block, no other
    thread's list and leaks nothing. *)
Theorem put_mdc_updates lo es key k value v w :
  thread_mdcs w (self w) lo es → wf_heap w → allocs_ok (list_allocs lo + 3) w →
  get_cstr (heap w) key = Some k → outside (footprint lo es) key →
  get_cstr (heap w) value = Some v → outside (footprint lo es) value →
  zlen (esc v) + 1 < 2 ^ 64 →
  ∃ l es' w', mdclog_internal_put_mdc key value w = Ok 0 w' ∧
    mdc_step lo es w (Some l) es' w' ∧ mdcs es' = al_put k (esc v) (mdcs es).
Proof.
  intros. destruct (proj1 (wp_run (mdclog_internal_put_mdc key value) w (λ r w', ∃ l es',
    r = 0 ∧ mdc_step lo es w (Some l) es' w' ∧ mdcs es' = al_put k (esc v) (mdcs es))))
    as (r & w' & Hrun & l & es' & -> & ? & ?); [|by eauto 6].
  eapply wp_put; [done..|]. intros. by eauto.
Qed.

Lemma put_mdc_updates_witness : ∃ l es' w',
  mdclog_internal_put_mdc (Lit (lit "k") 0) (Lit (lit "\") 0) key_world = Ok 0 w' ∧
  mdc_step None [] key_world (Some l) es' w' ∧ mdcs es' = [(lit "k", lit "\\")].
Proof.
  exact (put_mdc_updates None [] (Lit (lit "k") 0) (lit "k") (Lit (lit "\") 0) (lit "\") key_world
    key_world_mdcs key_world_wf (allocs_ok_nil 5 key_world eq_refl) eq_refl (outside_lit _ _ _)
    eq_refl (outside_lit _ _ _) eq_refl).
Defined.

(** C20: [mdclog_internal_rm_mdc] removes the binding of the key, if there is one,
    and frees its blocks. *)
Theorem rm_mdc_removes lo es key k w :
  thread_mdcs w (self w) lo es → wf_heap w → allocs_ok (list_allocs lo) w →
  get_cstr (heap w) key = Some k →
  ∃ l es' w', mdclog_internal_rm_mdc key w = Ok tt w' ∧
    mdc_step lo es w (Some l) es' w' ∧ mdcs es' = al_remove k (mdcs es).
Proof.
  intros. destruct (proj1 (wp_run (mdclog_internal_rm_mdc key) w (λ r w', ∃ l es',
    mdc_step lo es w (Some l) es' w' ∧ mdcs es' = al_remove k (mdcs es))))
    as ([] & w' & Hrun & l & es' & ? & ?); [|by eauto 6].
  eapply wp_rm; [done..|]. intros. by eauto.
Qed.

Lemma rm_mdc_removes_witness : ∃ l es' w',
  mdclog_internal_rm_mdc (Lit (lit "k") 0) list_world = Ok tt w' ∧
  mdc_step (Some 1%positive) [] list_world (Some l) es' w' ∧ mdcs es' = [].
Proof.
  exact (rm_mdc_removes (Some 1%positive) [] (Lit (lit "k") 0) (lit "k") list_world
    list_world_mdcs list_world_wf (allocs_ok_nil 0 list_world eq_refl) eq_refl).
Defined.

(** [mdclog_internal_search_mdc] returns null for a key that is not bound, and
    otherwise an entry whose value is the one the key is bound to. *)
Theorem search_mdc_finds lo es key k w :
  thread_mdcs w (self w) lo es → wf_heap w → allocs_ok (list_allocs lo) w →
  get_cstr (heap w) key = Some k →
  ∃ l p w', mdclog_internal_search_mdc key w = Ok p w' ∧ mdc_step lo es w (Some l) es w' ∧
    match al_get k (mdcs es) with
    | None => p = Null
    | Some v => ∃ vp, mdclog_internal_get_mdc_val p w' = Ok vp w' ∧
                      get_cstr (heap w') vp = Some v
    end.
Proof.
  intros Ht Hw Hok Hk.
  destruct (proj1 (wp_run (mdclog_internal_search_mdc key) w (λ p w', ∃ l,
    mdc_step lo es w (Some l) es w' ∧ p = ent_ptr (find_ent k es))))
    as (p & w' & Hrun & l & Hst & ->).
  { eapply (wp_search 0); [done|done|by rewrite Nat.add_0_r|done|]. by eauto. }
  exists l, (ent_ptr (find_ent k es)), w'. do 2 (split; [done|]). rewrite find_ent_get.
  destruct (find_ent k es) as [e|] eqn:Hf; cbn [fmap option_fmap option_map ent_ptr]; [|done].
  apply find_ent_some in Hf as [<- (es1 & es2 & ->)].
  pose proof (ms_repr _ _ _ _ _ _ Hst) as (_ & _ & [_ Hs _ _]).
  apply seg_app in Hs as (_ & Hn & [_ Hv _ Hvs] & _).
  exists (Ptr (e_vloc e) 0). split; [|by apply get_cstr_block].
  rewrite /mdclog_internal_get_mdc_val /get_value /mbind /M_bind /load_mdc /= Hn. done.
Qed.

Lemma search_mdc_finds_witness : ∃ l p w',
  mdclog_internal_search_mdc (Lit (lit "k") 0) key_world = Ok p w' ∧
  mdc_step None [] key_world (Some l) [] w' ∧ p = Null.
Proof.
  exact (search_mdc_finds None [] (Lit (lit "k") 0) (lit "k") key_world
    key_world_mdcs key_world_wf (allocs_ok_nil 2 key_world eq_refl) eq_refl).
Defined.

(** [mdclog_internal_destroy_mdclist] frees every block of the thread's list and
    no other block: nothing is left of the list, and the key has no value. *)
Theorem destroy_mdclist_frees lo es w :
  thread_mdcs w (self w) lo es → wf_heap w → allocs_ok (list_allocs lo) w →
  ∃ w', mdclog_internal_destroy_mdclist w = Ok tt w' ∧ thread_mdcs w' (self w) None [] ∧
    ∀ b, heap w' !! b = if decide (b ∈ footprint lo es) then None else heap w !! b.
Proof.
  intros Ht Hw Hok.
  destruct (proj1 (wp_run mdclog_internal_destroy_mdclist w (λ _ w', mdc_step lo es w None [] w')))
    as ([] & w' & Hrun & [Hr [Hf Ho _ Hw'] _ _ _ _]).
  { by eapply wp_destroy; [..|eauto]. }
  exists w'. do 2 (split; [done|]). intros b.
  assert (Hnone : (b ∈ footprint lo es ∨ (next w ≤ b)%positive) → heap w' !! b = None).
  { intros Hb. destruct (heap w' !! b) as [x|] eqn:Hx; [|done].
    assert (b ∈ footprint None []) by (apply Ho; by eauto). by apply not_elem_of_empty in H. }
  case_decide as Hb; [by auto|]. destruct (decide (b < next w)%positive); [by apply Hf|].
  rewrite Hnone; [|right; lia]. symmetry. apply Hw. lia.
Qed.

Lemma destroy_mdclist_frees_witness : ∃ w',
  mdclog_internal_destroy_mdclist list_world = Ok tt w' ∧
  thread_mdcs w' (self list_world) None [] ∧
  ∀ b, heap w' !! b =
    if decide (b ∈ footprint (Some 1%positive) []) then None else heap list_world !! b.
Proof.
  exact (destroy_mdclist_frees (Some 1%positive) [] list_world
    list_world_mdcs list_world_wf (allocs_ok_nil 0 list_world eq_refl)).
Defined.

Lemma wp_get_list_fail w (Q : ptr → world → Prop) :
  thread_mdcs w (self w) None [] → plan_ok (plan w) = false →
  Q Null (enomem_world w) → wp get_list w Q.
Proof.
  intros (Hk & Hv & _) Hp HQ. rewrite /get_list. apply wp_bind.
  rewrite {1}/wp /pthread_getspecific Hk Hv. cbn [is_null].
  step wp_malloc_fail; [done|]. by apply wp_ret.
Qed.

(** When there is no memory for the list or for a new entry,
    [mdclog_internal_put_mdc] returns -1 with [ENOMEM] and changes nothing else. *)
Theorem put_mdc_enomem lo es key k value w :
  thread_mdcs w (self w) lo es → wf_heap w → plan_ok (plan w) = false →
  get_cstr (heap w) key = Some k → al_get k (mdcs es) = None →
  mdclog_internal_put_mdc key value w = Ok (-1) (enomem_world w).
Proof.
  intros Ht Hw Hp Hk Hget. rewrite find_ent_get in Hget. apply fmap_None in Hget.
  assert (wp (mdclog_internal_put_mdc key value) w (λ r w', r = -1 ∧ w' = enomem_world w)) as H.
  { rewrite /mdclog_internal_put_mdc. destruct lo as [l|].
    - pose proof Ht as (Hkey & Hval & _). step wp_get_list_some; [done..|]. cbn [is_null].
      step (wp_search 0 (Some l) es); [done|done| |done|].
      { by rewrite /allocs_ok take_0. }
      intros l' w' Hsame _ _ _ _. destruct (Hsame l) as [-> ->]; [done|].
      rewrite Hget. cbn [ent_ptr is_null]. apply wp_bind.
      step wp_alloc_entry; [congruence|intros _]. by apply wp_ret.
    - destruct Ht as (Hkey & Hval & ->). by step wp_get_list_fail. }
  apply wp_run in H as (r & w' & Hrun & -> & ->). done.
Qed.

Lemma put_mdc_enomem_witness :
  mdclog_internal_put_mdc (Lit (lit "k") 0) (Lit (lit "v") 0) (with_plan [false] list_world) =
  Ok (-1) (enomem_world (with_plan [false] list_world)).
Proof.
  exact (put_mdc_enomem (Some 1%positive) [] (Lit (lit "k") 0) (lit "k") (Lit (lit "v") 0)
    (with_plan [false] list_world) list_world_mdcs list_world_wf eq_refl eq_refl eq_refl).
Defined.

(** A put that runs out of memory for the value of a new key frees the entry
    without unlinking it: the next access to the thread's list reads freed
    memory. *)
Theorem put_mdc_failure_dangles l es key k value v key' b w :
  thread_mdcs w (self w) (Some l) es → wf_heap w → plan w = [true; true; false; b] →
  get_cstr (heap w) key = Some k → outside (footprint (Some l) es) key →
  get_cstr (heap w) value = Some v → outside (footprint (Some l) es) value →
  zlen (esc v) + 1 < 2 ^ 64 → al_get k (mdcs es) = None →
  ∃ w', mdclog_internal_put_mdc key value w = Ok (-1) w' ∧ errno w' = ENOMEM ∧
        mdclog_internal_search_mdc key' w' = Stop UndefinedBehaviour.
Proof.
  intros Ht Hw Hp Hk Hko Hv Hvo Hl Hget. rewrite find_ent_get in Hget. apply fmap_None in Hget.
  assert (wp (mdclog_internal_put_mdc key value) w (λ r w', r = -1 ∧ errno w' = ENOMEM ∧ torn_head w'))
    as (r & w' & Hrun & -> & He & Htorn)%wp_run; [|by eauto using torn_head_search].
  pose proof Ht as (Hkey & Hval & _). rewrite /mdclog_internal_put_mdc.
  step wp_get_list_some; [done..|]. cbn [is_null]. step wp_search_some; [done..|]. rewrite Hget. cbn [ent_ptr is_null].
  by eapply wp_put_new_torn; rewrite ?Hp.
Qed.

Lemma put_mdc_failure_dangles_witness : ∃ w',
  mdclog_internal_put_mdc (Lit (lit "k") 0) (Lit (lit "v") 0)
    (with_plan [true; true; false; true] list_world) = Ok (-1) w' ∧ errno w' = ENOMEM ∧
  mdclog_internal_search_mdc (Lit (lit "x") 0) w' = Stop UndefinedBehaviour.
Proof.
  exact (put_mdc_failure_dangles 1 [] (Lit (lit "k") 0) (lit "k") (Lit (lit "v") 0) (lit "v")
    (Lit (lit "x") 0) true (with_plan [true; true; false; true] list_world)
    list_world_mdcs list_world_wf eq_refl eq_refl (outside_lit _ _ _) eq_refl (outside_lit _ _ _)
    eq_refl eq_refl).
Defined.
