(* ===== verification/JsonFormat.v ===== *)
(** src/json_format.c: formatting a log entry as one JSON object.

    The definitions follow the C functions, with [size_t] arithmetic wrapping.
    A piece of the entry is written into a window of the buffer and cut off by
    the length it is given; [formats] is what a piece promises.  The texts the
    pieces produce are given by pure functions, and the theorems say that the
    code writes exactly those texts. *)

From S2P Require Import Prelude World Memory Libc Escape MdcIface.

(** ** The code *)

Definition TIMESTAMP_KEY : list Z := lit "ts".
Definition SEVERITY_KEY : list Z := lit "crit".
Definition LOGGER_KEY : list Z := lit "id".
Definition MESSAGE_KEY : list Z := lit "msg".
Definition MDC_KEY : list Z := lit "mdc".

Definition SEVERITY_ERR_VAL : list Z := lit "ERROR".
Definition SEVERITY_WARN_VAL : list Z := lit "WARNING".
Definition SEVERITY_INFO_VAL : list Z := lit "INFO".
Definition SEVERITY_DEBUG_VAL : list Z := lit "DEBUG".

Definition TRUNCATED : list Z := lit "[truncated]".
Definition MINIMUM_MESSAGE : list Z := qlit "'msg':'[truncated]'".

Definition MIN_BUFFER_LENGTH : Z := 1000.
Definition IDENTITY_MAX_LENGTH : Z := 100.

(** [mdclog_severity_t] *)
Definition MDCLOG_ERR : Z := 1.
Definition MDCLOG_WARN : Z := 2.
Definition MDCLOG_INFO : Z := 3.
Definition MDCLOG_DEBUG : Z := 4.

(** [(unsigned long long)(tv->tv_sec) * 1000 + (unsigned long long)(tv->tv_usec) / 1000] *)
Definition timestamp_ms (tv : Z * Z) : Z := u64 (u64 (tv.1) * 1000 + u64 (tv.2) / 1000).

Definition format_timestamp (tv : Z * Z) (buffer : ptr) (len : Z) : M Z :=
  let timestamp := timestamp_ms tv in
  ret ← snprintf buffer len (Lit (qlit "'%s':%llu") 0) [AStr (Lit TIMESTAMP_KEY 0); AULL timestamp];
  if (ret <? 0) || (len <=? u64 ret) then store_char buffer NUL ;; mret 0
  else mret (u64 ret).

Definition severity_val (severity : Z) : option (list Z) :=
  if severity =? MDCLOG_ERR then Some SEVERITY_ERR_VAL
  else if severity =? MDCLOG_WARN then Some SEVERITY_WARN_VAL
  else if severity =? MDCLOG_INFO then Some SEVERITY_INFO_VAL
  else if severity =? MDCLOG_DEBUG then Some SEVERITY_DEBUG_VAL
  else None.

Definition format_severity (severity : Z) (buffer : ptr) (len : Z) : M Z :=
  match severity_val severity with
  | None => store_char buffer NUL ;; mret 0
  | Some v =>
      ret ← snprintf buffer len (Lit (qlit "'%s':'%s'") 0)
              [AStr (Lit SEVERITY_KEY 0); AStr (Lit v 0)];
      if (ret <? 0) || (len <=? u64 ret) then store_char buffer NUL ;; mret 0
      else mret (u64 ret)
  end.

Definition format_identity (identity : ptr) (buffer : ptr) (len : Z) : M Z :=
  let id := if is_null identity then Lit (lit "(null)") 0 else identity in
  ret ← snprintf buffer len (Lit (qlit "'%s':'%.*s'") 0)
          [AStr (Lit LOGGER_KEY 0); AInt IDENTITY_MAX_LENGTH; AStr id];
  if (ret <? 0) || (len <=? u64 ret) then store_char buffer NUL ;; mret 0
  else mret (u64 ret).

(** The loop that finds the place for the [TRUNCATED] text. *)
Fixpoint truncate_loop (fuel : nat) (buffer : ptr) (len i : Z) : M Z :=
  match fuel with
  | O => stopped OutOfFuel
  | S fuel' =>
      if u64 (len - 1) <=? u64 (i + zlen TRUNCATED) then
        c ← load_char (buffer +ₚ (i - 1));
        let i := if (c =? BACKSLASH) || (c =? DQUOTE) then u64 (i - 1) else i in
        truncate_loop fuel' buffer len (u64 (i - 1))
      else mret i
  end.

Definition format_message (msg : ptr) (arglist : list arg) (buffer : ptr) (len : Z) : M Z :=
  if len <=? zlen MINIMUM_MESSAGE then store_char buffer NUL ;; mret 0
  else
    msg_start ← snprintf buffer len (Lit (qlit "'%s':'") 0) [AStr (Lit MESSAGE_KEY 0)];
    if (msg_start <? 0) || (len <=? u64 msg_start) then store_char buffer NUL ;; mret 0
    else
      tmp_buf ← malloc_chars (u64 (len - u64 msg_start));
      if is_null tmp_buf then store_char buffer NUL ;; mret 0
      else
        ret ← vsnprintf tmp_buf (u64 (len - u64 msg_start)) msg arglist;
        let msg_len := u64 ret in
        '(escaped_msg_len, escape_truncated) ←
          mdclog_internal_escape (buffer +ₚ msg_start) (u64 (len - u64 msg_start - 1)) tmp_buf;
        free tmp_buf ;;
        let total_len := u64 (u64 msg_start + escaped_msg_len) in
        if (u64 (len - u64 msg_start) <=? u64 (msg_len + 1)) || negb (escape_truncated =? 0) then
          i ← truncate_loop (S (Z.to_nat total_len)) buffer len total_len;
          n ← sprintf (buffer +ₚ i) (Lit (qlit "%s'") 0) [AStr (Lit TRUNCATED 0)];
          mret (u64 (i + n))
        else
          n ← sprintf (buffer +ₚ total_len) (Lit (qlit "'") 0) [];
          mret (u64 (total_len + n)).

Section mdc.
Context `{MdcAccess}.

(** The loop over the MDC entries; its result is [offset] and [mdc_count]. *)
Fixpoint mdc_loop (fuel : nat) (buffer : ptr) (len : Z) (mdc : ptr) (offset mdc_count : Z)
  : M (Z * Z) :=
  match fuel with
  | O => stopped OutOfFuel
  | S fuel' =>
      if is_null mdc then mret (offset, mdc_count)
      else
        key ← get_mdc_key mdc;
        val ← get_mdc_val mdc;
        ret ← snprintf (buffer +ₚ offset) (u64 (len - offset)) (Lit (qlit "'%s':'%s',") 0)
                [AStr key; AStr val];
        if (ret <? 0) || (u64 (len - offset) <=? u64 ret) then mret (offset, mdc_count)
        else
          next ← get_next_mdc mdc;
          mdc_loop fuel' buffer len next (offset + ret) (mdc_count + 1)
  end.

Definition format_mdc (mdc : ptr) (buffer : ptr) (len : Z) : M Z :=
  ret ← snprintf buffer len (Lit (qlit "'%s':{") 0) [AStr (Lit MDC_KEY 0)];
  if (ret <? 0) || (len <=? u64 (u64 ret + 1)) then store_char buffer NUL ;; mret 0
  else
    fuel ← gets (λ w, S (size (heap w)));
    '(offset, mdc_count) ← mdc_loop fuel buffer len mdc ret 0;
    let offset := if 0 <? mdc_count then offset - 1 else offset in
    store_char (buffer +ₚ offset) RBRACE ;;
    store_char (buffer +ₚ (offset + 1)) NUL ;;
    mret (u64 (offset + 1)).

(** [if (ret > 0) { offset += ret; buffer[offset++] = ','; }] *)
Definition add_comma (buffer : ptr) (offset ret : Z) : M Z :=
  if 0 <? ret then store_char (buffer +ₚ (offset + ret)) COMMA ;; mret (offset + ret + 1)
  else mret offset.

(** [len - offset - strlen(MINIMUM_MESSAGE) - 1] *)
Definition field_len (len offset : Z) : Z := u64 (len - offset - zlen MINIMUM_MESSAGE - 1).

Definition format_log_entry (buffer : ptr) (len : Z) (timestamp : Z * Z) (identity : ptr)
    (severity : Z) (mdc : ptr) (msg : ptr) (arglist : list arg) : M Z :=
  store_char buffer LBRACE ;;
  let offset := 1 in
  ret ← format_timestamp timestamp (buffer +ₚ offset) (field_len len offset);
  offset ← add_comma buffer offset ret;
  ret ← format_severity severity (buffer +ₚ offset) (field_len len offset);
  offset ← add_comma buffer offset ret;
  ret ← format_identity identity (buffer +ₚ offset) (field_len len offset);
  offset ← add_comma buffer offset ret;
  ret ← format_mdc mdc (buffer +ₚ offset) (field_len len offset);
  offset ← add_comma buffer offset ret;
  ret ← format_message msg arglist (buffer +ₚ offset) (u64 (len - offset - 1));
  if 0 <? ret then
    let offset := offset + ret in
    store_char (buffer +ₚ offset) RBRACE ;;
    store_char (buffer +ₚ (offset + 1)) NUL ;;
    mret (offset + 1)
  else store_char buffer NUL ;; mret (-1).

Definition mdclog_internal_format_to_json_str (buffer : ptr) (len : Z) (timestamp : Z * Z)
    (identity : ptr) (severity : Z) (mdc : ptr) (msg : ptr) (arglist : list arg) : M Z :=
  if len <? MIN_BUFFER_LENGTH then mret (-1)
  else format_log_entry buffer len timestamp identity severity mdc msg arglist.
End mdc.

(** ** The texts of the pieces *)

Definition ts_text (tv : Z * Z) : list Z := qlit "'ts':" ++ dec (timestamp_ms tv).
Definition sev_text (v : list Z) : list Z := qlit "'crit':'" ++ v ++ [DQUOTE].
Definition id_text (id : list Z) : list Z :=
  qlit "'id':'" ++ take (Z.to_nat IDENTITY_MAX_LENGTH) id ++ [DQUOTE].
Definition msg_head : list Z := qlit "'msg':'".
Definition mdc_head : list Z := qlit "'mdc':{".

(** ["key":"value"] *)
Definition pair_text (p : list Z * list Z) : list Z :=
  [DQUOTE] ++ p.1 ++ qlit "':'" ++ p.2 ++ [DQUOTE].

(** A piece of less than [len] characters, or nothing. *)
Definition fit (len : Z) (t : list Z) : list Z := if zlen t <? len then t else [].

(** The longest prefix of the pairs that fits, each with a comma, into less than
    [n] characters. *)
Fixpoint mdc_fit (n : Z) (l : list (list Z * list Z)) : list (list Z * list Z) :=
  match l with
  | [] => []
  | p :: l' =>
      let t := zlen (pair_text p) + 1 in
      if t <? n then p :: mdc_fit (n - t) l' else []
  end.

(** Texts with commas between them. *)
Fixpoint commas (ts : list (list Z)) : list Z :=
  match ts with
  | [] => []
  | [t] => t
  | t :: ts' => t ++ COMMA :: commas ts'
  end.

Definition mdc_text (len : Z) (l : list (list Z * list Z)) : list Z :=
  if zlen mdc_head + 1 <? len
  then mdc_head ++ commas (pair_text <$> mdc_fit (len - zlen mdc_head) l) ++ [RBRACE]
  else [].

(** The message, cut off with the [TRUNCATED] mark if its escape is too long. *)
Definition msg_body (len : Z) (out : list Z) : list Z :=
  if zlen (esc out) <=? len - 9 then esc out else esc_take (len - 20) out ++ TRUNCATED.

Definition msg_text (len : Z) (out : list Z) : list Z :=
  if len <=? zlen MINIMUM_MESSAGE then [] else msg_head ++ msg_body len out ++ [DQUOTE].

(** [acc] with a field and its comma, if the field is there. *)
Definition add_field (acc t : list Z) : list Z := match t with [] => acc | _ => acc ++ t ++ [COMMA] end.

Definition field_room (len : Z) (acc : list Z) : Z := len - zlen acc - 20.

(** The entry up to the message. *)
Definition entry_fields (len : Z) (tv : Z * Z) (severity : Z) (id : list Z)
    (l : list (list Z * list Z)) : list Z :=
  let acc := [LBRACE] in
  let acc := add_field acc (fit (field_room len acc) (ts_text tv)) in
  let acc := add_field acc (from_option (λ v, fit (field_room len acc) (sev_text v)) []
                              (severity_val severity)) in
  let acc := add_field acc (fit (field_room len acc) (id_text id)) in
  add_field acc (mdc_text (field_room len acc) l).

(** The whole entry; there is none when no room is left for the message. *)
Definition entry_text (len : Z) (tv : Z * Z) (severity : Z) (id : list Z)
    (l : list (list Z * list Z)) (out : list Z) : option (list Z) :=
  let acc := entry_fields len tv severity id l in
  match msg_text (len - zlen acc - 1) out with
  | [] => None
  | t => Some (acc ++ t ++ [RBRACE])
  end.

(** ** What a piece promises *)

(** The state with the cells [cs] in block [b]. *)
Definition on (b : positive) (cs : list (option Z)) (w : world) : world :=
  with_heap (<[b := BChars cs]> (heap w)) w.

(** [formats w b m text]: given a window of [len] characters of block [b], [m]
    writes [text len] and a zero, stays in the window and returns the length. *)
Definition formats (w : world) (b : positive) (m : ptr → Z → M Z) (text : Z → list Z) : Prop :=
  (∀ len, 1 ≤ len → zlen (text len) < len) ∧ (∀ len, is_str (text len)) ∧
  ∀ cs o len (Q : Z → world → Prop),
    0 ≤ o → 1 ≤ len ≤ INT_MAX → o + len ≤ zlen cs →
    (∀ cs', same_outside o len cs cs' → holds cs' o (text len ++ [NUL]) →
       Q (zlen (text len)) (on b cs' w)) →
    wp (m (Ptr b o) len) (on b cs w) Q.

Lemma on_on b cs cs' w : on b cs' (on b cs w) = on b cs' w.
Proof. rewrite /on /with_heap /=. by rewrite insert_insert_eq. Qed.

Lemma on_lookup b cs w : heap (on b cs w) !! b = Some (BChars cs).
Proof. apply lookup_insert_eq. Qed.

#[local] Arguments lit : simpl never.
#[local] Arguments qlit : simpl never.

(** Evaluates the parse of a format. *)
Ltac expand_format :=
  match goal with
  | |- context [parse_format ?f] =>
      let r := eval vm_compute in (parse_format f) in change (parse_format f) with r
  end; cbn.

Section pieces.
Implicit Types (w : world) (t : list Z).

Lemma fit_len len t : 1 ≤ len → zlen (fit len t) < len.
Proof. intros. rewrite /fit. destruct (Z.ltb_spec (zlen t) len); [done|zl]. Qed.

Lemma fit_is_str len t : is_str t → is_str (fit len t).
Proof. intros. rewrite /fit. destruct (zlen t <? len); [done|constructor]. Qed.

(** The common shape: print, and take it back if it does not fit. *)
Lemma wp_format w b cs o len f args t (Q : Z → world → Prop) :
  is_str f → (∀ h, vformat (<[b := h]> (heap w)) f args = Some t) → zlen t ≤ INT_MAX →
  0 ≤ o → 1 ≤ len ≤ INT_MAX → o + len ≤ zlen cs →
  (∀ cs', same_outside o len cs cs' → holds cs' o (fit len t ++ [NUL]) →
     Q (zlen (fit len t)) (on b cs' w)) →
  wp (ret ← snprintf (Ptr b o) len (Lit f 0) args;
      if (ret <? 0) || (len <=? u64 ret) then store_char (Ptr b o) NUL ;; mret 0
      else mret (u64 ret)) (on b cs w) Q.
Proof.
  intros Hf Hv Ht Ho [Hl1 Hl2] Hle HQ. rewrite /snprintf.
  step wp_vsnprintf; [apply on_lookup|done|lia|done|by apply get_cstr_lit|apply Hv|done|].
  intros cs' Hso Hh. specialize (Hh ltac:(lia)). pose proof (zlen_nonneg t).
  rewrite u64_small; [|unfold INT_MAX in *; lia].
  destruct (Z.ltb_spec (zlen t) 0); [lia|]. cbn [orb]. rewrite -/(on b cs' (on b cs w)) on_on.
  rewrite /fit in HQ. destruct (Z.leb_spec len (zlen t)), (Z.ltb_spec (zlen t) len); try lia.
  - step (wp_store_nul b o len); [apply on_lookup|done|done| |].
    { by rewrite (same_outside_zlen _ _ _ _ Hso). }
    intros cs2 Hso2 Hh2. rewrite -/(on b cs2 (on b cs' w)) on_on. apply wp_ret, HQ; [|done].
    by eapply same_outside_trans.
  - apply wp_ret, HQ; [done|]. by rewrite take_ge in Hh; last zl.
Qed.

Lemma formats_intro w b f args t :
  is_str f → is_str t → (∀ h, vformat (<[b := h]> (heap w)) f args = Some t) → zlen t ≤ INT_MAX →
  formats w b (λ buffer len,
    ret ← snprintf buffer len (Lit f 0) args;
    if (ret <? 0) || (len <=? u64 ret) then store_char buffer NUL ;; mret 0
    else mret (u64 ret)) (λ len, fit len t).
Proof.
  intros Hf Ht Hv Hl. split_and!.
  - intros len. apply fit_len.
  - intros len. by apply fit_is_str.
  - intros. by eapply wp_format.
Qed.

(** The expansions of the formats. *)
Lemma vformat_ts h n : vformat h (qlit "'%s':%llu") [AStr (Lit TIMESTAMP_KEY 0); AULL n]
  = Some (qlit "'ts':" ++ dec n).
Proof.
  rewrite /vformat. expand_format. rewrite (get_cstr_lit _ TIMESTAMP_KEY); [|by repeat constructor]. cbn. by rewrite app_nil_r.
Qed.

Lemma vformat_sev h v : is_str v →
  vformat h (qlit "'%s':'%s'") [AStr (Lit SEVERITY_KEY 0); AStr (Lit v 0)] = Some (sev_text v).
Proof.
  intros Hv. rewrite /vformat. expand_format. rewrite (get_cstr_lit _ SEVERITY_KEY); [|by repeat constructor]. cbn.
  by rewrite get_cstr_lit.
Qed.

Lemma vformat_id h p id : get_cstr h p = Some id →
  vformat h (qlit "'%s':'%.*s'") [AStr (Lit LOGGER_KEY 0); AInt IDENTITY_MAX_LENGTH; AStr p]
  = Some (id_text id).
Proof.
  intros Hp. rewrite /vformat. expand_format. rewrite (get_cstr_lit _ LOGGER_KEY); [|by repeat constructor]. cbn.
  by rewrite (get_cstr_n_str _ _ _ _ Hp).
Qed.

Lemma vformat_pair h kp vp k v : get_cstr h kp = Some k → get_cstr h vp = Some v →
  vformat h (qlit "'%s':'%s',") [AStr kp; AStr vp] = Some (pair_text (k, v) ++ [COMMA]).
Proof.
  intros Hk Hv. rewrite /vformat. expand_format. rewrite Hk. cbn. rewrite Hv. cbn.
  rewrite /pair_text. cbn. by rewrite -!app_assoc.
Qed.

Lemma timestamp_range tv : 0 ≤ timestamp_ms tv < 10 ^ 20.
Proof. pose proof (u64_range (u64 tv.1 * 1000 + u64 tv.2 / 1000)). rewrite /timestamp_ms. lia. Qed.

Lemma ts_text_len tv : zlen (ts_text tv) ≤ 25.
Proof.
  pose proof (timestamp_range tv). rewrite /ts_text zlen_app.
  pose proof (dec_len (timestamp_ms tv) 20). change (zlen (qlit "'ts':")) with 5. lia.
Qed.

Lemma sev_text_len severity v : severity_val severity = Some v → zlen (sev_text v) ≤ 16.
Proof.
  rewrite /severity_val. repeat case_match; intros; simplify_eq; by vm_compute.
Qed.

Lemma id_text_len id : zlen (id_text id) ≤ 107.
Proof.
  rewrite /id_text !zlen_app zlen_take. change (zlen (qlit "'id':'")) with 6.
  change (zlen [DQUOTE]) with 1. rewrite Z2Nat.id /IDENTITY_MAX_LENGTH; lia.
Qed.

Lemma ts_text_is_str tv : is_str (ts_text tv).
Proof.
  apply is_str_app. split; [by repeat constructor|]. apply dec_is_str. apply timestamp_range.
Qed.

Lemma sev_text_is_str v : is_str v → is_str (sev_text v).
Proof.
  intros. apply is_str_app. split; [by repeat constructor|].
  apply is_str_app. split; [done|by repeat constructor].
Qed.

Lemma id_text_is_str id : is_str id → is_str (id_text id).
Proof.
  intros. apply is_str_app. split; [by repeat constructor|].
  apply is_str_app. split; [by apply is_str_take|by repeat constructor].
Qed.

Lemma severity_is_str severity v : severity_val severity = Some v → is_str v.
Proof. rewrite /severity_val. repeat case_match; intros; simplify_eq; by repeat constructor. Qed.

Lemma format_timestamp_ok w b tv : formats w b (format_timestamp tv) (λ len, fit len (ts_text tv)).
Proof.
  apply formats_intro; [by repeat constructor|apply ts_text_is_str|intros; apply vformat_ts|].
  pose proof (ts_text_len tv). unfold INT_MAX. lia.
Qed.

Lemma format_severity_ok w b severity :
  formats w b (format_severity severity)
    (λ len, from_option (λ v, fit len (sev_text v)) [] (severity_val severity)).
Proof.
  rewrite /format_severity. destruct (severity_val severity) as [v|] eqn:Hv; cbn.
  - pose proof (severity_is_str _ _ Hv). pose proof (sev_text_len _ _ Hv).
    apply formats_intro; [by repeat constructor|by apply sev_text_is_str|intros; by apply vformat_sev|].
    unfold INT_MAX. lia.
  - split_and!; [intros; zl|constructor|]. intros cs o len Q Ho Hl Hle HQ.
    step (wp_store_nul b o len); [apply on_lookup|done|lia|done|].
    intros cs' Hso Hh. rewrite -/(on b cs' (on b cs w)) on_on. by apply wp_ret, HQ.
Qed.

(** The name printed for an identity. *)
Definition identity_name (h : gmap positive block) (p : ptr) : option (list Z) :=
  if is_null p then Some (lit "(null)") else get_cstr h p.

Lemma format_identity_ok w b p id :
  identity_name (heap w) p = Some id → ptr_block p ≠ Some b →
  formats w b (format_identity p) (λ len, fit len (id_text id)).
Proof.
  rewrite /identity_name /format_identity. intros Hp Hne.
  assert (Hid : is_str id).
  { destruct (is_null p); [simplify_eq; by repeat constructor|by eapply get_cstr_nonzero]. }
  apply formats_intro; [by repeat constructor|by apply id_text_is_str| |].
  - intros h. apply vformat_id. destruct (is_null p).
    + simplify_eq. by apply get_cstr_lit.
    + by rewrite get_cstr_insert_ne.
  - pose proof (id_text_len id). unfold INT_MAX. lia.
Qed.
End pieces.

(** ** The MDC field *)

#[local] Arguments pair_text : simpl never.

Section mdc_field.
Context `{MdcWalk}.
Implicit Types (w : world) (l : list (list Z * list Z)).

(** The pairs as they are in the buffer while the loop runs. *)
Definition pairs_text (l : list (list Z * list Z)) : list Z :=
  l ≫= λ p, pair_text p ++ [COMMA].

Lemma pairs_text_cons p l : pairs_text (p :: l) = (pair_text p ++ [COMMA]) ++ pairs_text l.
Proof. done. Qed.

Lemma pairs_text_commas l : l ≠ [] → pairs_text l = commas (pair_text <$> l) ++ [COMMA].
Proof.
  induction l as [|p l IH]; [done|]. intros _. destruct l as [|p' l]; [by rewrite /= !app_nil_r|].
  rewrite pairs_text_cons IH //. change (commas (pair_text <$> p :: p' :: l))
    with (pair_text p ++ COMMA :: commas (pair_text <$> p' :: l)).
  by rewrite -!app_assoc.
Qed.

Lemma mdc_fit_len n l : 1 ≤ n → zlen (pairs_text (mdc_fit n l)) < n.
Proof.
  revert n. induction l as [|p l IH]; intros n Hn; cbn [mdc_fit];
    [change (0 < n); lia|].
  destruct (Z.ltb_spec (zlen (pair_text p) + 1) n); [|change (0 < n); lia].
  rewrite pairs_text_cons zlen_app (zlen_app (pair_text p)). change (zlen [COMMA]) with 1.
  specialize (IH (n - (zlen (pair_text p) + 1)) ltac:(lia)). lia.
Qed.

Definition pair_ok (p : list Z * list Z) : Prop :=
  is_str p.1 ∧ is_str p.2 ∧ zlen (pair_text p) < INT_MAX.

Lemma chain_on w b cs F p l : b ∉ F → chain (heap w) F p l → chain (heap (on b cs w)) F p l.
Proof.
  intros Hb. apply chain_frame. intros b' Hb'. apply lookup_insert_ne. by intros ->.
Qed.

(** The loop writes the pairs that fit after what the window holds, [acc]. *)
Lemma mdc_loop_spec w b o len F fuel p l acc n cs (Q : Z * Z → world → Prop) :
  b ∉ F → chain (heap w) F p l → Forall pair_ok l → (length l < fuel)%nat →
  0 ≤ o → len ≤ INT_MAX → o + len ≤ zlen cs → zlen acc < len → holds cs o acc →
  (∀ cs', let l' := mdc_fit (len - zlen acc) l in
     same_outside o len cs cs' → holds cs' o (acc ++ pairs_text l') →
     Q (zlen (acc ++ pairs_text l'), n + zlen l') (on b cs' w)) →
  wp (mdc_loop fuel (Ptr b o) len p (zlen acc) n) (on b cs w) Q.
Proof.
  intros HbF Hc Hl. revert fuel p acc n cs Hc.
  induction Hl as [|[k v] l (Hk & Hv & Hkv) _ IH]; intros fuel p acc n cs Hc Hf Ho Hlen Hle Hacc Hh HQ;
    (destruct fuel as [|fuel]; [cbn in Hf; lia|]); cbn [mdc_loop].
  - apply chain_nil in Hc as ->. cbn [is_null]. apply wp_ret.
    specialize (HQ cs). cbn in HQ. rewrite app_nil_r Z.add_0_r in HQ. by apply HQ.
  - pose proof (chain_on _ _ cs _ _ _ HbF Hc) as Hc'.
    destruct (chain_cons _ _ _ _ _ _ Hc') as (-> & (kp & Hkp & Hks) & (vp & Hvp & Hvs) & _).
    apply wp_bind. eapply wp_eq; [done|]. apply wp_bind. eapply wp_eq; [done|].
    pose proof (zlen_nonneg acc). cbn [ptr_add]. rewrite u64_small; [|unfold INT_MAX in *; lia].
    rewrite /snprintf. set (t := pair_text (k, v) ++ [COMMA]).
    assert (Hzt : zlen t = zlen (pair_text (k, v)) + 1) by (rewrite /t zlen_app; done).
    step wp_vsnprintf; [apply on_lookup|lia|lia|lia|apply get_cstr_lit; by repeat constructor
      |by apply vformat_pair|fold t; lia|].
    fold t. intros cs' Hso Hht. specialize (Hht ltac:(lia)). rewrite -/(on b cs' (on b cs w)) on_on.
    pose proof (zlen_nonneg t). rewrite u64_small; [|unfold INT_MAX in *; lia].
    assert (Hh' : holds cs' o acc) by (eapply holds_frame; [done|exact Hso|left; lia]).
    assert (Hso' : same_outside o len cs cs') by (eapply same_outside_weaken; [done|lia|lia]).
    destruct (Z.ltb_spec (zlen t) 0); [lia|]. cbn [orb mdc_fit] in *. rewrite -Hzt in HQ.
    destruct (Z.leb_spec (len - zlen acc) (zlen t)), (Z.ltb_spec (zlen t) (len - zlen acc)); try lia.
    + apply wp_ret. specialize (HQ cs'). cbn in HQ. rewrite app_nil_r Z.add_0_r in HQ. by apply HQ.
    + destruct (chain_cons _ _ _ _ _ _ (chain_on _ _ cs' _ _ _ HbF Hc))
        as (_ & _ & _ & (p2 & Hp2 & Hc2)).
      assert (Hc2' : chain (heap w) F p2 l).
      { eapply chain_frame; [|exact Hc2]. intros b' Hb'. cbn. rewrite lookup_insert_ne //. by intros ->. }
      apply wp_bind. eapply wp_eq; [done|]. rewrite -zlen_app.
      apply (IH fuel p2 (acc ++ t)); [done|cbn in Hf; lia|done|done| |rewrite zlen_app; lia| |].
      * by rewrite (same_outside_zlen _ _ _ _ Hso).
      * apply holds_app. split; [done|]. rewrite take_ge in Hht; [|zl].
        by apply holds_app in Hht as [? _].
      * intros cs2 Hso2 Hh2. specialize (HQ cs2). cbn zeta in HQ.
        rewrite pairs_text_cons -/t app_assoc zlen_cons Z.add_assoc in HQ.
        rewrite (zlen_app acc t) Z.sub_add_distr in Hh2 |- *.
        apply HQ; [by eapply same_outside_trans|done].
Qed.

Lemma mdc_fit_longest n l : 0 < n →
  ∃ k, mdc_fit n l = take k l ∧ longest (λ k, zlen (pairs_text (take k l)) < n) (length l) k.
Proof.
  revert n. induction l as [|p l IH]; intros n Hn; cbn [mdc_fit].
  { exists 0%nat. split; [done|]. split_and!; [done|done|]. cbn. lia. }
  assert (Hc : ∀ j, zlen (pairs_text (take (S j) (p :: l))) = zlen (pair_text p) + 1 + zlen (pairs_text (take j l))).
  { intros j. cbn [take]. rewrite pairs_text_cons. zl. }
  destruct (Z.ltb_spec (zlen (pair_text p) + 1) n).
  - destruct (IH (n - (zlen (pair_text p) + 1))) as (k & -> & Hk & HP & Hmax); [lia|]. exists (S k). split; [done|].
    split_and!; [cbn; lia|rewrite Hc; lia|]. intros [|j] Hj; [lia|]. rewrite Hc. cbn in Hj.
    pose proof (Hmax j ltac:(lia)). lia.
  - exists 0%nat. split; [done|]. split_and!; [cbn; lia|done|]. intros [|j] Hj; [lia|]. rewrite Hc.
    pose proof (zlen_nonneg (pairs_text (take j l))). lia.
Qed.

Lemma mdc_fit_prefix n l : ∃ k, mdc_fit n l = take k l.
Proof.
  revert n. induction l as [|p l IH]; intros n; cbn [mdc_fit]; [by exists 0%nat|].
  destruct (_ <? n); [|by exists 0%nat].
  destruct (IH (n - (zlen (pair_text p) + 1))) as [k ->]. by exists (S k).
Qed.

Lemma commas_is_str ts : Forall is_str ts → is_str (commas ts).
Proof.
  induction 1 as [|t ts Ht Hts IH]; [constructor|]. destruct ts as [|t' ts]; [done|].
  apply is_str_app. split; [done|]. by constructor.
Qed.

Lemma pair_text_is_str p : is_str p.1 → is_str p.2 → is_str (pair_text p).
Proof.
  intros. rewrite /pair_text. repeat (apply is_str_app; split); by repeat constructor.
Qed.

Lemma mdc_text_is_str len l : Forall pair_ok l → is_str (mdc_text len l).
Proof.
  intros Hl. rewrite /mdc_text. destruct (_ <? len); [|constructor].
  destruct (mdc_fit_prefix (len - zlen mdc_head) l) as [k ->].
  apply is_str_app. split; [by repeat constructor|].
  apply is_str_app. split; [|by repeat constructor].
  apply commas_is_str, Forall_fmap, Forall_take. eapply Forall_impl; [done|].
  intros p (?&?&_). by apply pair_text_is_str.
Qed.

(** The closing brace takes the place of the last comma. *)
Lemma mdc_close len l' offset :
  zlen mdc_head + 1 < len → zlen (pairs_text l') < len - zlen mdc_head →
  offset = zlen (mdc_head ++ pairs_text l') →
  (if 0 <? zlen l' then offset - 1 else offset) = zlen (mdc_head ++ commas (pair_text <$> l')) ∧
  zlen (mdc_head ++ commas (pair_text <$> l')) + 1 < len ∧
  ∃ r, mdc_head ++ pairs_text l' = (mdc_head ++ commas (pair_text <$> l')) ++ r.
Proof.
  intros Hlen Hl ->. destruct l' as [|p l'].
  - change (pairs_text []) with (@nil Z). rewrite app_nil_r. change (0 <? zlen []) with false.
    split_and!; [done|done|by exists []].
  - rewrite pairs_text_commas // in Hl |- *. rewrite zlen_app in Hl. rewrite app_assoc.
    rewrite (zlen_app _ [COMMA]) (zlen_cons p). pose proof (zlen_nonneg l').
    destruct (Z.ltb_spec 0 (1 + zlen l')); [|lia]. change (zlen [COMMA]) with 1 in *.
    rewrite zlen_app. split_and!; [lia|lia|by eexists].
Qed.

Lemma mdc_text_len len l : 1 ≤ len → zlen (mdc_text len l) < len.
Proof.
  intros Hlen. rewrite /mdc_text.
  destruct (Z.ltb_spec (zlen mdc_head + 1) len) as [Hlt|]; [|by rewrite zlen_nil; lia].
  pose proof (mdc_fit_len (len - zlen mdc_head) l ltac:(lia)) as Hf.
  destruct (mdc_close len _ _ Hlt Hf eq_refl) as (_ & Hlt' & _).
  rewrite app_assoc zlen_app. change (zlen [RBRACE]) with 1. done.
Qed.

Lemma format_mdc_ok w b F p l :
  b ∉ F → chain (heap w) F p l → Forall pair_ok l →
  formats w b (format_mdc p) (λ len, mdc_text len l).
Proof.
  intros HbF Hc Hl. split_and!; [by intros; apply mdc_text_len|by intros; apply mdc_text_is_str|].
  intros cs o len Q Ho [Hlen1 Hlen2] Hle HQ. rewrite /format_mdc /snprintf.
  assert (Hv : ∀ h, vformat h (qlit "'%s':{") [AStr (Lit MDC_KEY 0)] = Some mdc_head) by done.
  step wp_vsnprintf; [apply on_lookup|done|lia|done|by apply get_cstr_lit; repeat constructor
    |apply Hv|done|].
  intros cs1 Hso1 Hh1. specialize (Hh1 ltac:(lia)). rewrite -/(on b cs1 (on b cs w)) on_on.
  rewrite /mdc_text in HQ. change (zlen mdc_head) with 7 in *. cbn [Z.ltb Z.compare orb].
  change (u64 (u64 7 + 1)) with 8. change (7 + 1) with 8 in HQ.
  destruct (Z.leb_spec len 8), (Z.ltb_spec 8 len); try lia.
  - step (wp_store_nul b o len); [apply on_lookup|done|done|by rewrite (same_outside_zlen _ _ _ _ Hso1)|].
    intros cs2 Hso2 Hh2. rewrite -/(on b cs2 (on b cs1 w)) on_on. apply wp_ret, HQ; [|done].
    by eapply same_outside_trans.
  - wp_pure. set (l' := mdc_fit (len - 7) l) in *.
    rewrite take_ge in Hh1; [|change (7 ≤ Z.to_nat (len - 1))%nat; lia]. apply holds_app in Hh1 as [Hh1 _].
    pose proof (same_outside_zlen _ _ _ _ Hso1) as Hz1.
    step (mdc_loop_spec w b o len F _ p l mdc_head 0 cs1); [done|done|done| |done|done|lia|change (7 < len); lia|done|].
    { eapply chain_length, chain_on; done. }
    cbn zeta. change (zlen mdc_head) with 7. fold l'. intros cs2 Hso2 Hh2.
    pose proof (same_outside_zlen _ _ _ _ Hso2) as Hz2. rewrite Z.add_0_l.
    destruct (mdc_close len l' _ ltac:(done) (mdc_fit_len (len - 7) l ltac:(lia)) eq_refl)
      as (-> & Hlt & r & Hr). set (body := mdc_head ++ commas (pair_text <$> l')) in *.
    rewrite Hr in Hh2. apply holds_app in Hh2 as [Hh2 _]. pose proof (zlen_nonneg body).
    step (wp_store_snoc b o len); [apply on_lookup|done|lia|lia|]. intros cs3 Hso3 Hh3.
    pose proof (same_outside_zlen _ _ _ _ Hso3) as Hz3.
    rewrite -/(on b cs3 (on b cs2 w)) on_on.
    assert (Hz : zlen (body ++ [RBRACE]) = zlen body + 1) by apply zlen_app.
    cbn [ptr_add]. rewrite -Hz.
    step (wp_store_snoc b o len); [apply on_lookup|done|lia|lia|]. intros cs4 Hso4 Hh4.
    rewrite -/(on b cs4 (on b cs3 w)) on_on. rewrite u64_small; [|unfold INT_MAX in *; lia].
    apply wp_ret. rewrite app_assoc -/body in HQ. apply HQ; [|done].
    by repeat (eapply same_outside_trans; [eassumption|]).
Qed.
End mdc_field.

(** ** The message *)

(** In every heap that agrees with [h] outside block [b], the format and its
    arguments expand to [out]. *)
Definition printable (h : gmap positive block) (b : positive) (msg : ptr) (args : list arg)
    (out : list Z) : Prop :=
  is_str out ∧ zlen out ≤ INT_MAX ∧
  ∀ h', (∀ b', b' ≠ b → is_Some (h !! b') → h' !! b' = h !! b') →
    ∃ f, get_cstr h' msg = Some f ∧ vformat h' f args = Some out.

Lemma printable_intro h h0 F b msg args f out :
  (∀ b', b' ∉ F → is_Some (h0 !! b') → h !! b' = h0 !! b' ∧ b' ≠ b) →
  get_cstr h0 msg = Some f → outside F msg → Forall (arg_ok F) args →
  vformat h0 f args = Some out → zlen out ≤ INT_MAX → printable h b msg args out.
Proof.
  intros Hh Hf Hmsg Ha Hv Hl. split; [|split; [done|]].
  - eapply vformat_is_str; [by eapply get_cstr_nonzero|done..].
  - intros h' Hagree.
    assert (Hag : ∀ b', b' ∉ F → is_Some (h0 !! b') → h' !! b' = h0 !! b').
    { intros b' Hb' Hs. destruct (Hh b' Hb' Hs) as [Heq Hne]. rewrite -Heq. apply Hagree; [done|by rewrite Heq]. }
    exists f. split; [by eapply get_cstr_agree|].
    move: Hv => /bind_Some [ds [Hds Hr]]. rewrite /vformat Hds /=. by eapply render_agree.
Qed.

(** The state after an allocation that has been freed again. *)
Definition after_malloc (w : world) : world :=
  with_next (Pos.succ (next w)) (with_plan (tail (plan w)) w).

Section message.
Implicit Types (w : world) (p s out : list Z).

(** The last character tells how wide its escape is. *)
Lemma esc_char_last c : ∃ t x, esc_char c = t ++ [x] ∧
  zlen t = (if (x =? BACKSLASH) || (x =? DQUOTE) then 1 else 0).
Proof.
  rewrite /esc_char. destruct (needs_escape c) eqn:Hc.
  - exists [BACKSLASH], c. split; [done|]. rewrite /needs_escape in Hc. by rewrite Hc.
  - exists [], (if isprint c then c else REPLACEMENT_CHAR). split; [done|].
    destruct (isprint c); [|done]. rewrite /needs_escape in Hc. by rewrite Hc.
Qed.

Lemma truncate_loop_spec fuel b o len p cs w (Q : Z → world → Prop) :
  heap w !! b = Some (BChars cs) → holds cs o (msg_head ++ esc p) → 20 ≤ len ≤ INT_MAX →
  zlen (esc p) ≤ len → (length p < fuel)%nat → Q (7 + zlen (esc_take (len - 20) p)) w →
  wp (truncate_loop fuel (Ptr b o) len (7 + zlen (esc p))) w Q.
Proof.
  intros Hb Hh Hlen. unfold INT_MAX in Hlen. revert fuel Hh.
  assert (Hesc : ∀ p c, esc (p ++ [c]) = esc p ++ esc_char c).
  { intros p' c. rewrite esc_app. change (esc [c]) with (esc_char c ++ []). by rewrite app_nil_r. }
  induction p as [|c p IH] using rev_ind; intros fuel Hh Hle Hf HQ;
    (destruct fuel as [|fuel]; [cbn in Hf; lia|]); cbn [truncate_loop];
    change (zlen TRUNCATED) with 11.
  - change (zlen (esc [])) with 0. rewrite !u64_small; [|lia..].
    destruct (Z.leb_spec (len - 1) (7 + 0 + 11)); [lia|]. by apply wp_ret.
  - pose proof (zlen_nonneg (esc (p ++ [c]))). rewrite (u64_small (len - 1)); last lia.
    rewrite (u64_small (7 + zlen (esc (p ++ [c])) + 11)); last lia.
    destruct (Z.leb_spec (len - 1) (7 + zlen (esc (p ++ [c])) + 11)) as [Hc|Hc];
      [|apply wp_ret; rewrite esc_take_all in HQ; [done|lia..]].
    rewrite Hesc zlen_app in Hc. rewrite esc_take_app_stop in HQ; [|intros c' t' [= <- <-]; lia].
    destruct (esc_char_last c) as (t & x & Ht & Hx). rewrite Hesc Ht !app_assoc in Hh.
    rewrite Hesc Ht zlen_app (zlen_app t) in Hle |- *. change (zlen [x]) with 1 in *.
    pose proof (zlen_nonneg t). pose proof (zlen_nonneg (esc p)).
    apply holds_app in Hh as [Hh Hx1]. rewrite 2!zlen_app in Hx1. change (zlen msg_head) with 7 in Hx1.
    step wp_load_holds; [done| |].
    { cbn [ptr_add]. eapply (eq_rect _ (λ i, holds cs i [x])); [exact Hx1|lia]. }
    apply holds_app in Hh as [Hh _].
    assert (Hi : u64 ((if (x =? BACKSLASH) || (x =? DQUOTE)
        then u64 (7 + (zlen (esc p) + (zlen t + 1)) - 1) else 7 + (zlen (esc p) + (zlen t + 1))) - 1)
        = 7 + zlen (esc p)).
    { destruct (_ || _); rewrite Hx !u64_small; lia. }
    rewrite Hi. apply IH; [done|lia| |done]. rewrite length_app /= in Hf. lia.
Qed.

(** Printing what follows the text of the message. *)
Lemma wp_msg_close w b o len body f args tail cs (Q : Z → world → Prop) :
  heap w !! b = Some (BChars cs) → holds cs o (msg_head ++ body) → o + len ≤ zlen cs →
  7 + zlen body + zlen tail + 1 ≤ len ≤ INT_MAX → is_str f →
  (∀ h, vformat h f args = Some tail) →
  (∀ cs', same_outside o len cs cs' → holds cs' o ((msg_head ++ body ++ tail) ++ [NUL]) →
     Q (zlen (msg_head ++ body ++ tail)) (on b cs' w)) →
  wp (n ← sprintf (Ptr b o +ₚ (7 + zlen body)) (Lit f 0) args;
      mret (u64 (7 + zlen body + n))) w Q.
Proof.
  intros Hb Hh Hle Hlen Hf Hv HQ. pose proof Hh as [Ho _]. unfold INT_MAX in Hlen.
  pose proof (zlen_nonneg body). pose proof (zlen_nonneg tail).
  assert (Hz : zlen (msg_head ++ body) = 7 + zlen body) by apply zlen_app.
  step (wp_sprintf _ _ _ _ f tail); [done|lia|lia|by apply get_cstr_lit|apply Hv|unfold INT_MAX; lia|].
  intros cs' Hso Hh'. apply wp_ret. rewrite u64_small; [|lia]. rewrite -Hz -zlen_app -app_assoc.
  apply HQ; [eapply same_outside_weaken; [done|lia|lia]|]. rewrite (app_assoc msg_head) -app_assoc.
  apply holds_app. rewrite Hz. split; [|done]. eapply holds_frame; [done|done|left; lia].
Qed.

(** The end of [format_message]: the buffer holds the head and the escape of a
    prefix [p] of [out], the longest one that fits. *)
Lemma wp_message_end w b o len out p rest cs cond (Q : Z → world → Prop) :
  heap w !! b = Some (BChars cs) → holds cs o (msg_head ++ esc p) → 20 ≤ len ≤ INT_MAX →
  o + len ≤ zlen cs → cond = negb (zlen (esc out) <=? len - 9) →
  esc_take (len - 9) out = esc p → out = p ++ rest →
  (zlen (esc out) ≤ len - 9 → rest = []) →
  esc_take (len - 20) p = esc_take (len - 20) out →
  (∀ cs', same_outside o len cs cs' →
     holds cs' o ((msg_head ++ msg_body len out ++ [DQUOTE]) ++ [NUL]) →
     Q (zlen (msg_head ++ msg_body len out ++ [DQUOTE])) (on b cs' w)) →
  wp (let total_len := 7 + zlen (esc p) in
      if (cond : bool) then
        i ← truncate_loop (S (Z.to_nat total_len)) (Ptr b o) len total_len;
        n ← sprintf (Ptr b o +ₚ i) (Lit (qlit "%s'") 0) [AStr (Lit TRUNCATED 0)];
        mret (u64 (i + n))
      else
        n ← sprintf (Ptr b o +ₚ total_len) (Lit (qlit "'") 0) [];
        mret (u64 (total_len + n))) w Q.
Proof.
  intros Hb Hh Hlen Hle Hcond Hp Hout Hrest Htake HQ. cbn zeta.
  pose proof (esc_take_len (len - 9) out ltac:(lia)) as Hpl. rewrite Hp in Hpl.
  pose proof (zlen_nonneg (esc p)). rewrite /msg_body in HQ.
  destruct cond; [destruct (Z.leb_spec (zlen (esc out)) (len - 9)); [done|]
                 |destruct (Z.leb_spec (zlen (esc out)) (len - 9)); [|done]].
  - step truncate_loop_spec; [done|done|done|lia| |].
    { pose proof (esc_len_ge p). zl. }
    rewrite Htake. set (body := esc_take (len - 20) out) in *.
    assert (Hbl : zlen body ≤ len - 20) by (apply esc_take_len; lia).
    assert (Hhb : holds cs o (msg_head ++ body)).
    { destruct (esc_take_rest (len - 20) p) as (k & Hk & Hk').
      rewrite -Htake Hk'. rewrite {1}Hk esc_app app_assoc in Hh. by apply holds_app in Hh as [? _]. }
    rewrite -(app_assoc body) in HQ.
    eapply (wp_msg_close _ _ _ len _ _ _ (TRUNCATED ++ [DQUOTE])); [done|done|done| |by repeat constructor|done|done].
    change (zlen (TRUNCATED ++ [DQUOTE])) with 12. lia.
  - rewrite Hrest // app_nil_r in Hout. subst p.
    eapply (wp_msg_close _ _ _ len _ _ _ [DQUOTE]); [done|done|done| |by repeat constructor|done|done].
    change (zlen [DQUOTE]) with 1. lia.
Qed.

(** Printing the message into the temporary buffer and escaping it from there. *)
Lemma wp_message_escape w b o len msg args out cs {A} (m0 : M A) (k : Z → Z → Z → M A) (Q : A → world → Prop) :
  plan_ok (plan w) = true → wf_heap w → (b < next w)%positive →
  printable (heap w) b msg args out → 20 ≤ len ≤ INT_MAX → o + len ≤ zlen cs →
  holds cs o msg_head →
  (∀ cs' p rest, same_outside o len cs cs' → holds cs' o (msg_head ++ esc p) →
     esc_take (len - 9) out = esc p → out = p ++ rest →
     (zlen (esc out) ≤ len - 9 → rest = []) →
     esc_take (len - 20) p = esc_take (len - 20) out →
     wp (k (zlen out) (zlen (esc p)) (if zlen (esc (take (Z.to_nat (len - 8)) out)) <=? len - 9 then 0 else 1))
       (on b cs' (after_malloc w)) Q) →
  wp (tmp_buf ← malloc_chars (u64 (len - u64 7));
      if is_null tmp_buf then m0
      else
        ret ← vsnprintf tmp_buf (u64 (len - u64 7)) msg args;
        '(escaped_msg_len, escape_truncated) ←
          mdclog_internal_escape (Ptr b o +ₚ 7) (u64 (len - u64 7 - 1)) tmp_buf;
        free tmp_buf ;; k ret escaped_msg_len escape_truncated) (on b cs w) Q.
Proof.
  intros Hp Hw Hb (Hstr & Hmax & Hpr) Hlen Hle Hh HQ. pose proof Hh as [Ho _]. unfold INT_MAX in *.
  change (u64 7) with 7. rewrite !u64_small; [|lia..].
  step wp_malloc; [intros _|rewrite /= Hp; congruence]. cbn [is_null]. set (nx := next (on b cs w)).
  assert (Hne : nx ≠ b) by (cbn; lia). pose proof (wf_heap_fresh _ Hw) as Hfresh.
  set (w1 := malloc_world _ _).
  assert (Hpr1 : ∃ f, get_cstr (heap w1) msg = Some f ∧ vformat (heap w1) f args = Some out).
  { apply Hpr. intros b' Hb' [x Hx]. cbn. rewrite lookup_insert_ne; [by rewrite lookup_insert_ne|].
    intros <-. by rewrite Hfresh in Hx. }
  destruct Hpr1 as (f & Hf & Hv).
  step wp_vsnprintf; [apply lookup_insert_eq|done|lia|zl|exact Hf|exact Hv|done|].
  intros ct Hso Ht. specialize (Ht ltac:(lia)). replace (len - 7 - 1) with (len - 8) in * by lia.
  set (s := take (Z.to_nat (len - 8)) out) in *. set (w2 := with_heap _ w1).
  assert (Hs : is_str s) by by apply is_str_take.
  assert (Htmp : get_cstr (heap w2) (Ptr nx 0) = Some s).
  { eapply get_cstr_holds; [apply lookup_insert_eq|done|done]. }
  assert (Hbuf : heap w2 !! b = Some (BChars cs)).
  { cbn. rewrite lookup_insert_ne // lookup_insert_ne // lookup_insert_eq. done. }
  cbn [ptr_add]. step wp_escape; [exact Hbuf|exact Htmp|by cbn; intros [= ?]|lia|lia|lia|].
  replace (len - 8 - 1) with (len - 9) by lia. intros cs' Hso' Hh'. cbn beta iota.
  step wp_free; [by rewrite /= lookup_insert_ne // lookup_insert_eq|].
  destruct (esc_take_rest (len - 9) s) as (j & Hj & Hj'). rewrite Hj' in Hh' |- *.
  assert (Hpre : esc_take (len - 9) s = esc_take (len - 9) out) by (apply esc_take_take; lia).
  assert (Hall : zlen (esc out) ≤ len - 9 → s = out).
  { intros ?. pose proof (esc_len_ge out). apply take_ge. zl. }
  eapply (eq_rect _ (λ w, wp _ w Q)); [apply (HQ cs' (take j s) (esc_rest (len - 9) s ++ drop (Z.to_nat (len - 8)) out))|].
  - eapply same_outside_weaken; [done|lia|lia].
  - apply holds_app. split; [|by apply holds_app in Hh' as [? _]].
    eapply holds_frame; [done|done|left]. change (zlen msg_head) with 7. lia.
  - by rewrite -Hpre.
  - rewrite app_assoc -Hj /s. by rewrite take_drop.
  - intros Hl. rewrite (Hall Hl) (proj2 (esc_rest_nil (len - 9) out ltac:(lia))) //.
    apply drop_ge. pose proof (esc_len_ge out). zl.
  - rewrite (esc_take_twice (len - 9) _ s (take j s)) //; [|lia]. apply esc_take_take. lia.
  - rewrite /on /after_malloc /with_heap /=. f_equal.
    apply map_eq. intros b'. destruct (decide (b' = nx)) as [->|Hb'].
    + rewrite lookup_delete_eq lookup_insert_ne //.
    + rewrite lookup_delete_ne //. destruct (decide (b' = b)) as [->|].
      * by rewrite !lookup_insert_eq.
      * rewrite !lookup_insert_ne //.
Qed.

Lemma msg_text_len len out : 20 ≤ len → 8 ≤ zlen (msg_text len out) < len.
Proof.
  intros Hlen. rewrite /msg_text /msg_body. change (zlen MINIMUM_MESSAGE) with 19.
  destruct (Z.leb_spec len 19); [lia|]. rewrite zlen_app (zlen_app _ [DQUOTE]).
  change (zlen msg_head) with 7. change (zlen [DQUOTE]) with 1.
  destruct (Z.leb_spec (zlen (esc out)) (len - 9)).
  - pose proof (zlen_nonneg (esc out)). lia.
  - rewrite zlen_app. change (zlen TRUNCATED) with 11.
    pose proof (esc_take_len (len - 20) out ltac:(lia)). pose proof (zlen_nonneg (esc_take (len - 20) out)). lia.
Qed.

Lemma wp_message_empty w b o len cs (Q : Z → world → Prop) :
  0 ≤ o → 1 ≤ len → o + len ≤ zlen cs →
  (∀ cs', same_outside o len cs cs' → holds cs' o [NUL] → Q 0 (on b cs' w)) →
  wp (store_char (Ptr b o) NUL ;; mret 0) (on b cs w) Q.
Proof.
  intros Ho Hl Hle HQ. step (wp_store_nul b o len); [apply on_lookup|done|done|done|].
  intros cs' Hso Hh. rewrite -/(on b cs' (on b cs w)) on_on. by apply wp_ret, HQ.
Qed.

(** The head of the message. *)
Lemma wp_message_head w b o len cs (Q : Z → world → Prop) :
  0 ≤ o → 20 ≤ len ≤ INT_MAX → o + len ≤ zlen cs →
  (∀ cs', same_outside o len cs cs' → holds cs' o msg_head → Q 7 (on b cs' w)) →
  wp (snprintf (Ptr b o) len (Lit (qlit "'%s':'") 0) [AStr (Lit MESSAGE_KEY 0)]) (on b cs w) Q.
Proof.
  intros Ho Hlen Hle HQ.
  assert (Hv : ∀ h, vformat h (qlit "'%s':'") [AStr (Lit MESSAGE_KEY 0)] = Some msg_head) by done.
  eapply wp_vsnprintf; [apply on_lookup|done|lia|done|by apply get_cstr_lit; repeat constructor
    |apply Hv|done|].
  intros cs' Hso Hh. specialize (Hh ltac:(lia)). rewrite -/(on b cs' (on b cs w)) on_on.
  rewrite take_ge in Hh; [|change (7 ≤ Z.to_nat (len - 1))%nat; lia].
  change (zlen msg_head) with 7. apply HQ; [done|by apply holds_app in Hh as [? _]].
Qed.

Lemma wp_format_message w b o len msg args out cs (Q : Z → world → Prop) :
  plan_ok (plan w) = true → wf_heap w → (b < next w)%positive →
  printable (heap w) b msg args out → 0 ≤ o → 1 ≤ len ≤ INT_MAX → o + len ≤ zlen cs →
  (∀ cs' w', same_outside o len cs cs' → holds cs' o (msg_text len out ++ [NUL]) →
     w' = (if len <=? zlen MINIMUM_MESSAGE then w else after_malloc w) →
     Q (zlen (msg_text len out)) (on b cs' w')) →
  wp (format_message msg args (Ptr b o) len) (on b cs w) Q.
Proof.
  intros Hp Hw Hb Hpr Ho Hlen Hle HQ. rewrite /format_message /msg_text in HQ |- *.
  change (zlen MINIMUM_MESSAGE) with 19 in *. destruct (Z.leb_spec len 19).
  { apply (wp_message_empty w b o len); [done|lia|done|]. intros. by apply HQ. }
  step wp_message_head; [done|lia|done|]. intros cs1 Hso1 Hh1.
  change ((7 <? 0) || (len <=? u64 7)) with (len <=? 7). destruct (Z.leb_spec len 7); [lia|].
  pose proof (same_outside_zlen _ _ _ _ Hso1) as Hz1.
  apply (wp_message_escape w b o len msg args out cs1 _ (λ ret escaped_msg_len escape_truncated,
    let total_len := u64 (u64 7 + escaped_msg_len) in
    if (u64 (len - u64 7) <=? u64 (u64 ret + 1)) || negb (escape_truncated =? 0) then
      i ← truncate_loop (S (Z.to_nat total_len)) (Ptr b o) len total_len;
      n ← sprintf (Ptr b o +ₚ i) (Lit (qlit "%s'") 0) [AStr (Lit TRUNCATED 0)];
      mret (u64 (i + n))
    else
      n ← sprintf (Ptr b o +ₚ total_len) (Lit (qlit "'") 0) [];
      mret (u64 (total_len + n)))); [done|done|done|done|lia|lia|done|].
  intros cs2 p rest Hso2 Hh2 Hp2 Hout Hrest Htake.
  pose proof (same_outside_zlen _ _ _ _ Hso2) as Hz2.
  pose proof (esc_take_len (len - 9) out ltac:(lia)) as Hpl. rewrite Hp2 in Hpl.
  pose proof (zlen_nonneg (esc p)). pose proof (zlen_nonneg out). destruct Hpr as (_ & Hmax & _).
  unfold INT_MAX in Hlen, Hmax. change (u64 7) with 7.
  rewrite (u64_small (zlen out)); [|lia]. rewrite !u64_small; [|lia..]. cbn zeta.
  eapply (wp_message_end _ b o len out p rest cs2);
    [apply on_lookup|done|unfold INT_MAX; lia|lia| |done|done|done|done|].
  - pose proof (esc_len_ge out). destruct (Z.leb_spec (zlen (esc out)) (len - 9)).
    + rewrite take_ge; [|zl]. destruct (Z.leb_spec (zlen (esc out)) (len - 9)); [|lia].
      destruct (Z.leb_spec (len - 7) (zlen out + 1)); [lia|done].
    + destruct (Z.leb_spec (len - 7) (zlen out + 1)); [done|].
      rewrite take_ge; [|zl]. by destruct (Z.leb_spec (zlen (esc out)) (len - 9)); [lia|].
  - intros cs3 Hso3 Hh3. rewrite -/(on b cs3 (on b cs2 (after_malloc w))) on_on.
    apply HQ; [|done|done]. by do 2 (eapply same_outside_trans; [eassumption|]).
Qed.

(** Without memory for the temporary buffer there is no message. *)
Lemma wp_format_message_fail w b o len msg args cs (Q : Z → world → Prop) :
  plan_ok (plan w) = false → 0 ≤ o → 20 ≤ len ≤ INT_MAX → o + len ≤ zlen cs →
  (∀ cs', same_outside o len cs cs' → Q 0 (on b cs' (enomem_world w))) →
  wp (format_message msg args (Ptr b o) len) (on b cs w) Q.
Proof.
  intros Hp Ho Hlen Hle HQ. rewrite /format_message. change (zlen MINIMUM_MESSAGE) with 19.
  destruct (Z.leb_spec len 19); [lia|].
  step wp_message_head; [done|lia|done|]. intros cs1 Hso1 Hh1.
  change ((7 <? 0) || (len <=? u64 7)) with (len <=? 7). destruct (Z.leb_spec len 7); [lia|].
  step wp_malloc_fail; [done|]. cbn [is_null].
  change (enomem_world (on b cs1 w)) with (on b cs1 (enomem_world w)).
  apply (wp_message_empty _ b o len); [done|lia|by rewrite (same_outside_zlen _ _ _ _ Hso1)|].
  intros cs2 Hso2 _. apply HQ. by eapply same_outside_trans.
Qed.
End message.

(** ** The entry *)

Section entry.
Context `{MdcWalk}.
Implicit Types (w : world) (acc t : list Z).

Lemma add_field_len acc t : zlen acc ≤ zlen (add_field acc t) ≤ zlen acc + zlen t + 1.
Proof.
  pose proof (zlen_nonneg t). rewrite /add_field. destruct t; [lia|].
  rewrite !zlen_app. change (zlen [COMMA]) with 1. lia.
Qed.

Lemma wp_field {A} w b o len acc cs m text (k : Z → M A) (Q : A → world → Prop) :
  formats w b m text → holds cs o acc → 1 ≤ field_room len acc → len ≤ INT_MAX →
  o + len ≤ zlen cs →
  (∀ cs', same_outside o len cs cs' → holds cs' o (add_field acc (text (field_room len acc))) →
     wp (k (zlen (add_field acc (text (field_room len acc))))) (on b cs' w) Q) →
  wp (ret ← m (Ptr b o +ₚ zlen acc) (field_len len (zlen acc));
      offset ← add_comma (Ptr b o) (zlen acc) ret;
      k offset) (on b cs w) Q.
Proof.
  intros (Hfl & _ & Hm) Hh Hroom Hlen Hle HQ. pose proof Hh as [Ho _]. pose proof (zlen_nonneg acc).
  unfold field_room, INT_MAX in *. rewrite /field_len. change (zlen MINIMUM_MESSAGE) with 19.
  replace (len - zlen acc - 19 - 1) with (len - zlen acc - 20) by lia. rewrite u64_small; [|lia].
  set (room := len - zlen acc - 20) in *. cbn [ptr_add].
  step Hm; [lia|unfold INT_MAX; lia|lia|]. intros cs1 Hso1 Hh1.
  specialize (Hfl room Hroom). set (t := text room) in *. pose proof (zlen_nonneg t).
  pose proof (same_outside_zlen _ _ _ _ Hso1) as Hz1.
  assert (Ha : holds cs1 o (acc ++ t)).
  { apply holds_app. split; [|by apply holds_app in Hh1 as [? _]].
    eapply holds_frame; [done|done|left; lia]. }
  assert (Hso1' : same_outside o len cs cs1) by (eapply same_outside_weaken; [done|lia|lia]).
  rewrite /add_comma /add_field in HQ |- *. destruct (Z.ltb_spec 0 (zlen t)) as [Hlt|].
  - apply wp_bind. cbn [ptr_add]. rewrite -zlen_app.
    step (wp_store_snoc b o len); [apply on_lookup|done|rewrite zlen_app; lia|lia|].
    intros cs2 Hso2 Hh2. rewrite -/(on b cs2 (on b cs1 w)) on_on. apply wp_ret.
    assert (Hz : zlen (acc ++ t ++ [COMMA]) = zlen (acc ++ t) + 1).
    { rewrite app_assoc zlen_app. done. }
    destruct t as [|c t']; [done|]. rewrite -Hz. apply HQ; [by eapply same_outside_trans|].
    by rewrite app_assoc.
  - apply wp_bind, wp_ret. rewrite (zlen_zero t) in HQ, Ha; [|lia].
    apply HQ; [done|]. by rewrite app_nil_r in Ha.
Qed.

(** What the arguments of a call to the formatter are: a buffer [b] with room for
    [len] characters at [o], an identity, a list and a format outside the buffer. *)
Record entry_input (w : world) (b : positive) (o len : Z) (cs : list (option Z))
    (identity : ptr) (id : list Z) (mdc : ptr) (F : gset positive) (l : list (list Z * list Z))
    (msg : ptr) (args : list arg) (out : list Z) : Prop := {
  ei_wf : wf_heap w;
  ei_block : heap w !! b = Some (BChars cs);
  ei_room : 0 ≤ o ∧ o + len ≤ zlen cs;
  ei_len : MIN_BUFFER_LENGTH ≤ len ≤ INT_MAX;
  ei_identity : identity_name (heap w) identity = Some id ∧ ptr_block identity ≠ Some b;
  ei_mdc : (b ∉ F) ∧ chain (heap w) F mdc l ∧ Forall pair_ok l;
  ei_msg : printable (heap w) b msg args out
}.

Lemma fields_len len tv severity id :
  1000 ≤ len →
  let acc1 := add_field [LBRACE] (fit (field_room len [LBRACE]) (ts_text tv)) in
  let acc2 := add_field acc1 (from_option (λ v, fit (field_room len acc1) (sev_text v)) []
                                (severity_val severity)) in
  let acc3 := add_field acc2 (fit (field_room len acc2) (id_text id)) in
  zlen acc1 ≤ 27 ∧ zlen acc2 ≤ 44 ∧ 0 < zlen acc3 ≤ 152.
Proof.
  intros Hlen acc1 acc2 acc3.
  assert (Hfit : ∀ n t, zlen (fit n t) ≤ zlen t).
  { intros n t. rewrite /fit. pose proof (zlen_nonneg t). destruct (_ <? _); [lia|]. by rewrite zlen_nil. }
  assert (H1 : 1 ≤ zlen acc1 ≤ 27).
  { pose proof (add_field_len [LBRACE] (fit (field_room len [LBRACE]) (ts_text tv))) as Ha.
    pose proof (Hfit (field_room len [LBRACE]) (ts_text tv)). pose proof (ts_text_len tv).
    change (zlen [LBRACE]) with 1 in Ha. unfold acc1. lia. }
  assert (H2 : 1 ≤ zlen acc2 ≤ 44).
  { unfold acc2. destruct (severity_val severity) as [v|] eqn:Hv; [|cbn; lia].
    pose proof (add_field_len acc1 (fit (field_room len acc1) (sev_text v))).
    pose proof (Hfit (field_room len acc1) (sev_text v)). pose proof (sev_text_len _ _ Hv). cbn [from_option]. lia. }
  pose proof (add_field_len acc2 (fit (field_room len acc2) (id_text id))).
  pose proof (Hfit (field_room len acc2) (id_text id)). pose proof (id_text_len id). unfold acc3. lia.
Qed.

Lemma entry_fields_len len tv severity id l :
  1000 ≤ len → 0 < zlen (entry_fields len tv severity id l) ≤ len - 20.
Proof.
  intros Hlen. pose proof (fields_len len tv severity id Hlen) as Hf. cbn zeta in Hf.
  rewrite /entry_fields. set (acc3 := add_field _ (fit _ (id_text id))) in *.
  pose proof (add_field_len acc3 (mdc_text (field_room len acc3) l)).
  assert (Hr : 1 ≤ field_room len acc3) by (unfold field_room; lia).
  pose proof (mdc_text_len _ l Hr). unfold field_room in *. lia.
Qed.

(** The four fields before the message. *)
Lemma wp_entry_fields {A} w b o len cs tv severity identity id mdc F l msg args out
    (k : Z → M A) (Q : A → world → Prop) :
  entry_input w b o len cs identity id mdc F l msg args out →
  (∀ cs', let acc := entry_fields len tv severity id l in
     same_outside o len cs cs' → holds cs' o acc → wp (k (zlen acc)) (on b cs' w) Q) →
  wp (store_char (Ptr b o) LBRACE ;;
      ret ← format_timestamp tv (Ptr b o +ₚ 1) (field_len len 1);
      offset ← add_comma (Ptr b o) 1 ret;
      ret ← format_severity severity (Ptr b o +ₚ offset) (field_len len offset);
      offset ← add_comma (Ptr b o) offset ret;
      ret ← format_identity identity (Ptr b o +ₚ offset) (field_len len offset);
      offset ← add_comma (Ptr b o) offset ret;
      ret ← format_mdc mdc (Ptr b o +ₚ offset) (field_len len offset);
      offset ← add_comma (Ptr b o) offset ret;
      k offset) w Q.
Proof.
  intros [Hw Hb [Ho Hle] [Hlen1 Hlen2] [Hid Hidb] (HbF & Hc & Hl) _] HQ.
  unfold MIN_BUFFER_LENGTH in Hlen1.
  pose proof (fields_len len tv severity id Hlen1) as Hf. cbn zeta in Hf.
  pose proof (wp_store_snoc b o len LBRACE [] cs w) as Hs. rewrite zlen_nil Z.add_0_r in Hs.
  apply wp_bind, Hs; [done|by apply holds_nil|lia|done|]. clear Hs.
  intros cs1 Hso1 Hh1. rewrite -/(on b cs1 w).
  pose proof (same_outside_zlen _ _ _ _ Hso1) as Hz1.
  apply (wp_field w b o len [LBRACE] cs1 _ _ _ _ (format_timestamp_ok w b tv));
    [done|change (1 ≤ len - 1 - 20); lia|done|lia|]. intros cs2 Hso2 Hh2.
  pose proof (same_outside_zlen _ _ _ _ Hso2) as Hz2.
  apply (wp_field w b o len _ cs2 _ _ _ _ (format_severity_ok w b severity));
    [done|unfold field_room in *; lia|done|lia|]. intros cs3 Hso3 Hh3.
  pose proof (same_outside_zlen _ _ _ _ Hso3) as Hz3.
  apply (wp_field w b o len _ cs3 _ _ _ _ (format_identity_ok w b identity id Hid Hidb));
    [done|unfold field_room in *; lia|done|lia|]. intros cs4 Hso4 Hh4.
  pose proof (same_outside_zlen _ _ _ _ Hso4) as Hz4.
  apply (wp_field w b o len _ cs4 _ _ _ _ (format_mdc_ok w b F mdc l HbF Hc Hl));
    [done|unfold field_room in *; lia|done|lia|]. intros cs5 Hso5 Hh5.
  apply HQ; [|exact Hh5]. by do 4 (eapply same_outside_trans; [eassumption|]).
Qed.

(** The state after formatting, when memory for the message is there. *)
Definition format_world (acc : list Z) (len : Z) (w : world) : world :=
  if len - zlen acc - 1 <=? zlen MINIMUM_MESSAGE then w else after_malloc w.

Lemma wp_format_to_json_str w b o len cs tv severity identity id mdc F l msg args out
    (Q : Z → world → Prop) :
  entry_input w b o len cs identity id mdc F l msg args out → plan_ok (plan w) = true →
  (∀ cs', let w' := on b cs' (format_world (entry_fields len tv severity id l) len w) in
     same_outside o len cs cs' →
     match entry_text len tv severity id l out with
     | Some t => zlen t < len → holds cs' o (t ++ [NUL]) → Q (zlen t) w'
     | None => holds cs' o [NUL] → Q (-1) w'
     end) →
  wp (mdclog_internal_format_to_json_str (Ptr b o) len tv identity severity mdc msg args) w Q.
Proof.
  intros Hin Hp HQ. pose proof Hin as [Hw Hb [Ho Hle] [Hlen1 Hlen2] _ _ Hmsg].
  rewrite /mdclog_internal_format_to_json_str.
  destruct (Z.ltb_spec len MIN_BUFFER_LENGTH); [lia|]. unfold MIN_BUFFER_LENGTH in *.
  rewrite /format_log_entry. apply (wp_entry_fields w b o len cs tv severity _ id _ F l msg args out _ _ Hin).
  intros cs1 acc Hso1 Hh1. pose proof (same_outside_zlen _ _ _ _ Hso1) as Hz1.
  pose proof (entry_fields_len len tv severity id l Hlen1) as Ha. fold acc in Ha.
  unfold INT_MAX in Hlen2. rewrite u64_small; [|lia]. cbn [ptr_add].
  step (wp_format_message w b _ (len - zlen acc - 1));
    [done|done|by eapply wf_heap_lt|done|lia|unfold INT_MAX; lia|lia|].
  intros cs2 w' Hso2 Hh2 Hw'.
  specialize (HQ). rewrite /entry_text -/acc in HQ.
  assert (Hw2 : w' = format_world acc len w) by done. clear Hw'. rewrite -Hw2 in HQ.
  assert (Hlt : zlen (msg_text (len - zlen acc - 1) out) < len - zlen acc - 1).
  { destruct (decide (20 ≤ len - zlen acc - 1)); [by apply msg_text_len|].
    rewrite /msg_text. change (zlen MINIMUM_MESSAGE) with 19.
    destruct (Z.leb_spec (len - zlen acc - 1) 19); [rewrite zlen_nil|]; lia. }
  set (m := msg_text (len - zlen acc - 1) out) in *. pose proof (zlen_nonneg m).
  pose proof (same_outside_zlen _ _ _ _ Hso2) as Hz2.
  assert (Hh : holds cs2 o (acc ++ m)).
  { apply holds_app. split; [|by apply holds_app in Hh2 as [? _]].
    eapply holds_frame; [done|done|left; lia]. }
  assert (Hso : same_outside o len cs cs2).
  { eapply same_outside_trans; [done|]. eapply same_outside_weaken; [done|lia|lia]. }
  destruct m as [|c m'] eqn:Hm.
  - change (0 <? zlen []) with false. cbn iota.
    step (wp_store_nul b o len); [apply on_lookup|done|lia|lia|].
    intros cs3 Hso3 Hh3. rewrite -/(on b cs3 (on b cs2 w')) on_on. apply wp_ret, HQ; [|done].
    by eapply same_outside_trans.
  - rewrite -Hm in Hh Hlt HQ |- *. destruct (Z.ltb_spec 0 (zlen m)) as [_|Hz]; [|rewrite Hm zlen_cons in Hz; pose proof (zlen_nonneg m'); lia].
    cbn zeta. rewrite -zlen_app.
    step (wp_store_snoc b o len); [apply on_lookup|done|rewrite zlen_app; lia|lia|].
    intros cs3 Hso3 Hh3. rewrite -/(on b cs3 (on b cs2 w')) on_on.
    pose proof (same_outside_zlen _ _ _ _ Hso3) as Hz3.
    assert (Hz : zlen ((acc ++ m) ++ [RBRACE]) = zlen (acc ++ m) + 1) by apply zlen_app.
    cbn [ptr_add]. rewrite -Hz.
    step (wp_store_snoc b o len); [apply on_lookup|done|rewrite Hz zlen_app; lia|lia|].
    intros cs4 Hso4 Hh4. rewrite -/(on b cs4 (on b cs3 w')) on_on. apply wp_ret.
    rewrite -app_assoc in Hz Hh4 |- *. specialize (HQ cs4). cbn zeta in HQ. rewrite Hm in HQ.
    rewrite -Hm in HQ. apply HQ; [|rewrite Hz zlen_app; lia|done].
    by do 2 (eapply same_outside_trans; [eassumption|]).
Qed.

(** The formatter without memory for the message. *)
Lemma wp_format_no_memory w b o len cs tv severity identity id mdc F l msg args out
    (Q : Z → world → Prop) :
  entry_input w b o len cs identity id mdc F l msg args out → plan_ok (plan w) = false →
  (∀ cs', same_outside o len cs cs' → holds cs' o [NUL] →
     Q (-1) (on b cs' (if len - zlen (entry_fields len tv severity id l) - 1 <=? zlen MINIMUM_MESSAGE
                       then w else enomem_world w))) →
  wp (mdclog_internal_format_to_json_str (Ptr b o) len tv identity severity mdc msg args) w Q.
Proof.
  intros Hin Hp HQ. pose proof Hin as [Hw Hb [Ho Hle] [Hlen1 Hlen2] _ _ Hmsg].
  rewrite /mdclog_internal_format_to_json_str.
  destruct (Z.ltb_spec len MIN_BUFFER_LENGTH); [lia|]. unfold MIN_BUFFER_LENGTH in *.
  rewrite /format_log_entry. apply (wp_entry_fields w b o len cs tv severity _ id _ F l msg args out _ _ Hin).
  intros cs1 acc Hso1 Hh1. pose proof (same_outside_zlen _ _ _ _ Hso1) as Hz1.
  pose proof (entry_fields_len len tv severity id l Hlen1) as Ha. fold acc in Ha, HQ.
  unfold INT_MAX in Hlen2. rewrite u64_small; [|lia]. cbn [ptr_add].
  assert (Hend : ∀ cs2 w2, same_outside (o + zlen acc) (len - zlen acc - 1) cs1 cs2 →
    (∀ cs', same_outside o len cs cs' → holds cs' o [NUL] → Q (-1) (on b cs' w2)) →
    wp (store_char (Ptr b o) NUL ;; mret (-1)) (on b cs2 w2) Q).
  { intros cs2 w2 Hso2 HQ2. pose proof (same_outside_zlen _ _ _ _ Hso2) as Hz2.
    step (wp_store_nul b o len); [apply on_lookup|done|lia|lia|].
    intros cs3 Hso3 Hh3. rewrite -/(on b cs3 (on b cs2 w2)) on_on. apply wp_ret, HQ2; [|done].
    eapply same_outside_trans; [|done]. eapply same_outside_trans; [done|].
    eapply same_outside_weaken; [done|pose proof (zlen_nonneg acc); lia..]. }
  change (zlen MINIMUM_MESSAGE) with 19 in HQ. destruct (Z.leb_spec (len - zlen acc - 1) 19) as [Hs|Hs].
  - rewrite /format_message. change (zlen MINIMUM_MESSAGE) with 19.
    destruct (Z.leb_spec (len - zlen acc - 1) 19); [|lia].
    step (wp_message_empty w b _ (len - zlen acc - 1)); [lia|lia|lia|].
    intros cs2 Hso2 _. by apply Hend.
  - step (wp_format_message_fail w b _ (len - zlen acc - 1)); [done|lia|unfold INT_MAX; lia|lia|].
    intros cs2 Hso2. by apply Hend.
Qed.

(** The text of an entry, from the outcome of the allocation for its message. *)
Definition entry_outcome (len : Z) (tv : Z * Z) (severity : Z) (id : list Z) (l : list (list Z * list Z))
    (out : list Z) : supply (option (list Z)) :=
  if len - zlen (entry_fields len tv severity id l) - 1 <=? zlen MINIMUM_MESSAGE then mret None
  else ok ← draw; mret (if (ok : bool) then entry_text len tv severity id l out else None).

Lemma entry_outcome_eq len tv severity id l out p :
  entry_outcome len tv severity id l out p =
    if len - zlen (entry_fields len tv severity id l) - 1 <=? zlen MINIMUM_MESSAGE then (None, p)
    else (if plan_ok p then entry_text len tv severity id l out else None, tail p).
Proof. rewrite /entry_outcome. by destruct (_ <=? _). Qed.

Lemma entry_text_small len tv severity id l out :
  len - zlen (entry_fields len tv severity id l) - 1 ≤ zlen MINIMUM_MESSAGE →
  entry_text len tv severity id l out = None.
Proof. intros Hle. rewrite /entry_text /msg_text. by destruct (Z.leb_spec (len - zlen (entry_fields len tv severity id l) - 1) (zlen MINIMUM_MESSAGE)); [|lia]. Qed.

Lemma entry_text_none len tv severity id l out :
  1000 ≤ len → entry_text len tv severity id l out = None ↔ zlen (entry_fields len tv severity id l) = len - 20.
Proof.
  intros Hlen. pose proof (entry_fields_len len tv severity id l Hlen) as Hf.
  rewrite /entry_text /msg_text. change (zlen MINIMUM_MESSAGE) with 19.
  set (acc := entry_fields len tv severity id l) in *.
  destruct (Z.leb_spec (len - zlen acc - 1) 19); split; try done; lia.
Qed.

(** The formatter, whatever the outcome of its allocation. *)
Lemma wp_format_any w b o len cs tv severity identity id mdc F l msg args out (Q : Z → world → Prop) :
  entry_input w b o len cs identity id mdc F l msg args out →
  (∀ cs' w1 r, heap w1 = heap w → (next w ≤ next w1)%positive → same_statics w w1 →
     entry_outcome len tv severity id l out (plan w) = (r, plan w1) → (plan_ok (plan w) = true → errno w1 = errno w) →
     same_outside o len cs cs' →
     match r with
     | Some t => zlen t < len → holds cs' o (t ++ [NUL]) → Q (zlen t) (on b cs' w1)
     | None => holds cs' o [NUL] → Q (-1) (on b cs' w1)
     end) →
  wp (mdclog_internal_format_to_json_str (Ptr b o) len tv identity severity mdc msg args) w Q.
Proof.
  intros Hin HQ. destruct (plan_ok (plan w)) eqn:Hp.
  - eapply wp_format_to_json_str; [done|done|]. intros cs' w' Hso. subst w'.
    setoid_rewrite entry_outcome_eq in HQ. rewrite Hp in HQ. rewrite /format_world.
    pose proof (entry_text_small len tv severity id l out) as Hsm.
    destruct (Z.leb_spec (len - zlen (entry_fields len tv severity id l) - 1) (zlen MINIMUM_MESSAGE)) as [Hle|Hle].
    + rewrite Hsm //. intros Hh. by apply (HQ cs' w None).
    + by apply (HQ cs' (after_malloc w)); [|cbn; lia|..].
  - eapply wp_format_no_memory; [done|done|]. intros cs' Hso Hh.
    setoid_rewrite entry_outcome_eq in HQ. rewrite Hp in HQ.
    destruct (_ <=? _); by apply (HQ cs' _ None); [|cbn; lia|..].
Qed.

Lemma add_field_is_str acc t : is_str acc → is_str t → is_str (add_field acc t).
Proof.
  intros Ha Ht. rewrite /add_field. destruct t; [done|].
  apply is_str_app; split; [done|]. apply is_str_app; split; [done|by repeat constructor].
Qed.

Lemma entry_fields_is_str len tv severity id l :
  is_str id → Forall pair_ok l → is_str (entry_fields len tv severity id l).
Proof.
  intros Hid Hl. rewrite /entry_fields. repeat apply add_field_is_str.
  - by repeat constructor.
  - apply fit_is_str, ts_text_is_str.
  - destruct (severity_val severity) as [v|] eqn:Hv; [|constructor].
    by eapply fit_is_str, sev_text_is_str, severity_is_str.
  - by apply fit_is_str, id_text_is_str.
  - by apply mdc_text_is_str.
Qed.

Lemma msg_text_is_str len out : is_str (msg_text len out).
Proof.
  rewrite /msg_text /msg_body. destruct (_ <=? _); [constructor|].
  apply is_str_app; split; [by repeat constructor|]. apply is_str_app; split; [|by repeat constructor].
  destruct (_ <=? _); [apply esc_is_str|]. apply is_str_app; split; [|by repeat constructor].
  apply print_is_str, esc_take_print.
Qed.

Lemma identity_name_is_str h p id : identity_name h p = Some id → is_str id.
Proof.
  rewrite /identity_name. destruct (is_null p); [intros; simplify_eq; by repeat constructor|].
  apply get_cstr_nonzero.
Qed.

Lemma entry_text_is_str len tv severity id l out t :
  is_str id → Forall pair_ok l → entry_text len tv severity id l out = Some t → is_str t.
Proof.
  intros Hid Hl. rewrite /entry_text. pose proof (msg_text_is_str (len - zlen (entry_fields len tv severity id l) - 1) out) as Hm.
  destruct (msg_text _ out) as [|c m]; [done|]. intros [= <-].
  apply is_str_app; split; [by apply entry_fields_is_str|].
  apply (is_str_app (c :: m)); split; [done|by repeat constructor].
Qed.
End entry.

(** ** A list of one entry in string literals, for concrete runs *)

Definition lit_access : MdcAccess := {|
  get_next_mdc := λ _, mret Null;
  get_mdc_key := λ _, mret (Lit (lit "k") 0);
  get_mdc_val := mret
|}.

Program Definition lit_walk : MdcWalk (H := lit_access) := {|
  chain h F p l := is_Some (h !! 2%positive) ∧ (2%positive ∈ F) ∧
    ((p = Null ∧ l = []) ∨ (∃ v, is_str v ∧ p = Lit v 0 ∧ l = [(lit "k", v)]))
|}.
Next Obligation. intros h h' F p l Hf (Hs & H2 & Hl). by rewrite Hf. Qed.
Next Obligation. intros h F p (_ & _ & [[? _]|(v & _ & _ & ?)]); done. Qed.
Next Obligation.
  intros w F p k v l (Hs & H2 & [[_ ?]|(v' & Hv & -> & ?)]); simplify_eq. split_and!; [done|..].
  - eexists. split; [done|]. apply get_cstr_lit. by repeat constructor.
  - eexists. split; [done|]. by apply get_cstr_lit.
  - exists Null. split; [done|]. split_and!; [done|done|by left].
Qed.
Next Obligation.
  intros h F p l (Hs & _ & Hl).
  assert (size h ≠ 0%nat) by (intros ->%map_size_empty_inv; destruct Hs as [? Hs]; by rewrite lookup_empty in Hs).
  assert (length l ≤ 1)%nat; [|lia]. destruct Hl as [[_ ->]|(v & _ & _ & ->)]; cbn; lia.
Qed.

(** A process with a buffer of [n] cells in block 1. *)
Definition entry_world (n : nat) : world :=
  with_next 3 (with_heap {[1%positive := BChars (replicate n None); 2%positive := BList Null]} (boot Null)).

Lemma entry_world_input p n len v msg :
  len = Z.of_nat n → 1000 ≤ len ≤ INT_MAX → is_str v → zlen v ≤ 10000 → is_str msg → zlen msg ≤ INT_MAX →
  entry_input (H0 := lit_walk) (with_plan p (entry_world n)) 1 0 len (replicate n None)
    (Lit (lit "id") 0) (lit "id") (Lit v 0) {[2%positive]} [(lit "k", v)] (Lit (lit "%s") 0)
    [AStr (Lit msg 0)] msg.
Proof.
  intros -> Hn Hv Hvl Hm Hml. split; try done.
  - intros b Hb. cbn in *. rewrite lookup_insert_ne ?lookup_singleton_ne //; lia.
  - split; [done|zl].
  - split_and!; [by intros ?%elem_of_singleton| |].
    { split_and!; [by eexists|by apply elem_of_singleton|by right; eauto]. }
    constructor; [|constructor]. split_and!; [by repeat constructor|done|].
    change (zlen ([DQUOTE] ++ lit "k" ++ qlit "':'" ++ v ++ [DQUOTE]) < INT_MAX).
    rewrite zlen_app (zlen_app (lit "k")) (zlen_app (qlit "':'")) (zlen_app v).
    change (zlen (lit "k")) with 1. change (zlen [DQUOTE]) with 1. change (zlen (qlit "':'")) with 3.
    rewrite /INT_MAX. lia.
  - apply (printable_intro _ ∅ ∅ _ _ _ (lit "%s")); [|by apply get_cstr_lit; repeat constructor|done| | |done].
    + intros b _ [x Hx]. by rewrite lookup_empty in Hx.
    + by repeat constructor.
    + rewrite /vformat. expand_format. rewrite get_cstr_lit //=. by rewrite app_nil_r.
Qed.

(** ** Properties *)

Section properties.
Context `{MdcWalk}.

(** C6: [mdclog_internal_format_to_json_str] writes the entry [entry_text] and a zero
    into its buffer and returns its length, or returns -1 and writes an empty
    string when no room is left for the message.  It reads and writes nothing else:
    every character outside the [len] bytes and every other block is unchanged, the
    temporary buffer is freed, and the entry is shorter than [len]. *)
Theorem format_to_json_str_correct w b o len cs tv severity identity id mdc F l msg args out :
  entry_input w b o len cs identity id mdc F l msg args out → plan_ok (plan w) = true →
  ∃ cs', let w' := on b cs' (format_world (entry_fields len tv severity id l) len w) in
    same_outside o len cs cs' ∧
    match entry_text len tv severity id l out with
    | Some t =>
        mdclog_internal_format_to_json_str (Ptr b o) len tv identity severity mdc msg args w
          = Ok (zlen t) w' ∧ zlen t < len ∧ get_cstr (heap w') (Ptr b o) = Some t
    | None =>
        mdclog_internal_format_to_json_str (Ptr b o) len tv identity severity mdc msg args w
          = Ok (-1) w' ∧ get_cstr (heap w') (Ptr b o) = Some []
    end.
Proof.
  intros Hin Hp.
  set (run := mdclog_internal_format_to_json_str _ _ _ _ _ _ _ _).
  destruct (proj1 (wp_run run w (λ r w', ∃ cs',
    w' = on b cs' (format_world (entry_fields len tv severity id l) len w) ∧
    same_outside o len cs cs' ∧
    match entry_text len tv severity id l out with
    | Some t => r = zlen t ∧ zlen t < len ∧ holds cs' o (t ++ [NUL])
    | None => r = -1 ∧ holds cs' o [NUL]
    end))) as (r & w' & Hrun & cs' & -> & Hso & Ht).
  { eapply wp_format_to_json_str; [done|done|]. intros cs' w' Hso.
    destruct (entry_text len tv severity id l out); intros; by eauto 6. }
  exists cs'. split; [done|].
  destruct (entry_text len tv severity id l out) as [t|] eqn:Het.
  - destruct Ht as (-> & Hlt & Hh). do 2 (split; [done|]).
    eapply get_cstr_holds; [apply on_lookup|done|].
    pose proof Hin as [_ _ _ _ [Hid _] (_ & _ & Hl) _].
    eapply entry_text_is_str; [by eapply identity_name_is_str|done|done].
  - destruct Ht as (-> & Hh). split; [done|].
    eapply get_cstr_holds; [apply on_lookup|done|constructor].
Qed.
End properties.

Lemma format_to_json_str_correct_witness :
  let text := qlit "{'ts':5001,'crit':'ERROR','id':'id','mdc':{'k':'v'},'msg':'a\'b'}" in
  ∃ cs', let w' := on 1 cs' (after_malloc (with_plan [] (entry_world 1000))) in
    mdclog_internal_format_to_json_str (H := lit_access) (Ptr 1 0) 1000 (5, 1000) (Lit (lit "id") 0)
      MDCLOG_ERR (Lit (lit "v") 0) (Lit (lit "%s") 0) [AStr (Lit (qlit "a'b") 0)]
      (with_plan [] (entry_world 1000))
      = Ok (zlen text) w' ∧ get_cstr (heap w') (Ptr 1 0) = Some text.
Proof.
  intros text.
  assert (Het : entry_text 1000 (5, 1000) MDCLOG_ERR (lit "id") [(lit "k", lit "v")] (qlit "a'b") = Some text)
    by (vm_compute; reflexivity).
  assert (Hfw : format_world (entry_fields 1000 (5, 1000) MDCLOG_ERR (lit "id") [(lit "k", lit "v")]) 1000
    (with_plan [] (entry_world 1000)) = after_malloc (with_plan [] (entry_world 1000)))
    by (vm_compute; reflexivity).
  pose proof (format_to_json_str_correct (H0 := lit_walk) (with_plan [] (entry_world 1000)) 1 0 1000
    (replicate 1000 None) (5, 1000) MDCLOG_ERR (Lit (lit "id") 0) (lit "id") (Lit (lit "v") 0)
    {[2%positive]} [(lit "k", lit "v")] (Lit (lit "%s") 0) [AStr (Lit (qlit "a'b") 0)] (qlit "a'b")
    (entry_world_input [] 1000 1000 (lit "v") (qlit "a'b") eq_refl ltac:(vm_compute; split; congruence)
       ltac:(by repeat constructor) ltac:(by vm_compute) ltac:(by repeat constructor) ltac:(by vm_compute))
    eq_refl) as H.
  rewrite Het Hfw in H. destruct H as (cs' & _ & H1 & _ & H2).
  exists cs'. split; [exact H1|exact H2].
Defined.

Section properties2.
Context `{MdcWalk}.

(** C23: [format_message] keeps the whole escaped message when it fits, and cuts it
    off otherwise: after the longest prefix of the message whose escape leaves room
    for the mark, never between an escape character and the escaped one, and with
    the truncation mark behind it.  The result stays within the buffer and the
    temporary buffer is freed. *)
Theorem format_message_correct w b o len msg args out cs :
  plan_ok (plan w) = true → wf_heap w → heap w !! b = Some (BChars cs) →
  printable (heap w) b msg args out → 0 ≤ o → 20 ≤ len ≤ INT_MAX → o + len ≤ zlen cs →
  ∃ k mark cs', let t := msg_head ++ esc (take k out) ++ mark ++ [DQUOTE] in
    format_message msg args (Ptr b o) len w = Ok (zlen t) (on b cs' (after_malloc w)) ∧
    same_outside o len cs cs' ∧ holds cs' o (t ++ [NUL]) ∧ zlen t < len ∧
    ((zlen (esc out) ≤ len - 9 ∧ take k out = out ∧ mark = []) ∨
     (len - 9 < zlen (esc out) ∧ mark = TRUNCATED ∧ zlen (esc (take k out)) ≤ len - 20 ∧
      ∀ j, zlen (esc (take j out)) ≤ len - 20 → zlen (take j out) ≤ zlen (take k out))).
Proof.
  intros Hp Hw Hb Hpr Ho Hlen Hle.
  assert (Hon : on b cs w = w) by by rewrite /on insert_id // with_heap_id.
  destruct (proj1 (wp_run (format_message msg args (Ptr b o) len) w (λ r w', ∃ cs',
    w' = on b cs' (after_malloc w) ∧ same_outside o len cs cs' ∧
    holds cs' o (msg_text len out ++ [NUL]) ∧ r = zlen (msg_text len out))))
    as (r & w' & Hrun & cs' & -> & Hso & Hh & ->).
  { rewrite -{1}Hon. eapply wp_format_message; [done|done|by eapply wf_heap_lt|done|done|lia|done|].
    intros cs' w' Hso Hh Hw'. change (zlen MINIMUM_MESSAGE) with 19 in Hw'.
    destruct (Z.leb_spec len 19); [lia|]. subst w'. by eauto. }
  pose proof (msg_text_len len out ltac:(lia)) as [_ Hlt].
  rewrite /msg_text in Hrun, Hh, Hlt. change (zlen MINIMUM_MESSAGE) with 19 in *.
  destruct (Z.leb_spec len 19); [lia|]. rewrite /msg_body in Hrun, Hh, Hlt.
  destruct (Z.leb_spec (zlen (esc out)) (len - 9)).
  - exists (length out), [], cs'. rewrite firstn_all app_nil_l. split_and!; try done. by left.
  - destruct (esc_take_longest (len - 20) out) as (k & Hk & Hmax); [lia|].
    rewrite -(app_assoc (esc_take _ _)) in Hrun Hh Hlt.
    exists k, TRUNCATED, cs'. rewrite -Hk. split_and!; try done.
    right. split_and!; try done. apply esc_take_len. lia.
Qed.

(** C30: the formatter gives an entry up, returning -1, in exactly one case: the
    fields before the message take all but 20 characters of the buffer.  That is
    one character more than the smallest message needs. *)
Theorem format_drops_iff w b o len cs tv severity identity id mdc F l msg args out :
  entry_input w b o len cs identity id mdc F l msg args out → plan_ok (plan w) = true →
  (∃ w', mdclog_internal_format_to_json_str (Ptr b o) len tv identity severity mdc msg args w
         = Ok (-1) w') ↔ zlen (entry_fields len tv severity id l) = len - 20.
Proof.
  intros Hin Hp. pose proof Hin as [_ _ _ [Hlen _] _ _ _].
  pose proof (entry_text_none len tv severity id l out Hlen) as Hnone.
  set (run := mdclog_internal_format_to_json_str _ _ _ _ _ _ _ _).
  destruct (proj1 (wp_run run w (λ r _,
    match entry_text len tv severity id l out with Some t => r = zlen t | None => r = -1 end)))
    as (r & w' & Hrun & Hr).
  { eapply wp_format_to_json_str; [done|done|]. intros cs' w' _.
    by destruct (entry_text len tv severity id l out). }
  rewrite -Hnone Hrun. destruct (entry_text len tv severity id l out) as [t|].
  - pose proof (zlen_nonneg t). split; [|done]. intros (w2 & [= ? _]). lia.
  - subst r. split; [done|by eauto].
Qed.

(** Without memory for the temporary buffer the formatter returns -1 and leaves
    an empty string. *)
Theorem format_no_memory w b o len cs tv severity identity id mdc F l msg args out :
  entry_input w b o len cs identity id mdc F l msg args out → plan_ok (plan w) = false →
  ∃ w', mdclog_internal_format_to_json_str (Ptr b o) len tv identity severity mdc msg args w
          = Ok (-1) w' ∧ get_cstr (heap w') (Ptr b o) = Some [].
Proof.
  intros Hin Hp. pose proof Hin as [_ Hb [Ho Hle] [Hlen1 _] _ _ _]. set (run := mdclog_internal_format_to_json_str _ _ _ _ _ _ _ _).
  assert (wp run w (λ r w', r = -1 ∧ get_cstr (heap w') (Ptr b o) = Some [])) as (r & w' & Hrun & -> & Hs)%wp_run; [|by eauto].
  eapply wp_format_no_memory; [done|done|]. intros cs' Hso Hh. split; [done|].
  by eapply get_cstr_holds; [apply on_lookup|exact Hh|constructor].
Qed.
End properties2.

Lemma format_message_correct_witness :
  ∃ k mark cs', let t := msg_head ++ esc (take k (lit "too long a message")) ++ mark ++ [DQUOTE] in
    format_message (Lit (lit "too long a message") 0) [] (Ptr 1 0) 25 (entry_world 30) =
      Ok (zlen t) (on 1 cs' (after_malloc (entry_world 30))) ∧ mark = TRUNCATED.
Proof.
  destruct (format_message_correct (entry_world 30) 1 0 25 (Lit (lit "too long a message") 0) []
    (lit "too long a message") (replicate 30 None)) as (k & mark & cs' & H1 & _ & _ & _ & H2);
    [done| |done| |done|by vm_compute|by vm_compute|].
  - intros b Hb. cbn in *. rewrite lookup_insert_ne ?lookup_singleton_ne //; lia.
  - apply (printable_intro _ ∅ ∅ _ _ _ (lit "too long a message"));
      [intros b _ [x Hx]; by rewrite lookup_empty in Hx|by apply get_cstr_lit; repeat constructor|done|constructor|by vm_compute|by vm_compute].
  - exists k, mark, cs'. split; [exact H1|]. destruct H2 as [[Hle _]|[_ [Hm _]]]; [|exact Hm].
    exfalso. revert Hle. vm_compute. intros Hle. apply Hle. reflexivity.
Defined.

(** A value that fills the entry up to the last character. *)
Definition filling_value : list Z := replicate 929 65.

Lemma format_drops_iff_witness : ∃ w',
  mdclog_internal_format_to_json_str (H := lit_access) (Ptr 1 0) 1000 (5, 1000) (Lit (lit "id") 0)
    MDCLOG_ERR (Lit filling_value 0) (Lit (lit "%s") 0) [AStr (Lit (lit "hello") 0)]
    (with_plan [] (entry_world 1000))
  = Ok (-1) w'.
Proof.
  assert (Hlen : zlen (entry_fields 1000 (5, 1000) MDCLOG_ERR (lit "id") [(lit "k", filling_value)]) = 1000 - 20)
    by (vm_compute; reflexivity).
  exact (proj2 (format_drops_iff (H0 := lit_walk) (with_plan [] (entry_world 1000)) 1 0 1000
    (replicate 1000 None) (5, 1000) MDCLOG_ERR (Lit (lit "id") 0) (lit "id") (Lit filling_value 0)
    {[2%positive]} [(lit "k", filling_value)] (Lit (lit "%s") 0) [AStr (Lit (lit "hello") 0)] (lit "hello")
    (entry_world_input [] 1000 1000 filling_value (lit "hello") eq_refl ltac:(vm_compute; split; congruence)
       ltac:(by repeat constructor) ltac:(by vm_compute) ltac:(by repeat constructor) ltac:(by vm_compute))
    eq_refl) Hlen).
Defined.

Lemma format_no_memory_witness : ∃ w',
  mdclog_internal_format_to_json_str (H := lit_access) (Ptr 1 0) 1000 (5, 1000) (Lit (lit "id") 0)
    MDCLOG_ERR (Lit (lit "v") 0) (Lit (lit "%s") 0) [AStr (Lit (lit "hello") 0)]
    (with_plan [false] (entry_world 1000)) = Ok (-1) w' ∧ get_cstr (heap w') (Ptr 1 0) = Some [].
Proof.
  exact (format_no_memory (H0 := lit_walk) (with_plan [false] (entry_world 1000)) 1 0 1000
    (replicate 1000 None) (5, 1000) MDCLOG_ERR (Lit (lit "id") 0) (lit "id") (Lit (lit "v") 0)
    {[2%positive]} [(lit "k", lit "v")] (Lit (lit "%s") 0) [AStr (Lit (lit "hello") 0)] (lit "hello")
    (entry_world_input [false] 1000 1000 (lit "v") (lit "hello") eq_refl ltac:(vm_compute; split; congruence)
       ltac:(by repeat constructor) ltac:(by vm_compute) ltac:(by repeat constructor) ltac:(by vm_compute))
    eq_refl).
Defined.
