(* ===== verification/Mdclog.v ===== *)
(** src/mdclog.c: the public functions of the library, except for the
    environment-driven configuration (LogLevel).

    [lib] says what a state of the library is between two calls: the
    configuration is unlocked, the identity is a string of its own block or
    null, and the thread's list is well formed.  The rules say how each public
    function changes it; Api and Threads put them together.  Rules that end in [_any]
    hold for any outcomes of the allocations: [default_outcome], [line_outcome] and the
    like say what a call makes of them. *)

From S2P Require Import Prelude World Memory Libc Escape MdcIface Mdc JsonFormat.

(** ** The lock *)

Definition set_mutex (m : rwlock) : M unit := modify (λ w, with_cfg (with_mutex m (cfg w)) w).

(** Locking blocks for good when the lock is held: no other thread runs in this
    model, so nobody else can be holding it. *)
Definition pthread_rwlock_wrlock : M unit :=
  m ← gets (λ w, config_mutex (cfg w));
  match m with
  | Unlocked => set_mutex WriteLocked
  | _ => stopped Blocked
  end.

Definition pthread_rwlock_rdlock : M unit :=
  m ← gets (λ w, config_mutex (cfg w));
  match m with
  | Unlocked => set_mutex (ReadLocked 1)
  | ReadLocked n => set_mutex (ReadLocked (S n))
  | WriteLocked => stopped Blocked
  end.

Definition pthread_rwlock_unlock : M unit :=
  m ← gets (λ w, config_mutex (cfg w));
  match m with
  | WriteLocked => set_mutex Unlocked
  | ReadLocked (S (S n)) => set_mutex (ReadLocked (S n))
  | ReadLocked _ => set_mutex Unlocked
  | Unlocked => undefined
  end.

(** ** Initialisation *)

Definition set_identity (p : ptr) : M unit := modify (λ w, with_cfg (with_identity p (cfg w)) w).
Definition set_init_done (i : Z) : M unit := modify (λ w, with_cfg (with_init_done i (cfg w)) w).
Definition set_format_done (i : Z) : M unit := modify (λ w, with_cfg (with_format_done i (cfg w)) w).

(** The identity from the program name: null if memory runs out. *)
Definition default_identity : M unit :=
  progname ← gets (λ w, sys_progname (os w));
  identity ← strdup progname;
  when (negb (is_null identity)) (
    special ← mdclog_internal_contains_special_characters identity;
    if negb (special =? 0) then
      escaped_size ← mdclog_internal_escaped_size identity;
      p ← malloc_chars escaped_size;
      set_identity p ;;
      when (negb (is_null p)) (mdclog_internal_escape p escaped_size identity ;; mret tt) ;;
      free identity
    else set_identity identity).

Definition init_library (attr : ptr) : M unit :=
  done ← gets (λ w, init_done (cfg w));
  if negb (done =? 0) then mret tt
  else
    mdclog_internal_init_mdc ;;
    pthread_rwlock_wrlock ;;
    old ← gets (λ w, identity (cfg w));
    when (negb (is_null old)) (free old ;; set_identity Null) ;;
    attr_identity ← (if is_null attr then mret Null else load_attr attr);
    (if negb (is_null attr_identity) then
       set_identity attr_identity ;; store_attr attr Null
     else default_identity) ;;
    set_init_done 1 ;;
    pthread_rwlock_unlock.

Definition mdclog_init (attr : ptr) : M Z :=
  set_init_done 0 ;; set_format_done 0 ;; init_library attr ;; mret 0.

(** ** Writing *)

Definition PIPE_BUF : Z := 4096.

(** [write(STDOUT_FILENO, p, n)]: the next outcome of the system, or a complete
    write when none is prescribed. *)
Definition sys_write (p : ptr) (n : Z) : M Z := λ w,
  match cells_at (heap w) p ≫= λ cs, mapM id (take (Z.to_nat n) cs) with
  | Some bytes =>
      if zlen bytes =? n then
        match sys_writes (os w) with
        | WriteError e :: ws =>
            Ok (-1) (with_errno e (with_os (with_stdout (sys_stdout (os w)) ws (os w)) w))
        | Written k :: ws =>
            Ok k (with_os (with_stdout (sys_stdout (os w) ++ [take (Z.to_nat k) bytes]) ws (os w)) w)
        | [] => Ok n (with_os (with_stdout (sys_stdout (os w) ++ [bytes]) [] (os w)) w)
        end
      else Stop UndefinedBehaviour
  | None => Stop UndefinedBehaviour
  end.

(** [TEMP_FAILURE_RETRY(expr)]; EWOULDBLOCK is EAGAIN. *)
Fixpoint temp_failure_retry (fuel : nat) (expr : M Z) : M Z :=
  match fuel with
  | O => stopped OutOfFuel
  | S fuel' =>
      r ← expr;
      e ← gets errno;
      if (r <? 0) && ((e =? EINTR) || (e =? EAGAIN)) then temp_failure_retry fuel' expr
      else mret r
  end.

Definition mdclog_write (severity : Z) (format : ptr) (va : list arg) : M unit :=
  with_local PIPE_BUF (λ buffer,
    level ← gets (λ w, current_level (cfg w));
    if level <? severity then mret tt
    else
      init_library Null ;;
      tv ← gets (λ w, sys_time (os w));
      pthread_rwlock_rdlock ;;
      identity ← gets (λ w, identity (cfg w));
      mdc ← mdclog_internal_get_first_mdc;
      len ← mdclog_internal_format_to_json_str buffer (PIPE_BUF - 1) tv identity severity mdc
              format va;
      pthread_rwlock_unlock ;;
      when (0 <? len) (
        store_char (buffer +ₚ len) NL ;;
        fuel ← gets (λ w, S (length (sys_writes (os w))));
        temp_failure_retry fuel (sys_write buffer (len + 1)) ;;
        mret tt)).

Definition mdclog_level_set (level : Z) : M unit :=
  modify (λ w, with_cfg (with_level level (cfg w)) w).
Definition mdclog_level_get : M Z := gets (λ w, current_level (cfg w)).

(** ** Attributes *)

(** [*attr = malloc(...)]; [attr] points to a [mdclog_attr_t *]. *)
Definition mdclog_attr_init (attr : ptr) : M Z :=
  p ← malloc (BAttr wild);
  store_attr_ptr attr p ;;
  if is_null p then set_errno ENOMEM ;; mret (-1)
  else
    a ← load_attr_ptr attr;
    store_attr a Null ;;
    mret 0.

Definition mdclog_attr_destroy (attr : ptr) : M unit :=
  when (negb (is_null attr)) (
    identity ← load_attr attr;
    when (negb (is_null identity)) (free identity) ;;
    free attr).

Definition mdclog_attr_set_ident (attr identity : ptr) : M Z :=
  bad ← (if is_null attr then mret true
         else if is_null identity then mret true
         else
           special ← mdclog_internal_contains_special_characters identity;
           if negb (special =? 0) then mret true
           else n ← strlen identity; mret (IDENTITY_MAX_LENGTH <? n));
  if (bad : bool) then set_errno EINVAL ;; mret (-1)
  else
    p ← strdup identity;
    store_attr attr p ;;
    mret 0.

(** ** Mapped diagnostic contexts *)

Definition mdclog_mdc_add (key value : ptr) : M Z :=
  bad ← (if is_null key then mret true
         else if is_null value then mret true
         else
           special ← mdclog_internal_contains_special_characters key;
           mret (negb (special =? 0)));
  if (bad : bool) then set_errno EINVAL ;; mret (-1)
  else
    init_library Null ;;
    mdclog_internal_put_mdc key value.

Definition mdclog_mdc_get (key : ptr) : M ptr :=
  if is_null key then mret Null
  else
    init_library Null ;;
    mdc ← mdclog_internal_search_mdc key;
    if negb (is_null mdc) then val ← mdclog_internal_get_mdc_val mdc; strdup val
    else mret Null.

Definition mdclog_mdc_remove (key : ptr) : M unit :=
  if is_null key then mret tt
  else init_library Null ;; mdclog_internal_rm_mdc key.

Definition mdclog_mdc_clean : M unit := init_library Null ;; mdclog_internal_clean_mdclist.

Definition mdclog_lib_clean : M unit :=
  identity ← gets (λ w, identity (cfg w));
  when (negb (is_null identity)) (free identity) ;;
  set_identity Null ;;
  set_init_done 0 ;;
  set_format_done 0.

(** ** What a state represents *)

(** The list of the running thread, whether or not the key exists yet. *)
Definition thread_state (w : world) (lo : option positive) (es : list ent) : Prop :=
  if tls_key (tls w) then thread_mdcs w (self w) lo es
  else lo = None ∧ es = [] ∧ default Null (tls_values (tls w) !! self w) = Null.

(** The configured identity: not set, or a string in a block of its own. *)
Definition ident_state (w : world) (io : option (positive * list Z)) : Prop :=
  match io with
  | None => identity (cfg w) = Null
  | Some (b, s) =>
      identity (cfg w) = Ptr b 0 ∧ heap w !! b = Some (cstr_block s) ∧ is_str s
  end.

Definition ident_foot (io : option (positive * list Z)) : gset positive :=
  match io with None => ∅ | Some (b, _) => {[b]} end.

(** The blocks of the library. *)
Definition lib_foot (io : option (positive * list Z)) (lo : option positive) (es : list ent)
  : gset positive := ident_foot io ∪ footprint lo es.

(** A state of the library between two calls; the program is called [pn]. *)
Record lib (pn : list Z) (w : world) (io : option (positive * list Z)) (lo : option positive)
    (es : list ent) : Prop := {
  lib_wf : wf_heap w;
  lib_mutex : config_mutex (cfg w) = Unlocked;
  lib_ident : ident_state w io;
  lib_mdcs : thread_state w lo es;
  lib_init : init_done (cfg w) ≠ 0 → tls_key (tls w) = true;
  lib_disj : ident_foot io ## footprint lo es;
  lib_sys : sys_progname (os w) = Lit pn 0 ∧ sys_key_create (os w) = true;
  lib_name : is_str pn ∧ zlen (esc pn) < INT_MAX
}.

(** What a call may change of the state outside the heap. *)
Record lib_env (w w' : world) : Prop := {
  le_self : self w' = self w;
  le_os : os w' = os w;
  le_level : current_level (cfg w') = current_level (cfg w);
  le_others : ∀ t, t ≠ self w → tls_values (tls w') !! t = tls_values (tls w) !! t
}.

(** The identity after initialisation. *)
Definition ident_after (w : world) (pn : list Z) (io : option (positive * list Z)) : option (list Z) :=
  if init_done (cfg w) =? 0 then Some (esc pn) else snd <$> io.

Section init.
Implicit Types (w : world) (es : list ent) (lo : option positive) (io : option (positive * list Z)).

Lemma lib_env_refl w : lib_env w w.
Proof. done. Qed.

Lemma lib_env_trans w1 w2 w3 : lib_env w1 w2 → lib_env w2 w3 → lib_env w1 w3.
Proof.
  intros [H1 H2 H3 H4] [H5 H6 H7 H8]. split; try congruence.
  intros t Ht. rewrite H8; [by apply H4|congruence].
Qed.

Lemma lib_env_mdc lo es w lo' es' w' : mdc_step lo es w lo' es' w' → lib_env w w'.
Proof. intros [_ _ ? Hc ? ?]. split; try done. by rewrite Hc. Qed.

Lemma ident_own b s lo es : b ∈ lib_foot (Some (b, s)) lo es.
Proof. apply elem_of_union_l. cbn [ident_foot]. by apply elem_of_singleton. Qed.

Lemma ident_disj b s lo es : ident_foot (Some (b, s)) ## footprint lo es → b ∉ footprint lo es.
Proof.
  intros Hd Hb. apply (proj1 (elem_of_disjoint _ _) Hd b); [|done].
  cbn [ident_foot]. by apply elem_of_singleton.
Qed.

Lemma lib_foot_remove b s lo es :
  b ∉ footprint lo es → lib_foot (Some (b, s)) lo es ∖ {[b]} = footprint lo es.
Proof.
  intros Hb. apply set_eq. intros b'. rewrite /lib_foot elem_of_difference elem_of_union.
  cbn [ident_foot]. rewrite !elem_of_singleton. split; [by intros [[?|?] ?]|].
  intros Hb'. split; [by right|]. by intros ->.
Qed.

Lemma lib_foot_none lo es : lib_foot None lo es = footprint lo es.
Proof. rewrite /lib_foot. apply left_id_L, _. Qed.

Lemma elem_of_lib_foot io lo es b : b ∈ lib_foot io lo es ↔ b ∈ ident_foot io ∨ b ∈ footprint lo es.
Proof. apply elem_of_union. Qed.

Lemma lib_foot_live pn w io lo es b : lib pn w io lo es → b ∈ lib_foot io lo es → is_Some (heap w !! b).
Proof.
  intros [_ _ Hi Hm _ _ _ _] Hb. rewrite /lib_foot in Hb. apply elem_of_union in Hb as [Hb|Hb].
  - destruct io as [[b' s]|]; [|by apply not_elem_of_empty in Hb].
    cbn [ident_foot] in Hb. apply elem_of_singleton in Hb as ->. destruct Hi as (_ & Hb & _). by eauto.
  - rewrite /thread_state in Hm. destruct (tls_key (tls w)); [by eapply footprint_live|].
    destruct Hm as (-> & -> & _). by apply not_elem_of_empty in Hb.
Qed.

Lemma lib_owns pn w io lo es : lib pn w io lo es → owns_step (lib_foot io lo es) w (lib_foot io lo es) w.
Proof.
  intros H. apply owns_step_refl; [apply (lib_wf _ _ _ _ _ H)|]. intros b. by eapply lib_foot_live.
Qed.

(** The list and the rest of the state. *)
Lemma thread_state_frame w w' lo es :
  thread_state w lo es → tls w' = tls w → self w' = self w →
  (∀ b, b ∈ footprint lo es → heap w' !! b = heap w !! b) → thread_state w' lo es.
Proof.
  rewrite /thread_state /thread_mdcs => Hm -> -> Hf. destruct (tls_key (tls w)); [|done].
  destruct lo as [l|]; [|done]. destruct Hm as (Hk & Hv & Hm). split_and!; [done..|].
  eapply mlist_frame; [|done]. intros b Hb. apply Hf. by apply elem_of_list_to_set.
Qed.

Lemma thread_state_key w lo es :
  thread_state w lo es → thread_state (with_tls (Tls true (tls_values (tls w))) w) lo es.
Proof.
  rewrite /thread_state /thread_mdcs. cbn. destruct (tls_key (tls w)); [done|].
  by intros (-> & -> & ?).
Qed.

(** [default_identity] leaves the escaped name of the program, or null when memory
    runs out. *)
Definition default_outcome (pn : list Z) : supply (option (list Z)) :=
  ok ← draw;
  if (ok : bool) then
    if has_special pn then ok ← draw; mret (if (ok : bool) then Some (esc pn) else None)
    else mret (Some (esc pn))
  else mret None.

(** The escaped copy of a name with special characters takes its place. *)
Lemma wp_escaped_identity pn w w1 b1 (Q : unit → world → Prop) :
  heap w1 !! b1 = Some (cstr_block pn) → owns_step ∅ w {[b1]} w1 → is_str pn → zlen (esc pn) < INT_MAX →
  identity (cfg w1) = Null →
  (∀ io w', (if plan_ok (plan w1) then Some (esc pn) else None, tail (plan w1)) = (snd <$> io, plan w') →
     owns_step ∅ w (ident_foot io) w' → ident_state w' io → cfg w' = with_identity (identity (cfg w')) (cfg w1) →
     tls w' = tls w1 → os w' = os w1 → self w' = self w1 → (is_Some io → errno w' = errno w1) → Q tt w') →
  wp (escaped_size ← mdclog_internal_escaped_size (Ptr b1 0);
      p ← malloc_chars escaped_size;
      set_identity p ;;
      when (negb (is_null p)) (mdclog_internal_escape p escaped_size (Ptr b1 0) ;; mret tt) ;;
      free (Ptr b1 0)) w1 Q.
Proof.
  intros Hb1 Ho1 Hs Hl Hid HQ. unfold INT_MAX in Hl. pose proof (esc_len_ge pn) as Hge. pose proof (zlen_nonneg (esc pn)).
  pose proof (step_wf _ _ _ _ Ho1) as Hw1. rewrite /set_identity.
  step wp_escaped_size; [by apply get_cstr_block|lia|]. step wp_malloc; intros Hok; rewrite Hok in HQ.
  2: { wp_pure. cbn [is_null negb when]. wp_pure. eapply wp_free; [exact Hb1|].
    apply (owns_step_free _ _ _ _ b1) in Ho1; [|by apply elem_of_singleton].
    rewrite difference_diag_L in Ho1. apply (HQ None); try done; by eapply owns_step_same. }
  cbn [is_null negb when]. set (b2 := next w1) in *. wp_pure. set (p := BChars _) in *.
  apply (owns_step_malloc _ _ _ _ p) in Ho1 as Ho2. set (w2 := malloc_world p w1) in *. set (w3 := with_cfg _ w2).
  assert (Ho3 : owns_step ∅ w ({[b2]} ∪ {[b1]}) w3) by by eapply owns_step_same.
  assert (Hne : b1 ≠ b2) by by pose proof (wf_heap_lt _ _ _ Hw1 Hb1); lia.
  assert (Hb2 : heap w3 !! b2 = Some p) by apply lookup_insert_eq.
  assert (Hb1' : heap w3 !! b1 = Some (cstr_block pn)) by by rewrite /= lookup_insert_ne.
  apply wp_bind. step wp_escape; [exact Hb2|by apply get_cstr_block|by cbn; intros [= ?]; lia|done|lia|zl|].
  intros cs' Hso Hh. apply wp_ret.
  replace (zlen (esc pn) + 1 - 1) with (zlen (esc pn)) in Hh by lia. rewrite esc_take_all // in Hh.
  assert (Hcs : BChars cs' = cstr_block (esc pn)).
  { rewrite (holds_all cs' (esc pn ++ [NUL])) //. apply same_outside_zlen in Hso. zl. }
  assert (Hin : b2 ∈ ({[b2]} ∪ {[b1]} : gset positive) ∧ b1 ∈ ({[b2]} ∪ {[b1]} : gset positive)) by set_solver.
  destruct Hin as [Hin2 Hin1]. rewrite Hcs. eapply wp_free; [by rewrite /= lookup_insert_ne|].
  apply (owns_step_store _ _ _ _ _ (cstr_block (esc pn)) Ho3) in Hin2 as Ho4.
  apply (owns_step_free _ _ _ _ _ Ho4) in Hin1 as Ho5.
  apply (HQ (Some (b2, esc pn))); try done.
  - by replace (ident_foot (Some (b2, esc pn))) with (({[b2]} ∪ {[b1]}) ∖ {[b1]} : gset positive) by (cbn; set_solver).
  - split_and!; [done| |apply esc_is_str]. by rewrite /= lookup_delete_ne // lookup_insert_eq.
Qed.

Lemma wp_default_identity_any pn w (Q : unit → world → Prop) :
  sys_progname (os w) = Lit pn 0 → is_str pn → zlen (esc pn) < INT_MAX → wf_heap w → identity (cfg w) = Null →
  (∀ io w', default_outcome pn (plan w) = (snd <$> io, plan w') → owns_step ∅ w (ident_foot io) w' →
     ident_state w' io → cfg w' = with_identity (identity (cfg w')) (cfg w) →
     tls w' = tls w → os w' = os w → self w' = self w → (is_Some io → errno w' = errno w) → Q tt w') →
  wp default_identity w Q.
Proof.
  intros Hpn Hs Hl Hw Hid HQ. rewrite /default_identity /set_identity. wp_pure. rewrite Hpn.
  pose proof (owns_step_refl ∅ w Hw ltac:(intros b Hb; by apply not_elem_of_empty in Hb)) as Ho0.
  pose proof (esc_len_ge pn) as Hge.
  assert (Hout : default_outcome pn (plan w) = if plan_ok (plan w) then
    (if has_special pn then (if plan_ok (tail (plan w)) then Some (esc pn) else None, tail (tail (plan w)))
     else (Some (esc pn), tail (plan w))) else (None, tail (plan w))).
  { rewrite /default_outcome /mbind /supply_bind /draw. by destruct (plan_ok (plan w)), (has_special pn). }
  rewrite {}Hout in HQ.
  step wp_strdup; [by apply get_cstr_lit| |].
  2: { intros Hok. rewrite Hok in HQ. cbn [is_null negb when]. apply wp_ret, (HQ None); try done; [by eapply owns_step_same|by destruct w as [?????? []]]. }
  intros Hok. rewrite Hok in HQ. cbn [is_null negb when].
  apply (owns_step_malloc _ _ _ _ (cstr_block pn)) in Ho0 as Ho1.
  set (w1 := malloc_world _ w) in *. set (b1 := next w) in *.
  assert (Hb1 : heap w1 !! b1 = Some (cstr_block pn)) by apply lookup_insert_eq.
  assert (Hc1 : get_cstr (heap w1) (Ptr b1 0) = Some pn) by by apply get_cstr_block.
  step wp_contains_special; [done|lia|].
  destruct (has_special pn) eqn:Hsp; cbn [Z.eqb negb].
  - rewrite right_id_L in Ho1. by eapply wp_escaped_identity.
  - apply esc_no_special in Hsp. wp_pure. apply (HQ (Some (b1, esc pn))); try done.
    + cbn [ident_foot]. replace ({[b1]} : gset positive) with ({[b1]} ∪ ∅ : gset positive) by by rewrite right_id_L.
      by eapply owns_step_same.
    + split_and!; [done|by rewrite Hsp|apply esc_is_str].
Qed.

Lemma default_outcome_ok pn n w : allocs_ok (2 + n) w →
  (default_outcome pn (plan w)).1 = Some (esc pn) ∧ Forall (λ b, b = true) (take n (default_outcome pn (plan w)).2).
Proof.
  rewrite /default_outcome /mbind /supply_bind /draw. intros Hok. assert (Hok1 := Hok).
  apply allocs_ok_draw in Hok as [-> H2]. destruct (has_special pn); cbn.
  - apply (allocs_ok_draw n (with_plan (tail (plan w)) w)) in H2 as [H2 H3]. cbn in H2, H3. by rewrite H2.
  - split; [done|]. by apply (allocs_ok_le (S n) n (with_plan (tail (plan w)) w)); [|lia].
Qed.

(** The key is created once. *)
Lemma init_mdc_run w :
  sys_key_create (os w) = true → mdclog_internal_init_mdc w = Ok 0 (with_tls (Tls true (tls_values (tls w))) w).
Proof.
  intros Hkc. rewrite /mdclog_internal_init_mdc /pthread_once /create_pthread_key /mbind /M_bind /gets /mret /M_ret /modify /=.
  destruct (tls_key (tls w)) eqn:Hk; cbn; rewrite ?Hkc //=. f_equal. rewrite /with_tls -Hk. by destruct w as [????? []].
Qed.

(** The part of [init_library] before the identity is set. *)
Lemma wp_init_enter pn w io lo es (k : M unit) (Q : unit → world → Prop) :
  lib pn w io lo es →
  (∀ w1, config_mutex (cfg w1) = WriteLocked → identity (cfg w1) = Null →
     thread_mdcs w1 (self w1) lo es → owns_step (lib_foot io lo es) w (footprint lo es) w1 →
     lib_env w w1 → plan w1 = plan w → errno w1 = errno w → wp k w1 Q) →
  wp (mdclog_internal_init_mdc ;;
      pthread_rwlock_wrlock ;;
      old ← gets (λ w, identity (cfg w));
      when (negb (is_null old)) (free old ;; set_identity Null) ;;
      k) w Q.
Proof.
  intros Hlib HQ. pose proof Hlib as [Hw Hm Hi Ht _ Hd [_ Hkc] _].
  set (w0 := with_tls (Tls true (tls_values (tls w))) w).
  assert (Ht0 : thread_state w0 lo es) by by apply thread_state_key.
  apply wp_bind. eapply wp_eq; [by apply init_mdc_run|]. rewrite /pthread_rwlock_wrlock /set_mutex.
  apply wp_bind. apply wp_bind, wp_gets. cbn [cfg w0 with_tls]. rewrite Hm. wp_pure. wp_pure.
  pose proof (lib_owns _ _ _ _ _ Hlib) as Ho. rewrite /thread_state in Ht0. cbn in Ht0.
  destruct io as [[b s]|]; cbn [ident_state ident_foot] in *.
  - destruct Hi as (Hip & Hb & Hs). cbn [cfg with_cfg identity with_mutex]. rewrite Hip. cbn [is_null negb when].
    apply wp_bind. step wp_free; [exact Hb|]. rewrite /set_identity. wp_pure.
    pose proof (ident_own b s lo es) as Hin.
    pose proof (ident_disj b s lo es Hd) as Hbn.
    apply (owns_step_free _ _ _ _ _ Ho) in Hin as Ho1.
    rewrite (lib_foot_remove _ _ _ _ Hbn) in Ho1. apply HQ; try done; [|by eapply owns_step_same].
    pose proof (thread_state_frame w0 (with_heap (delete b (heap w)) w0) lo es Ht0) as Hf. apply Hf; [done|done|].
    intros b' Hb'. cbn. rewrite lookup_delete_ne //. by intros ->.
  - cbn [cfg with_cfg identity with_mutex]. rewrite Hi. cbn [is_null negb when]. wp_pure.
    rewrite lib_foot_none in Ho HQ. apply HQ; try done. by eapply owns_step_same.
Qed.

Lemma wp_init_leave pn w1 io lo es (Q : unit → world → Prop) :
  config_mutex (cfg w1) = WriteLocked → wf_heap w1 → ident_state w1 io →
  thread_mdcs w1 (self w1) lo es → ident_foot io ## footprint lo es →
  sys_progname (os w1) = Lit pn 0 → sys_key_create (os w1) = true → is_str pn → zlen (esc pn) < INT_MAX →
  (∀ w', lib pn w' io lo es → tls w' = tls w1 → init_done (cfg w') = 1 →
     heap w' = heap w1 → next w' = next w1 → lib_env w1 w' → plan w' = plan w1 → errno w' = errno w1 → Q tt w') →
  wp (set_init_done 1 ;; pthread_rwlock_unlock) w1 Q.
Proof.
  intros Hm Hw Hi Ht Hbn Hpn Hkc Hps Hpl HQ. rewrite /set_init_done /pthread_rwlock_unlock /set_mutex.
  wp_pure. wp_pure. cbn [cfg with_cfg config_mutex with_init_done]. rewrite Hm. wp_pure.
  pose proof Ht as [Hk _]. apply HQ; try done. split; cbn; try done.
  by rewrite /thread_state /= Hk.
Qed.

(** No identity is given: no attributes, or attributes without one. *)
Definition no_identity (w : world) (F : gset positive) (attr : ptr) : Prop :=
  match attr with
  | Null => True
  | Ptr a 0 => heap w !! a = Some (BAttr Null) ∧ (a ∉ F)
  | _ => False
  end.

Lemma wp_no_identity w F w' F' attr (Q : ptr → world → Prop) :
  no_identity w F attr → wf_heap w → owns_step F w F' w' → Q Null w' →
  wp (if is_null attr then mret Null else load_attr attr) w' Q.
Proof.
  intros Hn Hw Ho HQ. destruct attr as [|a [| |]|]; try done.
  destruct Hn as [Ha Hf]. cbn [is_null]. eapply wp_load_attr; [|done].
  rewrite (step_frame _ _ _ _ Ho) //. by eapply wf_heap_lt.
Qed.

(** The identity after initialisation, from the outcomes of its allocations. *)
Definition ready_outcome (pn : list Z) (done : bool) (ident : option (list Z)) : supply (option (list Z)) :=
  if done then mret ident else default_outcome pn.

(** [init_library] without an identity. *)
Lemma wp_init_library_any pn w io lo es attr (Q : unit → world → Prop) :
  lib pn w io lo es → no_identity w (lib_foot io lo es) attr →
  (∀ io' w', ready_outcome pn (negb (init_done (cfg w) =? 0)) (snd <$> io) (plan w) = (snd <$> io', plan w') →
     lib pn w' io' lo es → tls_key (tls w') = true → init_done (cfg w') ≠ 0 →
     owns_step (lib_foot io lo es) w (lib_foot io' lo es) w' →
     lib_env w w' → (init_done (cfg w) ≠ 0 → w' = w) → (is_Some io' → errno w' = errno w) → Q tt w') →
  wp (init_library attr) w Q.
Proof.
  intros Hlib Hno HQ. rewrite /init_library. wp_pure.
  destruct (Z.eqb_spec (init_done (cfg w)) 0) as [Hd|Hd]; cbn [negb ready_outcome] in *.
  - apply (wp_init_enter pn _ io lo es); [done|].
    intros w1 Hm1 Hi1 Ht1 Ho1 [He1 He2 He3 He4] Hp1 Her1.
    step wp_no_identity; [done|apply (lib_wf _ _ _ _ _ Hlib)|done|]. cbn [is_null negb].
    pose proof Hlib as [_ _ _ _ _ _ [Hpn Hkc] [Hps Hpl]].
    pose proof (step_wf _ _ _ _ Ho1) as Hw1.
    step (wp_default_identity_any pn); [by rewrite He2|done|done|done|done|].
    intros io2 w2 Hout Ho2 Hi2 Hc2 Ht2 Hos2 Hs2 Her2. rewrite Hp1 in Hout.
    assert (Hbn : ident_foot io2 ## footprint lo es).
    { apply elem_of_disjoint. intros b Hb Hin. destruct (footprint_live _ _ _ _ _ Ht1 Hin) as [x Hx].
      apply (step_owned _ _ _ _ Ho2) in Hb as [[?%not_elem_of_empty|Hle] _]; [done|].
      pose proof (wf_heap_lt _ _ _ Hw1 Hx). lia. }
    assert (Hf : ∀ b', b' ∈ footprint lo es → heap w2 !! b' = heap w1 !! b').
    { intros b' Hb'. apply (step_frame _ _ _ _ Ho2); [by apply not_elem_of_empty|]. by eapply footprint_lt. }
    assert (Ht2' : thread_mdcs w2 (self w2) lo es).
    { pose proof (thread_state_frame w1 w2 lo es) as Htf. rewrite /thread_state Ht2 in Htf.
      destruct Ht1 as [Hk1 Ht1]. rewrite Hk1 in Htf. by apply Htf. }
    eapply (wp_init_leave pn _ io2); [by rewrite Hc2|apply Ho2|done|done|done
      |by rewrite Hos2 He2|by rewrite Hos2 He2|done|done|].
    intros w' Hlib' Ht' Hd' Hh' Hn' [He5 He6 He7 He8] Hp' Her'.
    apply (HQ io2); try done.
    + by rewrite Hp'.
    + rewrite Ht'. apply Ht2'.
    + by rewrite Hd'.
    + eapply (owns_step_same _ _ _ w2); [|done|done]. eapply owns_step_trans; [exact Ho1|].
      pose proof (owns_step_frame _ _ _ _ (footprint lo es) Ho2 Hw1) as Hfr.
      rewrite left_id_L in Hfr. apply Hfr; [by apply disjoint_empty_l|].
      intros b'. by eapply footprint_live.
    + split; [congruence|congruence|by rewrite He7 Hc2 /= He3|].
      intros t Ht. rewrite He8; [|congruence]. rewrite Ht2. by apply He4.
    + intros Hio. rewrite Her' Her2 //.
  - apply wp_ret. apply (HQ io); try done.
    + by apply (lib_init _ _ _ _ _ Hlib).
    + by eapply lib_owns.
Qed.

Lemma wp_init_library_default n pn w io lo es attr (Q : unit → world → Prop) :
  lib pn w io lo es → allocs_ok (2 + n) w → no_identity w (lib_foot io lo es) attr →
  (∀ io' w', lib pn w' io' lo es → tls_key (tls w') = true → init_done (cfg w') ≠ 0 →
     snd <$> io' = ident_after w pn io → owns_step (lib_foot io lo es) w (lib_foot io' lo es) w' →
     lib_env w w' → (init_done (cfg w) ≠ 0 → w' = w) → errno w' = errno w → allocs_ok n w' →
     Q tt w') →
  wp (init_library attr) w Q.
Proof.
  intros Hlib Hok Hno HQ. pose proof (default_outcome_ok pn n w Hok) as [H1 H2].
  eapply wp_init_library_any; [done|done|]. intros io' w' Hout Hlib' Hk Hd Ho He Hsame Her.
  rewrite /ident_after in HQ. destruct (Z.eqb_spec (init_done (cfg w)) 0) as [Hd0|Hd0]; cbn [negb ready_outcome] in Hout.
  - rewrite Hout in H1 H2. cbn in H1, H2. apply (HQ io'); try done. apply Her. by destruct io'.
  - injection Hout as Hio Hp. apply (HQ io'); try done; [by rewrite (Hsame Hd0)|].
    eapply allocs_ok_plan; [by symmetry|]. eapply allocs_ok_le; [done|lia].
Qed.

Lemma wp_init_library n pn w io lo es (Q : unit → world → Prop) :
  lib pn w io lo es → allocs_ok (2 + n) w →
  (∀ io' w', lib pn w' io' lo es → tls_key (tls w') = true → init_done (cfg w') ≠ 0 →
     snd <$> io' = ident_after w pn io → owns_step (lib_foot io lo es) w (lib_foot io' lo es) w' →
     lib_env w w' → (init_done (cfg w) ≠ 0 → w' = w) → errno w' = errno w → allocs_ok n w' →
     Q tt w') →
  wp (init_library Null) w Q.
Proof. intros Hlib Hok HQ. by eapply wp_init_library_default. Qed.

(** [init_library] takes the identity of the attributes over. *)
Lemma wp_init_library_attr pn w io lo es a b s (Q : unit → world → Prop) :
  lib pn w io lo es → init_done (cfg w) = 0 →
  heap w !! a = Some (BAttr (Ptr b 0)) → heap w !! b = Some (cstr_block s) → is_str s → a ≠ b →
  a ∉ lib_foot io lo es → b ∉ lib_foot io lo es →
  (∀ w', lib pn w' (Some (b, s)) lo es → heap w' !! a = Some (BAttr Null) →
     owns_step (lib_foot io lo es ∪ {[a; b]}) w (lib_foot (Some (b, s)) lo es ∪ {[a]}) w' →
     lib_env w w' → init_done (cfg w') = 1 → errno w' = errno w → plan w' = plan w → Q tt w') →
  wp (init_library (Ptr a 0)) w Q.
Proof.
  intros Hlib Hd0 Ha Hb Hs Hne Haf Hbf HQ. rewrite /init_library. wp_pure. rewrite Hd0. cbn [Z.eqb negb].
  pose proof (lib_wf _ _ _ _ _ Hlib) as Hw. pose proof Hlib as [_ _ _ _ _ _ [Hpn Hkc] [Hps Hpl]].
  apply (wp_init_enter pn _ io lo es); [done|].
  intros w1 Hm1 Hi1 Ht1 Ho1 [He1 He2 He3 He4] Hp1 Her1. cbn [is_null].
  assert (Ha1 : heap w1 !! a = Some (BAttr (Ptr b 0))).
  { rewrite (step_frame _ _ _ _ Ho1) //. by eapply wf_heap_lt. }
  assert (Hb1 : heap w1 !! b = Some (cstr_block s)).
  { rewrite (step_frame _ _ _ _ Ho1) //. by eapply wf_heap_lt. }
  assert (Hfoot : ∀ b', b' ∉ lib_foot io lo es → (b' < next w)%positive → b' ∉ footprint lo es).
  { intros b' Hb' Hlt [[?|?] _]%(step_owned _ _ _ _ Ho1); [done|lia]. }
  assert (Haf1 : a ∉ footprint lo es) by (apply Hfoot; [done|by eapply wf_heap_lt]).
  assert (Hbf1 : b ∉ footprint lo es) by (apply Hfoot; [done|by eapply wf_heap_lt]).
  step wp_load_attr; [exact Ha1|]. cbn [is_null negb]. rewrite /set_identity. wp_pure.
  eapply wp_store_attr; [exact Ha1|]. set (w2 := with_heap _ _).
  eapply (wp_init_leave pn w2 (Some (b, s)) lo es); try done.
  - eapply wf_heap_insert; [apply (step_wf _ _ _ _ Ho1)|exact Ha1].
  - split_and!; [done|by rewrite /= lookup_insert_ne|done].
  - pose proof (thread_state_frame w1 w2 lo es) as Htf. rewrite /thread_state in Htf.
    pose proof Ht1 as [Hk1 _]. change (tls w2) with (tls w1) in Htf. change (self w2) with (self w1) in Htf |- *.
    rewrite Hk1 in Htf. apply Htf; [done..|].
    intros b' Hb'. rewrite /= lookup_insert_ne //. by intros <-.
  - apply elem_of_disjoint. cbn [ident_foot]. by intros b' ->%elem_of_singleton ?.
  - cbn. by rewrite He2.
  - cbn. by rewrite He2.
  - intros w' Hlib' Ht' Hd' Hh' Hn' [He5 He6 He7 He8] Hp' Her'. apply HQ; try done.
    + rewrite Hh'. apply lookup_insert_eq.
    + assert (Hlive : ∀ b', b' ∈ ({[a; b]} : gset positive) → is_Some (heap w !! b')).
      { intros b' [->%elem_of_singleton| ->%elem_of_singleton]%elem_of_union; by eauto. }
      assert (Hdisj : lib_foot io lo es ## {[a; b]}).
      { apply elem_of_disjoint. by intros b' Hb' [->%elem_of_singleton| ->%elem_of_singleton]%elem_of_union. }
      pose proof (owns_step_frame _ _ _ _ _ Ho1 Hw Hdisj Hlive) as Hfr.
      assert (Hin : a ∈ footprint lo es ∪ {[a; b]}).
      { apply elem_of_union_r, elem_of_union_l. by apply elem_of_singleton. }
      pose proof (owns_step_store _ _ _ _ _ (BAttr Null) Hfr Hin) as Hst.
      replace (lib_foot (Some (b, s)) lo es ∪ {[a]}) with (footprint lo es ∪ {[a; b]});
        [eapply owns_step_same; [exact Hst|exact Hh'|exact Hn']|].
      rewrite /lib_foot /=. apply set_eq. intros b'. rewrite !elem_of_union. tauto.
    + split; cbn in *; try congruence. intros t Ht. rewrite He8; [by apply He4|congruence].
    + cbn in Her'. congruence.
    + cbn in Hp'. congruence.
Qed.

(** The flags of the configuration play no part in the other fields. *)
Lemma lib_reinit pn w io lo es :
  lib pn w io lo es → lib pn (with_cfg (with_format_done 0 (with_init_done 0 (cfg w))) w) io lo es.
Proof. intros [Hw Hm Hi Ht _ Hd Hs Hn]. by split. Qed.
End init.

(** ** Rules of the MDC functions *)

(** A call that initialises the library and changes the thread's list. *)
Record lib_call (pn : list Z) (w : world) (io : option (positive * list Z)) (lo : option positive)
    (es : list ent) (w' : world) (io' : option (positive * list Z)) (lo' : option positive)
    (es' : list ent) : Prop := {
  lc_lib : lib pn w' io' lo' es';
  lc_owns : owns_step (lib_foot io lo es) w (lib_foot io' lo' es') w';
  lc_env : lib_env w w';
  lc_ident : snd <$> io' = ident_after w pn io;
  lc_init : init_done (cfg w') ≠ 0
}.

(** The same, whatever memory there was: the identity may be missing, and the blocks [G]
    are lost. *)
Record lib_give (pn : list Z) (w : world) (io : option (positive * list Z)) (lo : option positive)
    (es : list ent) (G : gmap positive block) (w' : world) (io' : option (positive * list Z))
    (lo' : option positive) (es' : list ent) : Prop := {
  lg_lib : lib pn w' io' lo' es';
  lg_owns : owns_step (lib_foot io lo es) w (lib_foot io' lo' es' ∪ dom G) w';
  lg_given : G ⊆ heap w';
  lg_apart : lib_foot io' lo' es' ## dom G;
  lg_env : lib_env w w';
  lg_init : init_done (cfg w') ≠ 0
}.

Section calls.
Implicit Types (w : world) (es : list ent) (lo : option positive) (io : option (positive * list Z)).

Lemma lib_thread pn w io lo es : lib pn w io lo es → tls_key (tls w) = true → thread_mdcs w (self w) lo es.
Proof. intros [_ _ _ Ht _ _ _ _] Hk. by rewrite /thread_state Hk in Ht. Qed.

Lemma lib_mdc_give pn w io lo es G w' lo' es' :
  lib pn w io lo es → tls_key (tls w) = true → mdc_give lo es w G lo' es' w' →
  lib pn w' io lo' es' ∧ owns_step (lib_foot io lo es) w (lib_foot io lo' es' ∪ dom G) w' ∧
  lib_foot io lo' es' ## dom G.
Proof.
  intros Hlib Hk [Hr Ho Hgv Hap Ht Hc Hs Hself]. pose proof Hlib as [Hw Hm Hi _ _ Hd Hsys Hn].
  assert (Hd' : ident_foot io ## footprint lo' es' ∪ dom G).
  { apply elem_of_disjoint. intros b Hb [[Hb'|Hb'] _]%(step_owned _ _ _ _ Ho).
    - by apply (proj1 (elem_of_disjoint _ _) Hd b).
    - destruct (lib_foot_live _ _ _ _ _ b Hlib) as [x Hx]; [by apply elem_of_union_l|].
      pose proof (wf_heap_lt _ _ _ Hw Hx). lia. }
  apply disjoint_union_r in Hd' as [Hd' HdG]. split_and!.
  - split; try done.
    + apply Ho.
    + by rewrite Hc.
    + destruct io as [[b s]|]; cbn in *; [|by rewrite Hc]. destruct Hi as (Hi & Hb & Hs'). rewrite Hc.
      split_and!; [done| |done]. rewrite (step_frame _ _ _ _ Ho) //; [|by eapply wf_heap_lt].
      intros Hb'. apply (proj1 (elem_of_disjoint _ _) Hd b); [by apply elem_of_singleton|done].
    + rewrite /thread_state. destruct Hr as [Hk' Hr]. rewrite Hk' Hself. by split.
    + by intros _; apply Hr.
    + by rewrite Hs.
  - rewrite /lib_foot !(union_comm_L (ident_foot io)) -union_assoc_L (union_comm_L (ident_foot io)) union_assoc_L.
    apply owns_step_frame; [done|done|done|].
    intros b Hb. eapply lib_foot_live; [done|]. by apply elem_of_union_l.
  - apply disjoint_union_l. by split.
Qed.

Lemma lib_mdc_step pn w io lo es w' lo' es' :
  lib pn w io lo es → tls_key (tls w) = true → mdc_step lo es w lo' es' w' →
  lib pn w' io lo' es' ∧ owns_step (lib_foot io lo es) w (lib_foot io lo' es') w'.
Proof.
  intros Hlib Hk Hst%mdc_step_give. destruct (lib_mdc_give _ _ _ _ _ _ _ _ _ Hlib Hk Hst) as (Hl & Ho & _).
  rewrite dom_empty_L right_id_L in Ho. by split.
Qed.

Lemma lib_call_intro pn w io lo es w1 io1 w2 lo' es' :
  lib pn w1 io1 lo es → tls_key (tls w1) = true → init_done (cfg w1) ≠ 0 →
  snd <$> io1 = ident_after w pn io → owns_step (lib_foot io lo es) w (lib_foot io1 lo es) w1 →
  lib_env w w1 → mdc_step lo es w1 lo' es' w2 → lib_call pn w io lo es w2 io1 lo' es'.
Proof.
  intros Hlib Hk Hd Hi Ho He Hst. destruct (lib_mdc_step _ _ _ _ _ _ _ _ Hlib Hk Hst) as [Hlib2 Ho2].
  split; [done| |by eapply lib_env_trans, lib_env_mdc|done|].
  - by eapply owns_step_trans.
  - by rewrite (ms_cfg _ _ _ _ _ _ Hst).
Qed.

Lemma lib_give_intro pn w io lo es w1 io1 G w2 lo' es' :
  lib pn w1 io1 lo es → tls_key (tls w1) = true → init_done (cfg w1) ≠ 0 →
  owns_step (lib_foot io lo es) w (lib_foot io1 lo es) w1 →
  lib_env w w1 → mdc_give lo es w1 G lo' es' w2 → lib_give pn w io lo es G w2 io1 lo' es'.
Proof.
  intros Hlib Hk Hd Ho He Hst. destruct (lib_mdc_give _ _ _ _ _ _ _ _ _ Hlib Hk Hst) as (Hlib2 & Ho2 & Hap).
  destruct Hst as [_ _ Hgv _ Ht Hc Hos Hself].
  split; [done|by eapply owns_step_trans|done|done| |by rewrite Hc].
  eapply lib_env_trans; [done|]. split; try done. by rewrite Hc.
Qed.

Lemma lib_give_call pn w io lo es w' io' lo' es' :
  lib_give pn w io lo es ∅ w' io' lo' es' → snd <$> io' = ident_after w pn io →
  lib_call pn w io lo es w' io' lo' es'.
Proof. intros [Hl Ho _ _ He Hi] Hid. rewrite dom_empty_L right_id_L in Ho. by split. Qed.

Lemma outside_union F G p : outside (F ∪ G) p → outside G p.
Proof. intros H b Hb Hin. by apply (H b Hb), elem_of_union_r. Qed.

(** Storing a value under a key without special characters. *)
Lemma wp_mdc_add pn w io lo es key k value v (Q : Z → world → Prop) :
  lib pn w io lo es → allocs_ok (2 + (list_allocs lo + 3)) w →
  get_cstr (heap w) key = Some k → outside (lib_foot io lo es) key → has_special k = false →
  get_cstr (heap w) value = Some v → outside (lib_foot io lo es) value →
  zlen k ≤ INT_MAX → zlen (esc v) + 1 < 2 ^ 64 →
  (∀ io' l es' w', lib_call pn w io lo es w' io' (Some l) es' →
     mdcs es' = al_put k (esc v) (mdcs es) → errno w' = errno w → Q 0 w') →
  wp (mdclog_mdc_add key value) w Q.
Proof.
  intros Hlib Hok Hk Hko Hsp Hv Hvo Hkl Hvl HQ. rewrite /mdclog_mdc_add.
  rewrite (get_cstr_not_null _ _ _ Hk) (get_cstr_not_null _ _ _ Hv).
  apply wp_bind. step wp_contains_special; [done..|]. rewrite Hsp. cbn [Z.eqb negb]. apply wp_ret.
  step wp_init_library; [done..|]. intros io1 w1 Hlib1 Hkey1 Hd1 Hi1 Ho1 He1 _ Her1 Hok1.
  pose proof (lib_wf _ _ _ _ _ Hlib) as Hw.
  pose proof (outside_step _ _ _ _ _ _ Ho1 Hw Hko Hk) as Hko1.
  pose proof (outside_step _ _ _ _ _ _ Ho1 Hw Hvo Hv) as Hvo1.
  eapply (wp_put lo es); [by eapply lib_thread|apply Hlib1|done|by eapply get_cstr_step
    |by eapply outside_union|by eapply get_cstr_step|by eapply outside_union|done|].
  intros l es' w2 Hst Hes He2. eapply (HQ io1 l es'); [by eapply lib_call_intro|done|congruence].
Qed.

(** An invalid call changes nothing but [errno]. *)
Lemma wp_mdc_add_invalid w key k value (Q : Z → world → Prop) :
  (key = Null ∨ value = Null ∨
   (get_cstr (heap w) key = Some k ∧ has_special k = true ∧ zlen k ≤ INT_MAX)) →
  Q (-1) (with_errno EINVAL w) → wp (mdclog_mdc_add key value) w Q.
Proof.
  intros Hbad HQ. rewrite /mdclog_mdc_add. destruct (is_null key) eqn:Hkn; [by do 2 wp_pure; apply wp_ret|].
  destruct (is_null value) eqn:Hvn; [by do 2 wp_pure; apply wp_ret|].
  destruct Hbad as [->|[->|(Hk & Hsp & Hl)]]; [done..|].
  apply wp_bind. step wp_contains_special; [done..|]. rewrite Hsp. cbn [Z.eqb negb]. apply wp_ret.
  wp_pure. by apply wp_ret.
Qed.

Lemma wp_mdc_remove pn w io lo es key k (Q : unit → world → Prop) :
  lib pn w io lo es → allocs_ok (2 + list_allocs lo) w →
  get_cstr (heap w) key = Some k → outside (lib_foot io lo es) key →
  (∀ io' l es' w', lib_call pn w io lo es w' io' (Some l) es' →
     mdcs es' = al_remove k (mdcs es) → errno w' = errno w → Q tt w') →
  wp (mdclog_mdc_remove key) w Q.
Proof.
  intros Hlib Hok Hk Hko HQ. rewrite /mdclog_mdc_remove (get_cstr_not_null _ _ _ Hk).
  step wp_init_library; [done..|]. intros io1 w1 Hlib1 Hkey1 Hd1 Hi1 Ho1 He1 _ Her1 Hok1.
  eapply (wp_rm lo es); [by eapply lib_thread|apply Hlib1|done|
    eapply get_cstr_step; [done|apply (lib_wf _ _ _ _ _ Hlib)|done|done]|].
  intros l es' w2 Hst Hes He2. eapply (HQ io1 l es'); [by eapply lib_call_intro|done|congruence].
Qed.

Lemma wp_mdc_clean pn w io lo es (Q : unit → world → Prop) :
  lib pn w io lo es → allocs_ok (2 + list_allocs lo) w →
  (∀ io' l w', lib_call pn w io lo es w' io' (Some l) [] → errno w' = errno w → Q tt w') →
  wp mdclog_mdc_clean w Q.
Proof.
  intros Hlib Hok HQ. rewrite /mdclog_mdc_clean.
  step wp_init_library; [done..|]. intros io1 w1 Hlib1 Hkey1 Hd1 Hi1 Ho1 He1 _ Her1 Hok1.
  eapply (wp_clean lo es); [by eapply lib_thread|apply Hlib1|done|].
  intros l w2 Hst He2. eapply (HQ io1 l); [by eapply lib_call_intro|congruence].
Qed.

(** A change of the heap outside the blocks of the library. *)
Lemma lib_heap pn w io lo es w' :
  lib pn w io lo es → wf_heap w' → config_mutex (cfg w') = Unlocked → identity (cfg w') = identity (cfg w) →
  init_done (cfg w') = init_done (cfg w) → tls w' = tls w →
  sys_progname (os w') = sys_progname (os w) → sys_key_create (os w') = sys_key_create (os w) →
  self w' = self w →
  (∀ b, b ∈ lib_foot io lo es → heap w' !! b = heap w !! b) → lib pn w' io lo es.
Proof.
  intros [Hw Hm Hi Ht Hin Hd Hs Hn] Hw' Hm' Hc Hid Htls Hos1 Hos2 Hself Hf.
  split; rewrite ?Hid ?Htls ?Hos1 ?Hos2; try done.
  - destruct io as [[b s]|]; cbn in *; rewrite Hc; [|done]. destruct Hi as (?&?&?).
    split_and!; [done| |done]. rewrite Hf //. apply ident_own.
  - eapply thread_state_frame; [done..|]. intros b Hb. apply Hf. by apply elem_of_union_r.
Qed.

Lemma lib_malloc pn w io lo es x : lib pn w io lo es → lib pn (malloc_world x w) io lo es.
Proof.
  intros Hlib. pose proof (lib_wf _ _ _ _ _ Hlib) as Hw.
  eapply lib_heap; [done|by apply (wf_heap_alloc x (with_plan _ w))|apply (lib_mutex _ _ _ _ _ Hlib)|done..|].
  intros b Hb. destruct (lib_foot_live _ _ _ _ _ b Hlib Hb) as [y Hy].
  cbn. rewrite lookup_insert_ne //. by eapply not_eq_sym, wf_heap_ne.
Qed.

(** The value of a key, in a string of its own that the caller has to free. *)
Lemma wp_mdc_get pn w io lo es key k (Q : ptr → world → Prop) :
  lib pn w io lo es → allocs_ok (2 + (list_allocs lo + 1)) w →
  get_cstr (heap w) key = Some k → outside (lib_foot io lo es) key →
  (∀ io' l w', lib_call pn w io lo es w' io' (Some l) es → errno w' = errno w →
     match al_get k (mdcs es) with
     | None => Q Null w'
     | Some v => is_str v → Q (Ptr (next w') 0) (malloc_world (cstr_block v) w')
     end) →
  wp (mdclog_mdc_get key) w Q.
Proof.
  intros Hlib Hok Hk Hko HQ. rewrite /mdclog_mdc_get (get_cstr_not_null _ _ _ Hk).
  step wp_init_library; [done..|]. intros io1 w1 Hlib1 Hkey1 Hd1 Hi1 Ho1 He1 _ Her1 Hok1.
  pose proof (lib_wf _ _ _ _ _ Hlib) as Hw.
  step (wp_search 1 lo es); [by eapply lib_thread|apply Hlib1|done|by eapply get_cstr_step|].
  intros l w2 _ Hst _ Hok2 Her2.
  specialize (HQ io1 l w2 ltac:(by eapply lib_call_intro) ltac:(congruence)). rewrite find_ent_get in HQ.
  destruct (find_ent k es) as [e|] eqn:Hf; cbn [ent_ptr is_null e_ptr negb fmap option_fmap option_map] in *;
    [|by apply wp_ret].
  apply find_ent_some in Hf as [<- (es1 & es2 & ->)].
  pose proof (ms_repr _ _ _ _ _ _ Hst) as (_ & _ & [_ Hs _ _]).
  apply seg_app in Hs as (_ & Hn & [_ Hv _ Hvs] & _).
  rewrite /mdclog_internal_get_mdc_val /get_value. cbn [is_null].
  step wp_get_field; [done|]. cbn [mdc_value e_mdc].
  eapply (wp_strdup_ok 0); [by apply get_cstr_block|done|]. intros _. by apply HQ.
Qed.

Lemma wp_lib_clean pn w io lo es (Q : unit → world → Prop) :
  lib pn w io lo es →
  (∀ w', lib pn w' None lo es → owns_step (lib_foot io lo es) w (lib_foot None lo es) w' →
     lib_env w w' → init_done (cfg w') = 0 → tls w' = tls w → errno w' = errno w → plan w' = plan w → Q tt w') →
  wp mdclog_lib_clean w Q.
Proof.
  intros Hlib HQ. pose proof Hlib as [Hw Hm Hi Ht Hin Hd Hs Hn]. pose proof (lib_owns _ _ _ _ _ Hlib) as Ho.
  assert (Hend : ∀ w1, cfg w1 = cfg w → tls w1 = tls w → os w1 = os w → self w1 = self w → errno w1 = errno w →
    plan w1 = plan w → owns_step (lib_foot io lo es) w (footprint lo es) w1 →
    (∀ b, b ∈ footprint lo es → heap w1 !! b = heap w !! b) →
    wp (set_identity Null ;; set_init_done 0 ;; set_format_done 0) w1 Q).
  { intros w1 Hc Htls Hos Hself Her Hpl Ho1 Hf. rewrite /set_identity /set_init_done /set_format_done. do 3 wp_pure.
    rewrite lib_foot_none in HQ. apply HQ; cbn; try done.
    - split; cbn; try done.
      + apply Ho1.
      + by rewrite Hc.
      + by eapply (thread_state_frame w).
      + by rewrite Hos.
    - by eapply owns_step_same.
    - split; cbn; try done; [by rewrite Hc|by rewrite Htls]. }
  rewrite /mdclog_lib_clean. wp_pure. destruct io as [[b s]|]; cbn [ident_state] in Hi.
  - destruct Hi as (-> & Hb & Hbs). cbn [is_null negb when]. step wp_free; [done|].
    apply Hend; try done.
    + pose proof (owns_step_free _ _ _ _ _ Ho (ident_own b s lo es)) as Ho1.
      by rewrite (lib_foot_remove _ _ _ _ (ident_disj _ _ _ _ Hd)) in Ho1.
    + intros b' Hb'. cbn. rewrite lookup_delete_ne //. intros <-. by apply (ident_disj _ _ _ _ Hd).
  - rewrite Hi. cbn [is_null negb when]. wp_pure. apply Hend; try done.
    by rewrite lib_foot_none in Ho |- *.
Qed.
End calls.

(** ** Writing to standard output *)

Definition retryable (e : Z) : Prop := e = EINTR ∨ e = EAGAIN.

(** Outcomes of [write] of which the first is not to be retried. *)
Definition final (ws : list write_outcome) : Prop :=
  match ws with [] => True | Written k :: _ => 0 ≤ k | WriteError e :: _ => ¬ retryable e end.

(** The state of the system after an attempt to write a line, when the outcomes to come
    are [ws]: all of the line is written, or a part of it, or nothing. *)
Definition sent (line : list Z) (ws : list write_outcome) (s : sys) : sys :=
  match ws with
  | [] => with_stdout (sys_stdout s ++ [line]) [] s
  | Written k :: ws' => with_stdout (sys_stdout s ++ [take (Z.to_nat k) line]) ws' s
  | WriteError _ :: ws' => with_stdout (sys_stdout s) ws' s
  end.

Section output.
Implicit Types (w : world).

Lemma mapM_id_some (xs : list Z) : mapM id (Some <$> xs) = Some xs.
Proof. induction xs as [|x xs IH]; [done|]. cbn. by rewrite IH. Qed.

Lemma sys_write_bytes b cs bytes w (r : Z) :
  heap w !! b = Some (BChars cs) → holds cs 0 bytes → bytes ≠ [] →
  (cells_at (heap w) (Ptr b 0) ≫= λ cs, mapM id (take (Z.to_nat (zlen bytes)) cs)) = Some bytes.
Proof.
  intros Hb Hh Hne. pose proof (holds_range _ _ _ Hh Hne). rewrite /cells_at Hb.
  destruct (Z.leb_spec 0 (zlen cs)); [|pose proof (zlen_nonneg bytes); lia]. cbn [andb Z.leb option_bind mbind].
  destruct (holds_cells _ _ _ Hh) as [r' Hr]; [done|]. rewrite /= Hr.
  rewrite take_app_length'; [by apply mapM_id_some|]. zl.
Qed.

(** Interrupted writes are repeated until the outcome is final. *)
Lemma wp_retry_write fuel b cs bytes errs ws w (Q : Z → world → Prop) :
  heap w !! b = Some (BChars cs) → holds cs 0 bytes → bytes ≠ [] →
  sys_writes (os w) = (WriteError <$> errs) ++ ws → Forall retryable errs → final ws → (length errs < fuel)%nat →
  (∀ r e, Q r (with_errno e (with_os (sent bytes ws (os w)) w))) →
  wp (temp_failure_retry fuel (sys_write (Ptr b 0) (zlen bytes))) w Q.
Proof.
  intros Hb Hh Hne Hws Herrs Hfin. revert fuel w Hb Hws.
  induction Herrs as [|e errs He _ IH]; intros fuel w Hb Hws Hf HQ;
    (destruct fuel as [|fuel]; [cbn in Hf; lia|]); cbn [temp_failure_retry]; apply wp_bind;
    pose proof (sys_write_bytes b cs bytes w 0 Hb Hh Hne) as Hby; cbn [fmap list_fmap app] in Hws.
  - assert (Hkeep : ∀ o, with_errno (errno w) (with_os o w) = with_os o w) by by destruct w.
    destruct ws as [|[k|e] ws]; cbn in Hfin, HQ; (eapply wp_eq; [by rewrite /sys_write Hby Z.eqb_refl Hws|]; wp_pure).
    + pose proof (zlen_nonneg bytes). destruct (Z.ltb_spec (zlen bytes) 0); [lia|]. apply wp_ret.
      by rewrite -Hkeep.
    + destruct (Z.ltb_spec k 0); [lia|]. apply wp_ret. by rewrite -Hkeep.
    + cbn [errno with_errno]. rewrite /retryable -!Z.eqb_eq in Hfin.
      destruct (e =? EINTR), (e =? EAGAIN); try tauto. by apply wp_ret.
  - eapply wp_eq; [by rewrite /sys_write Hby Z.eqb_refl Hws|]. wp_pure. cbn [errno with_errno].
    assert (((-1 <? 0) && ((e =? EINTR) || (e =? EAGAIN))) = true) as ->.
    { destruct He as [-> | ->]; done. }
    apply IH; [done|done|cbn in Hf; lia|]. intros r e'. destruct ws as [|[]]; apply HQ.
Qed.
End output.

Section write.
Implicit Types (w : world) (es : list ent) (lo : option positive) (io : option (positive * list Z)).

(** The name the entries of a state carry. *)
Definition log_name (o : option (list Z)) : list Z := default (lit "(null)") o.

(** What a call of [mdclog_write] is given: a format and arguments outside the
    library's blocks that expand to [out]. *)
Record write_input (w : world) (F : gset positive) (format : ptr) (va : list arg)
    (out : list Z) : Prop := {
  wi_format : ∃ f, get_cstr (heap w) format = Some f ∧ vformat (heap w) f va = Some out;
  wi_outside : outside F format;
  wi_args : Forall (arg_ok F) va;
  wi_len : zlen out ≤ INT_MAX
}.

(** A list whose entries can be printed. *)
Definition small (l : list (list Z * list Z)) : Prop := Forall (λ p, zlen (pair_text p) < INT_MAX) l.

Lemma seg_pairs_ok h p es n : seg h p es n → small (mdcs es) → Forall pair_ok (mdcs es).
Proof.
  rewrite /small. revert p. induction es as [|e es IH]; intros p Hs Hl; [constructor|].
  destruct Hs as (_ & [_ _ Hk Hv] & Hs). apply Forall_cons in Hl as [He Hl].
  constructor; [done|]. by eapply IH.
Qed.

Lemma ident_name pn w io lo es :
  lib pn w io lo es → identity_name (heap w) (identity (cfg w)) = Some (log_name (snd <$> io)).
Proof.
  intros Hlib. pose proof (lib_ident _ _ _ _ _ Hlib) as Hi. rewrite /identity_name.
  destruct io as [[b s]|]; cbn in *; [|by rewrite Hi].
  destruct Hi as (-> & Hb & Hs). cbn [is_null]. by apply get_cstr_block.
Qed.

(** A step of the list that ignores the configuration. *)
Lemma mdc_give_cfg lo es w c G lo' es' w' :
  mdc_give lo es (with_cfg c w) G lo' es' w' → mdc_give lo es w G lo' es' (with_cfg (cfg w) w').
Proof. intros [Hr [H1 H2 H3 H4] Hgv Hap Ht Hc Hs Hself]. by split. Qed.

Lemma ident_name_step pn w io lo es w' F' :
  lib pn w io lo es → owns_step (footprint lo es) w F' w' →
  identity_name (heap w') (identity (cfg w)) = Some (log_name (snd <$> io)).
Proof.
  intros Hlib Ho. pose proof (ident_name _ _ _ _ _ Hlib) as Hn. rewrite /identity_name in Hn |- *.
  destruct (is_null (identity (cfg w))); [done|].
  eapply get_cstr_step; [done|apply (lib_wf _ _ _ _ _ Hlib)| |done].
  pose proof (lib_ident _ _ _ _ _ Hlib) as Hi. destruct io as [[b s]|]; cbn in Hi.
  - destruct Hi as (-> & _ & _). intros b' Hb'. cbn in Hb'. simplify_eq.
    eapply ident_disj, (lib_disj _ _ _ _ _ Hlib).
  - rewrite Hi. by intros b'.
Qed.

(** The list and the line of a write, from the outcomes of their allocations. *)
Definition line_outcome (has : bool) (tv : Z * Z) (severity : Z) (id : list Z)
    (l : list (list Z * list Z)) (out : list Z) : supply (bool * bool * option (list Z)) :=
  '(has', lost) ← make_list has;
  r ← entry_outcome (PIPE_BUF - 1) tv severity id l out;
  mret (has', lost, r).

(** A local array is nobody's, before and after the list is looked at. *)
Lemma mdc_give_local pn w io lo es G w' lo' es' b :
  lib pn w io lo es → tls_key (tls w) = true → mdc_give lo es w G lo' es' w' → is_Some (heap w !! b) →
  b ∉ lib_foot io lo es → heap w' !! b = heap w !! b ∧ b ∉ lib_foot io lo' es' ∪ dom G.
Proof.
  intros Hlib Hk Hg [x Hb] Hbn. pose proof (wf_heap_lt _ _ _ (lib_wf _ _ _ _ _ Hlib) Hb) as Hlt.
  destruct (lib_mdc_give _ _ _ _ _ _ _ _ _ Hlib Hk Hg) as (_ & Ho & _). split; [by apply (step_frame _ _ _ _ Ho)|].
  intros [[?|?] _]%(step_owned _ _ _ _ Ho); [done|lia].
Qed.

(** What the formatter is given. *)
Lemma write_entry_input pn w io lo es b cs c G w4 lo' format va out :
  lib pn w io lo es → tls_key (tls w) = true → small (mdcs es) →
  heap w !! b = Some (BChars cs) → b ∉ lib_foot io lo es → zlen cs = PIPE_BUF →
  (∀ h, (∀ b', b' ∉ lib_foot io lo es → (b' < next w)%positive → h !! b' = heap w !! b') → printable h b format va out) →
  mdc_give lo es (with_cfg c w) G lo' es w4 →
  entry_input w4 b 0 (PIPE_BUF - 1) cs (identity (cfg w)) (log_name (snd <$> io)) (first_ptr es Null)
    (footprint lo' es) (mdcs es) format va out.
Proof.
  intros Hlib Hk Hsm Hb Hbn Hcs Hpr Hg. pose proof (mdc_give_cfg _ _ _ _ _ _ _ _ Hg) as Hg'.
  destruct (mdc_give_local _ _ _ _ _ _ _ _ _ b Hlib Hk Hg') as [Hb4 Hbn4]; [by eauto|done|].
  cbn in Hb4. rewrite Hb in Hb4. pose proof Hg as [Hr4 Ho4 _ _ _ _ _ _].
  split; [apply Ho4|exact Hb4|by split; [|rewrite Hcs]|done| |split; [|split]|].
  - split; [by eapply (ident_name_step pn w io lo es (with_cfg (cfg w) w4)), (mg_owns _ _ _ _ _ _ _ Hg')|].
    pose proof (lib_ident _ _ _ _ _ Hlib) as Hi. destruct io as [[bi s]|]; cbn in Hi.
    + destruct Hi as (-> & _ & _). cbn. intros [= ->]. apply Hbn, ident_own.
    + by rewrite Hi.
  - intros Hin. apply Hbn4. by apply elem_of_union_l, elem_of_union_r.
  - by eapply thread_chain.
  - destruct (thread_chain _ _ _ _ Hr4) as (prev & es' & _ & Hes & Hs & _). rewrite -Hes. eapply seg_pairs_ok; [done|by rewrite Hes].
  - apply Hpr. intros b' Hb' Hlt'. rewrite (step_frame _ _ _ _ Ho4) //.
    intros Hin. apply Hb'. by apply elem_of_union_r.
Qed.

(** Taking the read lock, formatting and releasing the lock. *)
Lemma wp_write_locked pn w io lo es b cs severity format va out (k : Z → M unit)
    (Q : unit → world → Prop) :
  lib pn w io lo es → tls_key (tls w) = true → small (mdcs es) →
  heap w !! b = Some (BChars cs) → b ∉ lib_foot io lo es → zlen cs = PIPE_BUF →
  (∀ h, (∀ b', b' ∉ lib_foot io lo es → (b' < next w)%positive → h !! b' = heap w !! b') → printable h b format va out) →
  (∀ lo' lost cs' w' r, let G := lost_list lost (next w) in
     line_outcome (is_list lo) (sys_time (os w)) severity (log_name (snd <$> io)) (mdcs es) out (plan w) =
       (is_list lo', lost, r, plan w') →
     lib pn w' io lo' es → heap w' !! b = Some (BChars cs') → zlen cs' = PIPE_BUF →
     owns_step (lib_foot io lo es ∪ {[b]}) w (lib_foot io lo' es ∪ dom G ∪ {[b]}) w' →
     G ⊆ heap w' → lib_foot io lo' es ## dom G →
     lib_env w w' → init_done (cfg w') = init_done (cfg w) → b ∉ lib_foot io lo' es ∪ dom G →
     match r with
     | Some t => zlen t < PIPE_BUF - 1 ∧ holds cs' 0 (t ++ [NUL]) → wp (k (zlen t)) w' Q
     | None => wp (k (-1)) w' Q
     end) →
  wp (tv ← gets (λ w, sys_time (os w));
      pthread_rwlock_rdlock ;;
      identity ← gets (λ w, identity (cfg w));
      mdc ← mdclog_internal_get_first_mdc;
      len ← mdclog_internal_format_to_json_str (Ptr b 0) (PIPE_BUF - 1) tv identity severity mdc
              format va;
      pthread_rwlock_unlock ;; k len) w Q.
Proof.
  intros Hlib Hk Hsm Hb Hbn Hcs Hpr HQ. pose proof Hlib as [Hw Hm _ _ _ Hd _ _].
  wp_pure. rewrite /pthread_rwlock_rdlock /set_mutex. apply wp_bind. apply wp_bind, wp_gets. rewrite Hm.
  wp_pure. wp_pure. set (w3 := with_cfg _ w). cbn [cfg with_cfg identity with_mutex w3].
  pose proof (lib_thread _ _ _ _ _ Hlib Hk) as Ht.
  step (wp_get_first lo es w3); [done|done|]. intros lo' lost w4 Hd4 Hst _. change (next w3) with (next w) in Hst.
  set (G := lost_list lost (next w)) in *.
  pose proof (write_entry_input _ _ _ _ _ _ _ _ _ _ _ format va out Hlib Hk Hsm Hb Hbn Hcs Hpr Hst) as Hin.
  pose proof Hst as [_ _ Hgv4 _ Htls4 Hc4 Hos4 Hself4]. set (name := log_name (snd <$> io)) in *.
  pose proof (mdc_give_cfg _ _ _ _ _ _ _ _ Hst) as Hst'. set (w4' := with_cfg (cfg w) w4) in *.
  destruct (lib_mdc_give _ _ _ _ _ _ _ _ _ Hlib Hk Hst') as (Hlib4 & Hol4 & HapG).
  destruct (mdc_give_local _ _ _ _ _ _ _ _ _ b Hlib Hk Hst') as [_ Hbn4']; [by eauto|done|].
  eapply wp_bind, (wp_format_any w4 b 0 (PIPE_BUF - 1) cs); [exact Hin|].
  intros cs' fw r Hf1 Hf2 (Hf3 & Hf4 & Hf5 & Hf6) Hout _ Hso. pose proof (same_outside_zlen _ _ _ _ Hso) as Hz.
  set (w5 := on b cs' fw). set (w6 := with_cfg (with_mutex Unlocked (cfg fw)) w5).
  assert (Hun : ∀ x, wp (k x) w6 Q → wp (pthread_rwlock_unlock ;; k x) w5 Q).
  { intros x Hx. assert (Hl : config_mutex (cfg w5) = ReadLocked 1) by by rewrite /w5 /= Hf4 Hc4.
    rewrite /pthread_rwlock_unlock /set_mutex. apply wp_bind, wp_bind, wp_gets. rewrite Hl. by apply wp_modify. }
  assert (Hb6 : heap w6 !! b = Some (BChars cs')) by apply lookup_insert_eq.
  assert (Hofr : owns_step (lib_foot io lo es ∪ {[b]}) w (lib_foot io lo' es ∪ dom G ∪ {[b]}) w4').
  { apply owns_step_frame; [done|done| |].
    - apply elem_of_disjoint. by intros b' Hb' ->%elem_of_singleton.
    - intros b' ->%elem_of_singleton. by eauto. }
  assert (Ho6 : owns_step (lib_foot io lo es ∪ {[b]}) w (lib_foot io lo' es ∪ dom G ∪ {[b]}) w6).
  { assert (Hbin : b ∈ lib_foot io lo' es ∪ dom G ∪ {[b]}) by (apply elem_of_union_r; by apply elem_of_singleton).
    eapply owns_step_next; [by eapply (owns_step_store _ _ _ _ _ (BChars cs') Hofr)|by rewrite /= Hf1|done]. }
  apply not_elem_of_union in Hbn4' as Hbn5. destruct Hbn5 as [Hbn5 HbG].
  assert (Hlib6 : lib pn w6 io lo' es).
  { eapply lib_heap; [exact Hlib4|apply Ho6|done|..]; rewrite /w6 /= ?Hf4 ?Hf3 ?Hf5 ?Hf6 ?Hc4 //.
    intros b' Hb'. rewrite lookup_insert_ne; [by rewrite Hf1|congruence]. }
  assert (He6 : lib_env w w6).
  { split; rewrite /w6 /= ?Hf6 ?Hf5 ?Hf4 ?Hc4 ?Hf3 //. }
  assert (HG6 : G ⊆ heap w6).
  { cbn. rewrite Hf1. apply map_subseteq_spec. intros b' x Hx. rewrite lookup_insert_ne; [by eapply lookup_weaken|].
    intros <-. apply HbG. by eapply elem_of_dom_2. }
  specialize (HQ lo' lost cs' w6 r). cbv zeta in HQ. fold G in HQ.
  assert (Hpl : line_outcome (is_list lo) (sys_time (os w)) severity name (mdcs es) out (plan w) = (is_list lo', lost, r, plan w6)).
  { change (plan w3) with (plan w) in Hd4. rewrite /line_outcome (supply_bind_eq _ _ _ _ _ Hd4).
    by rewrite (supply_bind_eq _ _ _ _ _ Hout). }
  specialize (HQ Hpl Hlib6 Hb6 ltac:(by rewrite Hz) Ho6 HG6 HapG He6 ltac:(by rewrite /w6 /= Hf4 Hc4) Hbn4').
  destruct r as [t|]; intros; apply Hun; [by apply HQ|exact HQ].
Qed.

(** A line, if there is one, is handed to the system, which is about to answer [ws]. *)
Definition output (ws : list write_outcome) (line : option (list Z)) (s : sys) : sys :=
  match line with Some t => sent (t ++ [NL]) ws s | None => s end.

(** The line [mdclog_write] writes. *)
Definition log_line (pn : list Z) (w : world) (io : option (positive * list Z))
    (l : list (list Z * list Z)) (severity : Z) (out : list Z) : option (list Z) :=
  entry_text (PIPE_BUF - 1) (sys_time (os w)) severity (log_name (ident_after w pn io)) l out.

Lemma lib_os pn w io lo es s :
  lib pn w io lo es → sys_progname s = sys_progname (os w) → sys_key_create s = sys_key_create (os w) →
  lib pn (with_os s w) io lo es.
Proof. intros Hlib ??. by eapply lib_heap; [done|apply Hlib|apply (lib_mutex _ _ _ _ _ Hlib)|..]. Qed.

(** Sending the line. *)
Lemma wp_send w b cs t errs ws (Q : unit → world → Prop) :
  heap w !! b = Some (BChars cs) → zlen cs = PIPE_BUF → zlen t < PIPE_BUF - 1 → 0 < zlen t →
  holds cs 0 (t ++ [NUL]) → sys_writes (os w) = (WriteError <$> errs) ++ ws → Forall retryable errs → final ws →
  (∀ cs' e, Q tt (with_errno e (with_os (sent (t ++ [NL]) ws (os w)) (on b cs' w)))) →
  wp (when (0 <? zlen t) (
        store_char (Ptr b 0 +ₚ zlen t) NL ;;
        fuel ← gets (λ w, S (length (sys_writes (os w))));
        temp_failure_retry fuel (sys_write (Ptr b 0) (zlen t + 1)) ;;
        mret tt)) w Q.
Proof.
  intros Hb Hcs Ht Ht0 [Hh _]%holds_app Hws Herr Hfin HQ.
  destruct (Z.ltb_spec 0 (zlen t)); [|lia]. cbn [when ptr_add].
  step wp_store_char; [done|lia|]. wp_pure.
  assert (Hh' : holds (<[Z.to_nat (0 + zlen t) := Some NL]> cs) 0 (t ++ [NL])).
  { eapply holds_insert; [done|done|lia]. }
  replace (zlen t + 1) with (zlen (t ++ [NL])) by zl.
  step (wp_retry_write _ b _ (t ++ [NL]) errs ws); [apply lookup_insert_eq|exact Hh'|by destruct t|done|done|done|
    cbn; rewrite Hws length_app length_fmap; lia|].
  intros r e. apply wp_ret, HQ.
Qed.

(** A state with a fresh local array. *)
Lemma lib_local pn w io lo es cs :
  lib pn w io lo es → lib pn (alloc_world (BChars cs) w) io lo es ∧ next w ∉ lib_foot io lo es.
Proof.
  intros Hlib. pose proof (lib_wf _ _ _ _ _ Hlib) as Hw. split.
  - eapply lib_heap; [done|by apply wf_heap_alloc|apply (lib_mutex _ _ _ _ _ Hlib)|done..|].
    intros b Hb. destruct (lib_foot_live _ _ _ _ _ b Hlib Hb) as [y Hy].
    cbn. rewrite lookup_insert_ne //. by eapply not_eq_sym, wf_heap_ne.
  - intros Hin. destruct (lib_foot_live _ _ _ _ _ _ Hlib Hin) as [y Hy].
    pose proof (wf_heap_lt _ _ _ Hw Hy). lia.
Qed.

(** What was printable at the call is printable while the buffer exists. *)
Lemma write_printable w io lo es io1 cs w1 format va out :
  wf_heap w → write_input w (lib_foot io lo es) format va out →
  owns_step (lib_foot io lo es) (alloc_world (BChars cs) w) (lib_foot io1 lo es) w1 →
  ∀ h, (∀ b', b' ∉ lib_foot io1 lo es → (b' < next w1)%positive → h !! b' = heap w1 !! b') →
    printable h (next w) format va out.
Proof.
  intros Hw [(f & Hf & Hv) Ho Ha Hl] Hst h Hh.
  eapply (printable_intro h (heap w) (lib_foot io lo es)); [|done..].
  intros b' Hb' [x Hx]. pose proof (wf_heap_lt _ _ _ Hw Hx) as Hlt.
  pose proof (step_next _ _ _ _ Hst) as Hn. cbn in Hn. split; [|lia].
  rewrite Hh.
  - rewrite (step_frame _ _ _ _ Hst) //=; [rewrite lookup_insert_ne //; lia|lia].
  - intros [[?|Hle] _]%(step_owned _ _ _ _ Hst); [done|]. cbn in Hle. lia.
  - lia.
Qed.

Lemma line_outcome_len had tv severity id l out p has lost t p' :
  line_outcome had tv severity id l out p = (has, lost, Some t, p') → 0 < zlen t.
Proof.
  rewrite /line_outcome. destruct (make_list had p) as [[h lost'] p1] eqn:Hm. rewrite (supply_bind_eq _ _ _ _ _ Hm).
  destruct (entry_outcome (PIPE_BUF - 1) tv severity id l out p1) as [r p2] eqn:He. rewrite (supply_bind_eq _ _ _ _ _ He).
  intros [= _ _ -> _]. rewrite entry_outcome_eq in He. destruct (_ <=? _); [done|]. destruct (plan_ok p1); [|done].
  injection He as He _. rewrite /entry_text in He. destruct (msg_text _ _); [done|]. injection He as <-. zl.
Qed.

Lemma wp_write_filtered w severity format va (Q : unit → world → Prop) :
  wf_heap w → current_level (cfg w) < severity → Q tt (with_next (Pos.succ (next w)) w) →
  wp (mdclog_write severity format va) w Q.
Proof.
  intros Hw Hlt HQ. apply wp_with_local. wp_pure. change (cfg (alloc_world _ w)) with (cfg w).
  destruct (Z.ltb_spec (current_level (cfg w)) severity); [|lia]. apply wp_ret. cbn.
  rewrite lookup_insert_eq delete_insert_eq delete_id; [by eauto|by apply Hw].
Qed.

(** The identity, the list and the line of a call of [mdclog_write]. *)
Definition write_outcome (pn : list Z) (w : world) (io : option (positive * list Z)) (lo : option positive)
    (l : list (list Z * list Z)) (severity : Z) (out : list Z) :
    supply (option (list Z) * (bool * bool * option (list Z))) :=
  id ← ready_outcome pn (negb (init_done (cfg w) =? 0)) (snd <$> io);
  r ← line_outcome (is_list lo) (sys_time (os w)) severity (log_name id) l out;
  mret (id, r).

(** What is left when the local array [b] goes. *)
Lemma lib_give_local pn w io lo es G w' io' lo' b e :
  lib pn w' io' lo' es → owns_step (lib_foot io lo es) w (lib_foot io' lo' es ∪ dom G ∪ {[b]}) w' →
  G ⊆ heap w' → lib_foot io' lo' es ## dom G → b ∉ lib_foot io' lo' es ∪ dom G → lib_env w w' →
  init_done (cfg w') ≠ 0 →
  lib_give pn w io lo es G (with_errno e (with_os (os w) (with_heap (delete b (heap w')) w'))) io' lo' es.
Proof.
  intros Hlib Ho HG HapG Hbn [He1 He2 He3 He4] Hd.
  assert (Hof : owns_step (lib_foot io lo es) w (lib_foot io' lo' es ∪ dom G) (with_heap (delete b (heap w')) w')).
  { pose proof (owns_step_free _ _ _ _ b Ho ltac:(by apply elem_of_union_r, elem_of_singleton)) as Hf.
    rewrite difference_union_distr_l_L difference_diag_L right_id_L in Hf.
    by rewrite difference_disjoint_L in Hf; [|apply elem_of_disjoint; intros b' Hb2 ->%elem_of_singleton]. }
  apply not_elem_of_union in Hbn as [Hbn HbG]. split; [|by eapply owns_step_same| |done|by split|done].
  - eapply lib_heap; [exact Hlib|apply (step_wf _ _ _ _ Hof)|apply (lib_mutex _ _ _ _ _ Hlib)|try done..].
    + by rewrite /= He2.
    + by rewrite /= He2.
    + intros b' Hb2. cbn. rewrite lookup_delete_ne //. congruence.
  - cbn. apply map_subseteq_spec. intros b' x Hx. rewrite lookup_delete_ne; [by eapply lookup_weaken|].
    intros <-. apply HbG. by eapply elem_of_dom_2.
Qed.

Lemma wp_mdclog_write_any pn w io lo es severity format va out errs ws (Q : unit → world → Prop) :
  lib pn w io lo es → small (mdcs es) →
  write_input w (lib_foot io lo es) format va out → severity ≤ current_level (cfg w) →
  sys_writes (os w) = (WriteError <$> errs) ++ ws → Forall retryable errs → final ws →
  (∀ io' lo' lost c r w',
     write_outcome pn w io lo (mdcs es) severity out (plan w) =
       (snd <$> io', (is_list lo', lost, r), plan w') →
     lib_give pn w io lo es (lost_list lost c) (with_os (os w) w') io' lo' es →
     os w' = output ws r (os w) → Q tt w') →
  wp (mdclog_write severity format va) w Q.
Proof.
  intros Hlib Hsm Hwi Hsev Hws Herr Hfin HQ. pose proof (lib_wf _ _ _ _ _ Hlib) as Hw.
  apply wp_with_local. set (cs0 := replicate _ None). destruct (lib_local _ _ _ _ _ cs0 Hlib) as [Hlib0 Hb0].
  set (w0 := alloc_world (BChars cs0) w) in *. set (b := next w) in *.
  wp_pure. change (cfg w0) with (cfg w). destruct (Z.ltb_spec (current_level (cfg w)) severity); [lia|].
  apply wp_bind. eapply wp_init_library_any; [exact Hlib0|done|]. intros io1 w1 Hr1 Hlib1 Hkey1 Hd1 Ho1 He1 _ _.
  change (cfg w0) with (cfg w) in Hr1. change (plan w0) with (plan w) in Hr1.
  pose proof (write_printable _ _ _ _ _ _ _ _ _ _ Hw Hwi Ho1) as Hpr. fold b in Hpr.
  assert (Hb1 : heap w1 !! b = Some (BChars cs0)).
  { rewrite (step_frame _ _ _ _ Ho1); [apply lookup_insert_eq|done|cbn; lia]. }
  assert (Hb1' : b ∉ lib_foot io1 lo es).
  { intros [[?|Hle] _]%(step_owned _ _ _ _ Ho1); [done|]. cbn in Hle. unfold b in *. lia. }
  pose proof (le_os _ _ He1) as Hos1. cbn [os alloc_world w0] in Hos1.
  apply (wp_write_locked pn w1 io1 lo es b cs0 severity format va out
    (λ len, when (0 <? len) (store_char (Ptr b 0 +ₚ len) NL ;;
       fuel ← gets (λ w, S (length (sys_writes (os w))));
       temp_failure_retry fuel (sys_write (Ptr b 0) (len + 1)) ;; mret tt)));
    [done|done|done|done|done|done|exact Hpr|].
  intros lo' lost cs' w' r G Hr2 Hlib' Hb' Hcs' Ho' HG HapG He' Hd' Hbn'.
  rewrite Hos1 in Hr2. change (os w0) with (os w) in Hr2.
  assert (Hr : write_outcome pn w io lo (mdcs es) severity out (plan w) =
    (snd <$> io1, (is_list lo', lost, r), plan w')).
  { by rewrite /write_outcome (supply_bind_eq _ _ _ _ _ Hr1) (supply_bind_eq _ _ _ _ _ Hr2). }
  assert (Ho : owns_step (lib_foot io lo es) w (lib_foot io1 lo' es ∪ dom G ∪ {[b]}) w').
  { eapply owns_step_trans; [by apply owns_step_alloc_more, (lib_owns _ _ _ _ _ Hlib)|].
    eapply owns_step_trans; [eapply (owns_step_frame _ _ _ _ _ Ho1)|exact Ho'].
    - by apply wf_heap_alloc.
    - apply elem_of_disjoint. by intros b' Hb2 ->%elem_of_singleton.
    - intros b' ->%elem_of_singleton. cbn. rewrite lookup_insert_eq. by eauto. }
  assert (Hend : ∀ cs2 e, let w2 := with_errno e (with_os (output ws r (os w)) (on b cs2 w')) in
    is_Some (heap w2 !! b) ∧ Q tt (with_heap (delete b (heap w2)) w2)).
  { intros cs2 e. cbn. rewrite lookup_insert_eq delete_insert_eq. split; [by eauto|].
    apply (HQ io1 lo' lost (next w1) r); [done| |done]. apply (lib_give_local pn w io lo es G w'); try done; [|by rewrite Hd'].
    eapply lib_env_trans; [|exact He']. by destruct He1. }
  destruct r as [t|].
  - intros [Hlt Hh]. eapply (wp_send _ _ _ _ errs ws); [done..| |done| |done|done|].
    + by eapply line_outcome_len.
    + by rewrite (le_os _ _ He') Hos1.
    + intros cs2 e. rewrite (le_os _ _ He') Hos1. apply (Hend cs2).
  - cbn [when Z.ltb]. apply wp_ret. specialize (Hend cs' (errno w')).
    assert (Hos' : os w' = os w) by by rewrite (le_os _ _ He') Hos1.
    rewrite /on insert_id // with_heap_id -Hos' in Hend. by destruct w'.
Qed.

Lemma write_outcome_ok pn w io lo l severity out : allocs_ok (2 + (list_allocs lo + 1)) w →
  (write_outcome pn w io lo l severity out (plan w)).1 =
    (ident_after w pn io, (true, false, log_line pn w io l severity out)).
Proof.
  intros Hok. rewrite /write_outcome /log_line /ident_after.
  assert (Hr : ∃ p, ready_outcome pn (negb (init_done (cfg w) =? 0)) (snd <$> io) (plan w) =
    (if init_done (cfg w) =? 0 then Some (esc pn) else snd <$> io, p) ∧ allocs_ok (list_allocs lo + 1) (with_plan p w)).
  { destruct (init_done (cfg w) =? 0); cbn [negb ready_outcome].
    - apply (default_outcome_ok pn) in Hok as [H1 H2]. destruct (default_outcome _ _) as [o p]. cbn in H1, H2. subst. by eexists.
    - eexists. split; [done|]. apply (allocs_ok_le (2 + (list_allocs lo + 1)) _ w); [done|lia]. }
  destruct Hr as (p & Hr & Hok1).
  rewrite (supply_bind_eq _ _ _ _ _ Hr) /line_outcome. apply make_list_ok in Hok1 as [H1 H2]. cbn [plan with_plan] in H1, H2.
  destruct (make_list (is_list lo) p) as [hl p2] eqn:Hm. cbn in H1, H2. subst hl.
  set (id := if init_done (cfg w) =? 0 then Some (esc pn) else snd <$> io) in *.
  assert (He : ∃ p3, entry_outcome (PIPE_BUF - 1) (sys_time (os w)) severity (log_name id) l out p2 =
    (entry_text (PIPE_BUF - 1) (sys_time (os w)) severity (log_name id) l out, p3)).
  { rewrite entry_outcome_eq. destruct (Z.leb_spec (PIPE_BUF - 1 - zlen (entry_fields (PIPE_BUF - 1) (sys_time (os w)) severity (log_name id) l) - 1) (zlen MINIMUM_MESSAGE)).
    - rewrite entry_text_small //. by eexists.
    - destruct p2 as [|[] p2]; [by eexists..|]. cbn in H2. by apply Forall_cons in H2 as [? _]. }
  destruct He as (p3 & He).
  assert (Hb : (('(has, lost) ← make_list (is_list lo);
     r ← entry_outcome (PIPE_BUF - 1) (sys_time (os w)) severity (log_name id) l out;
     mret (has, lost, r)) : supply (bool * bool * option (list Z))) p =
    (true, false, entry_text (PIPE_BUF - 1) (sys_time (os w)) severity (log_name id) l out, p3)).
  { by rewrite (supply_bind_eq _ _ _ _ _ Hm) (supply_bind_eq _ _ _ _ _ He). }
  by rewrite (supply_bind_eq _ _ _ _ _ Hb).
Qed.

(** [mdclog_write] when no allocation fails. *)
Lemma wp_mdclog_write pn w io lo es severity format va out errs ws (Q : unit → world → Prop) :
  lib pn w io lo es → allocs_ok (2 + (list_allocs lo + 1)) w → small (mdcs es) →
  write_input w (lib_foot io lo es) format va out → severity ≤ current_level (cfg w) →
  sys_writes (os w) = (WriteError <$> errs) ++ ws → Forall retryable errs → final ws →
  (∀ io' l w', lib_call pn w io lo es (with_os (os w) w') io' (Some l) es →
     os w' = output ws (log_line pn w io (mdcs es) severity out) (os w) → Q tt w') →
  wp (mdclog_write severity format va) w Q.
Proof.
  intros Hlib Hok Hsm Hwi Hsev Hws Herr Hfin HQ.
  pose proof (write_outcome_ok pn w io lo (mdcs es) severity out Hok) as H1.
  eapply wp_mdclog_write_any; [done..|]. intros io' lo' lost c r w' Hr Hg Hos. rewrite Hr in H1. cbn in H1.
  injection H1 as Hid Hlo -> ->. destruct lo' as [l|]; [|done].
  eapply HQ; [|exact Hos]. by apply lib_give_call.
Qed.
End write.
