(* ===== verification/Within.v ===== *)
(** What every computation of the library respects.

    Some facts hold of each step the library takes, whatever state it is in: memory that
    has become plentiful stays so, a function that does not start or clean the library
    leaves its setup alone, and only certain texts are printed.  [Within R m] says that a
    run of [m] takes a state to one that is related to it by [R].  Its instances follow
    the structure of the code, for any relation that the primitive operations respect
    ([Plain R]), so that class resolution proves it for each function. *)

From S2P Require Import Prelude World Memory Libc Escape MdcIface Mdc JsonFormat Mdclog.

(** ** Relations on states *)

(** Blocks of one type; arrays have their length. *)
Definition same_type (x y : block) : Prop :=
  match x, y with
  | BChars cs, BChars cs' => length cs = length cs'
  | BMdc _, BMdc _ | BList _, BList _ | BAttr _, BAttr _ | BAttrPtr _, BAttrPtr _ => True
  | _, _ => False
  end.

Class Plain (R : relation world) : Prop := {
  plain_preorder :: PreOrder R;
  plain_store w b x y : heap w !! b = Some x → same_type x y → R w (with_heap (<[b := y]> (heap w)) w);
  plain_free w b x : heap w !! b = Some x → R w (with_heap (delete b (heap w)) w);
  plain_alloc w x : R w (alloc_world x w);
  plain_tail w : R w (with_plan (tail (plan w)) w);
  plain_errno w e : R w (with_errno e w);
  plain_tls w t : R w (with_tls t w);
  plain_mutex w m : R w (with_cfg (with_mutex m (cfg w)) w);
  plain_identity w p : R w (with_cfg (with_identity p (cfg w)) w);
  plain_init w i : R w (with_cfg (with_init_done i (cfg w)) w);
  plain_level w l : R w (with_cfg (with_level l (cfg w)) w);
  plain_write w o ws : R w (with_os (with_stdout o ws (os w)) w)
}.

(** Relations that do not see the flag of the monitor either. *)
Class Flagless (R : relation world) : Prop := {
  flagless_plain :: Plain R;
  flagless_flag w i : R w (with_cfg (with_format_done i (cfg w)) w)
}.

Class Within {A} (R : relation world) (m : M A) : Prop := within w a w' : m w = Ok a w' → R w w'.

(** ** The constructs of the monad *)

Section monad.
Context (R : relation world) `{!PreOrder R} {A B : Type}.

#[export] Instance within_ret (a : A) : Within R (mret a).
Proof. by intros w b w' [= <- <-]. Qed.

#[export] Instance within_bind (m : M A) (k : A → M B) :
  Within R m → (∀ a, Within R (k a)) → Within R (m ≫= k).
Proof.
  intros Hm Hk w b w'. rewrite /mbind /M_bind. destruct (m w) as [a w1|] eqn:He; [|done].
  intros Hb. etrans; [by eapply Hm|by eapply Hk].
Qed.

#[export] Instance within_stopped s : Within R (stopped (A:=A) s).
Proof. by intros w a w' [=]. Qed.

#[export] Instance within_undefined : Within R (undefined (A:=A)).
Proof. by intros w a w' [=]. Qed.

#[export] Instance within_gets (f : world → A) : Within R (gets f).
Proof. by intros w a w' [= <- <-]. Qed.

#[export] Instance within_lift_option (o : option A) : Within R (lift_option o).
Proof. destruct o; apply _. Qed.

End monad.

#[export] Instance within_when R `{!PreOrder R} c m : Within R m → Within R (when c m).
Proof. intros ?. rewrite /when. destruct c; apply _. Qed.

Lemma within_modify R f : (∀ w, R w (f w)) → Within R (modify f).
Proof. by intros Hf w a w' [= <- <-]. Qed.

(** [plain] applies the rule for one update. *)
Ltac plain :=
  first [ apply plain_tail | apply plain_errno | apply plain_tls | apply plain_mutex | apply plain_identity
        | apply plain_init | apply plain_level | apply plain_write | apply flagless_flag ].

#[export] Hint Extern 2 (Within _ (modify _)) =>
  apply within_modify; intro; cbn beta; plain : typeclass_instances.

(** [inspect f] is for a primitive [f]: its cases, and the rule of the relation. *)
Ltac inspect f :=
  intros ???; rewrite /f; repeat case_match; intros; simplify_eq;
  try reflexivity; try plain; try (by eapply plain_free).

(** [stays] follows the structure of the code. *)
Ltac stays :=
  repeat first
    [ progress intros
    | apply _
    | apply within_bind
    | progress unfold when
    | match goal with |- Within _ (match ?x with _ => _ end) => destruct x end ].

Section plain.
Context (R : relation world) `{!Plain R}.

(** ** Memory and the operating system *)

#[export] Instance within_read_cstr p : Within R (read_cstr p).
Proof. intros w a w'. rewrite /read_cstr. destruct (get_cstr _ _); [|done]. by intros [= <- <-]. Qed.
#[export] Instance within_load_char p : Within R (load_char p).
Proof. inspect @load_char. Qed.
#[export] Instance within_store_char p c : Within R (store_char p c).
Proof. inspect @store_char. eapply plain_store; [done|]. by rewrite /= length_insert. Qed.
#[export] Instance within_store_chars p xs : Within R (store_chars p xs).
Proof. revert p. induction xs; intros p; cbn; apply _. Qed.
#[export] Instance within_load_mdc p : Within R (load_mdc p).
Proof. inspect @load_mdc. Qed.
#[export] Instance within_load_list p : Within R (load_list p).
Proof. inspect @load_list. Qed.
#[export] Instance within_load_attr p : Within R (load_attr p).
Proof. inspect @load_attr. Qed.
#[export] Instance within_load_attr_ptr p : Within R (load_attr_ptr p).
Proof. inspect @load_attr_ptr. Qed.

(** A struct is replaced by one of its type. *)
Lemma within_put_block {A} (load : M A) p y :
  (∀ w a w', load w = Ok a w' → w' = w ∧ ∃ x, get_block (heap w) p = Some x ∧ same_type x y) →
  Within R (load ;; put_block p y).
Proof.
  intros Hl w a w'. rewrite /mbind /M_bind. destruct (load w) as [a1 w1|] eqn:He; [|done].
  destruct (Hl _ _ _ He) as (-> & x & Hx & Ht). rewrite /put_block. destruct p as [|b [| |]|]; try done.
  intros [= <- <-]. by eapply plain_store.
Qed.

#[export] Instance within_store_mdc p n : Within R (store_mdc p n).
Proof. apply within_put_block. intros w a w'. rewrite /load_mdc. repeat case_match; naive_solver. Qed.
#[export] Instance within_store_list p n : Within R (store_list p n).
Proof. apply within_put_block. intros w a w'. rewrite /load_list. repeat case_match; naive_solver. Qed.
#[export] Instance within_store_attr p n : Within R (store_attr p n).
Proof. apply within_put_block. intros w a w'. rewrite /load_attr. repeat case_match; naive_solver. Qed.
#[export] Instance within_store_attr_ptr p n : Within R (store_attr_ptr p n).
Proof. apply within_put_block. intros w a w'. rewrite /load_attr_ptr. repeat case_match; naive_solver. Qed.
#[export] Instance within_alloc x : Within R (alloc x).
Proof. intros w a w' [= <- <-]. apply plain_alloc. Qed.
#[export] Instance within_set_errno e : Within R (set_errno e).
Proof. rewrite /set_errno. apply _. Qed.
#[export] Instance within_malloc x : Within R (malloc x).
Proof. rewrite /malloc. stays. Qed.
#[export] Instance within_malloc_chars n : Within R (malloc_chars n) := within_malloc _.
#[export] Instance within_free p : Within R (free p).
Proof. inspect @free. Qed.
#[export] Instance within_with_local {A} n (body : ptr → M A) :
  (∀ p, Within R (body p)) → Within R (with_local n body).
Proof. rewrite /with_local. stays. Qed.
#[export] Instance within_pthread_getspecific : Within R pthread_getspecific.
Proof. inspect @pthread_getspecific. Qed.
#[export] Instance within_pthread_setspecific v : Within R (pthread_setspecific v).
Proof. inspect @pthread_setspecific. etrans; [apply plain_tail|apply plain_tls]. Qed.
#[export] Instance within_sys_write p n : Within R (sys_write p n).
Proof. inspect @sys_write. etrans; [apply plain_write|apply plain_errno]. Qed.

(** ** The functions of the program *)

#[export] Instance within_strlen p : Within R (strlen p).
Proof. rewrite /strlen. stays. Qed.
#[export] Instance within_strcmp p q : Within R (strcmp p q).
Proof. rewrite /strcmp. stays. Qed.
#[export] Instance within_strdup p : Within R (strdup p).
Proof. rewrite /strdup. stays. Qed.
#[export] Instance within_vsnprintf s n f args : Within R (vsnprintf s n f args).
Proof. rewrite /vsnprintf /expand /printf_result. stays. Qed.
#[export] Instance within_snprintf s n f args : Within R (snprintf s n f args) := within_vsnprintf _ _ _ _.
#[export] Instance within_sprintf s f args : Within R (sprintf s f args).
Proof. rewrite /sprintf /expand /printf_result. stays. Qed.

#[export] Instance within_escape_loop fuel b len str s d : Within R (escape_loop fuel b len str s d).
Proof. revert s d. induction fuel; intros s d; cbn; stays. Qed.
#[export] Instance within_escape b len str : Within R (mdclog_internal_escape b len str).
Proof. rewrite /mdclog_internal_escape. stays. Qed.
#[export] Instance within_escaped_size_loop fuel str i len : Within R (escaped_size_loop fuel str i len).
Proof. revert i len. induction fuel; intros i len; cbn; stays. Qed.
#[export] Instance within_escaped_size str : Within R (mdclog_internal_escaped_size str).
Proof. rewrite /mdclog_internal_escaped_size. stays. Qed.
#[export] Instance within_contains_special_loop fuel str i : Within R (contains_special_loop fuel str i).
Proof. revert i. induction fuel; intros i; cbn; rewrite /int_incr; stays. Qed.
#[export] Instance within_contains_special str : Within R (mdclog_internal_contains_special_characters str).
Proof. rewrite /mdclog_internal_contains_special_characters. stays. Qed.

#[export] Instance within_get_key p : Within R (get_key p).
Proof. rewrite /get_key. stays. Qed.
#[export] Instance within_get_value p : Within R (get_value p).
Proof. rewrite /get_value. stays. Qed.
#[export] Instance within_get_prev p : Within R (get_prev p).
Proof. rewrite /get_prev. stays. Qed.
#[export] Instance within_get_next p : Within R (get_next p).
Proof. rewrite /get_next. stays. Qed.
#[export] Instance within_set_key p x : Within R (set_key p x).
Proof. rewrite /set_key. stays. Qed.
#[export] Instance within_set_value p x : Within R (set_value p x).
Proof. rewrite /set_value. stays. Qed.
#[export] Instance within_set_prev p x : Within R (set_prev p x).
Proof. rewrite /set_prev. stays. Qed.
#[export] Instance within_set_next p x : Within R (set_next p x).
Proof. rewrite /set_next. stays. Qed.
#[export] Instance within_rm_from_list mdc list : Within R (rm_from_list mdc list).
Proof. rewrite /rm_from_list /mdc_destroy. stays. Qed.
#[export] Instance within_empty_list_loop fuel mdc list : Within R (empty_list_loop fuel mdc list).
Proof. revert mdc. induction fuel; intros mdc; cbn; stays. Qed.
#[export] Instance within_empty_list list : Within R (empty_list list).
Proof. rewrite /empty_list /list_head /walk_fuel. stays. Qed.
#[export] Instance within_destroy_list list : Within R (destroy_list list).
Proof. rewrite /destroy_list. stays. Qed.
#[export] Instance within_init_mdc : Within R mdclog_internal_init_mdc.
Proof. rewrite /mdclog_internal_init_mdc /pthread_once /create_pthread_key. stays. Qed.
#[export] Instance within_get_list : Within R get_list.
Proof. rewrite /get_list. stays. Qed.
#[export] Instance within_search_loop fuel key mdc : Within R (search_loop fuel key mdc).
Proof. revert mdc. induction fuel; intros mdc; cbn; stays. Qed.
#[export] Instance within_search key : Within R (mdclog_internal_search_mdc key).
Proof. rewrite /mdclog_internal_search_mdc /list_head /walk_fuel. stays. Qed.
#[export] Instance within_put key value : Within R (mdclog_internal_put_mdc key value).
Proof.
  rewrite /mdclog_internal_put_mdc /alloc_entry /add_to_list /escape_and_copy /mdc_destroy. stays.
Qed.
#[export] Instance within_rm key : Within R (mdclog_internal_rm_mdc key).
Proof. rewrite /mdclog_internal_rm_mdc. stays. Qed.
#[export] Instance within_get_first : Within R mdclog_internal_get_first_mdc.
Proof. rewrite /mdclog_internal_get_first_mdc /list_head. stays. Qed.
#[export] Instance within_get_next_mdc p : Within R (mdclog_internal_get_next_mdc p).
Proof. rewrite /mdclog_internal_get_next_mdc. stays. Qed.
#[export] Instance within_get_val p : Within R (mdclog_internal_get_mdc_val p).
Proof. rewrite /mdclog_internal_get_mdc_val. stays. Qed.
#[export] Instance within_get_mdc_key p : Within R (mdclog_internal_get_mdc_key p).
Proof. rewrite /mdclog_internal_get_mdc_key. stays. Qed.

#[export] Instance within_truncate_loop fuel b len i : Within R (truncate_loop fuel b len i).
Proof. revert i. induction fuel; intros i; cbn; stays. Qed.
#[export] Instance within_mdc_loop fuel b len mdc o n : Within R (mdc_loop fuel b len mdc o n).
Proof. revert mdc o n. induction fuel; intros mdc o n; cbn; stays. Qed.
#[export] Instance within_format_message msg args b len : Within R (format_message msg args b len).
Proof. rewrite /format_message. stays. Qed.
#[export] Instance within_format_to_json_str b len tv identity severity mdc msg args :
  Within R (mdclog_internal_format_to_json_str b len tv identity severity mdc msg args).
Proof.
  rewrite /mdclog_internal_format_to_json_str /format_log_entry /format_timestamp /format_severity
    /format_identity /format_mdc /add_comma. stays.
Qed.

#[export] Instance within_wrlock : Within R pthread_rwlock_wrlock.
Proof. rewrite /pthread_rwlock_wrlock /set_mutex. stays. Qed.
#[export] Instance within_rdlock : Within R pthread_rwlock_rdlock.
Proof. rewrite /pthread_rwlock_rdlock /set_mutex. stays. Qed.
#[export] Instance within_unlock : Within R pthread_rwlock_unlock.
Proof. rewrite /pthread_rwlock_unlock /set_mutex. stays. Qed.
#[export] Instance within_default_identity : Within R default_identity.
Proof. rewrite /default_identity /set_identity. stays. Qed.
#[export] Instance within_init_library attr : Within R (init_library attr).
Proof. rewrite /init_library /default_identity /set_identity /set_init_done. stays. Qed.
#[export] Instance within_retry fuel m : Within R m → Within R (temp_failure_retry fuel m).
Proof. intros ?. induction fuel; cbn; stays. Qed.
#[export] Instance within_write severity format va : Within R (mdclog_write severity format va).
Proof. rewrite /mdclog_write. stays. Qed.
#[export] Instance within_mdc_add key value : Within R (mdclog_mdc_add key value).
Proof. rewrite /mdclog_mdc_add. stays. Qed.
#[export] Instance within_mdc_get key : Within R (mdclog_mdc_get key).
Proof. rewrite /mdclog_mdc_get. stays. Qed.
#[export] Instance within_mdc_remove key : Within R (mdclog_mdc_remove key).
Proof. rewrite /mdclog_mdc_remove. stays. Qed.
#[export] Instance within_mdc_clean : Within R mdclog_mdc_clean.
Proof. rewrite /mdclog_mdc_clean /mdclog_internal_clean_mdclist. stays. Qed.
#[export] Instance within_level_set level : Within R (mdclog_level_set level).
Proof. rewrite /mdclog_level_set. apply _. Qed.
#[export] Instance within_level_get : Within R mdclog_level_get.
Proof. rewrite /mdclog_level_get. apply _. Qed.
#[export] Instance within_attr_set_ident attr ident : Within R (mdclog_attr_set_ident attr ident).
Proof. rewrite /mdclog_attr_set_ident. stays. Qed.
#[export] Instance within_attr_init attr : Within R (mdclog_attr_init attr).
Proof. rewrite /mdclog_attr_init. stays. Qed.
#[export] Instance within_attr_destroy attr : Within R (mdclog_attr_destroy attr).
Proof. rewrite /mdclog_attr_destroy. stays. Qed.
End plain.

(** Starting and cleaning the library clear the flag. *)
Section flagless.
Context (R : relation world) `{!Flagless R}.

#[export] Instance within_init attr : Within R (mdclog_init attr).
Proof. rewrite /mdclog_init /set_init_done /set_format_done. stays. Qed.
#[export] Instance within_lib_clean : Within R mdclog_lib_clean.
Proof. rewrite /mdclog_lib_clean /set_identity /set_init_done /set_format_done. stays. Qed.
End flagless.

(** ** Memory that does not run out *)

(** An allocation plan that is exhausted (every later allocation succeeds) stays
    exhausted. *)
Definition exhausts : relation world := λ w w', plan w = [] → plan w' = [].

#[export] Instance exhausts_preorder : PreOrder exhausts.
Proof. split; rewrite /exhausts; [by intros w|intros w1 w2 w3; auto]. Qed.

#[export] Instance exhausts_flagless : Flagless exhausts.
Proof. split; [split; [apply _|..]|]; rewrite /exhausts; intros; cbn; try congruence; by rewrite H. Qed.

Abbreviation Supply := (Within exhausts).

(** A rule for a computation gives the state of the plan as well. *)
Lemma wp_within {A} R (m : M A) `{!Within R m} w (Q : A → world → Prop) :
  wp m w (λ a w', R w w' → Q a w') → wp m w Q.
Proof.
  intros (a & w' & Hrun & HQ)%wp_run. apply wp_run. exists a, w'. split; [done|]. by eapply HQ, within.
Qed.

Lemma wp_supply {A} (m : M A) `{!Supply m} w (Q : A → world → Prop) :
  plan w = [] → wp m w (λ a w', plan w' = [] → Q a w') → wp m w Q.
Proof.
  intros Hp Hm. apply (wp_within exhausts m). eapply wp_mono; [exact Hm|]. intros a w' HQ Hx. by apply HQ, Hx.
Qed.
