(* ===== verification/Api.v ===== *)
(** The public interface of src/mdclog.c: what each function does for its
    caller, with its error results.

    The first part has the life of an attribute object ([mdclog_attr_t]) and of
    the identity it hands over to the library; the second states the properties
    of the functions of Mdclog. *)

From S2P Require Import Prelude World Memory Libc Escape MdcIface Mdc JsonFormat Mdclog Within.

(** ** Attributes *)

(** The attribute object [a], with the string it owns. *)
Definition attr_at (w : world) (a : positive) (o : option (positive * list Z)) : Prop :=
  match o with
  | None => heap w !! a = Some (BAttr Null)
  | Some (b, s) =>
      heap w !! a = Some (BAttr (Ptr b 0)) ∧ heap w !! b = Some (cstr_block s) ∧ is_str s ∧ b ≠ a
  end.

Definition attr_foot (a : positive) (o : option (positive * list Z)) : gset positive :=
  {[a]} ∪ ident_foot o.

(** A string [mdclog_attr_set_ident] accepts. *)
Definition good_ident (s : list Z) : Prop := has_special s = false ∧ zlen s ≤ IDENTITY_MAX_LENGTH.

#[global] Instance good_ident_dec s : Decision (good_ident s).
Proof. rewrite /good_ident. apply _. Defined.

Section attributes.
Implicit Types (w : world) (o : option (positive * list Z)).

Lemma attr_at_head w a o : attr_at w a o → ∃ p, heap w !! a = Some (BAttr p).
Proof. destruct o as [[b s]|]; cbn; [intros (?&_)|intros ?]; by eauto. Qed.

Lemma wp_attr_set_ident a p ident s w (Q : Z → world → Prop) :
  heap w !! a = Some (BAttr p) → get_cstr (heap w) ident = Some s → zlen s ≤ INT_MAX → wf_heap w →
  (good_ident s → plan_ok (plan w) = true →
     Q 0 (with_heap (<[a := BAttr (Ptr (next w) 0)]> (<[next w := cstr_block s]> (heap w)))
            (malloc_world (cstr_block s) w))) →
  (good_ident s → plan_ok (plan w) = false →
     Q 0 (with_heap (<[a := BAttr Null]> (heap w)) (enomem_world w))) →
  (¬ good_ident s → Q (-1) (with_errno EINVAL w)) →
  wp (mdclog_attr_set_ident (Ptr a 0) ident) w Q.
Proof.
  intros Ha Hs Hl Hw H1 H2 H3. rewrite /mdclog_attr_set_ident. cbn [is_null].
  rewrite (get_cstr_not_null _ _ _ Hs). rewrite /good_ident in H1 H2 H3.
  apply wp_bind. step wp_contains_special; [done..|]. destruct (has_special s); cbn [Z.eqb negb].
  - apply wp_ret. cbn iota. wp_pure. apply wp_ret, H3. by intros [].
  - step wp_strlen; [done|]. apply wp_ret. destruct (Z.ltb_spec IDENTITY_MAX_LENGTH (zlen s)).
    + wp_pure. apply wp_ret, H3. intros [_ ?]. lia.
    + step wp_strdup; [done| |].
      * intros Hp. step wp_store_attr; [|by apply wp_ret, H1].
        rewrite /= lookup_insert_ne; [exact Ha|by eapply not_eq_sym, wf_heap_ne].
      * intros Hp. step wp_store_attr; [exact Ha|]. by apply wp_ret, H2.
Qed.

Lemma wp_attr_set_ident_null attr ident w (Q : Z → world → Prop) :
  attr = Null ∨ ident = Null → Q (-1) (with_errno EINVAL w) → wp (mdclog_attr_set_ident attr ident) w Q.
Proof.
  intros Hn HQ. rewrite /mdclog_attr_set_ident.
  destruct (is_null attr) eqn:Ha; [by do 2 wp_pure; apply wp_ret|].
  destruct (is_null ident) eqn:Hi; [by do 2 wp_pure; apply wp_ret|].
  by destruct Hn as [-> | ->].
Qed.

Lemma wp_attr_destroy a o w (Q : unit → world → Prop) :
  attr_at w a o →
  Q tt (with_heap (delete a (match o with Some (b, _) => delete b (heap w) | None => heap w end)) w) →
  wp (mdclog_attr_destroy (Ptr a 0)) w Q.
Proof.
  rewrite /mdclog_attr_destroy. cbn [is_null negb when].
  destruct o as [[b s]|]; cbn [attr_at].
  - intros (Ha & Hb & _ & Hne) HQ. step wp_load_attr; [done|]. cbn [is_null negb when].
    step wp_free; [done|]. eapply wp_free; [|exact HQ]. by rewrite /= lookup_delete_ne.
  - intros Ha HQ. step wp_load_attr; [done|]. cbn [is_null negb when]. wp_pure. by eapply wp_free.
Qed.
End attributes.

(** The code a program uses to name itself: the object is created, filled, handed
    over and destroyed. *)
Definition configure (ident : ptr) : M Z :=
  attr ← alloc (BAttrPtr wild);
  mdclog_attr_init attr ;;
  a ← load_attr_ptr attr;
  mdclog_attr_set_ident a ident ;;
  r ← mdclog_init a;
  mdclog_attr_destroy a ;;
  free attr ;;
  mret r.

Section lifecycle.
Implicit Types (w : world) (es : list ent) (lo : option positive) (io : option (positive * list Z)).

Lemma wp_attr_init v p w (Q : Z → world → Prop) :
  heap w !! v = Some (BAttrPtr p) → wf_heap w →
  (plan_ok (plan w) = true →
     Q 0 (with_heap (<[next w := BAttr Null]> (<[v := BAttrPtr (Ptr (next w) 0)]> (heap w)))
            (malloc_world (BAttr Null) w))) →
  (plan_ok (plan w) = false →
     Q (-1) (with_errno ENOMEM (with_heap (<[v := BAttrPtr Null]> (heap w)) (enomem_world w)))) →
  wp (mdclog_attr_init (Ptr v 0)) w Q.
Proof.
  intros Hv Hw H1 H2. rewrite /mdclog_attr_init. step wp_malloc; intros Hp.
  - assert (Hne : v ≠ next w) by by eapply wf_heap_ne.
    step wp_store_attr_ptr; [by rewrite /= lookup_insert_ne|]. cbn [is_null].
    step wp_load_attr_ptr; [apply lookup_insert_eq|].
    step wp_store_attr; [by rewrite /= lookup_insert_ne // lookup_insert_eq|].
    apply wp_ret. cbn. rewrite (insert_insert_ne _ v) // insert_insert_eq. by apply H1.
  - step wp_store_attr_ptr; [done|]. cbn [is_null]. wp_pure. by apply wp_ret, H2.
Qed.

(** [mdclog_init], without and with an identity. *)
Lemma wp_mdclog_init_default n pn w io lo es attr (Q : Z → world → Prop) :
  lib pn w io lo es → allocs_ok (2 + n) w → no_identity w (lib_foot io lo es) attr →
  (∀ io' w', lib pn w' io' lo es → snd <$> io' = Some (esc pn) → tls_key (tls w') = true →
     init_done (cfg w') ≠ 0 → owns_step (lib_foot io lo es) w (lib_foot io' lo es) w' →
     lib_env w w' → errno w' = errno w → allocs_ok n w' → Q 0 w') →
  wp (mdclog_init attr) w Q.
Proof.
  intros Hlib Hok Hno HQ. rewrite /mdclog_init /set_init_done /set_format_done. wp_pure. wp_pure.
  apply lib_reinit in Hlib as Hlib0. step wp_init_library_default; [exact Hlib0|exact Hok|exact Hno|].
  intros io1 w1 Hlib1 Hk1 Hd1 Hi1 [H1 H2 H3 H4] [H5 H6 H7 H8] _ Her1 Hok1. apply wp_ret.
  by apply (HQ io1).
Qed.

Lemma wp_mdclog_init_attr pn w io lo es a b s (Q : Z → world → Prop) :
  lib pn w io lo es → attr_at w a (Some (b, s)) →
  a ∉ lib_foot io lo es → b ∉ lib_foot io lo es →
  (∀ w', lib pn w' (Some (b, s)) lo es → attr_at w' a None →
     owns_step (lib_foot io lo es ∪ {[a; b]}) w (lib_foot (Some (b, s)) lo es ∪ {[a]}) w' →
     lib_env w w' → init_done (cfg w') = 1 → errno w' = errno w → plan w' = plan w → Q 0 w') →
  wp (mdclog_init (Ptr a 0)) w Q.
Proof.
  intros Hlib (Ha & Hb & Hs & Hne) Haf Hbf HQ. rewrite /mdclog_init /set_init_done /set_format_done. wp_pure. wp_pure.
  apply lib_reinit in Hlib as Hlib0.
  step wp_init_library_attr; [exact Hlib0|done|exact Ha|exact Hb|done|congruence|done|done|].
  intros w1 Hlib1 Ha1 [H1 H2 H3 H4] [H5 H6 H7 H8] Hd1 Her1 Hp1. apply wp_ret. by apply HQ.
Qed.

(** A block that did not exist is in no footprint. *)
Lemma fresh_lib pn w io lo es b : lib pn w io lo es → (next w ≤ b)%positive → b ∉ lib_foot io lo es.
Proof.
  intros Hlib Hle Hin. destruct (lib_foot_live _ _ _ _ _ _ Hlib Hin) as [x Hx].
  pose proof (wf_heap_lt _ _ _ (lib_wf _ _ _ _ _ Hlib) Hx). lia.
Qed.

Lemma drop_two (G : gset positive) a b : a ∉ G → b ∉ G → ((G ∪ {[a]} ∪ {[b]}) ∖ {[a]}) ∖ {[b]} = G.
Proof. set_solver. Qed.

Lemma fresh_ident pn w io lo es b s c :
  lib pn w io lo es → (next w ≤ c)%positive → c ≠ b → c ∉ lib_foot (Some (b, s)) lo es.
Proof.
  intros Hlib Hle Hne Hin. rewrite /lib_foot in Hin. apply elem_of_union in Hin as [Hin|Hin].
  { cbn [ident_foot] in Hin. by apply elem_of_singleton in Hin as ->. }
  eapply fresh_lib; [done|done|]. by apply elem_of_union_r.
Qed.

(** The state after the object has been created and filled. *)
Definition attr_world (s : list Z) (w : world) : world :=
  let b0 := next w in let a := Pos.succ b0 in let b := Pos.succ a in
  World (<[a := BAttr (Ptr b 0)]> (<[b := cstr_block s]> (<[a := BAttr Null]>
           (<[b0 := BAttrPtr (Ptr a 0)]> (<[b0 := BAttrPtr wild]> (heap w))))))
    (Pos.succ b) (tail (tail (plan w))) (errno w) (self w) (tls w) (cfg w) (os w).

Lemma attr_world_ok pn w io lo es s :
  lib pn w io lo es → is_str s →
  let b0 := next w in let a := Pos.succ b0 in let b := Pos.succ a in
  lib pn (attr_world s w) io lo es ∧ attr_at (attr_world s w) a (Some (b, s)) ∧
  heap (attr_world s w) !! b0 = Some (BAttrPtr (Ptr a 0)) ∧
  owns_step (lib_foot io lo es) w ((lib_foot io lo es ∪ {[a; b]}) ∪ {[b0]}) (attr_world s w).
Proof.
  intros Hlib Hs b0 a b. pose proof (lib_wf _ _ _ _ _ Hlib) as Hw. pose proof (lib_owns _ _ _ _ _ Hlib) as Ho.
  assert (Hab : a ≠ b0 ∧ b ≠ b0 ∧ a ≠ b) by (unfold a, b; lia). destruct Hab as (Hn1 & Hn2 & Hn3).
  apply (owns_step_alloc_more _ _ _ _ (BAttrPtr wild)) in Ho. apply (owns_step_alloc_more _ _ _ _ (BAttr Null)) in Ho.
  apply (owns_step_alloc_more _ _ _ _ (cstr_block s)) in Ho. cbn [next alloc_world] in Ho.
  fold b0 in Ho. change (Pos.succ b0) with a in Ho. change (Pos.succ a) with b in Ho.
  set (F := lib_foot io lo es) in *.
  assert (Hin : ∀ c, c = b0 ∨ c = a ∨ c = b → c ∈ F ∪ {[b0]} ∪ {[a]} ∪ {[b]}).
  { intros c. rewrite !elem_of_union !elem_of_singleton. tauto. }
  apply (owns_step_store _ _ _ _ b0 (BAttrPtr (Ptr a 0))) in Ho; [|auto].
  apply (owns_step_store _ _ _ _ a (BAttr (Ptr b 0))) in Ho; [|auto].
  replace (F ∪ {[b0]} ∪ {[a]} ∪ {[b]}) with (F ∪ {[a; b]} ∪ {[b0]}) in Ho.
  2: { apply set_eq. intros c. rewrite !elem_of_union. tauto. }
  assert (Hst : owns_step F w (F ∪ {[a; b]} ∪ {[b0]}) (attr_world s w)).
  { eapply owns_step_same; [exact Ho| |done]. cbn. fold b0 a b.
    rewrite (insert_insert_ne _ b0 b) // (insert_insert_ne _ b0 a) //. }
  split_and!; [|split_and!|cbn|exact Hst]; try done.
  - eapply lib_heap; [done|apply (step_wf _ _ _ _ Hst)|apply (lib_mutex _ _ _ _ _ Hlib)|done..|].
    intros c Hc. destruct (lib_foot_live _ _ _ _ _ _ Hlib Hc) as [x Hx].
    pose proof (wf_heap_lt _ _ _ Hw Hx). cbn. rewrite !lookup_insert_ne; [done|lia..].
  - apply lookup_insert_eq.
  - cbn. fold b0 a b. rewrite lookup_insert_ne // lookup_insert_eq //.
  - fold b0 a b. do 3 rewrite lookup_insert_ne //. by rewrite lookup_insert_eq.
Qed.

Lemma allocs_ok_true n w : allocs_ok (S n) w → plan_ok (plan w) = true.
Proof. rewrite /allocs_ok. destruct (plan w); [done|]. by inversion 1. Qed.

Lemma allocs_ok_tail n w : allocs_ok (S n) w → Forall (λ b, b = true) (take n (tail (plan w))).
Proof. rewrite /allocs_ok. destruct (plan w); [intros; by destruct n|]. by inversion 1. Qed.

Lemma wp_configure pn w io lo es ident s (Q : Z → world → Prop) :
  lib pn w io lo es → allocs_ok 2 w → get_cstr (heap w) ident = Some s → good_ident s →
  (∀ b w', lib pn w' (Some (b, s)) lo es → owns_step (lib_foot io lo es) w (lib_foot (Some (b, s)) lo es) w' →
     lib_env w w' → init_done (cfg w') = 1 → errno w' = errno w → plan w' = tail (tail (plan w)) → Q 0 w') →
  wp (configure ident) w Q.
Proof.
  intros Hlib Hok Hc Hg HQ. pose proof (lib_wf _ _ _ _ _ Hlib) as Hw.
  pose proof (get_cstr_nonzero _ _ _ Hc) as Hs. rewrite /configure.
  assert (Hok2 : plan_ok (tail (plan w)) = true).
  { apply allocs_ok_tail in Hok. destruct (tail (plan w)); [done|]. by inversion Hok. }
  step wp_alloc. step wp_attr_init; [apply lookup_insert_eq|by apply wf_heap_alloc| |].
  2: { cbn. rewrite (allocs_ok_true _ _ Hok). done. }
  intros _. step wp_load_attr_ptr; [by rewrite /= lookup_insert_ne ?lookup_insert_eq; last lia|].
  set (w1 := with_heap _ _).
  assert (Hc1 : get_cstr (heap w1) ident = Some s).
  { apply (get_cstr_agree (heap w) _ ∅); [|intros b _; apply not_elem_of_empty|done].
    intros c _ [x Hx]. pose proof (wf_heap_lt _ _ _ Hw Hx). rewrite /= !lookup_insert_ne; [done|lia..]. }
  step wp_attr_set_ident; [apply lookup_insert_eq|exact Hc1|destruct Hg; unfold INT_MAX, IDENTITY_MAX_LENGTH in *; lia| | | |].
  - intros c Hc'. cbn in Hc' |- *. rewrite !lookup_insert_ne; [apply Hw; lia|lia..].
  - intros _ _. destruct (attr_world_ok _ _ _ _ _ s Hlib Hs) as (Hlib2 & Ha & Hb0 & Ho2).
    set (b0 := next w) in *. set (a := Pos.succ b0) in *. set (b := Pos.succ a) in *.
    change (with_heap _ _) with (attr_world s w). change (Ptr (next (alloc_world (BAttrPtr wild) w)) 0) with (Ptr a 0).
    step wp_mdclog_init_attr; [exact Hlib2|exact Ha|eapply (fresh_lib _ w); [done|lia]..|].
    intros w3 Hlib3 Ha3 Ho3 He3 Hd3 Her3 Hp3.
    assert (Hb0f : b0 ∉ lib_foot io lo es ∪ {[a; b]}).
    { intros [Hin|[Hin%elem_of_singleton|Hin%elem_of_singleton]%elem_of_union]%elem_of_union; [|unfold a, b in *; lia..].
      by eapply (fresh_lib _ w); [|reflexivity|exact Hin]. }
    assert (Hb03 : heap w3 !! b0 = Some (BAttrPtr (Ptr a 0))).
    { rewrite (step_frame _ _ _ _ Ho3) //. cbn. lia. }
    pose proof (owns_step_frame _ _ _ _ {[b0]} Ho3 (lib_wf _ _ _ _ _ Hlib2)) as Hf3.
    eapply owns_step_trans in Hf3; [|exact Ho2| |].
    2: { apply elem_of_disjoint. by intros c Hc' ->%elem_of_singleton. }
    2: { intros c ->%elem_of_singleton. by eauto. }
    step (wp_attr_destroy a None); [exact Ha3|].
    apply (owns_step_free _ _ _ _ a) in Hf3.
    2: { apply elem_of_union_l, elem_of_union_r. by apply elem_of_singleton. }
    step wp_free; [rewrite /= lookup_delete_ne //; unfold a; lia|].
    apply (owns_step_free _ _ _ _ b0) in Hf3.
    2: { rewrite elem_of_difference elem_of_union !elem_of_singleton. split; [by right|unfold a; lia]. }
    assert (Hnot : (a ∉ lib_foot (Some (b, s)) lo es) ∧ b0 ∉ lib_foot (Some (b, s)) lo es).
    { split; (eapply fresh_ident; [exact Hlib|unfold a; lia|unfold b, a; lia]). }
    rewrite drop_two in Hf3; [|by apply Hnot..].
    apply wp_ret, (HQ b); [|exact Hf3|by destruct He3|done|done|exact Hp3].
    eapply lib_heap; [exact Hlib3|apply (step_wf _ _ _ _ Hf3)|apply (lib_mutex _ _ _ _ _ Hlib3)|done..|].
    intros c Hc'. destruct Hnot as [Hna Hnb]. cbn. rewrite lookup_delete_ne; [|congruence]. by rewrite lookup_delete_ne; [|congruence].
  - intros _. cbn. by rewrite Hok2.
  - done.
Qed.
End lifecycle.

(** ** Composed calls *)

Section composed.
Implicit Types (w : world) (es : list ent) (lo : option positive) (io : option (positive * list Z)).

(** A process that has just started. *)
Lemma boot_lib pn : is_str pn → zlen (esc pn) < INT_MAX → lib pn (boot (Lit pn 0)) None None [].
Proof. intros Hpn Hl. by split. Qed.

(** A later call finds its strings where they were. *)
Lemma lib_call_str pn w io lo es w' io' lo' es' p s :
  lib pn w io lo es → lib_call pn w io lo es w' io' lo' es' →
  get_cstr (heap w) p = Some s → outside (lib_foot io lo es) p →
  get_cstr (heap w') p = Some s ∧ outside (lib_foot io' lo' es') p.
Proof.
  intros Hlib Hc Hs Ho. pose proof (lib_wf _ _ _ _ _ Hlib) as Hw.
  split; [by eapply get_cstr_step; [apply (lc_owns _ _ _ _ _ _ _ _ _ Hc)|..]|].
  by eapply outside_step; [apply (lc_owns _ _ _ _ _ _ _ _ _ Hc)|..].
Qed.

(** The owner of a heap string may free it. *)
Lemma lib_after_free pn w io lo es s :
  lib pn w io lo es →
  lib pn (with_heap (delete (next w) (heap (malloc_world (cstr_block s) w))) (malloc_world (cstr_block s) w)) io lo es.
Proof.
  intros Hlib. pose proof (lib_malloc _ _ _ _ _ (cstr_block s) Hlib) as Hl.
  eapply lib_heap; [exact Hl|by apply wf_heap_delete, (lib_wf _ _ _ _ _ Hl)|apply (lib_mutex _ _ _ _ _ Hl)|done..|].
  intros b Hb. cbn. rewrite lookup_delete_ne; [done|].
  intros <-. by eapply (fresh_lib _ w); [|reflexivity|exact Hb].
Qed.
End composed.

(** ** Properties *)


(** Below the level the call has no effect: nothing is initialised, written or
    allocated (but for the addresses its buffer used up). *)
Theorem mdclog_write_filtered w severity format va :
  wf_heap w → current_level (cfg w) < severity →
  mdclog_write severity format va w = Ok tt (with_next (Pos.succ (next w)) w).
Proof. intros Hw Hlt. apply wp_exact. by apply wp_write_filtered. Qed.

(** The process the witnesses run in. *)
Definition app : world := boot (Lit (lit "app") 0).

Lemma app_lib : lib (lit "app") app None None [].
Proof. apply boot_lib; [by repeat constructor|by vm_compute]. Qed.



Lemma mdclog_write_filtered_witness :
  mdclog_write MDCLOG_DEBUG (Lit (lit "hi") 0) [] app = Ok tt (with_next 2 app).
Proof. exact (mdclog_write_filtered app MDCLOG_DEBUG (Lit (lit "hi") 0) [] ltac:(done) ltac:(by vm_compute)). Defined.

(** C25: what [mdclog_mdc_add] stores, [mdclog_mdc_get] gives back escaped, as a fresh
    string of the caller's. *)
Theorem mdc_add_get pn w io lo es key k value v :
  lib pn w io lo es → plan w = [] →
  get_cstr (heap w) key = Some k → outside (lib_foot io lo es) key → has_special k = false →
  get_cstr (heap w) value = Some v → outside (lib_foot io lo es) value →
  zlen k ≤ INT_MAX → zlen (esc v) + 1 < 2 ^ 64 →
  ∃ w' p io' lo' es',
    (r ← mdclog_mdc_add key value; q ← mdclog_mdc_get key; mret (r, q)) w = Ok (0, p) w' ∧
    get_cstr (heap w') p = Some (esc v) ∧ outside (lib_foot io' lo' es') p ∧ lib pn w' io' lo' es'.
Proof.
  intros Hlib Hp Hk Hko Hsp Hv Hvo Hkl Hvl.
  assert (wp (r ← mdclog_mdc_add key value; q ← mdclog_mdc_get key; mret (r, q)) w (λ r w',
    ∃ io' lo' es', r.1 = 0 ∧ get_cstr (heap w') r.2 = Some (esc v) ∧ outside (lib_foot io' lo' es') r.2 ∧
      lib pn w' io' lo' es')) as ([r p] & w' & Hrun & io' & lo' & es' & Hr & ?)%wp_run.
  2: { cbn in Hr. subst r. by exists w', p, io', lo', es'. }
  apply wp_bind, wp_supply; [apply _|done|].
  eapply wp_mdc_add; [done|by apply allocs_ok_nil|done..|].
  intros io1 l1 es1 w1 Hc1 Hes1 _ Hp1. destruct (lib_call_str _ _ _ _ _ _ _ _ _ _ _ Hlib Hc1 Hk Hko) as [Hk1 Hko1].
  apply wp_bind. eapply wp_mdc_get; [apply Hc1|by apply allocs_ok_nil|done|done|].
  intros io2 l2 w2 Hc2 _. rewrite Hes1 al_get_put decide_True //. intros _. pose proof (lc_lib _ _ _ _ _ _ _ _ _ Hc2) as Hl2.
  apply wp_ret. exists io2, (Some l2), es1. split_and!; [done| | |by apply lib_malloc].
  - apply get_cstr_block; [apply lookup_insert_eq|apply esc_is_str].
  - intros b [= <-]. by eapply fresh_lib.
Qed.

(** [mdclog_mdc_add] rejects a null key or value and a key with a character that
    would need escaping with [EINVAL], before it does anything else. *)
Theorem mdc_add_invalid w key k value :
  key = Null ∨ value = Null ∨ (get_cstr (heap w) key = Some k ∧ has_special k = true ∧ zlen k ≤ INT_MAX) →
  mdclog_mdc_add key value w = Ok (-1) (with_errno EINVAL w).
Proof. intros Hbad. apply wp_exact. by eapply wp_mdc_add_invalid. Qed.

(** After [mdclog_mdc_remove] the key has no value and every other key has the
    value it had; the removed strings are freed. *)
Theorem mdc_remove_forgets pn w io lo es key k :
  lib pn w io lo es → allocs_ok (2 + list_allocs lo) w →
  get_cstr (heap w) key = Some k → outside (lib_foot io lo es) key →
  ∃ w' io' l es', mdclog_mdc_remove key w = Ok tt w' ∧ lib_call pn w io lo es w' io' (Some l) es' ∧
    ∀ k', al_get k' (mdcs es') = if decide (k' = k) then None else al_get k' (mdcs es).
Proof.
  intros Hlib Hok Hk Hko. destruct (proj1 (wp_run (mdclog_mdc_remove key) w (λ _ w', ∃ io' l es',
    lib_call pn w io lo es w' io' (Some l) es' ∧ mdcs es' = al_remove k (mdcs es))))
    as ([] & w' & Hrun & io' & l & es' & Hc & Hes).
  { eapply wp_mdc_remove; [done..|]. by eauto. }
  exists w', io', l, es'. split_and!; [done..|]. intros k'. by rewrite Hes al_get_remove.
Qed.

(** Naming the process through an attribute object leaves the library with a
    private copy of the name, and no block of the object behind: every block that is
    new belongs to the library's state. *)
Theorem configure_names pn w io lo es ident s :
  lib pn w io lo es → allocs_ok 2 w → get_cstr (heap w) ident = Some s → good_ident s →
  ∃ b w', configure ident w = Ok 0 w' ∧ lib pn w' (Some (b, s)) lo es ∧
    owns_step (lib_foot io lo es) w (lib_foot (Some (b, s)) lo es) w'.
Proof.
  intros. destruct (proj1 (wp_run (configure ident) w (λ r w', ∃ b, r = 0 ∧ lib pn w' (Some (b, s)) lo es ∧
    owns_step (lib_foot io lo es) w (lib_foot (Some (b, s)) lo es) w')))
    as (r & w' & Hrun & b & -> & ?); [|by exists b, w'].
  eapply wp_configure; [done..|]. by eauto 6.
Qed.

(** C32: [mdclog_attr_set_ident] rejects a null object and a null identity with
    [EINVAL], before it looks at the other one; given an object and a string, it stores a
    copy of an identity of at most 100 plain characters and rejects every other one with
    [EINVAL].  It reports success even when the copy could not be allocated, and never
    frees a name the object already had. *)
Theorem attr_set_ident_result a p ident s w :
  heap w !! a = Some (BAttr p) → get_cstr (heap w) ident = Some s → zlen s ≤ INT_MAX → wf_heap w →
  (∀ any, mdclog_attr_set_ident Null any w = Ok (-1) (with_errno EINVAL w) ∧
          mdclog_attr_set_ident any Null w = Ok (-1) (with_errno EINVAL w)) ∧
  mdclog_attr_set_ident (Ptr a 0) ident w =
    if decide (good_ident s) then
      if plan_ok (plan w)
      then Ok 0 (with_heap (<[a := BAttr (Ptr (next w) 0)]> (<[next w := cstr_block s]> (heap w)))
                   (malloc_world (cstr_block s) w))
      else Ok 0 (with_heap (<[a := BAttr Null]> (heap w)) (enomem_world w))
    else Ok (-1) (with_errno EINVAL w).
Proof.
  intros Ha Hs Hl Hw. split.
  { intros any. rewrite /mdclog_attr_set_ident. split; [done|]. by destruct (is_null any). }
  apply wp_exact. eapply wp_attr_set_ident; [done..| | |].
  - intros Hg Hp. rewrite decide_True // Hp. done.
  - intros Hg Hp. rewrite decide_True // Hp. done.
  - intros Hg. rewrite decide_False //.
Qed.

(** [mdclog_lib_clean] frees the identity and nothing else, and the next
    initialisation starts over with the name of the program; the thread keeps its
    MDCs. *)
Theorem lib_clean_restarts pn w io lo es :
  lib pn w io lo es → plan w = [] →
  ∃ w1 w2 io2, mdclog_lib_clean w = Ok tt w1 ∧ lib pn w1 None lo es ∧
    owns_step (lib_foot io lo es) w (lib_foot None lo es) w1 ∧
    mdclog_init Null w1 = Ok 0 w2 ∧ lib pn w2 io2 lo es ∧ snd <$> io2 = Some (esc pn).
Proof.
  intros Hlib Hp. destruct (proj1 (wp_run mdclog_lib_clean w (λ _ w1, lib pn w1 None lo es ∧
    owns_step (lib_foot io lo es) w (lib_foot None lo es) w1 ∧ plan w1 = plan w)))
    as ([] & w1 & Hrun1 & Hl1 & Ho1 & Hp1).
  { eapply wp_lib_clean; [done|]. eauto. }
  destruct (proj1 (wp_run (mdclog_init Null) w1 (λ r w2, ∃ io2, r = 0 ∧ lib pn w2 io2 lo es ∧
    snd <$> io2 = Some (esc pn)))) as (r & w2 & Hrun2 & io2 & -> & Hl2 & Hi2).
  { eapply (wp_mdclog_init_default 0); [done|by apply allocs_ok_nil; rewrite Hp1|done|]. by eauto. }
  by exists w1, w2, io2.
Qed.

(** An expression that gives a retryable error some times, and then a result. *)
Inductive retries (expr : M Z) : nat → world → Z → world → Prop :=
| retries_done w r w' :
    expr w = Ok r w' → ¬ (r < 0 ∧ (errno w' = EINTR ∨ errno w' = EAGAIN)) → retries expr 0 w r w'
| retries_again n w r1 w1 r w' :
    expr w = Ok r1 w1 → r1 < 0 → errno w1 = EINTR ∨ errno w1 = EAGAIN →
    retries expr n w1 r w' → retries expr (S n) w r w'.

(** C27: [TEMP_FAILURE_RETRY] evaluates its expression until the result is not a
    temporary failure, no more and no less, and returns that result: with any amount
    of fuel that is larger than the number of failures it returns. *)
Theorem temp_failure_retry_iff expr w r w' :
  (∃ n, retries expr n w r w') ↔ ∃ fuel, temp_failure_retry fuel expr w = Ok r w'.
Proof.
  split.
  - intros (n & Hr). exists (S n). induction Hr as [w r w' He Hn|n w r1 w1 r w' He Hlt Her _ IH].
    + cbn [temp_failure_retry]. rewrite (bind_ok _ _ _ _ _ He) /= /mbind /M_bind /gets.
      destruct (Z.ltb_spec r 0); [|done]. cbn [andb]. rewrite (proj2 (orb_false_iff _ _)); [done|].
      rewrite !Z.eqb_neq. tauto.
    + cbn [temp_failure_retry]. rewrite (bind_ok _ _ _ _ _ He) {1}/mbind {1}/M_bind {1}/gets.
      destruct (Z.ltb_spec r1 0); [|lia]. cbn [andb]. rewrite (proj2 (orb_true_iff _ _)); [done|].
      rewrite !Z.eqb_eq. done.
  - intros (fuel & Hf). revert w Hf. induction fuel as [|fuel IH]; intros w Hf; [done|].
    cbn [temp_failure_retry] in Hf. rewrite {1}/mbind {1}/M_bind in Hf.
    destruct (expr w) as [r1 w1|] eqn:He; [|done]. rewrite {1}/mbind {1}/M_bind {1}/gets in Hf.
    destruct ((r1 <? 0) && ((errno w1 =? EINTR) || (errno w1 =? EAGAIN))) eqn:Hc.
    + apply IH in Hf as [n Hn]. exists (S n). rewrite andb_true_iff orb_true_iff !Z.eqb_eq Z.ltb_lt in Hc.
      by eapply retries_again; [..|done]; destruct Hc.
    + injection Hf as <- <-. exists 0%nat. constructor; [done|]. rewrite -!Z.eqb_eq -Z.ltb_lt -orb_true_iff -andb_true_iff.
      congruence.
Qed.

(** The process with a name of its own. *)
Definition named : world :=
  with_cfg (with_identity (Ptr 1 0) (cfg app)) (with_next 3 (with_heap
    (<[1%positive := cstr_block (lit "svc")]> (<[2%positive := BAttr Null]> ∅)) app)).

Lemma named_wf : wf_heap named.
Proof. intros b Hb. cbn in Hb |- *. rewrite !lookup_insert_ne; [done|lia..]. Qed.

Lemma named_lib : lib (lit "app") named (Some (1%positive, lit "svc")) None [].
Proof.
  pose proof app_lib as [_ ? _ ? ? _ ? ?]. split; try done; [apply named_wf|].
  cbn. split_and!; [done|by vm_compute|by repeat constructor].
Qed.

Lemma mdc_add_get_witness : ∃ w' p,
  (r ← mdclog_mdc_add (Lit (lit "k") 0) (Lit (lit "a\b") 0);
   q ← mdclog_mdc_get (Lit (lit "k") 0); mret (r, q)) app = Ok (0, p) w' ∧
  get_cstr (heap w') p = Some (lit "a\\b").
Proof.
  destruct (mdc_add_get (lit "app") app None None [] (Lit (lit "k") 0) (lit "k") (Lit (lit "a\b") 0)
    (lit "a\b") app_lib eq_refl eq_refl (outside_lit _ _ _) eq_refl eq_refl (outside_lit _ _ _)
    ltac:(by vm_compute) ltac:(by vm_compute)) as (w' & p & _ & _ & _ & Hrun & Hs & _).
  exists w', p. split; [exact Hrun|exact Hs].
Defined.

Lemma mdc_add_invalid_witness :
  mdclog_mdc_add (Lit (qlit "a'b") 0) (Lit (lit "v") 0) app = Ok (-1) (with_errno EINVAL app).
Proof.
  apply (mdc_add_invalid app (Lit (qlit "a'b") 0) (qlit "a'b") (Lit (lit "v") 0)).
  right; right. by vm_compute.
Defined.

Lemma mdc_remove_forgets_witness : ∃ w', mdclog_mdc_remove (Lit (lit "k") 0) app = Ok tt w'.
Proof.
  destruct (mdc_remove_forgets (lit "app") app None None [] (Lit (lit "k") 0) (lit "k") app_lib
    (allocs_ok_nil 4 app eq_refl) eq_refl (outside_lit _ _ _)) as (w' & _ & _ & _ & Hrun & _).
  exists w'. exact Hrun.
Defined.

Lemma configure_names_witness : ∃ b w', configure (Lit (lit "svc") 0) named = Ok 0 w' ∧
  lib (lit "app") w' (Some (b, lit "svc")) None [].
Proof.
  destruct (configure_names (lit "app") named _ None [] (Lit (lit "svc") 0) (lit "svc") named_lib
    (allocs_ok_nil 2 named eq_refl) eq_refl ltac:(by vm_compute)) as (b & w' & Hrun & Hl & _).
  exists b, w'. split; [exact Hrun|exact Hl].
Defined.

Lemma attr_set_ident_result_witness :
  mdclog_attr_set_ident Null (Lit (lit "me") 0) named = Ok (-1) (with_errno EINVAL named) ∧
  mdclog_attr_set_ident (Ptr 2 0) Null named = Ok (-1) (with_errno EINVAL named) ∧
  mdclog_attr_set_ident (Ptr 2 0) (Lit (qlit "a'b") 0) named = Ok (-1) (with_errno EINVAL named) ∧
  ∃ w', mdclog_attr_set_ident (Ptr 2 0) (Lit (lit "me") 0) named = Ok 0 w'.
Proof.
  pose proof (attr_set_ident_result 2 Null (Lit (qlit "a'b") 0) (qlit "a'b") named eq_refl eq_refl
    ltac:(by vm_compute) named_wf) as [Hnull H1].
  pose proof (attr_set_ident_result 2 Null (Lit (lit "me") 0) (lit "me") named eq_refl eq_refl
    ltac:(by vm_compute) named_wf) as [_ H2].
  destruct (decide (good_ident (qlit "a'b"))) as [[Hg _]|_]; [discriminate Hg|].
  destruct (decide (good_ident (lit "me"))) as [_|Hg]; [|by destruct Hg].
  split; [apply Hnull|]. split; [apply Hnull|]. split; [exact H1|]. eexists. exact H2.
Defined.

Lemma lib_clean_restarts_witness : ∃ w1 w2 io2, mdclog_lib_clean named = Ok tt w1 ∧
  mdclog_init Null w1 = Ok 0 w2 ∧ lib (lit "app") w2 io2 None [] ∧ snd <$> io2 = Some (lit "app").
Proof.
  destruct (lib_clean_restarts (lit "app") named _ None [] named_lib eq_refl)
    as (w1 & w2 & io2 & H1 & _ & _ & H2 & H3 & H4).
  exists w1, w2, io2. split; [exact H1|]. split; [exact H2|]. split; [exact H3|exact H4].
Defined.
