(* ===== verification/Threads.v ===== *)
(** The library as its process sees it: calls of the public functions by several
    threads, one call after the other, and the abstract machine they refine.

    [run_event] makes a call in a thread; [sp_event] is what the machine does.
    [shared] is the invariant of the process: every thread has a well-formed list,
    and no two lists share a block.  The theorems say that the answers, the output
    and the lists the code gives are the machine's, whatever the interleaving. *)

From stdpp Require Import functions.
From S2P Require Import Prelude World Memory Libc Escape MdcIface Mdc JsonFormat Mdclog Within Api.

(** ** Calls *)

(** A call of the public interface; strings are the caller's own. *)
Inductive call :=
| CallWrite (severity : Z) (msg : list Z)
| CallLevelSet (level : Z)
| CallLevelGet
| CallAdd (k v : list Z)
| CallGet (k : list Z)
| CallRemove (k : list Z)
| CallClean
| CallInit (ident : option (list Z))
| CallLibClean
| CallExit.

Inductive reply :=
| RNone
| RInt (z : Z)
| RStr (s : option (list Z)).

(** A thread ends: if the key has a value in it, the value is cleared and the
    destructor of the key is called with it. *)
Definition thread_exit : M unit :=
  key ← gets (λ w, tls_key (tls w));
  list ← gets (λ w, default Null (tls_values (tls w) !! self w));
  when (key && negb (is_null list)) (
    modify (λ w, with_tls (Tls true (<[self w := Null]> (tls_values (tls w)))) w) ;;
    destroy_list list).

(** The caller of [mdclog_mdc_get] reads the string it got and frees it. *)
Definition read_and_free (p : ptr) : M (option (list Z)) :=
  if is_null p then mret None
  else s ← read_cstr p; free p ;; mret (Some s).

Definition run_call (c : call) : M reply :=
  match c with
  | CallWrite severity msg => mdclog_write severity (Lit (lit "%s") 0) [AStr (Lit msg 0)] ;; mret RNone
  | CallLevelSet level => mdclog_level_set level ;; mret RNone
  | CallLevelGet => level ← mdclog_level_get; mret (RInt level)
  | CallAdd k v => r ← mdclog_mdc_add (Lit k 0) (Lit v 0); mret (RInt r)
  | CallGet k => p ← mdclog_mdc_get (Lit k 0); s ← read_and_free p; mret (RStr s)
  | CallRemove k => mdclog_mdc_remove (Lit k 0) ;; mret RNone
  | CallClean => mdclog_mdc_clean ;; mret RNone
  | CallInit None => r ← mdclog_init Null; mret (RInt r)
  | CallInit (Some ident) => r ← configure (Lit ident 0); mret (RInt r)
  | CallLibClean => mdclog_lib_clean ;; mret RNone
  | CallExit => thread_exit ;; mret RNone
  end.

(** A thread calls, or time passes. *)
Inductive event :=
| Call (t : positive) (c : call)
| Tick (tv : Z * Z).

Definition run_event (e : event) : M reply :=
  match e with
  | Call t c => modify (with_self t) ;; run_call c
  | Tick tv => modify (λ w, with_os (with_time tv (os w)) w) ;; mret RNone
  end.

Fixpoint run_events (es : list event) : M (list reply) :=
  match es with
  | [] => mret []
  | e :: es' => r ← run_event e; rs ← run_events es'; mret (r :: rs)
  end.

(** ** The abstract machine *)

(** Its state: the level, the identity, the MDCs of each thread and whether the thread
    has a list at all, the time and the lines written so far. *)
Record spec := Spec {
  sp_level : Z;
  sp_init : bool;
  sp_ident : option (list Z);
  sp_mdcs : positive → list (list Z * list Z);
  sp_list : positive → bool;
  sp_time : Z * Z;
  sp_out : list (list Z)
}.

Definition sp_boot : spec := Spec MDCLOG_ERR false None (λ _, []) (λ _, false) (0, 0) [].

(** What every call but the ones of the level does first. *)
Definition sp_ready (pn : list Z) (s : spec) : spec :=
  if sp_init s then s
  else Spec (sp_level s) true (Some (esc pn)) (sp_mdcs s) (sp_list s) (sp_time s) (sp_out s).

Definition sp_set (t : positive) (l : list (list Z * list Z)) (s : spec) : spec :=
  Spec (sp_level s) (sp_init s) (sp_ident s) (<[t := l]> (sp_mdcs s)) (<[t := true]> (sp_list s))
    (sp_time s) (sp_out s).

(** A thread that looks at its list has one from then on. *)
Definition sp_touch (t : positive) (s : spec) : spec := sp_set t (sp_mdcs s t) s.

Definition sp_print (lines : list (list Z)) (s : spec) : spec :=
  Spec (sp_level s) (sp_init s) (sp_ident s) (sp_mdcs s) (sp_list s) (sp_time s) (sp_out s ++ lines).

(** The lines a call of [mdclog_write] adds. *)
Definition sp_line (t : positive) (severity : Z) (msg : list Z) (s : spec) : list (list Z) :=
  match entry_text (PIPE_BUF - 1) (sp_time s) severity (log_name (sp_ident s)) (sp_mdcs s t) msg with
  | Some line => [line ++ [NL]]
  | None => []
  end.

Definition sp_call (pn : list Z) (t : positive) (c : call) (s : spec) : reply * spec :=
  let s' := sp_ready pn s in
  match c with
  | CallWrite severity msg =>
      if sp_level s <? severity then (RNone, s)
      else (RNone, sp_print (sp_line t severity msg s') (sp_touch t s'))
  | CallLevelSet level => 
      (RNone, Spec level (sp_init s) (sp_ident s) (sp_mdcs s) (sp_list s) (sp_time s) (sp_out s))
  | CallLevelGet => (RInt (sp_level s), s)
  | CallAdd k v =>
      if has_special k then (RInt (-1), s) else (RInt 0, sp_set t (al_put k (esc v) (sp_mdcs s' t)) s')
  | CallGet k => (RStr (al_get k (sp_mdcs s' t)), sp_touch t s')
  | CallRemove k => (RNone, sp_set t (al_remove k (sp_mdcs s' t)) s')
  | CallClean => (RNone, sp_set t [] s')
  | CallInit ident =>
      (RInt 0, Spec (sp_level s) true (Some (default (esc pn) ident)) (sp_mdcs s) (sp_list s)
                 (sp_time s) (sp_out s))
  | CallLibClean =>
      (RNone, Spec (sp_level s) false None (sp_mdcs s) (sp_list s) (sp_time s) (sp_out s))
  | CallExit =>
      (RNone, Spec (sp_level s) (sp_init s) (sp_ident s) (<[t := []]> (sp_mdcs s))
                (<[t := false]> (sp_list s)) (sp_time s) (sp_out s))
  end.

Definition sp_event (pn : list Z) (e : event) (s : spec) : reply * spec :=
  match e with
  | Call t c => sp_call pn t c s
  | Tick tv => (RNone, Spec (sp_level s) (sp_init s) (sp_ident s) (sp_mdcs s) (sp_list s) tv (sp_out s))
  end.

Fixpoint sp_events (pn : list Z) (es : list event) (s : spec) : list reply * spec :=
  match es with
  | [] => ([], s)
  | e :: es' =>
      let '(r, s1) := sp_event pn e s in
      let '(rs, s2) := sp_events pn es' s1 in (r :: rs, s2)
  end.

(** The strings a call may have: strings, short enough for [int] lengths; an identity
    the library accepts. *)
Definition valid_call (c : call) : Prop :=
  match c with
  | CallWrite _ msg => is_str msg ∧ zlen msg ≤ INT_MAX
  | CallAdd k v => is_str k ∧ is_str v ∧ zlen (pair_text (k, esc v)) < INT_MAX
  | CallGet k | CallRemove k => is_str k
  | CallInit (Some ident) => is_str ident ∧ good_ident ident
  | _ => True
  end.

Definition valid (e : event) : Prop := match e with Call _ c => valid_call c | Tick _ => True end.

#[global] Instance valid_dec e : Decision (valid e).
Proof. destruct e as [t [| | | | | | |[|]| |]|]; apply _. Defined.

(** ** The invariant *)

(** The lists of the threads. *)
Abbreviation lists := (positive → option positive * list ent).

(** The invariant of the process.  The blocks [F] are those of threads that do not call
    the library (the monitors of Process.v); they are out of its reach. *)
Record shared (F : gmap positive block) (pn : list Z) (w : world) (io : option (positive * list Z)) (L : lists) : Prop := {
  sh_lib : ∀ t, lib pn (with_self t w) io (L t).1 (L t).2;
  sh_disj : ∀ t t', t ≠ t' → footprint (L t).1 (L t).2 ## footprint (L t').1 (L t').2;
  sh_frame : F ⊆ heap w;
  sh_apart : ∀ t, lib_foot io (L t).1 (L t).2 ## dom F;
  sh_live : ∀ b, is_Some (heap w !! b) → b ∈ ident_foot io ∨ (∃ t, b ∈ footprint (L t).1 (L t).2) ∨ b ∈ dom F
}.

(** A call of thread [t] that left the library in a good state, and the blocks [G] to
    its caller. *)
Record call_ok (G : gmap positive block) (pn : list Z) (t : positive) (w : world) (io : option (positive * list Z)) (L : lists)
    (w' : world) (io' : option (positive * list Z)) (lo' : option positive) (es' : list ent) : Prop := {
  co_lib : lib pn w' io' lo' es';
  co_owns : owns_step (lib_foot io (L t).1 (L t).2) (with_self t w) (lib_foot io' lo' es' ∪ dom G) w';
  co_given : G ⊆ heap w';
  co_apart : lib_foot io' lo' es' ## dom G;
  co_self : self w' = t;
  co_others : ∀ t', t' ≠ t → tls_values (tls w') !! t' = tls_values (tls w) !! t';
  co_key : tls_key (tls w) = true → tls_key (tls w') = true
}.

Section invariant.
Implicit Types (w : world) (L : lists) (io : option (positive * list Z)) (F G : gmap positive block).

Lemma with_self_id w : with_self (self w) w = w.
Proof. by destruct w. Qed.

Lemma footprint_lib io lo es b : b ∈ footprint lo es → b ∈ lib_foot io lo es.
Proof. apply elem_of_union_r. Qed.

(** The list of another thread is out of reach. *)
Lemma other_foot F pn w io L t t' b :
  shared F pn w io L → t' ≠ t → b ∈ footprint (L t').1 (L t').2 →
  (b ∉ lib_foot io (L t).1 (L t).2) ∧ (b < next w)%positive.
Proof.
  intros [Hlib Hd _ _ _] Hne Hb. specialize (Hlib t') as Hl'. split.
  - intros [Hin|Hin]%elem_of_lib_foot.
    + by apply (proj1 (elem_of_disjoint _ _) (lib_disj _ _ _ _ _ Hl') b).
    + by apply (proj1 (elem_of_disjoint _ _) (Hd t' t Hne) b).
  - destruct (lib_foot_live _ _ _ _ _ b Hl' (footprint_lib _ _ _ _ Hb)) as [x Hx].
    by apply (wf_heap_lt _ _ _ (lib_wf _ _ _ _ _ Hl') Hx).
Qed.

Lemma other_lib F G pn w io L t w' io' lo' es' t' :
  shared F pn w io L → call_ok G pn t w io L w' io' lo' es' → t' ≠ t →
  lib pn (with_self t' w') io' (L t').1 (L t').2.
Proof.
  intros Hsh [[Hw Hm Hi Ht Hin Hd Hs Hn] Ho Hgv Hap Hself Hoth Hkey] Hne.
  pose proof (sh_lib _ _ _ _ _ Hsh t') as [Hw2 _ _ Ht2 _ _ _ _].
  assert (Hsame : ∀ b, b ∈ footprint (L t').1 (L t').2 → heap w' !! b = heap w !! b).
  { intros b Hb. destruct (other_foot _ _ _ _ _ t _ _ Hsh Hne Hb). by apply (step_frame _ _ _ _ Ho). }
  split; try done.
  - rewrite /thread_state /thread_mdcs in Ht2 |- *. cbn in Ht2 |- *. rewrite Hoth //.
    destruct (tls_key (tls w)) eqn:Hk.
    + rewrite Hkey //. destruct Ht2 as [_ Hm2]. split; [done|]. destruct (L t').1 as [l|]; [|done].
      destruct Hm2 as [Hv Hm2]. split; [done|]. eapply mlist_frame; [|done].
      intros b Hb. apply Hsame. by apply elem_of_list_to_set.
    + destruct Ht2 as (-> & -> & Hv). by destruct (tls_key (tls w')).
  - apply elem_of_disjoint. intros b Hb Hb'. destruct (other_foot _ _ _ _ _ t _ _ Hsh Hne Hb') as [Hnot Hlt].
    assert (Hin' : b ∈ lib_foot io' lo' es' ∪ dom G) by by apply elem_of_union_l, elem_of_union_l.
    apply (step_owned _ _ _ _ Ho) in Hin' as [[?|Hle] _]; [done|]. cbn in Hle. lia.
Qed.

(** The blocks of the frame are out of reach, too. *)
Lemma frame_foot F pn w io L t b :
  shared F pn w io L → b ∈ dom F → (b ∉ lib_foot io (L t).1 (L t).2) ∧ (b < next w)%positive.
Proof.
  intros Hsh Hb. split.
  - intros Hin. by apply (proj1 (elem_of_disjoint _ _) (sh_apart _ _ _ _ _ Hsh t) b).
  - apply elem_of_dom in Hb as [x Hx]. eapply lookup_weaken in Hx; [|apply (sh_frame _ _ _ _ _ Hsh)].
    by apply (wf_heap_lt _ _ _ (lib_wf _ _ _ _ _ (sh_lib _ _ _ _ _ Hsh t)) Hx).
Qed.

(** A block that a call has in the end is one it had, or new. *)
Lemma call_new G pn t w io L w' io' lo' es' b :
  call_ok G pn t w io L w' io' lo' es' → b ∈ lib_foot io' lo' es' ∪ dom G →
  b ∈ lib_foot io (L t).1 (L t).2 ∨ (next w ≤ b)%positive.
Proof. intros Hc Hb. by apply (step_owned _ _ _ _ (co_owns _ _ _ _ _ _ _ _ _ _ Hc)) in Hb as [? _]. Qed.

Lemma call_away G F pn t w io L w' io' lo' es' b :
  shared F pn w io L → call_ok G pn t w io L w' io' lo' es' → b ∉ lib_foot io (L t).1 (L t).2 →
  (b < next w)%positive → b ∉ lib_foot io' lo' es' ∪ dom G.
Proof. intros Hsh Hc Hn Hlt Hb. destruct (call_new _ _ _ _ _ _ _ _ _ _ _ Hc Hb); [done|lia]. Qed.

(** Every block after a call is the library's, a list's, the frame's or given away. *)
Lemma step_live F G pn w t io L w' io' lo' es' b :
  shared F pn w io L → call_ok G pn t w io L w' io' lo' es' → is_Some (heap w' !! b) →
  b ∈ ident_foot io' ∨ (∃ t', b ∈ footprint (<[t := (lo', es')]> L t').1 (<[t := (lo', es')]> L t').2) ∨ b ∈ dom (G ∪ F).
Proof.
  intros Hsh [_ Ho _ _ _ _ _] Hb.
  destruct (decide (b ∈ lib_foot io' lo' es' ∪ dom G)) as [[[?|?]%elem_of_lib_foot|?]%elem_of_union|Hn].
  { by left. }
  { right; left. exists t. by rewrite fn_lookup_insert. }
  { right; right. rewrite dom_union_L. by apply elem_of_union_l. }
  assert (Hn1 : b ∉ lib_foot io (L t).1 (L t).2).
  { intros Hin. apply Hn, (step_owned _ _ _ _ Ho). by split; [left|]. }
  assert (Hlt : (b < next w)%positive).
  { destruct (decide (b < next w)%positive); [done|]. destruct Hn. apply (step_owned _ _ _ _ Ho).
    split; [right; cbn; lia|done]. }
  rewrite (step_frame _ _ _ _ Ho) //= in Hb. destruct (sh_live _ _ _ _ _ Hsh _ Hb) as [Hid|[(t' & Ht')|HF]].
  { destruct Hn1. apply elem_of_lib_foot. by left. }
  + right; left. exists t'. destruct (decide (t' = t)) as [->|Hne]; [by destruct Hn1; apply elem_of_lib_foot; right|].
    by rewrite fn_lookup_insert_ne.
  + right; right. rewrite dom_union_L. by apply elem_of_union_r.
Qed.

Lemma shared_step F G pn w t io L w' io' lo' es' :
  shared F pn w io L → call_ok G pn t w io L w' io' lo' es' →
  shared (G ∪ F) pn w' io' (<[t := (lo', es')]> L).
Proof.
  intros Hsh Hc. pose proof Hc as [Hlib Ho Hgv Hap Hself _ _].
  assert (Hother : ∀ t' b, t' ≠ t → b ∈ footprint (L t').1 (L t').2 → b ∉ lib_foot io' lo' es' ∪ dom G).
  { intros t' b Hne Hb. destruct (other_foot _ _ _ _ _ t _ _ Hsh Hne Hb). by eapply call_away. }
  assert (Hframe : ∀ b, b ∈ dom F → b ∉ lib_foot io' lo' es' ∪ dom G).
  { intros b Hb. destruct (frame_foot _ _ _ _ _ t _ Hsh Hb). by eapply call_away. }
  split.
  - intros t'. destruct (decide (t' = t)) as [->|Hne].
    + rewrite fn_lookup_insert. replace (with_self t w') with w'; [done|]. by rewrite -Hself with_self_id.
    + rewrite fn_lookup_insert_ne //. by eapply other_lib.
  - assert (Hnew : ∀ t', t' ≠ t → footprint lo' es' ## footprint (L t').1 (L t').2).
    { intros t' Hne. apply elem_of_disjoint. intros b Hb Hb'. apply (Hother t' b Hne Hb').
      by apply elem_of_union_l, (footprint_lib io'). }
    intros t1 t2 Hne. destruct (decide (t1 = t)) as [->|H1].
    + rewrite fn_lookup_insert fn_lookup_insert_ne //. by apply Hnew.
    + rewrite (fn_lookup_insert_ne _ _ t1) //. destruct (decide (t2 = t)) as [->|H2].
      * rewrite fn_lookup_insert. symmetry. by apply Hnew.
      * rewrite fn_lookup_insert_ne //. by apply (sh_disj _ _ _ _ _ Hsh).
  - apply map_union_least; [done|]. apply map_subseteq_spec. intros b x Hx.
    assert (Hb : b ∈ dom F) by by eapply elem_of_dom_2.
    destruct (frame_foot _ _ _ _ _ t _ Hsh Hb). rewrite (step_frame _ _ _ _ Ho) //=.
    eapply lookup_weaken; [done|apply (sh_frame _ _ _ _ _ Hsh)].
  - intros t'. rewrite dom_union_L. apply elem_of_disjoint. intros b Hb [Hb'|Hb']%elem_of_union.
    + destruct (decide (t' = t)) as [->|Hne].
      * rewrite fn_lookup_insert in Hb. by apply (proj1 (elem_of_disjoint _ _) Hap b).
      * rewrite fn_lookup_insert_ne // in Hb. apply elem_of_lib_foot in Hb as [Hb|Hb].
        { apply (proj1 (elem_of_disjoint _ _) Hap b); [|done]. apply elem_of_lib_foot. by left. }
        apply (Hother t' b Hne Hb). by apply elem_of_union_r.
    + destruct (decide (t' = t)) as [->|Hne].
      * rewrite fn_lookup_insert in Hb. apply (Hframe b Hb'). by apply elem_of_union_l.
      * rewrite fn_lookup_insert_ne // in Hb. apply elem_of_lib_foot in Hb as [Hb|Hb].
        { apply (Hframe b Hb'). apply elem_of_union_l, elem_of_lib_foot. by left. }
        apply (proj1 (elem_of_disjoint _ _) (sh_apart _ _ _ _ _ Hsh t') b); [|done]. apply elem_of_lib_foot. by right.
  - intros b. by eapply step_live.
Qed.
End invariant.

(** ** The abstraction *)

(** The process [w] is in the machine's state [s]. *)
Record abs (F : gmap positive block) (pn : list Z) (w : world) (io : option (positive * list Z)) (L : lists) (s : spec) : Prop := {
  ab_shared : shared F pn w io L;
  ab_level : current_level (cfg w) = sp_level s;
  ab_init : sp_init s = negb (init_done (cfg w) =? 0);
  ab_ident : snd <$> io = sp_ident s;
  ab_mdcs : ∀ t, mdcs (L t).2 = sp_mdcs s t;
  ab_small : ∀ t, small (sp_mdcs s t);
  ab_list : ∀ t, sp_list s t = bool_decide (is_Some (L t).1);
  ab_time : sys_time (os w) = sp_time s;
  ab_out : sys_stdout (os w) = sp_out s;
  ab_plan : plan w = [];
  ab_writes : sys_writes (os w) = []
}.

Section abstraction.
Implicit Types (w : world) (L : lists) (io : option (positive * list Z)) (s : spec) (F G : gmap positive block).

Lemma sp_ready_proj pn s :
  sp_level (sp_ready pn s) = sp_level s ∧ sp_init (sp_ready pn s) = true ∧
  sp_mdcs (sp_ready pn s) = sp_mdcs s ∧ sp_list (sp_ready pn s) = sp_list s ∧ sp_time (sp_ready pn s) = sp_time s ∧ sp_out (sp_ready pn s) = sp_out s.
Proof. rewrite /sp_ready. by destruct (sp_init s) eqn:Hi. Qed.

Lemma abs_ident F pn w t io L s : abs F pn w io L s → ident_after (with_self t w) pn io = sp_ident (sp_ready pn s).
Proof.
  intros [_ _ Hi Hid _ _ _ _ _ _ _]. rewrite /ident_after /sp_ready Hi /=. by destruct (init_done (cfg w) =? 0).
Qed.

Lemma call_ok_lib pn t w io L w' io' lo' es' :
  lib pn w' io' lo' es' → owns_step (lib_foot io (L t).1 (L t).2) (with_self t w) (lib_foot io' lo' es') w' →
  self w' = t → (∀ t', t' ≠ t → tls_values (tls w') !! t' = tls_values (tls w) !! t') →
  (tls_key (tls w) = true → tls_key (tls w') = true) → call_ok ∅ pn t w io L w' io' lo' es'.
Proof.
  intros Hl Ho Hs Hot Hk. split; try done.
  - by rewrite dom_empty_L right_id_L.
  - apply map_empty_subseteq.
Qed.

Lemma lib_call_ok pn t w io L w' io' lo' es' :
  lib_call pn (with_self t w) io (L t).1 (L t).2 w' io' lo' es' → call_ok ∅ pn t w io L w' io' lo' es'.
Proof.
  intros [Hl Ho He _ Hin]. apply call_ok_lib; [done|done|by rewrite (le_self _ _ He)|apply (le_others _ _ He)|].
  intros _. by apply (lib_init _ _ _ _ _ Hl).
Qed.

(** The effect of a call on the abstraction. *)
Lemma abs_give F G pn t w io L s w' io' lo' es' s' :
  abs F pn w io L s → call_ok G pn t w io L w' io' lo' es' →
  current_level (cfg w') = sp_level s' → sp_init s' = negb (init_done (cfg w') =? 0) →
  snd <$> io' = sp_ident s' → sp_mdcs s' t = mdcs es' → (∀ t', t' ≠ t → sp_mdcs s' t' = sp_mdcs s t') →
  sp_list s' t = bool_decide (is_Some lo') → (∀ t', t' ≠ t → sp_list s' t' = sp_list s t') →
  small (mdcs es') → sys_time (os w') = sp_time s' → sys_stdout (os w') = sp_out s' →
  plan w' = [] → sys_writes (os w') = [] → abs (G ∪ F) pn w' io' (<[t := (lo', es')]> L) s'.
Proof.
  intros Ha Hc Hl Hi Hid Hm Hm' Hls Hls' Hsm Ht Ho Hp Hws. pose proof (ab_shared _ _ _ _ _ _ Ha) as Hsh.
  split; try done; [by eapply shared_step| | |]; intros t'; (destruct (decide (t' = t)) as [->|Hne]).
  - by rewrite fn_lookup_insert Hm.
  - rewrite fn_lookup_insert_ne // Hm' //. apply (ab_mdcs _ _ _ _ _ _ Ha).
  - by rewrite Hm.
  - rewrite Hm' //. apply (ab_small _ _ _ _ _ _ Ha).
  - by rewrite fn_lookup_insert.
  - rewrite fn_lookup_insert_ne // Hls' //. apply (ab_list _ _ _ _ _ _ Ha).
Qed.

Lemma abs_call F pn t w io L s w' io' lo' es' s' :
  abs F pn w io L s → call_ok ∅ pn t w io L w' io' lo' es' →
  current_level (cfg w') = sp_level s' → sp_init s' = negb (init_done (cfg w') =? 0) →
  snd <$> io' = sp_ident s' → sp_mdcs s' t = mdcs es' → (∀ t', t' ≠ t → sp_mdcs s' t' = sp_mdcs s t') →
  sp_list s' t = bool_decide (is_Some lo') → (∀ t', t' ≠ t → sp_list s' t' = sp_list s t') →
  small (mdcs es') → sys_time (os w') = sp_time s' → sys_stdout (os w') = sp_out s' →
  plan w' = [] → sys_writes (os w') = [] → abs F pn w' io' (<[t := (lo', es')]> L) s'.
Proof. intros. rewrite -(left_id_L ∅ (∪) F). by eapply abs_give. Qed.

(** A call that initialises the library and works on the list. *)
Lemma abs_lib_call F pn t w io L s w' io' l es' :
  abs F pn w io L s → lib_call pn (with_self t w) io (L t).1 (L t).2 w' io' (Some l) es' →
  plan w' = [] → small (mdcs es') →
  abs F pn w' io' (<[t := (Some l, es')]> L) (sp_set t (mdcs es') (sp_ready pn s)).
Proof.
  intros Ha Hc Hp Hsm. pose proof Hc as [_ _ [_ Hos Hlv _] Hia Hin]. cbn in Hos, Hlv.
  pose proof (sp_ready_proj pn s) as (H1 & H2 & H3 & H4 & H5 & H6).
  eapply abs_call; [done|by apply lib_call_ok|..]; cbn; rewrite ?Hos ?H1 ?H2 ?H3 ?H4 ?H5 ?H6; try done.
  - by rewrite Hlv (ab_level _ _ _ _ _ _ Ha).
  - by destruct (Z.eqb_spec (init_done (cfg w')) 0).
  - rewrite Hia. by eapply abs_ident.
  - by rewrite fn_lookup_insert.
  - intros t' Hne. by rewrite fn_lookup_insert_ne.
  - by rewrite fn_lookup_insert.
  - intros t' Hne. by rewrite fn_lookup_insert_ne.
  - by apply (ab_time _ _ _ _ _ _ Ha).
  - by apply (ab_out _ _ _ _ _ _ Ha).
  - by apply (ab_writes _ _ _ _ _ _ Ha).
Qed.

Lemma abs_next F pn t w io L s :
  abs F pn w io L s → abs F pn (with_next (Pos.succ (next w)) (with_self t w)) io L s.
Proof.
  intros [[Hl Hd Hfr Hap Hv] ? ? ? ? ? ? ? ? ? ?]. split; try done. split; [|done..]. intros t'. pose proof (Hl t') as Hlt.
  eapply (lib_heap _ (with_self t' w)); [exact Hlt| |apply (lib_mutex _ _ _ _ _ Hlt)|done..].
  intros b Hb. apply (lib_wf _ _ _ _ _ Hlt). cbn in Hb |- *. lia.
Qed.

(** A line goes out. *)
Lemma abs_output F pn w io L s line :
  abs F pn w io L s →
  abs F pn (with_os (sent line [] (os w)) w) io L
    (sp_print [line] s).
Proof.
  intros [[Hl Hd Hfr Hap Hv] ? ? ? ? ? ? ? Ho ? ?]. split; try done; [|by cbn; rewrite Ho].
  split; [|done..]. intros t. by apply (lib_os pn (with_self t w)).
Qed.
End abstraction.

(** ** The calls refine the machine *)

Section calls.
Context (F : gmap positive block).
Implicit Types (w : world) (L : lists) (io : option (positive * list Z)) (s : spec).

(** What a call [c] of thread [t] has to do. *)
Definition refines (pn : list Z) (t : positive) (c : call) (s : spec) (r : reply) (w' : world) : Prop :=
  ∃ io' L', r = (sp_call pn t c s).1 ∧ abs F pn w' io' L' (sp_call pn t c s).2.

Lemma pair_text_len k v : zlen (pair_text (k, v)) = zlen k + zlen v + 5.
Proof. rewrite /pair_text. change (qlit "':'") with [34; 58; 34]. cbn [fst snd]. zl. Qed.

Lemma small_put k v l : zlen (pair_text (k, v)) < INT_MAX → small l → small (al_put k v l).
Proof.
  intros Hp Hl. rewrite /al_put. case_decide; [|by constructor]. rewrite /small Forall_fmap.
  eapply Forall_impl; [exact Hl|]. intros [k' v'] Hk. rewrite /compose. cbn beta iota.
  case_decide as Hkk; [subst k'; exact Hp|exact Hk].
Qed.

Lemma small_remove k l : small l → small (al_remove k l).
Proof.
  rewrite /small !Forall_forall. intros Hl p [_ Hp]%list_elem_of_filter. by apply Hl.
Qed.

Lemma refines_add pn t k v w io L s :
  abs F pn w io L s → valid_call (CallAdd k v) →
  wp (run_call (CallAdd k v)) (with_self t w) (refines pn t (CallAdd k v) s).
Proof.
  intros Ha (Hk & Hv & Hlen). pose proof (ab_plan _ _ _ _ _ _ Ha) as Hp. cbn [run_call]. rewrite pair_text_len /INT_MAX in Hlen.
  pose proof (zlen_nonneg k). pose proof (zlen_nonneg (esc v)).
  pose proof (sp_ready_proj pn s) as (H1 & H2 & H3 & H4 & H5 & H6). rewrite /refines /sp_call.
  apply wp_bind. destruct (has_special k) eqn:Hsp.
  - eapply wp_mdc_add_invalid.
    { right; right. split; [by apply get_cstr_lit|]. split; [done|unfold INT_MAX; lia]. }
    apply wp_ret. exists io, L. split; [done|]. destruct Ha as [[Hl Hd Hfr Hap Hlv] ? ? ? ? ? ? ? ? ? ?]. split; try done.
    split; [|done..]. intros t'. eapply (lib_heap _ (with_self t' w));
      [apply Hl|apply (lib_wf _ _ _ _ _ (Hl t'))|apply (lib_mutex _ _ _ _ _ (Hl t'))|done..].
  - apply wp_supply; [apply _|done|]. eapply wp_mdc_add; [apply (sh_lib _ _ _ _ _ (ab_shared _ _ _ _ _ _ Ha) t)
      |by apply allocs_ok_nil|by apply get_cstr_lit|apply outside_lit|done|by apply get_cstr_lit|apply outside_lit
      |unfold INT_MAX; lia|lia|].
    intros io' l es' w' Hc Hes _ Hp'. apply wp_ret. exists io', (<[t := (Some l, es')]> L). split; [done|].
    cbn [snd]. rewrite H3 -(ab_mdcs _ _ _ _ _ _ Ha t) -Hes. eapply abs_lib_call; [done..|].
    rewrite Hes (ab_mdcs _ _ _ _ _ _ Ha). apply small_put; [rewrite pair_text_len /INT_MAX; lia|].
    apply (ab_small _ _ _ _ _ _ Ha).
Qed.

(** Shared by the calls that keep the lists. *)
Lemma refines_keep pn t w io L s w' io' l :
  abs F pn w io L s → lib_call pn (with_self t w) io (L t).1 (L t).2 w' io' (Some l) (L t).2 → plan w' = [] →
  abs F pn w' io' (<[t := (Some l, (L t).2)]> L) (sp_touch t (sp_ready pn s)).
Proof.
  intros Ha Hc Hp. pose proof (sp_ready_proj pn s) as (_ & _ & H3 & _).
  rewrite /sp_touch H3 -(ab_mdcs _ _ _ _ _ _ Ha). eapply abs_lib_call; [done..|].
  rewrite (ab_mdcs _ _ _ _ _ _ Ha). apply (ab_small _ _ _ _ _ _ Ha).
Qed.

(** Reading the answer of [mdclog_mdc_get] and freeing it. *)
Lemma lib_call_free pn w io lo es w' io' lo' es' v :
  lib_call pn w io lo es w' io' lo' es' →
  lib_call pn w io lo es (with_heap (delete (next w') (heap (malloc_world (cstr_block v) w')))
    (malloc_world (cstr_block v) w')) io' lo' es'.
Proof.
  intros [Hl Ho [? ? ? ?] Hi Hin]. split; [by apply lib_after_free| |done..].
  apply (owns_step_malloc _ _ _ _ (cstr_block v)) in Ho.
  assert (Hnew : next w' ∈ {[next w']} ∪ lib_foot io' lo' es') by by apply elem_of_union_l, elem_of_singleton.
  apply (owns_step_free _ _ _ _ _ Ho) in Hnew.
  rewrite difference_union_distr_l_L difference_diag_L left_id_L difference_disjoint_L in Hnew; [done|].
  apply elem_of_disjoint. intros b Hb ->%elem_of_singleton. by eapply fresh_lib; [|reflexivity|exact Hb].
Qed.

Lemma refines_get pn t k w io L s :
  abs F pn w io L s → valid_call (CallGet k) →
  wp (run_call (CallGet k)) (with_self t w) (refines pn t (CallGet k) s).
Proof.
  intros Ha Hk. pose proof (ab_plan _ _ _ _ _ _ Ha) as Hp. cbn [run_call].
  pose proof (sp_ready_proj pn s) as (H1 & H2 & H3 & H4 & H5 & H6). rewrite /refines /sp_call H3.
  apply wp_bind, wp_supply; [apply _|done|]. eapply wp_mdc_get; [apply (sh_lib _ _ _ _ _ (ab_shared _ _ _ _ _ _ Ha) t)
    |by apply allocs_ok_nil|by apply get_cstr_lit|apply outside_lit|].
  intros io' l w' Hc _. rewrite -(ab_mdcs _ _ _ _ _ _ Ha t).
  destruct (al_get k (mdcs (L t).2)) as [v|] eqn:Hget; rewrite /read_and_free; cbn [is_null]; [intros Hvs|]; intros Hp'.
  - apply wp_bind. step wp_read_cstr; [by apply get_cstr_block; [apply lookup_insert_eq|]|].
    step wp_free; [apply lookup_insert_eq|]. apply wp_ret, wp_ret. eexists _, _. split; [done|].
    eapply refines_keep; [done|by apply lib_call_free|done].
  - wp_pure. apply wp_ret. eexists _, _. split; [done|]. by eapply refines_keep.
Qed.

Lemma refines_remove pn t k w io L s :
  abs F pn w io L s → valid_call (CallRemove k) →
  wp (run_call (CallRemove k)) (with_self t w) (refines pn t (CallRemove k) s).
Proof.
  intros Ha Hk. pose proof (ab_plan _ _ _ _ _ _ Ha) as Hp. cbn [run_call].
  pose proof (sp_ready_proj pn s) as (H1 & H2 & H3 & H4 & H5 & H6). rewrite /refines /sp_call H3.
  apply wp_bind, wp_supply; [apply _|done|]. eapply wp_mdc_remove; [apply (sh_lib _ _ _ _ _ (ab_shared _ _ _ _ _ _ Ha) t)
    |by apply allocs_ok_nil|by apply get_cstr_lit|apply outside_lit|].
  intros io' l es' w' Hc Hes _ Hp'. apply wp_ret. exists io', (<[t := (Some l, es')]> L). split; [done|].
  cbn [snd]. rewrite -(ab_mdcs _ _ _ _ _ _ Ha t) -Hes. eapply abs_lib_call; [done..|].
  rewrite Hes (ab_mdcs _ _ _ _ _ _ Ha). apply small_remove, (ab_small _ _ _ _ _ _ Ha).
Qed.

Lemma refines_clean pn t w io L s :
  abs F pn w io L s → wp (run_call CallClean) (with_self t w) (refines pn t CallClean s).
Proof.
  intros Ha. pose proof (ab_plan _ _ _ _ _ _ Ha) as Hp. cbn [run_call].
  apply wp_bind, wp_supply; [apply _|done|]. eapply wp_mdc_clean; [apply (sh_lib _ _ _ _ _ (ab_shared _ _ _ _ _ _ Ha) t)
    |by apply allocs_ok_nil|].
  intros io' l w' Hc _ Hp'. apply wp_ret. exists io', (<[t := (Some l, [])]> L). split; [done|].
  eapply (abs_lib_call _ _ _ _ _ _ _ _ _ _ []); [done..|]. constructor.
Qed.

Lemma refines_write pn t severity msg w io L s :
  abs F pn w io L s → valid_call (CallWrite severity msg) →
  wp (run_call (CallWrite severity msg)) (with_self t w) (refines pn t (CallWrite severity msg) s).
Proof.
  intros Ha [Hs Hl]. pose proof (ab_plan _ _ _ _ _ _ Ha) as Hp. cbn [run_call].
  pose proof (sp_ready_proj pn s) as (H1 & H2 & H3 & H4 & H5 & H6).
  pose proof (sh_lib _ _ _ _ _ (ab_shared _ _ _ _ _ _ Ha) t) as Hlib.
  rewrite /refines /sp_call -(ab_level _ _ _ _ _ _ Ha).
  apply wp_bind. destruct (Z.ltb_spec (current_level (cfg w)) severity) as [Hlt|Hle].
  - eapply wp_write_filtered; [apply (lib_wf _ _ _ _ _ Hlib)|done|].
    apply wp_ret. exists io, L. split; [done|]. by apply (abs_next F pn t w).
  - apply wp_supply; [apply _|done|]. eapply (wp_mdclog_write _ _ _ _ _ _ _ _ msg [] []); [exact Hlib|by apply allocs_ok_nil| | |exact Hle
      |apply (ab_writes _ _ _ _ _ _ Ha)|constructor|done|].
    { rewrite (ab_mdcs _ _ _ _ _ _ Ha). apply (ab_small _ _ _ _ _ _ Ha). }
    { split; [exists (lit "%s")|apply outside_lit|by repeat constructor; apply outside_lit|done].
      split; [done|]. rewrite /vformat /= get_cstr_lit //=. by rewrite app_nil_r. }
    intros io' l w' Hc Hos Hp'. apply wp_ret. exists io', (<[t := (Some l, (L t).2)]> L). split; [done|].
    apply (refines_keep _ _ _ _ _ s) in Hc as Ha'; [|done|done].
    rewrite /log_line (abs_ident _ _ _ _ _ _ _ Ha) (ab_mdcs _ _ _ _ _ _ Ha) in Hos.
    change (sys_time (os (with_self t w))) with (sys_time (os w)) in Hos.
    rewrite (ab_time _ _ _ _ _ _ Ha) -{1}H5 -{1}H3 in Hos. rewrite /sp_line.
    destruct (entry_text _ _ _ _ _ _) as [line|]; cbn [output] in Hos.
    + apply (abs_output _ _ _ _ _ _ (line ++ [NL])) in Ha'. cbn [os with_os with_self] in Ha', Hos. rewrite -Hos in Ha'.
      by destruct w'.
    + replace (with_os (os (with_self t w)) w') with w' in Ha' by (rewrite -Hos; by destruct w').
      cbn [snd]. rewrite /sp_print app_nil_r. by destruct (sp_touch t (sp_ready pn s)).
Qed.

Lemma refines_init pn t ident w io L s :
  abs F pn w io L s → valid_call (CallInit ident) →
  wp (run_call (CallInit ident)) (with_self t w) (refines pn t (CallInit ident) s).
Proof.
  intros Ha Hv. pose proof (ab_plan _ _ _ _ _ _ Ha) as Hp. pose proof (sh_lib _ _ _ _ _ (ab_shared _ _ _ _ _ _ Ha) t) as Hlib.
  assert (Hend : ∀ io' w', lib pn w' io' (L t).1 (L t).2 → snd <$> io' = Some (default (esc pn) ident) →
    init_done (cfg w') ≠ 0 → owns_step (lib_foot io (L t).1 (L t).2) (with_self t w) (lib_foot io' (L t).1 (L t).2) w' →
    lib_env (with_self t w) w' → plan w' = [] → refines pn t (CallInit ident) s (RInt 0) w').
  { intros io' w' Hl Hid Hd Ho [He1 He2 He3 He4] Hp'. cbn in He1, He2, He3, He4.
    exists io', (<[t := ((L t).1, (L t).2)]> L). split; [done|]. destruct Ha as [? ? ? ? ? ? ? ? ? ? ?].
    eapply (abs_call F pn t w io L s); rewrite ?He2 ?He3; try done.
    - apply call_ok_lib; [done..|]. intros _. by apply (lib_init _ _ _ _ _ Hl).
    - cbn. by destruct (Z.eqb_spec (init_done (cfg w')) 0).
    - apply ab_list0.
    - by rewrite ab_mdcs0. }
  destruct ident as [ident|]; cbn [run_call]; (apply wp_bind, wp_supply; [|done|]).
  - rewrite /configure. stays.
  - destruct Hv as [Hs Hg]. eapply wp_configure; [exact Hlib|by apply allocs_ok_nil|by apply get_cstr_lit|done|].
    intros b w' Hl Ho He Hd _ _ Hp'. apply wp_ret. eapply (Hend (Some (b, ident))); try done. by rewrite Hd.
  - apply _.
  - eapply (wp_mdclog_init_default 0); [exact Hlib|by apply allocs_ok_nil|done|].
    intros io' w' Hl Hid _ Hd Ho He _ _ Hp'. apply wp_ret. by eapply Hend.
Qed.

Lemma refines_lib_clean pn t w io L s :
  abs F pn w io L s → wp (run_call CallLibClean) (with_self t w) (refines pn t CallLibClean s).
Proof.
  intros Ha. pose proof (ab_plan _ _ _ _ _ _ Ha) as Hp. cbn [run_call].
  pose proof (sh_lib _ _ _ _ _ (ab_shared _ _ _ _ _ _ Ha) t) as Hlib.
  apply wp_bind. eapply wp_lib_clean; [exact Hlib|]. intros w' Hl Ho [He1 He2 He3 He4] Hd Htls _ Hp'.
  cbn in He1, He2, He3, He4. apply wp_ret. exists None, (<[t := ((L t).1, (L t).2)]> L). split; [done|].
  destruct Ha as [? ? ? ? ? ? ? ? ? ? ?]. eapply (abs_call F pn t w io L s); rewrite ?He2 ?He3 ?Hp'; try done.
  - by apply call_ok_lib; rewrite ?Htls.
  - by rewrite Hd.
  - apply ab_list0.
  - by rewrite ab_mdcs0.
Qed.

Lemma wp_thread_exit pn w io lo es (Q : unit → world → Prop) :
  lib pn w io lo es →
  (∀ w', lib pn w' io None [] → owns_step (lib_foot io lo es) w (lib_foot io None []) w' →
     lib_env w w' → cfg w' = cfg w → (tls_key (tls w) = true → tls_key (tls w') = true) → plan w' = plan w → Q tt w') →
  wp thread_exit w Q.
Proof.
  intros Hlib HQ. pose proof Hlib as [Hw Hm Hi Ht Hin Hd Hs Hn]. rewrite /thread_exit. do 2 wp_pure.
  rewrite /thread_state in Ht. destruct (tls_key (tls w)) eqn:Hk; cbn [andb when].
  - destruct lo as [l|].
    + destruct Ht as (_ & Hv & Hml). rewrite Hv. cbn [from_option id is_null negb andb when]. wp_pure.
      set (w1 := with_tls _ w). eapply (wp_destroy_list l es w1); [done|done|done|].
      intros w' Hr Ho Ht' Hc' Hos' Hs' He' Hp'.
      assert (Hst : mdc_step (Some l) es w None [] w').
      { destruct Ho as [Ho1 Ho2 Ho3 Ho4]. split; try done. intros t Hne. rewrite Ht' //. cbn. by rewrite lookup_insert_ne. }
      destruct (lib_mdc_step _ _ _ _ _ _ _ _ Hlib Hk Hst) as [Hl' Ho'].
      apply HQ; [done|done|by eapply lib_env_mdc|done|intros _; apply Hr|done].
    + destruct Ht as (_ & Hv & ->). rewrite Hv. cbn [is_null negb when]. apply wp_ret, HQ; try done.
      by eapply lib_owns.
  - destruct Ht as (-> & -> & _). cbn [when]. apply wp_ret, HQ; try done. by eapply lib_owns.
Qed.

Lemma refines_exit pn t w io L s :
  abs F pn w io L s → wp (run_call CallExit) (with_self t w) (refines pn t CallExit s).
Proof.
  intros Ha. pose proof (ab_plan _ _ _ _ _ _ Ha) as Hp. cbn [run_call].
  pose proof (sh_lib _ _ _ _ _ (ab_shared _ _ _ _ _ _ Ha) t) as Hlib.
  apply wp_bind. eapply wp_thread_exit; [exact Hlib|]. intros w' Hl Ho [He1 He2 He3 He4] Hc Hk Hp'. cbn in Hp'. rewrite Hp in Hp'.
  cbn in He1, He2, He3, He4, Hc, Hk. apply wp_ret. exists io, (<[t := (None, [])]> L).
  split; [done|]. destruct Ha as [? ? ? ? ? ? ? ? ? ? ?].
  eapply (abs_call F pn t w io L s); rewrite ?He2 ?Hc; try done.
  1: by apply call_ok_lib.
  1, 3: by rewrite /= fn_lookup_insert.
  1, 2: intros t' Hne; by rewrite /= fn_lookup_insert_ne.
  constructor.
Qed.

(** The calls that only touch the level, and time. *)
Lemma abs_set_level pn t level w io L s :
  abs F pn w io L s →
  abs F pn (with_cfg (with_level level (cfg w)) (with_self t w)) io L
    (Spec level (sp_init s) (sp_ident s) (sp_mdcs s) (sp_list s) (sp_time s) (sp_out s)).
Proof.
  intros [[Hl Hd Hfr Hap Hv] ? ? ? ? ? ? ? ? ? ?]. split; try done. split; [|done..].
  intros t'. by destruct (Hl t') as [? ? ? ? ? ? ? ?].
Qed.

Lemma abs_self pn t w io L s : abs F pn w io L s → abs F pn (with_self t w) io L s.
Proof. intros [[Hl Hd Hfr Hap Hv] ? ? ? ? ? ? ? ? ? ?]. by split. Qed.

Lemma run_call_refines pn t c w io L s :
  abs F pn w io L s → valid_call c → wp (run_call c) (with_self t w) (refines pn t c s).
Proof.
  intros Ha Hv. destruct c as [severity msg|level| |k v|k|k| |ident| |].
  - by eapply refines_write.
  - cbn [run_call]. rewrite /mdclog_level_set. wp_pure. apply wp_ret. exists io, L. split; [done|]. by apply (abs_set_level pn t level w).
  - cbn [run_call]. rewrite /mdclog_level_get. wp_pure. apply wp_ret. exists io, L. cbn. rewrite (ab_level _ _ _ _ _ _ Ha). split; [done|]. by apply abs_self.
  - by eapply refines_add.
  - by eapply refines_get.
  - by eapply refines_remove.
  - by eapply refines_clean.
  - by eapply refines_init.
  - by eapply refines_lib_clean.
  - by eapply refines_exit.
Qed.

Lemma run_event_refines pn e w io L s :
  abs F pn w io L s → valid e →
  wp (run_event e) w (λ r w', ∃ io' L', r = (sp_event pn e s).1 ∧ abs F pn w' io' L' (sp_event pn e s).2).
Proof.
  intros Ha Hv. destruct e as [t c|tv]; cbn [run_event sp_event].
  - wp_pure. eapply wp_mono; [by eapply run_call_refines|]. done.
  - wp_pure. apply wp_ret. exists io, L. split; [done|]. destruct Ha as [[Hl Hd Hfr Hap Hlv] ? ? ? ? ? ? ? ? ? ?].
    split; try done. split; [|done..]. intros t. by apply (lib_os pn (with_self t w)).
Qed.

Lemma run_events_refine pn es w io L s :
  abs F pn w io L s → Forall valid es →
  wp (run_events es) w (λ rs w', ∃ io' L', rs = (sp_events pn es s).1 ∧ abs F pn w' io' L' (sp_events pn es s).2).
Proof.
  intros Ha Hv. revert w io L s Ha. induction Hv as [|e es He _ IH]; intros w io L s Ha; cbn [run_events sp_events].
  - apply wp_ret. by exists io, L.
  - apply wp_bind. eapply wp_mono; [by eapply run_event_refines|]. intros r w1 (io1 & L1 & -> & Ha1).
    apply wp_bind. eapply wp_mono; [by eapply IH|]. intros rs w2 (io2 & L2 & -> & Ha2).
    apply wp_ret. exists io2, L2. destruct (sp_event pn e s) as [r s1]. cbn [fst snd] in *.
    by destruct (sp_events pn es s1).
Qed.

End calls.

Lemma boot_abs pn : is_str pn → zlen (esc pn) < INT_MAX →
  abs ∅ pn (boot (Lit pn 0)) None (λ _, (None, [])) sp_boot.
Proof.
  intros Hpn Hl. split; try done; [|intros t; constructor]. split; try done.
  intros b [x Hx]. by rewrite lookup_empty in Hx.
Qed.

(** ** Properties *)

(** C2: the public functions implement the abstract machine: from the start of the
    process, any sequence of calls by any threads, in any order, returns (nothing
    blocks, no memory is misused), gives each caller the machine's answer, and writes
    the machine's lines, in its order. *)
Theorem public_api_refines pn es :
  is_str pn → zlen (esc pn) < INT_MAX → Forall valid es →
  ∃ w', run_events es (boot (Lit pn 0)) = Ok (sp_events pn es sp_boot).1 w' ∧
    sys_stdout (os w') = sp_out (sp_events pn es sp_boot).2 ∧
    current_level (cfg w') = sp_level (sp_events pn es sp_boot).2.
Proof.
  intros Hpn Hl Hes. destruct (proj1 (wp_run _ _ _) (run_events_refine ∅ pn es _ _ _ _ (boot_abs pn Hpn Hl) Hes))
    as (rs & w' & Hrun & io & L & -> & Ha).
  exists w'. split_and!; [done|apply (ab_out _ _ _ _ _ _ Ha)|apply (ab_level _ _ _ _ _ _ Ha)].
Qed.

(** The states the process can be in. *)
Inductive reachable (pn : list Z) : world → Prop :=
| reachable_boot : reachable pn (boot (Lit pn 0))
| reachable_step w e r w' : reachable pn w → valid e → run_event e w = Ok r w' → reachable pn w'.

Section reached.
Context (pn : list Z) (Hpn : is_str pn) (Hlen : zlen (esc pn) < INT_MAX).

Lemma reachable_abs w : reachable pn w → ∃ io L s, abs ∅ pn w io L s.
Proof.
  induction 1 as [|w e r w' _ (io & L & s & Ha) He Hrun].
  - exists None, (λ _, (None, [])), sp_boot. by apply boot_abs.
  - apply (run_event_refines _ _ _ _ _ _ _ Ha) in He. rewrite /wp Hrun in He.
    destruct He as (io' & L' & _ & Ha'). by eexists _, _, _.
Qed.

(** C7: in every reachable state the lock is free, every thread's list is well formed
    (doubly linked, its strings terminated, its keys distinct), no two lists share a
    block, and the heap has no block but those of the lists and of the identity:
    nothing leaks. *)
Theorem reachable_shared w : reachable pn w → ∃ io L, shared ∅ pn w io L.
Proof. intros (io & L & s & Ha)%reachable_abs. exists io, L. apply (ab_shared _ _ _ _ _ _ Ha). Qed.

(** No call ever fails to return: in every reachable state, every valid call has a
    result. *)
Theorem reachable_progress w e : reachable pn w → valid e → ∃ r w', run_event e w = Ok r w'.
Proof.
  intros (io & L & s & Ha)%reachable_abs He. apply (run_event_refines _ _ _ _ _ _ _ Ha) in He.
  apply wp_run in He as (r & w' & Hrun & _). by eexists _, _.
Qed.
End reached.

(** ** Threads and blocks *)

Section isolation.
Implicit Types (s : spec) (es : list event).

(** What a call does to the MDCs of its own thread. *)
Definition own_mdcs (c : call) (l : list (list Z * list Z)) : list (list Z * list Z) :=
  match c with
  | CallAdd k v => if has_special k then l else al_put k (esc v) l
  | CallRemove k => al_remove k l
  | CallClean | CallExit => []
  | _ => l
  end.

Lemma sp_call_mdcs pn t c s t' :
  sp_mdcs (sp_call pn t c s).2 t' = if decide (t' = t) then own_mdcs c (sp_mdcs s t) else sp_mdcs s t'.
Proof.
  pose proof (sp_ready_proj pn s) as (_ & _ & H3 & _).
  destruct c; cbn; rewrite ?H3; try case_match; cbn; rewrite ?H3;
    (destruct (decide (t' = t)) as [->|Hne]; rewrite ?fn_lookup_insert ?fn_lookup_insert_ne //).
Qed.

Definition by_thread (t : positive) (e : event) : Prop :=
  match e with Call t' _ => t' = t | Tick _ => False end.

#[export] Instance by_thread_dec t e : Decision (by_thread t e).
Proof. destruct e; cbn; apply _. Defined.

Lemma sp_events_cons pn e es s :
  (sp_events pn (e :: es) s).2 = (sp_events pn es (sp_event pn e s).2).2.
Proof. cbn. destruct (sp_event pn e s) as [r s1]. cbn. by destruct (sp_events pn es s1). Qed.

Lemma sp_events_app pn es1 es2 s :
  (sp_events pn (es1 ++ es2) s).2 = (sp_events pn es2 (sp_events pn es1 s).2).2.
Proof.
  revert s. induction es1 as [|e es1 IH]; intros s; [done|].
  by rewrite -app_comm_cons !sp_events_cons IH.
Qed.

Lemma sp_events_isolated pn t es s1 s2 :
  sp_mdcs s1 t = sp_mdcs s2 t →
  sp_mdcs (sp_events pn es s1).2 t = sp_mdcs (sp_events pn (filter (by_thread t) es) s2).2 t.
Proof.
  revert s1 s2. induction es as [|e es IH]; intros s1 s2 Heq; [done|].
  rewrite filter_cons sp_events_cons. destruct e as [t' c|tv]; cbn [by_thread sp_event].
  - case_decide as Hd; [subst t'; rewrite sp_events_cons|]; apply IH; cbn [sp_event]; rewrite !sp_call_mdcs.
    + by rewrite Heq.
    + by rewrite decide_False.
  - case_decide; [done|]. by apply IH.
Qed.

Lemma sp_call_list_other pn t c s t' : t' ≠ t → sp_list (sp_call pn t c s).2 t' = sp_list s t'.
Proof.
  intros Hne. pose proof (sp_ready_proj pn s) as (_ & _ & _ & H4 & _).
  destruct c; cbn; rewrite ?H4; try case_match; cbn; rewrite ?H4 ?fn_lookup_insert_ne //.
Qed.

(** The threads that make calls. *)
Definition threads (es : list event) : list positive :=
  omap (λ e, match e with Call t _ => Some t | Tick _ => None end) es.

Lemma sp_events_list pn es s t : t ∉ threads es → sp_list (sp_events pn es s).2 t = sp_list s t.
Proof.
  revert s. induction es as [|e es IH]; intros s Ht; [done|]. rewrite sp_events_cons.
  destruct e as [t' c|tv]; cbn in Ht |- *.
  - apply not_elem_of_cons in Ht as [Hne Ht]. by rewrite IH // sp_call_list_other.
  - by rewrite IH.
Qed.

Definition exits (ts : list positive) : list event := (λ t, Call t CallExit) <$> ts.

Lemma sp_exits_list pn ts s t :
  sp_list s t = false ∨ t ∈ ts → sp_list (sp_events pn (exits ts) s).2 t = false.
Proof.
  revert s. induction ts as [|t' ts IH]; intros s Ht; [destruct Ht as [?|?%elem_of_nil]; done|].
  cbn [exits fmap list_fmap]. rewrite sp_events_cons. apply IH. cbn.
  destruct (decide (t = t')) as [->|Hne]; [left; by rewrite fn_lookup_insert|].
  rewrite fn_lookup_insert_ne //. destruct Ht as [?|[?|?]%elem_of_cons]; [by left|done|by right].
Qed.

(** A state of the process without lists and without an identity has no blocks but
    the frame's. *)
Lemma abs_empty F pn w io L s :
  abs F pn w io L s → (∀ t, sp_list s t = false) → sp_ident s = None → heap w = F.
Proof.
  intros Ha Hl Hid. pose proof (ab_shared _ _ _ _ _ _ Ha) as Hsh.
  apply map_eq. intros b. destruct (heap w !! b) as [x|] eqn:Hx.
  2: { destruct (F !! b) as [y|] eqn:Hy; [|done]. by rewrite (lookup_weaken _ _ _ _ Hy (sh_frame _ _ _ _ _ Hsh)) in Hx. }
  destruct (sh_live _ _ _ _ _ Hsh b) as [Hb|[(t & Hb)|Hb]]; [by eauto| | |].
  - pose proof (ab_ident _ _ _ _ _ _ Ha) as Hio. rewrite Hid in Hio. destruct io; [done|]. by apply not_elem_of_empty in Hb.
  - specialize (Hl t). rewrite (ab_list _ _ _ _ _ _ Ha) in Hl. apply bool_decide_eq_false in Hl.
    pose proof (lib_mdcs _ _ _ _ _ (sh_lib _ _ _ _ _ Hsh t)) as Ht. destruct (L t) as [[l|] es']; [by destruct Hl; eauto|].
    rewrite /thread_state /thread_mdcs in Ht. cbn in Ht, Hb.
    assert (es' = []) as ->; [|by apply not_elem_of_empty in Hb].
    destruct (tls_key (tls w)); [by destruct Ht as (_ & _ & ?)|by destruct Ht as (_ & ? & _)].
  - apply elem_of_dom in Hb as [y Hy]. rewrite Hy -Hx. by eapply lookup_weaken; [|apply (sh_frame _ _ _ _ _ Hsh)].
Qed.
End isolation.

(** C16: threads do not see each other's MDCs: whatever the others call in between, a
    thread reads what it would read if it were alone. *)
Theorem thread_isolation pn es t k :
  is_str pn → zlen (esc pn) < INT_MAX → Forall valid es → is_str k →
  ∃ rs1 w1 rs2 w2 v w1' w2',
    run_events es (boot (Lit pn 0)) = Ok rs1 w1 ∧
    run_events (filter (by_thread t) es) (boot (Lit pn 0)) = Ok rs2 w2 ∧
    run_event (Call t (CallGet k)) w1 = Ok (RStr v) w1' ∧
    run_event (Call t (CallGet k)) w2 = Ok (RStr v) w2'.
Proof.
  intros Hpn Hl Hes Hk. pose proof (boot_abs pn Hpn Hl) as Ha.
  destruct (proj1 (wp_run _ _ _) (run_events_refine ∅ pn es _ _ _ _ Ha Hes)) as (rs1 & w1 & Hrun1 & io1 & L1 & _ & Ha1).
  assert (Hes2 : Forall valid (filter (by_thread t) es)).
  { apply Forall_forall. intros e [_ He]%list_elem_of_filter. revert e He. by apply Forall_forall. }
  destruct (proj1 (wp_run _ _ _) (run_events_refine ∅ pn _ _ _ _ _ Ha Hes2)) as (rs2 & w2 & Hrun2 & io2 & L2 & _ & Ha2).
  destruct (proj1 (wp_run _ _ _) (run_event_refines ∅ pn (Call t (CallGet k)) _ _ _ _ Ha1 Hk)) as (r1 & w1' & Hg1 & ? & ? & -> & _).
  destruct (proj1 (wp_run _ _ _) (run_event_refines ∅ pn (Call t (CallGet k)) _ _ _ _ Ha2 Hk)) as (r2 & w2' & Hg2 & ? & ? & -> & _).
  cbn [sp_event sp_call fst] in Hg1, Hg2.
  rewrite (proj1 (proj2 (proj2 (sp_ready_proj pn _)))) in Hg1. rewrite (proj1 (proj2 (proj2 (sp_ready_proj pn _)))) in Hg2.
  rewrite -(sp_events_isolated pn t es sp_boot sp_boot) // in Hg2. by eexists _, _, _, _, _, _, _.
Qed.

(** C13: once every thread that made a call has ended and the library has been cleaned
    up, not a single block is left on the heap. *)
Theorem no_leaks pn es t0 :
  is_str pn → zlen (esc pn) < INT_MAX → Forall valid es →
  ∃ rs w, run_events (es ++ exits (threads es) ++ [Call t0 CallLibClean]) (boot (Lit pn 0)) = Ok rs w ∧ heap w = ∅.
Proof.
  intros Hpn Hl Hes. pose proof (boot_abs pn Hpn Hl) as Ha.
  assert (Hv : Forall valid (es ++ exits (threads es) ++ [Call t0 CallLibClean])).
  { apply Forall_app. split; [done|]. apply Forall_app. split; [|by repeat constructor].
    apply Forall_fmap, Forall_forall. done. }
  destruct (proj1 (wp_run _ _ _) (run_events_refine ∅ pn _ _ _ _ _ Ha Hv)) as (rs & w & Hrun & io & L & _ & Ha').
  exists rs, w. split; [done|]. eapply abs_empty; [exact Ha'| |by rewrite !sp_events_app].
  intros t. rewrite !sp_events_app /=. apply sp_exits_list.
  destruct (decide (t ∈ threads es)); [by right|left]. by rewrite sp_events_list.
Qed.

(** A small run: two threads with a value for the same key. *)
Definition demo : list event :=
  [Call 1 (CallAdd (lit "k") (lit "a")); Call 2 (CallAdd (lit "k") (lit "b")); Tick (2, 5000);
   Call 1 (CallWrite MDCLOG_ERR (lit "hi")); Call 2 CallExit; Call 1 (CallGet (lit "k"))].

Lemma demo_valid : Forall valid demo.
Proof. by repeat constructor. Qed.

Lemma app_name : is_str (lit "app") ∧ zlen (esc (lit "app")) < INT_MAX.
Proof. split; [by repeat constructor|by vm_compute]. Qed.

Lemma public_api_refines_witness : ∃ w',
  run_events demo (boot (Lit (lit "app") 0)) =
    Ok [RInt 0; RInt 0; RNone; RNone; RNone; RStr (Some (lit "a"))] w' ∧
  sys_stdout (os w') = [qlit "{'ts':2005,'crit':'ERROR','id':'app','mdc':{'k':'a'},'msg':'hi'}" ++ [NL]].
Proof.
  destruct app_name as [H1 H2].
  destruct (public_api_refines (lit "app") demo H1 H2 demo_valid) as (w' & Hrun & Hout & _).
  assert (Hr : (sp_events (lit "app") demo sp_boot).1 =
    [RInt 0; RInt 0; RNone; RNone; RNone; RStr (Some (lit "a"))]) by (vm_compute; reflexivity).
  assert (Ho : sp_out (sp_events (lit "app") demo sp_boot).2 =
    [qlit "{'ts':2005,'crit':'ERROR','id':'app','mdc':{'k':'a'},'msg':'hi'}" ++ [NL]]) by (vm_compute; reflexivity).
  exists w'. rewrite -Hr -Ho. split; [exact Hrun|exact Hout].
Defined.

Lemma reachable_shared_witness : ∃ io L, shared ∅ (lit "app") (boot (Lit (lit "app") 0)) io L.
Proof.
  destruct app_name as [H1 H2].
  exact (reachable_shared (lit "app") H1 H2 _ (reachable_boot (lit "app"))).
Defined.

Lemma reachable_progress_witness : ∃ r w',
  run_event (Call 7 (CallAdd (lit "k") (lit "v"))) (boot (Lit (lit "app") 0)) = Ok r w'.
Proof.
  destruct app_name as [H1 H2].
  exact (reachable_progress (lit "app") H1 H2 _ (Call 7 (CallAdd (lit "k") (lit "v")))
    (reachable_boot (lit "app")) ltac:(by repeat constructor)).
Defined.

Lemma thread_isolation_witness : ∃ rs1 w1 rs2 w2 v w1' w2',
  run_events demo (boot (Lit (lit "app") 0)) = Ok rs1 w1 ∧
  run_events (filter (by_thread 1) demo) (boot (Lit (lit "app") 0)) = Ok rs2 w2 ∧
  run_event (Call 1 (CallGet (lit "k"))) w1 = Ok (RStr v) w1' ∧
  run_event (Call 1 (CallGet (lit "k"))) w2 = Ok (RStr v) w2'.
Proof.
  destruct app_name as [H1 H2].
  exact (thread_isolation (lit "app") demo 1 (lit "k") H1 H2 demo_valid ltac:(by repeat constructor)).
Defined.

Lemma no_leaks_witness : ∃ rs w,
  run_events (demo ++ exits (threads demo) ++ [Call 1 CallLibClean]) (boot (Lit (lit "app") 0)) = Ok rs w ∧
  heap w = ∅.
Proof.
  destruct app_name as [H1 H2]. exact (no_leaks (lit "app") demo 1 H1 H2 demo_valid).
Defined.
