(* ===== verification/Faults.v ===== *)
(** The library when memory runs out.

    Threads.v assumes that every allocation succeeds.  Here each call meets whatever
    outcomes the plan prescribes.  [f_call] is the machine of Threads.v with the
    outcomes as its input: it draws one for each allocation the code makes, in the
    code's order ([supply]).  A call that does not get its memory does less: the
    identity is missing, the thread has no list, a line is dropped, a value is not
    copied; a list that cannot be made the value of the key is lost.  One failure is
    not survived: when the strings of an entry cannot be copied, the entry is freed
    while it is in the list ([Torn]), and the machine stops. *)

From stdpp Require Import functions.
From S2P Require Import Prelude World Memory Libc Escape MdcIface Mdc JsonFormat Mdclog Within Api Threads.

(** ** The machine *)

(** Initialised, with an identity or without. *)
Definition named (id : option (list Z)) (s : spec) : spec :=
  Spec (sp_level s) true id (sp_mdcs s) (sp_list s) (sp_time s) (sp_out s).

Definition f_ready (pn : list Z) (s : spec) : supply spec :=
  id ← ready_outcome pn (sp_init s) (sp_ident s);
  mret (named id s).

(** The list of a call, and whether a block was lost for it. *)
Definition f_start (pn : list Z) (t : positive) (s : spec) : supply (spec * bool) :=
  s' ← f_ready pn s;
  '(has, lost) ← make_list (sp_list s t);
  mret (if (has : bool) then sp_touch t s' else s', lost).

(** The answer of a call, the state after it and whether it lost a block. *)
Abbreviation f_result := (option (reply * spec * bool)).

Definition fine (r : reply) (s : spec) (lost : bool) : supply f_result := mret (Some (r, s, lost)).

(** The name an initialisation sets. *)
Definition f_name (pn : list Z) (ident : option (list Z)) : supply (option (list Z)) :=
  match ident with
  | None => default_outcome pn
  | Some i =>
      attr ← draw;
      if (attr : bool) then copy ← draw; if (copy : bool) then mret (Some i) else default_outcome pn
      else default_outcome pn
  end.

Definition f_call (pn : list Z) (t : positive) (c : call) (s : spec) : supply f_result :=
  match c with
  | CallWrite severity msg =>
      if sp_level s <? severity then fine RNone s false
      else
        s' ← f_ready pn s;
        '(has, lost, line) ← line_outcome (sp_list s t) (sp_time s) severity (log_name (sp_ident s')) (sp_mdcs s t) msg;
        let s'' := if (has : bool) then sp_touch t s' else s' in
        fine RNone (sp_print (match line with Some l => [l ++ [NL]] | None => [] end) s'') lost
  | CallAdd k v =>
      if has_special k then fine (RInt (-1)) s false
      else
        s' ← f_ready pn s;
        r ← put_outcome (sp_list s t) (bool_decide (k ∈ al_keys (sp_mdcs s t)));
        match r with
        | Stored => fine (RInt 0) (sp_set t (al_put k (esc v) (sp_mdcs s t)) s') false
        | NoRoom => fine (RInt (-1)) (sp_touch t s') false
        | NoList lost => fine (RInt (-1)) s' lost
        | Torn => mret None
        end
  | CallGet k =>
      '(s', lost) ← f_start pn t s;
      match al_get k (sp_mdcs s t) with
      | Some v => copy ← draw; fine (RStr (if (copy : bool) then Some v else None)) s' lost
      | None => fine (RStr None) s' lost
      end
  | CallRemove k =>
      '(s', lost) ← f_start pn t s;
      fine RNone (if sp_list s' t then sp_set t (al_remove k (sp_mdcs s t)) s' else s') lost
  | CallClean =>
      '(s', lost) ← f_start pn t s;
      fine RNone (if sp_list s' t then sp_set t [] s' else s') lost
  | CallInit ident =>
      id ← f_name pn ident;
      fine (RInt 0) (named id s) false
  | CallLevelSet _ | CallLevelGet | CallLibClean | CallExit =>
      let '(r, s') := sp_call pn t c s in fine r s' false
  end.

Definition f_event (pn : list Z) (e : event) (s : spec) : supply f_result :=
  match e with
  | Call t c => f_call pn t c s
  | Tick tv => let '(r, s') := sp_event pn (Tick tv) s in fine r s' false
  end.

(** The answers, the last state and the number of lost blocks; nothing if a call stopped
    the machine. *)
Fixpoint f_events (pn : list Z) (es : list event) (s : spec) : supply (option (list reply * spec * nat)) :=
  match es with
  | [] => mret (Some ([], s, 0%nat))
  | e :: es' =>
      a ← f_event pn e s;
      match a with
      | None => mret None
      | Some (r, s1, lost) =>
          rest ← f_events pn es' s1;
          mret ((λ '(rs, s2, n), (r :: rs, s2, if (lost : bool) then S n else n)) <$> rest)
      end
  end.

(** ** The calls of the MDC functions *)

Definition result_list (r : put_result) : bool := match r with NoList _ => false | _ => true end.
Definition result_lost (r : put_result) : bool := match r with NoList lost => lost | _ => false end.
Definition result_code (r : put_result) : Z := match r with Stored => 0 | _ => -1 end.
Definition result_mdcs (r : put_result) (k v : list Z) (l : list (list Z * list Z)) : list (list Z * list Z) :=
  match r with Stored => al_put k v l | _ => l end.

(** A thread that has a list keeps it. *)
Lemma put_outcome_list found p r p' : put_outcome true found p = (r, p') → result_list r = true.
Proof. rewrite /put_outcome /= /put_copies /mbind /supply_bind /draw. repeat case_match; by intros [= <- _]. Qed.

Section rules.
Implicit Types (w : world) (es : list ent) (lo : option positive) (io : option (positive * list Z)).

(** The list at the beginning of a call. *)
Definition start_outcome (pn : list Z) (w : world) (io : option (positive * list Z)) (lo : option positive) :
    supply (option (list Z) * (bool * bool)) :=
  id ← ready_outcome pn (negb (init_done (cfg w) =? 0)) (snd <$> io);
  hl ← make_list (is_list lo);
  mret (id, hl).

Definition add_outcome (pn : list Z) (w : world) (io : option (positive * list Z)) (lo : option positive)
    (found : bool) : supply (option (list Z) * put_result) :=
  id ← ready_outcome pn (negb (init_done (cfg w) =? 0)) (snd <$> io);
  r ← put_outcome (is_list lo) found;
  mret (id, r).

Lemma wp_mdc_add_any pn w io lo es key k value v (Q : Z → world → Prop) :
  lib pn w io lo es → get_cstr (heap w) key = Some k → outside (lib_foot io lo es) key → has_special k = false →
  get_cstr (heap w) value = Some v → outside (lib_foot io lo es) value →
  zlen k ≤ INT_MAX → zlen (esc v) + 1 < 2 ^ 64 →
  let out := add_outcome pn w io lo (bool_decide (k ∈ al_keys (mdcs es))) (plan w) in
  (∀ io' lo' es' c r w', out = (snd <$> io', r, plan w') → r ≠ Torn →
     lib_give pn w io lo es (lost_list (result_lost r) c) w' io' lo' es' →
     is_list lo' = result_list r → mdcs es' = result_mdcs r k (esc v) (mdcs es) →
     (r ≠ Stored → errno w' = ENOMEM) → Q (result_code r) w') →
  (∀ id w', out = (id, Torn, plan w') → torn w' k → init_done (cfg w') ≠ 0 → self w' = self w →
     errno w' = ENOMEM → Q (-1) w') →
  wp (mdclog_mdc_add key value) w Q.
Proof.
  intros Hlib Hk Hko Hsp Hv Hvo Hkl Hvl out HQ HT. rewrite /mdclog_mdc_add.
  rewrite (get_cstr_not_null _ _ _ Hk) (get_cstr_not_null _ _ _ Hv).
  apply wp_bind. step wp_contains_special; [done..|]. rewrite Hsp. cbn [Z.eqb negb]. apply wp_ret.
  apply wp_bind. eapply wp_init_library_any; [done..|]. intros io1 w1 Hr1 Hlib1 Hkey1 Hd1 Ho1 He1 _ _.
  pose proof (lib_wf _ _ _ _ _ Hlib) as Hw.
  pose proof (outside_step _ _ _ _ _ _ Ho1 Hw Hko Hk) as Hko1.
  pose proof (outside_step _ _ _ _ _ _ Ho1 Hw Hvo Hv) as Hvo1.
  assert (Hgive : ∀ G w' lo' es', mdc_give lo es w1 G lo' es' w' → lib_give pn w io lo es G w' io1 lo' es').
  { intros. by eapply lib_give_intro. }
  assert (Hout : ∀ r w2, put_outcome (is_list lo) (bool_decide (k ∈ al_keys (mdcs es))) (plan w1) = (r, plan w2) →
    out = (snd <$> io1, r, plan w2)).
  { intros r w2 Hr. by rewrite /out /add_outcome (supply_bind_eq _ _ _ _ _ Hr1) (supply_bind_eq _ _ _ _ _ Hr). }
  eapply (wp_put_any lo es); [by eapply lib_thread|apply Hlib1|by eapply get_cstr_step
    |by eapply outside_union|by eapply get_cstr_step|by eapply outside_union|done|..].
  - intros l es' w2 Ho Hst Hes He. eapply (HQ io1 (Some l) es' 1%positive Stored); try done;
      [by apply Hout|by apply Hgive, mdc_step_give].
  - intros l w2 Ho Hst He. eapply (HQ io1 (Some l) es 1%positive NoRoom); try done;
      [by apply Hout|by apply Hgive, mdc_step_give].
  - intros lost w2 Ho -> Hst. pose proof (lib_thread _ _ _ _ _ Hlib1 Hkey1) as Ht. assert (Hes := Ht).
    destruct Hes as (_ & _ & ->).
    eapply (HQ io1 None [] (next w1) (NoList lost)); try done; [by apply Hout| |intros _; apply Hst].
    apply Hgive, lost_step_give; [done|apply Hlib1|done].
  - intros w2 Ho Htn Hc _ Hs He. eapply HT; [by apply Hout|done|by rewrite Hc| |done]. rewrite Hs. apply He1.
Qed.

(** What the list functions have in common. *)
Lemma start_give pn w io lo es w1 io1 lo' lost w2 :
  lib pn w1 io1 lo es → tls_key (tls w1) = true → init_done (cfg w1) ≠ 0 →
  owns_step (lib_foot io lo es) w (lib_foot io1 lo es) w1 → lib_env w w1 →
  ready_outcome pn (negb (init_done (cfg w) =? 0)) (snd <$> io) (plan w) = (snd <$> io1, plan w1) →
  make_list (is_list lo) (plan w1) = (is_list lo', lost, plan w2) →
  start_outcome pn w io lo (plan w) = (snd <$> io1, (is_list lo', lost), plan w2) ∧
  ∀ es' w', mdc_give lo es w1 (lost_list lost (next w1)) lo' es' w' →
    lib_give pn w io lo es (lost_list lost (next w1)) w' io1 lo' es'.
Proof.
  intros Hlib Hk Hd Ho He Hr Hl. split.
  - by rewrite /start_outcome (supply_bind_eq _ _ _ _ _ Hr) (supply_bind_eq _ _ _ _ _ Hl).
  - intros. by eapply lib_give_intro.
Qed.

Lemma thread_no_list w t es : thread_mdcs w t None es → es = [].
Proof. by intros (_ & _ & ->). Qed.

Lemma wp_mdc_remove_any pn w io lo es key k (Q : unit → world → Prop) :
  lib pn w io lo es → get_cstr (heap w) key = Some k → outside (lib_foot io lo es) key →
  (∀ io' lo' lost es' c w', start_outcome pn w io lo (plan w) = (snd <$> io', (is_list lo', lost), plan w') →
     lib_give pn w io lo es (lost_list lost c) w' io' lo' es' → mdcs es' = al_remove k (mdcs es) → Q tt w') →
  wp (mdclog_mdc_remove key) w Q.
Proof.
  intros Hlib Hk Hko HQ. rewrite /mdclog_mdc_remove (get_cstr_not_null _ _ _ Hk).
  apply wp_bind. eapply wp_init_library_any; [done..|]. intros io1 w1 Hr1 Hlib1 Hkey1 Hd1 Ho1 He1 _ _.
  pose proof (lib_thread _ _ _ _ _ Hlib1 Hkey1) as Ht.
  eapply (wp_rm_any lo es); [exact Ht|apply Hlib1|
    eapply get_cstr_step; [done|apply (lib_wf _ _ _ _ _ Hlib)|done|done]|..].
  - intros l es' w2 Hl Hst Hes _.
    destruct (start_give _ _ _ _ _ _ _ (Some l) _ _ Hlib1 Hkey1 Hd1 Ho1 He1 Hr1 Hl) as [Hout Hg].
    eapply HQ; [exact Hout|by apply Hg, mdc_step_give|done].
  - intros lost w2 -> Hl Hst.
    destruct (start_give _ _ _ _ _ _ _ None _ _ Hlib1 Hkey1 Hd1 Ho1 He1 Hr1 Hl) as [Hout Hg].
    pose proof (thread_no_list _ _ _ Ht) as ->.
    eapply HQ; [exact Hout|apply Hg, lost_step_give; [done|apply Hlib1|done]|done].
Qed.

Lemma wp_mdc_clean_any pn w io lo es (Q : unit → world → Prop) :
  lib pn w io lo es →
  (∀ io' lo' lost c w', start_outcome pn w io lo (plan w) = (snd <$> io', (is_list lo', lost), plan w') →
     lib_give pn w io lo es (lost_list lost c) w' io' lo' [] → Q tt w') →
  wp mdclog_mdc_clean w Q.
Proof.
  intros Hlib HQ. rewrite /mdclog_mdc_clean.
  apply wp_bind. eapply wp_init_library_any; [done..|]. intros io1 w1 Hr1 Hlib1 Hkey1 Hd1 Ho1 He1 _ _.
  pose proof (lib_thread _ _ _ _ _ Hlib1 Hkey1) as Ht.
  eapply (wp_clean_any lo es); [exact Ht|apply Hlib1|..].
  - intros l w2 Hl Hst _.
    destruct (start_give _ _ _ _ _ _ _ (Some l) _ _ Hlib1 Hkey1 Hd1 Ho1 He1 Hr1 Hl) as [Hout Hg].
    eapply HQ; [exact Hout|by apply Hg, mdc_step_give].
  - intros lost w2 -> Hl Hst.
    destruct (start_give _ _ _ _ _ _ _ None _ _ Hlib1 Hkey1 Hd1 Ho1 He1 Hr1 Hl) as [Hout Hg].
    pose proof (thread_no_list _ _ _ Ht) as ->.
    eapply HQ; [exact Hout|apply Hg, lost_step_give; [done|apply Hlib1|done]].
Qed.

Lemma wp_mdc_get_any pn w io lo es key k (Q : ptr → world → Prop) :
  lib pn w io lo es → get_cstr (heap w) key = Some k → outside (lib_foot io lo es) key →
  (∀ io' lo' lost c w', start_outcome pn w io lo (plan w) = (snd <$> io', (is_list lo', lost), plan w') →
     lib_give pn w io lo es (lost_list lost c) w' io' lo' es →
     match al_get k (mdcs es) with
     | None => Q Null w'
     | Some v => is_str v →
         if plan_ok (plan w') then Q (Ptr (next w') 0) (malloc_world (cstr_block v) w') else Q Null (enomem_world w')
     end) →
  wp (mdclog_mdc_get key) w Q.
Proof.
  intros Hlib Hk Hko HQ. rewrite /mdclog_mdc_get (get_cstr_not_null _ _ _ Hk).
  apply wp_bind. eapply wp_init_library_any; [done..|]. intros io1 w1 Hr1 Hlib1 Hkey1 Hd1 Ho1 He1 _ _.
  pose proof (lib_wf _ _ _ _ _ Hlib) as Hw. pose proof (lib_thread _ _ _ _ _ Hlib1 Hkey1) as Ht.
  apply wp_bind. eapply (wp_search_any lo es); [exact Ht|apply Hlib1|by eapply get_cstr_step|..].
  - intros l w2 _ Hst _ Hl _.
    destruct (start_give _ _ _ _ _ _ _ (Some l) _ _ Hlib1 Hkey1 Hd1 Ho1 He1 Hr1 Hl) as [Hout Hg].
    specialize (HQ _ _ _ _ _ Hout (Hg _ _ (mdc_step_give _ _ _ _ _ _ Hst))). rewrite find_ent_get in HQ.
    destruct (find_ent k es) as [e|] eqn:Hf; cbn [ent_ptr is_null e_ptr negb fmap option_fmap option_map] in *;
      [|by apply wp_ret].
    apply find_ent_some in Hf as [<- (es1 & es2 & ->)].
    pose proof (ms_repr _ _ _ _ _ _ Hst) as (_ & _ & [_ Hs _ _]).
    apply seg_app in Hs as (_ & Hn & [_ Hv _ Hvs] & _). specialize (HQ Hvs).
    rewrite /mdclog_internal_get_mdc_val /get_value. cbn [is_null].
    step wp_get_field; [done|]. cbn [mdc_value e_mdc].
    eapply wp_strdup; [by apply get_cstr_block|..]; intros Hp; by rewrite Hp in HQ.
  - intros lost w2 -> Hl Hst.
    destruct (start_give _ _ _ _ _ _ _ None _ _ Hlib1 Hkey1 Hd1 Ho1 He1 Hr1 Hl) as [Hout Hg].
    pose proof (thread_no_list _ _ _ Ht) as ->. cbn [is_null negb]. apply wp_ret.
    eapply (HQ io1 None lost); [exact Hout|]. apply Hg, lost_step_give; [done|apply Hlib1|done].
Qed.

(** ** Initialisation *)

Lemma wp_mdclog_init_any pn w io lo es attr (Q : Z → world → Prop) :
  lib pn w io lo es → no_identity w (lib_foot io lo es) attr →
  (∀ io' w', default_outcome pn (plan w) = (snd <$> io', plan w') → lib pn w' io' lo es → init_done (cfg w') ≠ 0 →
     owns_step (lib_foot io lo es) w (lib_foot io' lo es) w' → lib_env w w' → Q 0 w') →
  wp (mdclog_init attr) w Q.
Proof.
  intros Hlib Hno HQ. rewrite /mdclog_init /set_init_done /set_format_done. wp_pure. wp_pure.
  apply lib_reinit in Hlib as Hlib0. apply wp_bind. eapply wp_init_library_any; [exact Hlib0|exact Hno|].
  intros io1 w1 Hr1 Hlib1 _ Hd1 [H1 H2 H3 H4] [H5 H6 H7 H8] _ _. apply wp_ret. by apply (HQ io1).
Qed.

(** The end of [configure] with an object that has no name, or none at all. *)
Lemma wp_configure_end pn w w2 io lo es b0 p A (Q : Z → world → Prop) :
  lib pn w2 io lo es → owns_step (lib_foot io lo es) w (lib_foot io lo es ∪ A) w2 → lib_env w w2 →
  heap w2 !! b0 = Some (BAttrPtr p) → lib_foot io lo es ## A → (∀ b, b ∈ A → is_Some (heap w2 !! b)) →
  match p with
  | Null => A = {[b0]}
  | Ptr a 0 => heap w2 !! a = Some (BAttr Null) ∧ A = {[a; b0]}
  | _ => False
  end →
  (∀ io' w', default_outcome pn (plan w2) = (snd <$> io', plan w') → lib pn w' io' lo es → init_done (cfg w') ≠ 0 →
     owns_step (lib_foot io lo es) w (lib_foot io' lo es) w' → lib_env w w' → Q 0 w') →
  wp (r ← mdclog_init p; mdclog_attr_destroy p ;; free (Ptr b0 0) ;; mret r) w2 Q.
Proof.
  intros Hlib Ho He Hb0 Hdis Hlive Hp HQ. pose proof (lib_wf _ _ _ _ _ Hlib) as Hw2.
  apply wp_bind. eapply wp_mdclog_init_any; [exact Hlib| |].
  { destruct p as [|a [| |]|]; try done. destruct Hp as [Ha ->]. split; [done|]. intros Hin.
    apply (proj1 (elem_of_disjoint _ _) Hdis a); [done|]. apply elem_of_union_l. by apply elem_of_singleton. }
  intros io' w3 Hout Hlib3 Hd3 Ho3 He3.
  assert (Hlt : ∀ b, b ∈ A → (b ∉ lib_foot io lo es) ∧ (b < next w2)%positive).
  { intros b Hb. split; [intros Hin; by apply (proj1 (elem_of_disjoint _ _) Hdis b)|].
    destruct (Hlive b Hb). by eapply wf_heap_lt. }
  assert (HA : ∀ b, b ∈ A → heap w3 !! b = heap w2 !! b).
  { intros b [? ?]%Hlt. by apply (step_frame _ _ _ _ Ho3). }
  assert (HA' : lib_foot io' lo es ## A).
  { apply elem_of_disjoint. intros b [[Hb|Hb] _]%(step_owned _ _ _ _ Ho3) [? ?]%Hlt; [done|lia]. }
  pose proof (owns_step_trans _ _ _ _ _ _ Ho (owns_step_frame _ _ _ _ A Ho3 Hw2 Hdis Hlive)) as Ho4.
  assert (Hend : ∀ h, owns_step (lib_foot io lo es) w (lib_foot io' lo es) (with_heap h w3) →
    (∀ b, b ∉ A → h !! b = heap w3 !! b) → Q 0 (with_heap h w3)).
  { intros h Hoh Hh. apply (HQ io'); [done| |done|done|].
    - eapply lib_heap; [exact Hlib3|apply (step_wf _ _ _ _ Hoh)|apply (lib_mutex _ _ _ _ _ Hlib3)|done..|].
      intros b Hb. apply Hh. intros HbA. by apply (proj1 (elem_of_disjoint _ _) HA' b).
    - eapply lib_env_trans; [exact He|]. by destruct He3. }
  assert (Hdiff : ∀ X, X = A → (lib_foot io' lo es ∪ A) ∖ X = lib_foot io' lo es).
  { intros X ->. rewrite difference_union_distr_l_L difference_diag_L right_id_L. by apply difference_disjoint_L. }
  destruct p as [|a [| |]|]; try done.
  - subst A. rewrite {1}/mdclog_attr_destroy. cbn [is_null negb when]. wp_pure.
    assert (Hin : b0 ∈ lib_foot io' lo es ∪ {[b0]}) by (apply elem_of_union_r; by apply elem_of_singleton).
    step wp_free; [rewrite HA; [exact Hb0|by apply elem_of_singleton]|]. apply wp_ret, Hend.
    + apply (owns_step_free _ _ _ _ _ Ho4) in Hin. by rewrite Hdiff in Hin.
    + intros b Hb. rewrite lookup_delete_ne //. intros <-. apply Hb. by apply elem_of_singleton.
  - destruct Hp as [Ha ->]. assert (Hne : a ≠ b0) by congruence.
    assert (HinA : a ∈ ({[a; b0]} : gset positive) ∧ b0 ∈ ({[a; b0]} : gset positive)) by set_solver. destruct HinA as [Ha1 Hb1].
    step (wp_attr_destroy a None); [cbn [attr_at]; by rewrite HA|].
    step wp_free; [rewrite /= lookup_delete_ne // HA; [exact Hb0|done]|]. apply wp_ret. cbn.
    apply (owns_step_free _ _ _ _ a) in Ho4 as Ho5; [|by apply elem_of_union_r].
    apply (owns_step_free _ _ _ _ b0) in Ho5 as Ho6; [|rewrite elem_of_difference elem_of_union elem_of_singleton; split; [by right|congruence]].
    apply Hend.
    + rewrite difference_difference_l_L Hdiff // in Ho6.
    + intros b Hb. rewrite lookup_delete_ne; [|set_solver]. rewrite lookup_delete_ne //. set_solver.
Qed.

Lemma lib_after_alloc pn w io lo es h n p e :
  lib pn w io lo es → (next w ≤ n)%positive → (∀ b, (n ≤ b)%positive → h !! b = None) →
  (∀ b, (b < next w)%positive → h !! b = heap w !! b) →
  lib pn (World h n p e (self w) (tls w) (cfg w) (os w)) io lo es.
Proof.
  intros Hlib Hn Hwf Hh. pose proof (lib_wf _ _ _ _ _ Hlib) as Hw.
  eapply lib_heap; [exact Hlib|exact Hwf|apply (lib_mutex _ _ _ _ _ Hlib)|done..|].
  intros b Hb. destruct (lib_foot_live _ _ _ _ _ _ Hlib Hb) as [x Hx]. apply Hh. by eapply wf_heap_lt.
Qed.

(** The blocks of the library are older than the next one. *)
Lemma lib_foot_old pn w io lo es : lib pn w io lo es → ∀ b, b ∈ lib_foot io lo es → (b < next w)%positive.
Proof.
  intros Hlib b Hb. destruct (lib_foot_live _ _ _ _ _ _ Hlib Hb) as [x Hx]. eapply wf_heap_lt; [|done].
  apply (lib_wf _ _ _ _ _ Hlib).
Qed.

(** The object cannot take a copy of the name. *)
Lemma wp_configure_no_copy pn w io lo es ident s (Q : Z → world → Prop) :
  lib pn w io lo es → get_cstr (heap w) ident = Some s → good_ident s →
  plan_ok (plan w) = true → plan_ok (tail (plan w)) = false →
  (∀ io' w', f_name pn (Some s) (plan w) = (snd <$> io', plan w') → lib pn w' io' lo es → init_done (cfg w') ≠ 0 →
     owns_step (lib_foot io lo es) w (lib_foot io' lo es) w' → lib_env w w' → Q 0 w') →
  wp (configure ident) w Q.
Proof.
  intros Hlib Hc Hg Hp1 Hp2 HQ. pose proof (lib_wf _ _ _ _ _ Hlib) as Hw. pose proof (lib_owns _ _ _ _ _ Hlib) as Ho.
  rewrite /f_name /mbind /supply_bind /draw Hp1 Hp2 in HQ. set (b0 := next w).
  pose proof (lib_foot_old _ _ _ _ _ Hlib) as Hfresh.
  rewrite /configure. step wp_alloc. step wp_attr_init; [apply lookup_insert_eq|by apply wf_heap_alloc| |].
  2: { cbn. by rewrite Hp1. }
  intros _. fold b0. set (a := Pos.succ b0).
  step wp_load_attr_ptr; [by rewrite /= lookup_insert_ne ?lookup_insert_eq; last lia|].
  set (w1 := with_heap _ _).
  assert (Hc1 : get_cstr (heap w1) ident = Some s).
  { apply (get_cstr_agree (heap w) _ ∅); [|intros b _; apply not_elem_of_empty|done].
    intros c _ [x Hx]. pose proof (wf_heap_lt _ _ _ Hw Hx). rewrite /= !lookup_insert_ne; [done|unfold b0; lia..]. }
  step wp_attr_set_ident; [apply lookup_insert_eq|exact Hc1|destruct Hg; unfold INT_MAX, IDENTITY_MAX_LENGTH in *; lia| | | |].
  + intros c Hc'. cbn in Hc' |- *. rewrite !lookup_insert_ne; [apply Hw; lia|unfold b0; lia..].
  + intros _. cbn. by rewrite Hp2.
  + intros _ _. set (w2 := with_heap _ _).
    assert (Hne : a ≠ b0) by (unfold a; lia).
    eapply (wp_configure_end pn w w2 io lo es b0 (Ptr a 0) {[a; b0]}); [| | | | | | |exact HQ].
    * apply (lib_after_alloc _ w); [done|cbn; lia|..]; intros b Hb; cbn in Hb |- *;
        rewrite !lookup_insert_ne; first [done|unfold a, b0 in *; lia|apply Hw; lia].
    * apply (owns_step_alloc_more _ _ _ _ (BAttrPtr (Ptr a 0))) in Ho as Ho1.
      apply (owns_step_alloc_more _ _ _ _ (BAttr Null)) in Ho1.
      eapply (owns_step_same _ _ _ (alloc_world (BAttr Null) (alloc_world (BAttrPtr (Ptr a 0)) w)));
        [|by rewrite /= !insert_insert_eq|done].
      replace (lib_foot io lo es ∪ {[a; b0]}) with (lib_foot io lo es ∪ {[next w]} ∪ {[next (alloc_world (BAttrPtr (Ptr a 0)) w)]}); [done|].
      change (next (alloc_world _ w)) with a. fold b0. apply set_eq. intros b. rewrite !elem_of_union. tauto.
    * done.
    * cbn. by rewrite lookup_insert_ne // lookup_insert_ne // lookup_insert_eq.
    * apply elem_of_disjoint. intros b Hb%Hfresh [->%elem_of_singleton| ->%elem_of_singleton]%elem_of_union; unfold a in *; lia.
    * intros b [->%elem_of_singleton| ->%elem_of_singleton]%elem_of_union; cbn; [rewrite lookup_insert_eq; by eauto|].
      rewrite lookup_insert_ne // lookup_insert_ne // lookup_insert_eq. by eauto.
    * split; [apply lookup_insert_eq|done].
  + done.
Qed.

(** There is no object. *)
Lemma wp_configure_no_attr pn w io lo es ident s (Q : Z → world → Prop) :
  lib pn w io lo es → plan_ok (plan w) = false →
  (∀ io' w', f_name pn (Some s) (plan w) = (snd <$> io', plan w') → lib pn w' io' lo es → init_done (cfg w') ≠ 0 →
     owns_step (lib_foot io lo es) w (lib_foot io' lo es) w' → lib_env w w' → Q 0 w') →
  wp (configure ident) w Q.
Proof.
  intros Hlib Hp1 HQ. pose proof (lib_wf _ _ _ _ _ Hlib) as Hw. pose proof (lib_owns _ _ _ _ _ Hlib) as Ho.
  rewrite /f_name /mbind /supply_bind /draw Hp1 in HQ. set (b0 := next w).
  pose proof (lib_foot_old _ _ _ _ _ Hlib) as Hfresh.
  rewrite /configure. step wp_alloc. step wp_attr_init; [apply lookup_insert_eq|by apply wf_heap_alloc|cbn; by rewrite Hp1|].
  intros _. fold b0. step wp_load_attr_ptr; [apply lookup_insert_eq|].
  step (wp_attr_set_ident_null Null); [by left|]. set (w2 := with_errno _ _).
  eapply (wp_configure_end pn w w2 io lo es b0 Null {[b0]}); [| | | | | |done|exact HQ].
  + apply (lib_after_alloc _ w); [done|cbn; lia|..]; intros b Hb; cbn in Hb |- *;
      rewrite !lookup_insert_ne; first [done|unfold b0 in *; lia|apply Hw; lia].
  + apply (owns_step_alloc_more _ _ _ _ (BAttrPtr Null)) in Ho.
    eapply owns_step_same; [exact Ho|cbn; by rewrite insert_insert_eq|done].
  + done.
  + apply lookup_insert_eq.
  + apply elem_of_disjoint. intros b Hb%Hfresh ->%elem_of_singleton. lia.
  + intros b ->%elem_of_singleton. cbn. rewrite lookup_insert_eq. by eauto.
Qed.

(** A program names itself, whatever memory there is. *)
Lemma wp_configure_any pn w io lo es ident s (Q : Z → world → Prop) :
  lib pn w io lo es → get_cstr (heap w) ident = Some s → good_ident s →
  (∀ io' w', f_name pn (Some s) (plan w) = (snd <$> io', plan w') → lib pn w' io' lo es → init_done (cfg w') ≠ 0 →
     owns_step (lib_foot io lo es) w (lib_foot io' lo es) w' → lib_env w w' → Q 0 w') →
  wp (configure ident) w Q.
Proof.
  intros Hlib Hc Hg HQ.
  destruct (plan_ok (plan w)) eqn:Hp1; [destruct (plan_ok (tail (plan w))) eqn:Hp2|].
  - eapply wp_configure; [exact Hlib| |exact Hc|exact Hg|].
    { rewrite /allocs_ok. destruct (plan w) as [|b1 [|b2 p]]; cbn in *; by repeat constructor. }
    rewrite /f_name /mbind /supply_bind /draw Hp1 Hp2 in HQ.
    intros b w' Hl' Ho' He' Hd' _ Hp'. apply (HQ (Some (b, s))); [by rewrite Hp'|done| |done..]. by rewrite Hd'.
  - by eapply wp_configure_no_copy.
  - by eapply wp_configure_no_attr.
Qed.
End rules.

(** ** The calls implement the machine *)

(** Lost list blocks. *)
Definition lost_blocks (F : gmap positive block) (n : nat) : Prop :=
  size F = n ∧ map_Forall (λ _ x, x = BList Null) F.

(** The process is in the machine's state [s]; the plan is what it may be. *)
Definition fabs (F : gmap positive block) (pn : list Z) (w : world) (io : option (positive * list Z)) (L : lists)
    (s : spec) : Prop := abs F pn (with_plan [] w) io L s.

Section refinement.
Context (pn : list Z).
Implicit Types (w : world) (L : lists) (io : option (positive * list Z)) (s : spec) (F G : gmap positive block).

Lemma lib_plan w io lo es p : lib pn w io lo es → lib pn (with_plan p w) io lo es.
Proof. intros [? ? ? ? ? ? ? ?]. by split. Qed.

Lemma lib_errno w io lo es e : lib pn w io lo es → lib pn (with_errno e w) io lo es.
Proof. intros [? ? ? ? ? ? ? ?]. by split. Qed.

Lemma call_ok_plan G t w io L w' io' lo' es' :
  call_ok G pn t w io L w' io' lo' es' →
  call_ok G pn t (with_plan [] w) io L (with_plan [] w') io' lo' es'.
Proof.
  intros [Hl [Ho1 Ho2 Ho3 Ho4] Hg Ha Hs Hot Hk]. split; try done. by apply lib_plan.
Qed.

Lemma fabs_lib F w io L s t : fabs F pn w io L s → lib pn (with_self t w) io (L t).1 (L t).2.
Proof.
  intros Ha. pose proof (sh_lib _ _ _ _ _ (ab_shared _ _ _ _ _ _ Ha) t) as Hl. apply (lib_plan _ _ _ _ (plan w)) in Hl.
  by destruct w.
Qed.

Lemma lib_give_ok G t w io L w' io' lo' es' :
  lib_give pn (with_self t w) io (L t).1 (L t).2 G w' io' lo' es' → call_ok G pn t w io L w' io' lo' es'.
Proof.
  intros [Hl Ho Hg Ha He Hi]. split; try done; [by rewrite (le_self _ _ He)|apply (le_others _ _ He)|].
  intros _. by apply (lib_init _ _ _ _ _ Hl).
Qed.

(** The effect of a call that initialised the library and looked at the list. *)
Lemma fabs_lib_give F G t w io L s w' io' lo' es' s' :
  fabs F pn w io L s → lib_give pn (with_self t w) io (L t).1 (L t).2 G w' io' lo' es' → small (mdcs es') →
  sp_level s' = sp_level s → sp_init s' = true → sp_ident s' = snd <$> io' →
  sp_mdcs s' t = mdcs es' → (∀ t', t' ≠ t → sp_mdcs s' t' = sp_mdcs s t') →
  sp_list s' t = is_list lo' → (∀ t', t' ≠ t → sp_list s' t' = sp_list s t') →
  sp_time s' = sp_time s → sp_out s' = sp_out s → fabs (G ∪ F) pn w' io' (<[t := (lo', es')]> L) s'.
Proof.
  intros Ha Hg Hsm H1 H2 H3 H4 H5 H6 H7 H8 H9. pose proof (lg_env _ _ _ _ _ _ _ _ _ _ Hg) as [_ Hos Hlv _].
  pose proof (lg_init _ _ _ _ _ _ _ _ _ _ Hg) as Hin. cbn in Hos, Hlv.
  eapply (abs_give F G pn t (with_plan [] w)); [exact Ha|by apply call_ok_plan, lib_give_ok|..]; cbn; try done.
  - rewrite Hlv H1. apply (ab_level _ _ _ _ _ _ Ha).
  - rewrite H2. by destruct (Z.eqb_spec (init_done (cfg w')) 0).
  - rewrite H6. by destruct lo'; [rewrite bool_decide_eq_true_2|rewrite bool_decide_eq_false_2 // => -[? ?]].
  - rewrite Hos H8. apply (ab_time _ _ _ _ _ _ Ha).
  - rewrite Hos H9. apply (ab_out _ _ _ _ _ _ Ha).
  - rewrite Hos. apply (ab_writes _ _ _ _ _ _ Ha).
Qed.

(** Lost blocks are new. *)
Lemma call_lost F lost c t w io L s w' io' lo' es' n :
  fabs F pn w io L s → call_ok (lost_list lost c) pn t w io L w' io' lo' es' → lost_blocks F n →
  lost_blocks (lost_list lost c ∪ F) (if lost then S n else n).
Proof.
  intros Ha Hc [Hs HF]. apply call_ok_plan in Hc. destruct lost; cbn [lost_list] in *; [|by rewrite left_id_L].
  assert (Hn : F !! c = None).
  { apply not_elem_of_dom. intros Hin.
    destruct (frame_foot _ _ _ _ _ t _ (ab_shared _ _ _ _ _ _ Ha) Hin) as [Hf Hlt].
    destruct (call_new _ _ _ _ _ _ _ _ _ _ c Hc) as [?|Hle]; [|done|lia].
    apply elem_of_union_r. rewrite dom_singleton_L. by apply elem_of_singleton. }
  rewrite -insert_union_singleton_l. split; [by rewrite map_size_insert_None // Hs|].
  by apply map_Forall_insert.
Qed.

(** What a call of thread [t] does: the machine's step, or the machine stops and the
    list is torn. *)
Definition f_refines (F : gmap positive block) (t : positive) (c : call) (s : spec) (p : list bool) (r : reply)
    (w' : world) : Prop :=
  (∃ s' lost b io' L', f_call pn t c s p = (Some (r, s', lost), plan w') ∧
     fabs (lost_list lost b ∪ F) pn w' io' L' s' ∧
     ∀ n, lost_blocks F n → lost_blocks (lost_list lost b ∪ F) (if lost then S n else n)) ∨
  (f_call pn t c s p = (None, plan w') ∧ r = RInt (-1) ∧ self w' = t ∧ init_done (cfg w') ≠ 0 ∧
     ∃ k v, c = CallAdd k v ∧ torn w' k).

(** A call that gives [G]. *)
Lemma f_refines_give F t c s p r w io L w' io' lo' es' s' lost b :
  f_call pn t c s p = (Some (r, s', lost), plan w') → fabs F pn w io L s →
  lib_give pn (with_self t w) io (L t).1 (L t).2 (lost_list lost b) w' io' lo' es' →
  fabs (lost_list lost b ∪ F) pn w' io' (<[t := (lo', es')]> L) s' → f_refines F t c s p r w'.
Proof.
  intros Hf Ha Hg Ha'. left. exists s', lost, b, io', (<[t := (lo', es')]> L). split_and!; [done|done|].
  intros n. eapply call_lost; [exact Ha|by apply lib_give_ok].
Qed.

(** A call that loses nothing. *)
Lemma f_refines_keep F t c s p r w' s' io' L' :
  f_call pn t c s p = (Some (r, s', false), plan w') → fabs F pn w' io' L' s' → f_refines F t c s p r w'.
Proof.
  intros Hf Ha. left. exists s', false, 1%positive, io', L'. cbn [lost_list]. by rewrite left_id_L.
Qed.

Lemma fabs_ready F w io L s : fabs F pn w io L s → ready_outcome pn (sp_init s) (sp_ident s) =
  ready_outcome pn (negb (init_done (cfg w) =? 0)) (snd <$> io).
Proof. intros Ha. by rewrite (ab_init _ _ _ _ _ _ Ha) -(ab_ident _ _ _ _ _ _ Ha). Qed.

Lemma fabs_list F w io L s t : fabs F pn w io L s → sp_list s t = is_list (L t).1.
Proof.
  intros Ha. rewrite (ab_list _ _ _ _ _ _ Ha). destruct (L t).1; [by rewrite bool_decide_eq_true_2|].
  by rewrite bool_decide_eq_false_2 // => -[? ?].
Qed.

Lemma no_list_mdcs F w io L s t : fabs F pn w io L s → is_list (L t).1 = false → sp_mdcs s t = [].
Proof.
  intros Ha Hl. rewrite -(ab_mdcs _ _ _ _ _ _ Ha). pose proof (lib_mdcs _ _ _ _ _ (fabs_lib _ _ _ _ _ t Ha)) as Ht.
  destruct (L t) as [[l|] es]; [done|]. rewrite /thread_state /thread_mdcs in Ht. cbn in Ht |- *.
  destruct (tls_key (tls w)); [by destruct Ht as (_ & _ & ->)|by destruct Ht as (_ & -> & _)].
Qed.

Lemma small_result r k v l : zlen (pair_text (k, v)) < INT_MAX → small l → small (result_mdcs r k v l).
Proof. intros Hp Hl. destruct r; cbn; [by apply small_put|done..]. Qed.

(** The machine's beginning of a call is the code's. *)
Lemma f_ready_eq F w io L s p id p1 :
  fabs F pn w io L s → ready_outcome pn (negb (init_done (cfg w) =? 0)) (snd <$> io) p = (id, p1) →
  f_ready pn s p = (named id s, p1).
Proof. intros Ha Hr. by rewrite /f_ready (fabs_ready _ _ _ _ _ Ha) (supply_bind_eq _ _ _ _ _ Hr). Qed.

Lemma f_start_eq F t w io L s p id has lost p1 :
  fabs F pn w io L s → start_outcome pn (with_self t w) io (L t).1 p = (id, (has, lost), p1) →
  f_start pn t s p = (if has then sp_touch t (named id s) else named id s, lost, p1).
Proof.
  intros Ha (id' & p' & Hr & (hl & p2 & Hl & [= -> -> <-])%supply_bind_inv)%supply_bind_inv. rewrite /f_start.
  rewrite (supply_bind_eq _ _ _ _ _ (f_ready_eq _ _ _ _ _ _ _ _ Ha Hr)) (fabs_list _ _ _ _ _ t Ha).
  by rewrite (supply_bind_eq _ _ _ _ _ Hl).
Qed.

Lemma f_add F t k v w io L s :
  fabs F pn w io L s → valid_call (CallAdd k v) →
  wp (run_call (CallAdd k v)) (with_self t w) (f_refines F t (CallAdd k v) s (plan w)).
Proof.
  intros Ha (Hk & Hv & Hlen). cbn [run_call]. pose proof Hlen as Hpt. rewrite pair_text_len /INT_MAX in Hlen.
  pose proof (zlen_nonneg k). pose proof (zlen_nonneg (esc v)). pose proof (fabs_lib _ _ _ _ _ t Ha) as Hlib.
  apply wp_bind. destruct (has_special k) eqn:Hsp.
  - eapply wp_mdc_add_invalid.
    { right; right. split; [by apply get_cstr_lit|]. split; [done|unfold INT_MAX; lia]. }
    apply wp_ret. eapply f_refines_keep; [by rewrite /f_call Hsp|].
    pose proof (abs_self F pn t _ _ _ _ Ha) as [Hsh ? ? ? ? ? ? ? ? ? ?]. split; try done.
    destruct Hsh as [Hl ? ? ? ?]. split; try done. intros t'. exact (lib_errno _ _ _ _ EINVAL (Hl t')).
  - eapply wp_mdc_add_any; [exact Hlib|by apply get_cstr_lit|apply outside_lit|done|by apply get_cstr_lit|apply outside_lit
      |unfold INT_MAX; lia|lia|..].
    + intros io' lo' es' c r w' Hout Hr Hg Hlo Hes _. apply wp_ret.
      set (s1 := named (snd <$> io') s). pose proof Hout as Hout'.
      set (s' := match r with Stored => sp_set t (al_put k (esc v) (sp_mdcs s t)) s1 | NoRoom => sp_touch t s1 | _ => s1 end).
      assert (Hf : f_call pn t (CallAdd k v) s (plan w) = (Some (RInt (result_code r), s', result_lost r), plan w')).
      { rewrite /f_call Hsp (fabs_list _ _ _ _ _ t Ha) -(ab_mdcs _ _ _ _ _ _ Ha).
        apply supply_bind_inv in Hout' as (id' & p' & Hr' & (r' & p2 & Hp & [= -> -> ->])%supply_bind_inv).
        rewrite (supply_bind_eq _ _ _ _ _ (f_ready_eq _ _ _ _ _ _ _ _ Ha Hr')).
        rewrite (supply_bind_eq _ _ _ _ _ Hp). rewrite (ab_mdcs _ _ _ _ _ _ Ha). by destruct r. }
      eapply f_refines_give; [exact Hf|exact Ha|exact Hg|].
      eapply fabs_lib_give; [exact Ha|exact Hg|..].
      * rewrite Hes. apply small_result; [done|]. rewrite (ab_mdcs _ _ _ _ _ _ Ha). apply (ab_small _ _ _ _ _ _ Ha).
      * by destruct r.
      * by destruct r.
      * by destruct r.
      * rewrite Hes (ab_mdcs _ _ _ _ _ _ Ha) /s'. destruct r; try done; by rewrite /= fn_lookup_insert.
      * intros t' Hne. rewrite /s'. destruct r; try done; by rewrite /= fn_lookup_insert_ne.
      * rewrite Hlo /s'. destruct r; cbn; rewrite ?fn_lookup_insert //.
        rewrite (fabs_list _ _ _ _ _ t Ha).
        destruct (is_list (L t).1) eqn:Hil; [|done].
        apply supply_bind_inv in Hout as (id' & p' & _ & (r' & p2 & Hp & [= _ -> _])%supply_bind_inv).
        rewrite Hil in Hp. by apply put_outcome_list in Hp.
      * intros t' Hne. rewrite /s'. destruct r; try done; by rewrite /= fn_lookup_insert_ne.
      * by destruct r.
      * by destruct r.
    + intros id w' Hout Htn Hd Hs _. apply wp_ret. right. split_and!; [|done|done|done|by eauto].
      rewrite /f_call Hsp (fabs_list _ _ _ _ _ t Ha) -(ab_mdcs _ _ _ _ _ _ Ha).
      apply supply_bind_inv in Hout as (id' & p' & Hr' & (r' & p2 & Hp & [= -> -> ->])%supply_bind_inv).
      by rewrite (supply_bind_eq _ _ _ _ _ (f_ready_eq _ _ _ _ _ _ _ _ Ha Hr')) (supply_bind_eq _ _ _ _ _ Hp).
Qed.

(** No list after a call means none before it. *)
Lemma start_list F t w io L s p id lost p1 :
  fabs F pn w io L s → start_outcome pn (with_self t w) io (L t).1 p = (id, (false, lost), p1) → sp_list s t = false.
Proof.
  intros Ha (id' & p' & _ & (hl & p2 & Hl & [= _ -> _])%supply_bind_inv)%supply_bind_inv.
  rewrite (fabs_list _ _ _ _ _ t Ha). by destruct (is_list (L t).1).
Qed.

(** The effect of a call that looked at the list and left it alone. *)
Lemma fabs_start F t w io L s w' io' lo' has lost c p1 :
  fabs F pn w io L s → has = is_list lo' →
  start_outcome pn (with_self t w) io (L t).1 (plan w) = (snd <$> io', (has, lost), p1) →
  lib_give pn (with_self t w) io (L t).1 (L t).2 (lost_list lost c) w' io' lo' (L t).2 →
  fabs (lost_list lost c ∪ F) pn w' io' (<[t := (lo', (L t).2)]> L)
    (if has then sp_touch t (named (snd <$> io') s) else named (snd <$> io') s).
Proof.
  intros Ha -> Hout Hg. pose proof (ab_mdcs _ _ _ _ _ _ Ha t) as Hm.
  eapply fabs_lib_give; [exact Ha|exact Hg|..].
  - rewrite Hm. apply (ab_small _ _ _ _ _ _ Ha).
  - by destruct (is_list lo').
  - by destruct (is_list lo').
  - by destruct (is_list lo').
  - rewrite Hm. by destruct (is_list lo'); rewrite /= ?fn_lookup_insert.
  - intros t' Hne. by destruct (is_list lo'); rewrite /= ?fn_lookup_insert_ne.
  - destruct (is_list lo') eqn:Hl; rewrite /= ?fn_lookup_insert //. by eapply start_list.
  - intros t' Hne. by destruct (is_list lo'); rewrite /= ?fn_lookup_insert_ne.
  - by destruct (is_list lo').
  - by destruct (is_list lo').
Qed.

(** The caller frees a string it got, or gets none. *)
Lemma lib_give_free w io lo es G w' io' lo' es' v :
  lib_give pn w io lo es G w' io' lo' es' →
  lib_give pn w io lo es G (with_heap (delete (next w') (heap (malloc_world (cstr_block v) w')))
    (malloc_world (cstr_block v) w')) io' lo' es'.
Proof.
  intros [Hl Ho Hgv Ha [? ? ? ?] Hi]. pose proof (lib_wf _ _ _ _ _ Hl) as Hw. split; [by apply lib_after_free| | |done..].
  - apply (owns_step_malloc _ _ _ _ (cstr_block v)) in Ho.
    assert (Hnew : next w' ∉ lib_foot io' lo' es' ∪ dom G).
    { intros [Hin|[x Hx]%elem_of_dom]%elem_of_union; [by eapply (fresh_lib _ w')|].
      eapply lookup_weaken in Hx; [|exact Hgv]. rewrite Hw // in Hx. }
    assert (Hin : next w' ∈ {[next w']} ∪ (lib_foot io' lo' es' ∪ dom G)) by by apply elem_of_union_l, elem_of_singleton.
    apply (owns_step_free _ _ _ _ _ Ho) in Hin.
    rewrite difference_union_distr_l_L difference_diag_L left_id_L difference_disjoint_L in Hin; [done|].
    apply elem_of_disjoint. by intros b Hb ->%elem_of_singleton.
  - cbn. by rewrite delete_insert_eq delete_id; [|apply Hw].
Qed.

Lemma lib_give_enomem w io lo es G w' io' lo' es' :
  lib_give pn w io lo es G w' io' lo' es' → lib_give pn w io lo es G (enomem_world w') io' lo' es'.
Proof.
  intros [Hl Ho Hgv Ha [? ? ? ?] Hi]. split; try done; [|by eapply owns_step_same].
  apply lib_errno. exact (lib_plan _ _ _ _ (tail (plan w')) Hl).
Qed.

Lemma f_get F t k w io L s :
  fabs F pn w io L s → valid_call (CallGet k) →
  wp (run_call (CallGet k)) (with_self t w) (f_refines F t (CallGet k) s (plan w)).
Proof.
  intros Ha Hk. cbn [run_call]. pose proof (fabs_lib _ _ _ _ _ t Ha) as Hlib.
  apply wp_bind. eapply wp_mdc_get_any; [exact Hlib|by apply get_cstr_lit|apply outside_lit|].
  intros io' lo' lost c w' Hout Hg.
  set (s' := if is_list lo' then sp_touch t (named (snd <$> io') s) else named (snd <$> io') s).
  assert (Hend : ∀ r w1, f_call pn t (CallGet k) s (plan w) = (Some (r, s', lost), plan w1) →
    lib_give pn (with_self t w) io (L t).1 (L t).2 (lost_list lost c) w1 io' lo' (L t).2 →
    f_refines F t (CallGet k) s (plan w) r w1).
  { intros r w1 Hf Hg1. eapply f_refines_give; [exact Hf|exact Ha|exact Hg1|]. by eapply fabs_start. }
  assert (Hc : f_call pn t (CallGet k) s (plan w) = match al_get k (mdcs (L t).2) with
    | Some v => copy ← draw; fine (RStr (if (copy : bool) then Some v else None)) s' lost
    | None => fine (RStr None) s' lost end (plan w')).
  { rewrite /f_call (supply_bind_eq _ _ _ _ _ (f_start_eq _ _ _ _ _ _ _ _ _ _ _ Ha Hout)) -(ab_mdcs _ _ _ _ _ _ Ha t).
    by destruct (al_get k (mdcs (L t).2)). }
  destruct (al_get k (mdcs (L t).2)) as [v|]; rewrite /read_and_free.
  - intros Hvs. destruct (plan_ok (plan w')) eqn:Hp; rewrite /mbind /supply_bind /draw Hp in Hc; cbn [is_null].
    + apply wp_bind. step wp_read_cstr; [by apply get_cstr_block; [apply lookup_insert_eq|]|].
      step wp_free; [apply lookup_insert_eq|]. apply wp_ret, wp_ret. by apply Hend, lib_give_free.
    + wp_pure. apply wp_ret. by apply Hend, lib_give_enomem.
  - cbn [is_null]. wp_pure. apply wp_ret. by apply Hend.
Qed.

(** A call that looked at the list and has [l] in it, if there is one. *)
Lemma fabs_start_set F t w io L s w' io' lo' has lost c p1 es' l :
  fabs F pn w io L s → has = is_list lo' →
  start_outcome pn (with_self t w) io (L t).1 (plan w) = (snd <$> io', (has, lost), p1) →
  lib_give pn (with_self t w) io (L t).1 (L t).2 (lost_list lost c) w' io' lo' es' →
  mdcs es' = l → small l →
  let s' := if has then sp_touch t (named (snd <$> io') s) else named (snd <$> io') s in
  fabs (lost_list lost c ∪ F) pn w' io' (<[t := (lo', es')]> L) (if sp_list s' t then sp_set t l s' else s').
Proof.
  intros Ha -> Hout Hg <- Hsm s'.
  assert (Hs : sp_list s' t = is_list lo').
  { rewrite /s'. destruct (is_list lo') eqn:Hl; rewrite /= ?fn_lookup_insert //. by eapply start_list. }
  rewrite Hs. eapply fabs_lib_give; [exact Ha|exact Hg|done|rewrite /s'; by destruct (is_list lo')..| | | | | |].
  - destruct lo' as [l|]; [by rewrite /= fn_lookup_insert|]. rewrite /s' /=.
    rewrite (no_list_mdcs _ _ _ _ _ t Ha); [|rewrite -(fabs_list _ _ _ _ _ t Ha); by eapply start_list].
    pose proof (lib_mdcs _ _ _ _ _ (lg_lib _ _ _ _ _ _ _ _ _ _ Hg)) as Ht. rewrite /thread_state /thread_mdcs in Ht.
    destruct (tls_key (tls w')); [by destruct Ht as (_ & _ & ->)|by destruct Ht as (_ & -> & _)].
  - intros t' Hne. rewrite /s'. by destruct (is_list lo'); rewrite /= ?fn_lookup_insert_ne.
  - destruct lo' as [l'|]; [by rewrite /= fn_lookup_insert|exact Hs].
  - intros t' Hne. rewrite /s'. by destruct (is_list lo'); rewrite /= ?fn_lookup_insert_ne.
  - rewrite /s'. by destruct (is_list lo').
  - rewrite /s'. by destruct (is_list lo').
Qed.

Lemma f_remove F t k w io L s :
  fabs F pn w io L s → valid_call (CallRemove k) →
  wp (run_call (CallRemove k)) (with_self t w) (f_refines F t (CallRemove k) s (plan w)).
Proof.
  intros Ha Hk. cbn [run_call]. pose proof (fabs_lib _ _ _ _ _ t Ha) as Hlib. pose proof (ab_mdcs _ _ _ _ _ _ Ha t) as Hm.
  apply wp_bind. eapply wp_mdc_remove_any; [exact Hlib|by apply get_cstr_lit|apply outside_lit|].
  intros io' lo' lost es' c w' Hout Hg Hes. apply wp_ret. eapply f_refines_give; [|exact Ha|exact Hg|].
  - by rewrite /f_call (supply_bind_eq _ _ _ _ _ (f_start_eq _ _ _ _ _ _ _ _ _ _ _ Ha Hout)).
  - eapply fabs_start_set; [exact Ha|done|exact Hout|exact Hg|by rewrite -Hm|].
    apply small_remove, (ab_small _ _ _ _ _ _ Ha).
Qed.

Lemma f_clean F t w io L s :
  fabs F pn w io L s → wp (run_call CallClean) (with_self t w) (f_refines F t CallClean s (plan w)).
Proof.
  intros Ha. cbn [run_call]. pose proof (fabs_lib _ _ _ _ _ t Ha) as Hlib.
  apply wp_bind. eapply wp_mdc_clean_any; [exact Hlib|].
  intros io' lo' lost c w' Hout Hg. apply wp_ret. eapply f_refines_give; [|exact Ha|exact Hg|].
  - by rewrite /f_call (supply_bind_eq _ _ _ _ _ (f_start_eq _ _ _ _ _ _ _ _ _ _ _ Ha Hout)).
  - by eapply fabs_start_set; [exact Ha|done|exact Hout|exact Hg|constructor..].
Qed.

(** The line of a call goes out. *)
Lemma fabs_output F w io L s o r :
  fabs F pn (with_os o w) io L s → os w = output [] r o →
  fabs F pn w io L (sp_print (match r with Some line => [line ++ [NL]] | None => [] end) s).
Proof.
  intros Ha Ho. destruct r as [line|]; cbn [output] in Ho.
  - apply (abs_output _ _ _ _ _ _ (line ++ [NL])) in Ha. cbn [os with_os with_plan] in Ha. rewrite -Ho in Ha. by destruct w.
  - rewrite -Ho in Ha. rewrite /sp_print app_nil_r. by destruct w, s.
Qed.

Lemma f_write F t severity msg w io L s :
  fabs F pn w io L s → valid_call (CallWrite severity msg) →
  wp (run_call (CallWrite severity msg)) (with_self t w) (f_refines F t (CallWrite severity msg) s (plan w)).
Proof.
  intros Ha [Hs Hl]. cbn [run_call]. pose proof (fabs_lib _ _ _ _ _ t Ha) as Hlib. pose proof (ab_mdcs _ _ _ _ _ _ Ha t) as Hm.
  pose proof (ab_level _ _ _ _ _ _ Ha) as Hlv. cbn in Hlv.
  apply wp_bind. destruct (Z.ltb_spec (current_level (cfg w)) severity) as [Hlt|Hle].
  - eapply wp_write_filtered; [apply (lib_wf _ _ _ _ _ Hlib)|done|]. apply wp_ret. eapply f_refines_keep.
    + rewrite /f_call -Hlv. by destruct (Z.ltb_spec (current_level (cfg w)) severity); [|lia].
    + by apply (abs_next F pn t) in Ha.
  - eapply (wp_mdclog_write_any _ _ _ _ _ _ _ _ msg [] []); [exact Hlib| | |exact Hle
      |apply (ab_writes _ _ _ _ _ _ Ha)|constructor|done|].
    { rewrite Hm. apply (ab_small _ _ _ _ _ _ Ha). }
    { split; [exists (lit "%s")|apply outside_lit|by repeat constructor; apply outside_lit|done].
      split; [done|]. rewrite /vformat /= get_cstr_lit //=. by rewrite app_nil_r. }
    intros io' lo' lost c r w' Hout Hg Hos. apply wp_ret.
    apply supply_bind_inv in Hout as (id' & p' & Hr & (hl & p2 & Hline & [= -> -> ->])%supply_bind_inv).
    pose proof Hline as ([hl lo1] & p3 & Hmk & (r' & p4 & Hent & [= -> -> -> ->])%supply_bind_inv)%supply_bind_inv.
    set (s0 := named (snd <$> io') s).
    left. exists (sp_print (match r with Some line => [line ++ [NL]] | None => [] end)
      (if is_list lo' then sp_touch t s0 else s0)), lost, c, io', (<[t := (lo', (L t).2)]> L). split_and!.
    + rewrite /f_call -Hlv. destruct (Z.ltb_spec (current_level (cfg w)) severity); [lia|].
      rewrite (supply_bind_eq _ _ _ _ _ (f_ready_eq _ _ _ _ _ _ _ _ Ha Hr)) (fabs_list _ _ _ _ _ t Ha).
      rewrite -(ab_time _ _ _ _ _ _ Ha) -Hm. by rewrite (supply_bind_eq _ _ _ _ _ Hline).
    + eapply fabs_output; [|exact Hos]. eapply fabs_start; [exact Ha|done| |exact Hg].
      by rewrite /start_outcome (supply_bind_eq _ _ _ _ _ Hr) (supply_bind_eq _ _ _ _ _ Hmk).
    + intros n. eapply (call_lost _ _ _ _ _ _ _ _ (with_os (os (with_self t w)) w')); [exact Ha|by apply lib_give_ok].
Qed.

(** The effect of a call that leaves no block behind and keeps the other lists. *)
Lemma fabs_call F t w io L s w' io' lo' es' s' :
  fabs F pn w io L s → lib pn w' io' lo' es' →
  owns_step (lib_foot io (L t).1 (L t).2) (with_self t w) (lib_foot io' lo' es') w' →
  lib_env (with_self t w) w' → (tls_key (tls w) = true → tls_key (tls w') = true) →
  sp_level s' = sp_level s → sp_init s' = negb (init_done (cfg w') =? 0) → sp_ident s' = snd <$> io' →
  sp_mdcs s' t = mdcs es' → (∀ t', t' ≠ t → sp_mdcs s' t' = sp_mdcs s t') →
  sp_list s' t = is_list lo' → (∀ t', t' ≠ t → sp_list s' t' = sp_list s t') → small (mdcs es') →
  sp_time s' = sp_time s → sp_out s' = sp_out s → fabs F pn w' io' (<[t := (lo', es')]> L) s'.
Proof.
  intros Ha Hl Ho [He1 He2 He3 He4] Hk H1 H2 H3 H4 H5 H6 H7 H8 H9 H10. cbn in He1, He2, He3, He4.
  eapply (abs_call F pn t (with_plan [] w)); [exact Ha| |..]; cbn; rewrite ?He2 ?He3 ?H1 ?H9 ?H10; try done.
  - apply call_ok_plan. by apply call_ok_lib.
  - apply (ab_level _ _ _ _ _ _ Ha).
  - rewrite H6. by destruct lo'; [rewrite bool_decide_eq_true_2|rewrite bool_decide_eq_false_2 // => -[? ?]].
  - apply (ab_time _ _ _ _ _ _ Ha).
  - apply (ab_out _ _ _ _ _ _ Ha).
  - apply (ab_writes _ _ _ _ _ _ Ha).
Qed.

(** The same where the thread's list stays, too. *)
Lemma fabs_config F t w io L s w' io' s' :
  fabs F pn w io L s → lib pn w' io' (L t).1 (L t).2 →
  owns_step (lib_foot io (L t).1 (L t).2) (with_self t w) (lib_foot io' (L t).1 (L t).2) w' →
  lib_env (with_self t w) w' → (tls_key (tls w) = true → tls_key (tls w') = true) →
  s' = Spec (sp_level s) (negb (init_done (cfg w') =? 0)) (snd <$> io') (sp_mdcs s) (sp_list s) (sp_time s) (sp_out s) →
  fabs F pn w' io' (<[t := ((L t).1, (L t).2)]> L) s'.
Proof.
  intros Ha Hl Ho He Hk ->. eapply fabs_call; [done..|cbn| |cbn| | |done|done].
  - by rewrite (ab_mdcs _ _ _ _ _ _ Ha).
  - done.
  - apply (fabs_list _ _ _ _ _ t Ha).
  - done.
  - rewrite (ab_mdcs _ _ _ _ _ _ Ha). apply (ab_small _ _ _ _ _ _ Ha).
Qed.

Lemma f_init F t ident w io L s :
  fabs F pn w io L s → valid_call (CallInit ident) →
  wp (run_call (CallInit ident)) (with_self t w) (f_refines F t (CallInit ident) s (plan w)).
Proof.
  intros Ha Hv. pose proof (fabs_lib _ _ _ _ _ t Ha) as Hlib.
  assert (Hend : ∀ io' w', f_name pn ident (plan w) = (snd <$> io', plan w') → lib pn w' io' (L t).1 (L t).2 →
    init_done (cfg w') ≠ 0 → owns_step (lib_foot io (L t).1 (L t).2) (with_self t w) (lib_foot io' (L t).1 (L t).2) w' →
    lib_env (with_self t w) w' → f_refines F t (CallInit ident) s (plan w) (RInt 0) w').
  { intros io' w' Hf Hl Hd Ho He. eapply f_refines_keep.
    - by rewrite /f_call (supply_bind_eq _ _ _ _ _ Hf).
    - eapply fabs_config; [done..| |].
      + intros _. by apply (lib_init _ _ _ _ _ Hl).
      + by destruct (Z.eqb_spec (init_done (cfg w')) 0). }
  destruct ident as [ident|]; cbn [run_call]; apply wp_bind.
  - destruct Hv as [Hs Hg]. eapply wp_configure_any; [exact Hlib|by apply get_cstr_lit|done|].
    intros io' w' Hf Hl Hd Ho He. apply wp_ret. by eapply Hend.
  - eapply wp_mdclog_init_any; [exact Hlib|done|].
    intros io' w' Hf Hl Hd Ho He. apply wp_ret. by eapply Hend.
Qed.

Lemma f_lib_clean F t w io L s :
  fabs F pn w io L s → wp (run_call CallLibClean) (with_self t w) (f_refines F t CallLibClean s (plan w)).
Proof.
  intros Ha. cbn [run_call]. apply wp_bind. eapply wp_lib_clean; [by eapply fabs_lib|].
  intros w' Hl Ho He Hd Ht _ Hp. apply wp_ret. eapply f_refines_keep.
  - cbn. by rewrite -Hp.
  - eapply fabs_config; [done..|by rewrite Ht|by rewrite Hd].
Qed.

Lemma f_exit F t w io L s :
  fabs F pn w io L s → wp (run_call CallExit) (with_self t w) (f_refines F t CallExit s (plan w)).
Proof.
  intros Ha. cbn [run_call]. apply wp_bind. eapply wp_thread_exit; [by eapply fabs_lib|].
  intros w' Hl Ho He Hc Hk Hp. cbn in Hp. apply wp_ret. eapply f_refines_keep.
  - cbn. by rewrite -Hp.
  - pose proof (ab_init _ _ _ _ _ _ Ha) as Hi. pose proof (ab_ident _ _ _ _ _ _ Ha) as Hid. cbn in Hi, Hc.
    eapply fabs_call; [done..| | | | | | | | |]; cbn; rewrite ?fn_lookup_insert ?Hc //.
    + intros t' Hne. by rewrite fn_lookup_insert_ne.
    + intros t' Hne. by rewrite fn_lookup_insert_ne.
    + constructor.
Qed.

(** Every call does what the machine does. *)
Lemma f_call_refines F t c w io L s :
  fabs F pn w io L s → valid_call c → wp (run_call c) (with_self t w) (f_refines F t c s (plan w)).
Proof.
  intros Ha Hv. destruct c as [severity msg|level| |k v|k|k| |ident| |].
  - by eapply f_write.
  - cbn [run_call]. rewrite /mdclog_level_set. wp_pure. apply wp_ret. eapply f_refines_keep; [done|].
    by apply (abs_set_level F pn t level) in Ha.
  - cbn [run_call]. rewrite /mdclog_level_get. wp_pure. apply wp_ret. eapply f_refines_keep.
    + cbn. pose proof (ab_level _ _ _ _ _ _ Ha) as Hl. cbn in Hl. by rewrite Hl.
    + by apply (abs_self F pn t) in Ha.
  - by eapply f_add.
  - by eapply f_get.
  - by eapply f_remove.
  - by eapply f_clean.
  - by eapply f_init.
  - by eapply f_lib_clean.
  - by eapply f_exit.
Qed.

Lemma f_tick F tv w io L s :
  fabs F pn w io L s → fabs F pn (with_os (with_time tv (os w)) w) io L (sp_event pn (Tick tv) s).2.
Proof.
  intros [[Hl Hd Hfr Hap Hlv] ? ? ? ? ? ? ? ? ? ?]. split; try done. split; [|done..]. intros t.
  by apply (lib_os pn (with_self t (with_plan [] w))).
Qed.

(** An event, as [f_refines] for calls. *)
Lemma f_event_refines F e w io L s :
  fabs F pn w io L s → valid e →
  wp (run_event e) w (λ r w',
    (∃ s' lost b io' L', f_event pn e s (plan w) = (Some (r, s', lost), plan w') ∧
       fabs (lost_list lost b ∪ F) pn w' io' L' s' ∧
       ∀ n, lost_blocks F n → lost_blocks (lost_list lost b ∪ F) (if lost then S n else n)) ∨
    (∃ t k v, e = Call t (CallAdd k v) ∧ f_event pn e s (plan w) = (None, plan w') ∧ r = RInt (-1) ∧
       self w' = t ∧ init_done (cfg w') ≠ 0 ∧ torn w' k)).
Proof.
  intros Ha Hv. destruct e as [t c|tv]; cbn [run_event f_event].
  - wp_pure. eapply wp_mono; [by eapply f_call_refines|]. intros r w' [?|(Hf & -> & Hs & Hd & k & v & -> & Ht)]; [by left|].
    right. by exists t, k, v.
  - wp_pure. apply wp_ret. left. eexists _, false, 1%positive, io, L. cbn [lost_list]. rewrite left_id_L.
    split_and!; [done|by apply f_tick|done].
Qed.

Lemma f_events_refine F n0 es w io L s rs s' n p' :
  fabs F pn w io L s → lost_blocks F n0 → Forall valid es → f_events pn es s (plan w) = (Some (rs, s', n), p') →
  wp (run_events es) w (λ rs' w', rs' = rs ∧ plan w' = p' ∧
    ∃ F' io' L', fabs F' pn w' io' L' s' ∧ lost_blocks F' (n + n0)).
Proof.
  intros Ha HF Hv. revert F n0 w io L s rs n Ha HF. induction Hv as [|e es He _ IH]; intros F n0 w io L s rs n Ha HF Hf.
  - injection Hf as <- <- <- <-. apply wp_ret. split_and!; [done..|]. by exists F, io, L.
  - cbn [run_events f_events] in Hf |- *. apply supply_bind_inv in Hf as (a & p1 & Hfe & Hf).
    apply wp_bind. eapply wp_mono; [by eapply f_event_refines|].
    intros r w1 [(s1 & lost & b & io1 & L1 & Hfe' & Ha1 & HF1)|(t & k & v & _ & Hfe' & _)]; rewrite Hfe in Hfe'; simplify_eq.
    apply supply_bind_inv in Hf as ([[[rs1 s2] n1]|] & p2 & Hfs & [= <- <- <- <-]).
    apply wp_bind. eapply wp_mono; [eapply IH; [exact Ha1|by apply HF1|exact Hfs]|].
    intros rs2 w2 (-> & Hp2 & F' & io' & L' & Ha' & HF'). apply wp_ret. split_and!; [done..|]. exists F', io', L'.
    split; [done|]. destruct lost; [|done]. by rewrite -plus_n_Sm in HF'.
Qed.

(** Where the machine stops, a put has torn the list of its thread. *)
Lemma f_events_stop F es w io L s p' :
  fabs F pn w io L s → Forall valid es → f_events pn es s (plan w) = (None, p') →
  ∃ es1 t k v es2 rs w', es = es1 ++ Call t (CallAdd k v) :: es2 ∧
    run_events (es1 ++ [Call t (CallAdd k v)]) w = Ok (rs ++ [RInt (-1)]) w' ∧
    plan w' = p' ∧ self w' = t ∧ init_done (cfg w') ≠ 0 ∧ torn w' k.
Proof.
  intros Ha Hv. revert F w io L s Ha. induction Hv as [|e es He _ IH]; intros F w io L s Ha Hf; [done|].
  cbn [f_events] in Hf. apply supply_bind_inv in Hf as (a & p1 & Hfe & Hf).
  pose proof (f_event_refines F e w io L s Ha He) as (r & w1 & Hrun & Hr)%wp_run.
  destruct Hr as [(s1 & lost & b & io1 & L1 & Hfe' & Ha1 & _)|(t & k & v & -> & Hfe' & -> & Hs & Hd & Ht)];
    rewrite Hfe in Hfe'; simplify_eq.
  - apply supply_bind_inv in Hf as ([[[rs1 s2] n1]|] & p2 & Hfs & [= <-]).
    destruct (IH _ _ _ _ _ Ha1 Hfs) as (es1 & t & k & v & es2 & rs & w' & -> & Hrs & Hrest).
    exists (e :: es1), t, k, v, es2, (r :: rs), w'. split_and!; [done| |apply Hrest..].
    by rewrite -app_comm_cons /= (bind_ok _ _ _ _ _ Hrun) (bind_ok _ _ _ _ _ Hrs).
  - exists [], (self w1), k, v, es, [], w1. injection Hf as <-. split_and!; [done| |done..].
    by rewrite /= (bind_ok _ _ _ _ _ Hrun).
Qed.
End refinement.

(** ** The machine's lists *)

Section lists.
Context (pn : list Z).
Implicit Types (s : spec) (es : list event).

Lemma f_ready_list s p s' p' : f_ready pn s p = (s', p') → sp_list s' = sp_list s.
Proof. by intros (id & p1 & _ & [= <- _])%supply_bind_inv. Qed.

Lemma fine_inv r0 s0 lost0 p r s lost p' :
  fine r0 s0 lost0 p = (Some (r, s, lost), p') → r0 = r ∧ s0 = s ∧ lost0 = lost ∧ p = p'.
Proof. by intros [= -> -> -> ->]. Qed.

Lemma f_start_other t s p s' lost p' t' :
  f_start pn t s p = (s', lost, p') → t' ≠ t → sp_list s' t' = sp_list s t'.
Proof.
  intros (s1 & p1 & Hr%f_ready_list & ([has l] & p2 & _ & [= <- _ _])%supply_bind_inv)%supply_bind_inv Hne.
  destruct has; by rewrite /= ?fn_lookup_insert_ne // Hr.
Qed.

(** A call leaves the lists of the other threads alone. *)
Lemma f_call_other t c s p r s' lost p' t' :
  f_call pn t c s p = (Some (r, s', lost), p') → t' ≠ t → sp_list s' t' = sp_list s t'.
Proof.
  intros Hf Hne. destruct c as [severity msg|level| |k v|k|k| |ident| |]; cbn [f_call] in Hf.
  - case_match; [by apply fine_inv in Hf as (_ & <- & _ & _)|].
    apply supply_bind_inv in Hf as (s1 & p1 & Hr%f_ready_list & ([[has l] line] & p2 & _ & (_ & <- & _ & _)%fine_inv)%supply_bind_inv).
    destruct has; by rewrite /= ?fn_lookup_insert_ne // Hr.
  - by apply fine_inv in Hf as (_ & <- & _ & _).
  - by apply fine_inv in Hf as (_ & <- & _ & _).
  - case_match; [by apply fine_inv in Hf as (_ & <- & _ & _)|].
    apply supply_bind_inv in Hf as (s1 & p1 & Hr%f_ready_list & (res & p2 & _ & Hf)%supply_bind_inv).
    destruct res; [| | |done]; apply fine_inv in Hf as (_ & <- & _ & _); by rewrite /= ?fn_lookup_insert_ne // Hr.
  - apply supply_bind_inv in Hf as ([s1 l] & p1 & Hst & Hf).
    apply (f_start_other _ _ _ _ _ _ t') in Hst as <-; [|done]. case_match; [|by apply fine_inv in Hf as (_ & <- & _ & _)].
    by apply supply_bind_inv in Hf as (copy & p2 & _ & (_ & <- & _ & _)%fine_inv).
  - apply supply_bind_inv in Hf as ([s1 l] & p1 & Hst & (_ & <- & _ & _)%fine_inv).
    apply (f_start_other _ _ _ _ _ _ t') in Hst as <-; [|done]. case_match; by rewrite /= ?fn_lookup_insert_ne.
  - apply supply_bind_inv in Hf as ([s1 l] & p1 & Hst & (_ & <- & _ & _)%fine_inv).
    apply (f_start_other _ _ _ _ _ _ t') in Hst as <-; [|done]. case_match; by rewrite /= ?fn_lookup_insert_ne.
  - by apply supply_bind_inv in Hf as (id & p1 & _ & (_ & <- & _ & _)%fine_inv).
  - by apply fine_inv in Hf as (_ & <- & _ & _).
  - apply fine_inv in Hf as (_ & <- & _ & _). by rewrite /= fn_lookup_insert_ne.
Qed.

Lemma f_events_cons e es s p rs s' n p' :
  f_events pn (e :: es) s p = (Some (rs, s', n), p') →
  ∃ r s1 lost p1 rs1 n1, f_event pn e s p = (Some (r, s1, lost), p1) ∧
    f_events pn es s1 p1 = (Some (rs1, s', n1), p') ∧ rs = r :: rs1 ∧ n = if lost then S n1 else n1.
Proof.
  intros ([[[r s1] lost]|] & p1 & He & Hf)%supply_bind_inv; [|done].
  apply supply_bind_inv in Hf as ([[[rs1 s2] n1]|] & p2 & Hfs & [= <- <- <- <-]).
  by exists r, s1, lost, p1, rs1, n1.
Qed.

Lemma f_events_list es s p rs s' n p' t :
  f_events pn es s p = (Some (rs, s', n), p') → t ∉ threads es → sp_list s' t = sp_list s t.
Proof.
  revert s p rs n. induction es as [|e es IH]; intros s p rs n Hf Ht; [by injection Hf as <- <- <- <-|].
  apply f_events_cons in Hf as (r & s1 & lost & p1 & rs1 & n1 & He & Hf & _ & _).
  destruct e as [t' c|tv]; cbn in Ht, He.
  - apply not_elem_of_cons in Ht as [Hne Ht]. rewrite (IH _ _ _ _ Hf Ht). by eapply f_call_other.
  - rewrite (IH _ _ _ _ Hf Ht). by apply fine_inv in He as (_ & <- & _ & _).
Qed.

Lemma f_events_app es1 es2 s p rs s' n p' :
  f_events pn (es1 ++ es2) s p = (Some (rs, s', n), p') →
  ∃ rs1 s1 n1 p1 rs2 n2, f_events pn es1 s p = (Some (rs1, s1, n1), p1) ∧ f_events pn es2 s1 p1 = (Some (rs2, s', n2), p').
Proof.
  revert s p rs n. induction es1 as [|e es1 IH]; intros s p rs n Hf; [by exists [], s, 0%nat, p, rs, n|].
  rewrite -app_comm_cons in Hf. apply f_events_cons in Hf as (r & s1 & lost & p1 & rs1 & n1 & He & Hf & -> & ->).
  destruct (IH _ _ _ _ Hf) as (rs2 & s2 & n2 & p2 & rs3 & n3 & H1 & H2).
  eexists _, s2, _, p2, rs3, n3. split; [|done]. cbn [f_events].
  by rewrite (supply_bind_eq _ _ _ _ _ He) (supply_bind_eq _ _ _ _ _ H1).
Qed.

(** Ends of threads and the cleaning of the library need no memory. *)
Lemma f_events_exits ts t0 s p :
  f_events pn (exits ts ++ [Call t0 CallLibClean]) s p =
    (Some ((sp_events pn (exits ts ++ [Call t0 CallLibClean]) s).1,
           (sp_events pn (exits ts ++ [Call t0 CallLibClean]) s).2, 0%nat), p).
Proof.
  revert s. induction ts as [|t ts IH]; intros s; [done|].
  cbn [exits fmap list_fmap app f_events]. specialize (IH (sp_call pn t CallExit s).2).
  rewrite /= -/(exits ts) in IH |- *. rewrite {1}/mbind {1}/supply_bind /=. rewrite (supply_bind_eq _ _ _ _ _ IH) /=.
  by destruct (sp_events pn _ _).
Qed.
End lists.

(** ** Properties *)

Section properties.
Context (pn : list Z) (Hpn : is_str pn) (Hlen : zlen (esc pn) < INT_MAX).

Lemma boot_fabs p : fabs ∅ pn (with_plan p (boot (Lit pn 0))) None (λ _, (None, [])) sp_boot.
Proof. exact (boot_abs pn Hpn Hlen). Qed.

Lemma lost_blocks_empty : lost_blocks ∅ 0.
Proof. split; [apply map_size_empty|apply map_Forall_empty]. Qed.

(** C3: the library does what the machine says whatever the outcomes of its allocations
    are: from the start of the process, with any plan of good and bad allocations, any
    sequence of calls that the machine survives returns; the answers, the lines and the
    level are the machine's, and the allocations the calls made are those it drew. *)
Theorem faulty_refines es p rs s n p' :
  Forall valid es → f_events pn es sp_boot p = (Some (rs, s, n), p') →
  ∃ w', run_events es (with_plan p (boot (Lit pn 0))) = Ok rs w' ∧ plan w' = p' ∧
    sys_stdout (os w') = sp_out s ∧ current_level (cfg w') = sp_level s.
Proof.
  intros Hv Hf.
  destruct (proj1 (wp_run _ _ _) (f_events_refine pn ∅ 0 es _ _ _ _ _ _ _ _ (boot_fabs p) lost_blocks_empty Hv Hf))
    as (rs' & w' & Hrun & -> & Hp & F' & io & L & Ha & _).
  exists w'. split_and!; [done|done|apply (ab_out _ _ _ _ _ _ Ha)|apply (ab_level _ _ _ _ _ _ Ha)].
Qed.

(** C31: the only failure that breaks the process is that of a copy of the strings of a
    put.  Where the machine stops, a call of [mdclog_mdc_add] has returned -1 and left
    the freed entry in the list of its thread: when the thread then asks for the same
    key, it reads freed memory. *)
Theorem torn_put_fatal es p p' :
  Forall valid es → f_events pn es sp_boot p = (None, p') →
  ∃ es1 t k v es2 rs w', es = es1 ++ Call t (CallAdd k v) :: es2 ∧
    run_events (es1 ++ [Call t (CallAdd k v)]) (with_plan p (boot (Lit pn 0))) = Ok (rs ++ [RInt (-1)]) w' ∧
    plan w' = p' ∧ run_event (Call t (CallGet k)) w' = Stop UndefinedBehaviour.
Proof.
  intros Hv Hf.
  destruct (f_events_stop pn ∅ es _ _ _ _ _ (boot_fabs p) Hv Hf) as (es1 & t & k & v & es2 & rs & w' & -> & Hrun & Hp & Hs & Hd & Ht).
  apply Forall_app in Hv as [_ [Hv _]%Forall_cons].
  exists es1, t, k, v, es2, rs, w'. split_and!; [done..|].
  cbn [run_event run_call]. rewrite /mbind /M_bind /modify -Hs with_self_id /mdclog_mdc_get /= /init_library.
  rewrite /mbind /M_bind /gets. destruct (Z.eqb_spec (init_done (cfg w')) 0) as [|_]; [done|]. cbn [negb].
  by rewrite /mret /M_ret (torn_search _ _ _ Ht); [|apply get_cstr_lit, Hv].
Qed.

Lemma run_events_app es1 es2 w rs1 w1 rs2 w2 :
  run_events es1 w = Ok rs1 w1 → run_events es2 w1 = Ok rs2 w2 → run_events (es1 ++ es2) w = Ok (rs1 ++ rs2) w2.
Proof.
  revert w rs1. induction es1 as [|e es1 IH]; intros w rs1 H1 H2; [by injection H1 as <- <-|].
  rewrite -app_comm_cons. cbn [run_events] in H1 |- *. rewrite /mbind /M_bind in H1 |- *.
  destruct (run_event e w) as [r w'|]; [|done]. destruct (run_events es1 w') as [rs w''|] eqn:Hr; [|done].
  injection H1 as <- <-. by rewrite (IH _ _ Hr H2).
Qed.

(** C17: failures pass.  Once there is memory again, calls do what they do in a process
    that never lacked it, from the state the failures have left: nothing of the library
    stays disabled but the identity that was missed. *)
Theorem failures_pass es1 es2 p rs s n :
  Forall valid es1 → Forall valid es2 → f_events pn es1 sp_boot p = (Some (rs, s, n), []) →
  ∃ w', run_events (es1 ++ es2) (with_plan p (boot (Lit pn 0))) = Ok (rs ++ (sp_events pn es2 s).1) w' ∧
    sys_stdout (os w') = sp_out (sp_events pn es2 s).2 ∧
    current_level (cfg w') = sp_level (sp_events pn es2 s).2.
Proof.
  intros Hv1 Hv2 Hf.
  destruct (proj1 (wp_run _ _ _) (f_events_refine pn ∅ 0 es1 _ _ _ _ _ _ _ _ (boot_fabs p) lost_blocks_empty Hv1 Hf))
    as (rs' & w1 & Hrun1 & -> & Hp & F & io & L & Ha & _).
  assert (Ha' : abs F pn w1 io L s) by (rewrite /fabs -Hp in Ha; by destruct w1).
  destruct (proj1 (wp_run _ _ _) (run_events_refine F pn es2 _ _ _ _ Ha' Hv2)) as (rs2 & w2 & Hrun2 & io2 & L2 & -> & Ha2).
  exists w2. split_and!; [by eapply run_events_app|apply (ab_out _ _ _ _ _ _ Ha2)|apply (ab_level _ _ _ _ _ _ Ha2)].
Qed.

(** C14: what failures cost in the end.  Once every thread that made a call has ended
    and the library has been cleaned up, the heap holds the lists that could not be
    made the value of the key, one block each, and nothing else. *)
Theorem faulty_leaks es t0 p rs s n p' :
  Forall valid es →
  f_events pn (es ++ exits (threads es) ++ [Call t0 CallLibClean]) sp_boot p = (Some (rs, s, n), p') →
  ∃ w', run_events (es ++ exits (threads es) ++ [Call t0 CallLibClean]) (with_plan p (boot (Lit pn 0))) = Ok rs w' ∧
    size (heap w') = n ∧ map_Forall (λ _ x, x = BList Null) (heap w').
Proof.
  intros Hes Hf.
  assert (Hv : Forall valid (es ++ exits (threads es) ++ [Call t0 CallLibClean])).
  { apply Forall_app. split; [done|]. apply Forall_app. split; [|by repeat constructor].
    apply Forall_fmap, Forall_forall. done. }
  destruct (proj1 (wp_run _ _ _) (f_events_refine pn ∅ 0 _ _ _ _ _ _ _ _ _ (boot_fabs p) lost_blocks_empty Hv Hf))
    as (rs' & w' & Hrun & -> & _ & F' & io & L & Ha & [Hs HF]).
  apply f_events_app in Hf as (rs1 & s1 & n1 & p1 & rs2 & n2 & Hf1 & Hf2).
  rewrite f_events_exits in Hf2. injection Hf2 as _ <- _ _.
  exists w'. split; [done|].
  assert (Hh : heap w' = F'); [|rewrite Hh; by rewrite Nat.add_0_r in Hs].
  apply (abs_empty F' pn (with_plan [] w') io L _ Ha); [|by rewrite sp_events_app].
  intros t. rewrite sp_events_app /=. apply sp_exits_list.
  destruct (decide (t ∈ threads es)); [by right|left]. by rewrite (f_events_list _ _ _ _ _ _ _ _ _ Hf1).
Qed.
End properties.

(** A run with failures: no identity and no list at first, a list lost, a line dropped. *)
Definition short : list event :=
  [Call 1 (CallAdd (lit "k") (lit "a")); Call 1 (CallAdd (lit "k") (lit "b")); Call 2 (CallGet (lit "k"));
   Tick (2, 5000); Call 1 (CallWrite MDCLOG_ERR (lit "lost")); Call 1 (CallWrite MDCLOG_ERR (lit "hi"));
   Call 1 (CallGet (lit "k"))].

Definition short_plan : list bool := [false; false; true; true; true; true; true; true; false; false; true].

Lemma short_valid : Forall valid short.
Proof. by repeat constructor. Qed.

(** The machine's last state. *)
Definition last_state (es : list event) (p : list bool) : spec :=
  match (f_events (lit "app") es sp_boot p).1 with Some (_, s, _) => s | None => sp_boot end.

Lemma faulty_refines_witness : ∃ w',
  run_events short (with_plan short_plan (boot (Lit (lit "app") 0))) =
    Ok [RInt (-1); RInt 0; RStr None; RNone; RNone; RNone; RStr (Some (lit "b"))] w' ∧
  sys_stdout (os w') = [qlit "{'ts':2005,'crit':'ERROR','id':'(null)','mdc':{'k':'b'},'msg':'hi'}" ++ [NL]].
Proof.
  destruct app_name as [H1 H2].
  destruct (faulty_refines (lit "app") H1 H2 short short_plan
    [RInt (-1); RInt 0; RStr None; RNone; RNone; RNone; RStr (Some (lit "b"))] (last_state short short_plan) 1 []
    short_valid ltac:(vm_compute; reflexivity)) as (w' & Hrun & _ & Hout & _).
  assert (Ho : sp_out (last_state short short_plan) =
    [qlit "{'ts':2005,'crit':'ERROR','id':'(null)','mdc':{'k':'b'},'msg':'hi'}" ++ [NL]]) by (vm_compute; reflexivity).
  exists w'. rewrite -Ho. split; [exact Hrun|exact Hout].
Defined.

(** The copy of a value fails. *)
Definition torn_plan : list bool := [true; true; true; true; true; false].

Lemma torn_put_fatal_witness : ∃ es1 t k v es2 rs w',
  short = es1 ++ Call t (CallAdd k v) :: es2 ∧
  run_events (es1 ++ [Call t (CallAdd k v)]) (with_plan torn_plan (boot (Lit (lit "app") 0))) = Ok (rs ++ [RInt (-1)]) w' ∧
  plan w' = [] ∧ run_event (Call t (CallGet k)) w' = Stop UndefinedBehaviour.
Proof.
  destruct app_name as [H1 H2].
  exact (torn_put_fatal (lit "app") H1 H2 short torn_plan [] short_valid ltac:(vm_compute; reflexivity)).
Defined.

Lemma faulty_leaks_witness : ∃ rs w',
  run_events (short ++ exits (threads short) ++ [Call 1 CallLibClean]) (with_plan short_plan (boot (Lit (lit "app") 0))) =
    Ok rs w' ∧ size (heap w') = 1%nat ∧ map_Forall (λ _ x, x = BList Null) (heap w').
Proof.
  destruct app_name as [H1 H2]. eexists _.
  exact (faulty_leaks (lit "app") H1 H2 short 1 short_plan _
    (last_state (short ++ exits (threads short) ++ [Call 1 CallLibClean]) short_plan) 1 [] short_valid
    ltac:(vm_compute; reflexivity)).
Defined.

Lemma failures_pass_witness : ∃ w',
  run_events (short ++ demo) (with_plan short_plan (boot (Lit (lit "app") 0))) =
    Ok ([RInt (-1); RInt 0; RStr None; RNone; RNone; RNone; RStr (Some (lit "b"))] ++
        [RInt 0; RInt 0; RNone; RNone; RNone; RStr (Some (lit "a"))]) w'.
Proof.
  destruct app_name as [H1 H2].
  destruct (failures_pass (lit "app") H1 H2 short demo short_plan
    [RInt (-1); RInt 0; RStr None; RNone; RNone; RNone; RStr (Some (lit "b"))] (last_state short short_plan) 1
    short_valid demo_valid ltac:(vm_compute; reflexivity)) as (w' & Hrun & _).
  assert (Hr : (sp_events (lit "app") demo (last_state short short_plan)).1 =
    [RInt 0; RInt 0; RNone; RNone; RNone; RStr (Some (lit "a"))]) by (vm_compute; reflexivity).
  exists w'. rewrite -Hr. exact Hrun.
Defined.
