(* ===== verification/Interleave.v ===== *)
(** The configuration of src/mdclog.c between threads: the initialisation and the uses
    of the identity, one access to the shared state at a time, in any order.

    A thread is what it has left to do, a [prog] of atomic actions; [init_steps],
    [mdclog_init_steps] and [lib_clean_steps] are the functions of Mdclog cut into
    their accesses (running one alone is running the function).  The theorems say what
    the lock protects, and what it does not: [init_done] is read outside it, and
    [mdclog_lib_clean] does not take it. *)

From S2P Require Import Prelude World Memory Libc Escape MdcIface Mdc JsonFormat Mdclog Within Api.

#[local] Set Warnings "-register-all".

(** ** Programs of atomic actions *)

Inductive prog :=
| Done
| Act (m : world → result prog).

(** An action, and the rest. *)
Definition act (m : M unit) (k : prog) : prog := Act (m ;; mret k).
Notation "m >>> k" := (act m k) (at level 100, right associativity) : mdclog_scope.

(** A thread that runs alone. *)
Fixpoint run (p : prog) : M unit := λ w,
  match p with
  | Done => Ok tt w
  | Act m =>
      match m w with
      | Ok p' w' => run p' w'
      | Stop s => Stop s
      end
  end.

(** ** The functions *)

Section functions.
Context (attr : ptr).

(** The identity of the attributes, or the name of the program. *)
Definition take_identity : M unit :=
  attr_identity ← (if is_null attr then mret Null else load_attr attr);
  if negb (is_null attr_identity) then set_identity attr_identity ;; store_attr attr Null
  else default_identity.

(** The part of [init_library] that holds the lock. *)
Definition locked_steps (k : prog) : prog :=
  Act (old ← gets (λ w, identity (cfg w));
        let rest := take_identity >>> set_init_done 1 >>> pthread_rwlock_unlock >>> k in
       if is_null old then mret rest
       else free old ;; mret (set_identity Null >>> rest)).

Definition init_steps (k : prog) : prog :=
  Act (done ← gets (λ w, init_done (cfg w));
       mret (if negb (done =? 0) then k
             else (mdclog_internal_init_mdc ;; mret tt) >>> pthread_rwlock_wrlock >>> locked_steps k)).

Definition mdclog_init_steps (k : prog) : prog := set_init_done 0 >>> set_format_done 0 >>> init_steps k.
End functions.

(** What the formatter does with the identity. *)
Definition use_identity : M unit :=
  identity ← gets (λ w, identity (cfg w));
  if is_null identity then mret tt else read_cstr identity ;; mret tt.

(** The accesses of [mdclog_write] to the configuration. *)
Definition write_steps (k : prog) : prog :=
  init_steps Null (pthread_rwlock_rdlock >>> use_identity >>> pthread_rwlock_unlock >>> k).

Definition lib_clean_steps (k : prog) : prog :=
  (identity ← gets (λ w, identity (cfg w)); when (negb (is_null identity)) (free identity)) >>>
  set_identity Null >>> set_init_done 0 >>> set_format_done 0 >>> k.

(** Cutting a function into its accesses does not change what it does alone. *)
Section alone.
Implicit Types (w : world).

Lemma run_act m k w : run (act m k) w = (m ;; run k) w.
Proof. rewrite /act /= /mbind /M_bind. by destruct (m w). Qed.

Lemma run_Act m w : run (Act m) w = (p ← m; run p) w.
Proof. done. Qed.

Lemma bind_assoc {A B C} (m : M A) (f : A → M B) (g : B → M C) w :
  ((m ≫= f) ≫= g) w = (m ≫= λ a, f a ≫= g) w.
Proof. rewrite /mbind /M_bind. by destruct (m w). Qed.

Lemma bind_ext {A B} (m : M A) (f g : A → M B) w :
  (∀ a w', m w = Ok a w' → f a w' = g a w') → (m ≫= f) w = (m ≫= g) w.
Proof. rewrite /mbind /M_bind. destruct (m w) as [a w'|]; [|done]. by intros H; apply H. Qed.

Lemma bind_ret {A B} (a : A) (f : A → M B) w : (mret a ≫= f) w = f a w.
Proof. done. Qed.

Lemma init_steps_run attr k w : run (init_steps attr k) w = (init_library attr ;; run k) w.
Proof.
  rewrite /init_library bind_assoc /init_steps run_Act bind_assoc. apply bind_ext. intros done w0 _.
  destruct (negb (done =? 0)); [done|].
  rewrite bind_ret run_act !(bind_assoc mdclog_internal_init_mdc). apply bind_ext. intros r w1 _. cbn beta.
  rewrite bind_ret run_act (bind_assoc pthread_rwlock_wrlock). apply bind_ext. intros [] w2 _. cbn beta.
  rewrite /locked_steps run_Act !bind_assoc. apply bind_ext. intros old w3 _. cbn beta.
  assert (Hrest : ∀ w4, run (take_identity attr >>> set_init_done 1 >>> pthread_rwlock_unlock >>> k) w4 =
    (((attr_identity ← (if is_null attr then mret Null else load_attr attr);
       (if negb (is_null attr_identity) then set_identity attr_identity ;; store_attr attr Null
        else default_identity) ;; set_init_done 1 ;; pthread_rwlock_unlock)) ;; run k) w4).
  { intros w4. rewrite run_act /take_identity !bind_assoc. apply bind_ext. intros a w5 _. cbn beta.
    rewrite bind_assoc. apply bind_ext. intros [] w6 _. cbn beta.
    rewrite run_act bind_assoc. apply bind_ext. intros [] w7 _. cbn beta. by rewrite run_act. }
  destruct (is_null old); cbn [negb when].
  - rewrite bind_ret bind_assoc bind_ret. apply Hrest.
  - rewrite (bind_assoc (free old ;; set_identity Null)) !(bind_assoc (free old)). apply bind_ext. intros [] w4 _. cbn beta.
    rewrite bind_ret run_act (bind_assoc (set_identity Null)). apply bind_ext. intros [] w5 _. apply Hrest.
Qed.

Lemma mdclog_init_steps_run attr w : run (mdclog_init_steps attr Done) w = (mdclog_init attr ;; mret tt) w.
Proof.
  rewrite /mdclog_init_steps /mdclog_init run_act bind_assoc. apply bind_ext. intros [] w1 _. cbn beta.
  rewrite run_act bind_assoc. apply bind_ext. intros [] w2 _. cbn beta.
  rewrite init_steps_run bind_assoc. by apply bind_ext.
Qed.

Lemma lib_clean_steps_run w : run (lib_clean_steps Done) w = mdclog_lib_clean w.
Proof.
  rewrite /lib_clean_steps /mdclog_lib_clean run_act bind_assoc. apply bind_ext. intros p w1 _. cbn beta.
  apply bind_ext. intros [] w2 _. rewrite run_act. apply bind_ext. intros [] w3 _. rewrite run_act. by apply bind_ext.
Qed.
End alone.

(** ** Threads *)

(** What a thread calls: [mdclog_init]; a function that only initialises the library;
    [mdclog_write]; [mdclog_lib_clean]. *)
Inductive op :=
| OpInit (attr : ptr)
| OpTouch
| OpWrite
| OpClean.

Definition op_steps (o : op) (k : prog) : prog :=
  match o with
  | OpInit attr => mdclog_init_steps attr k
  | OpTouch => init_steps Null k
  | OpWrite => write_steps k
  | OpClean => lib_clean_steps k
  end.

Definition program (ops : list op) : prog := foldr op_steps Done ops.

Abbreviation pool := (gmap positive prog).

(** One thread makes its next access. *)
Inductive istep : world * pool → world * pool → Prop :=
| istep_act t m p w w' T :
    T !! t = Some (Act m) → m (with_self t w) = Ok p w' → istep (w, T) (w', <[t := p]> T).

Definition start (w : world) (calls : gmap positive (list op)) : world * pool := (w, program <$> calls).

(** A schedule: which thread goes next. *)
Fixpoint play (ts : list positive) (c : world * pool) : option (world * pool) :=
  match ts with
  | [] => Some c
  | t :: ts' =>
      match c.2 !! t with
      | Some (Act m) =>
          match m (with_self t c.1) with
          | Ok p w' => play ts' (w', <[t := p]> c.2)
          | Stop _ => None
          end
      | _ => None
      end
  end.

Lemma play_steps ts c c' : play ts c = Some c' → rtc istep c c'.
Proof.
  revert c. induction ts as [|t ts IH]; intros [w T]; cbn; [by intros [= ->]; constructor|].
  destruct (T !! t) as [[|m]|] eqn:Ht; try done. destruct (m (with_self t w)) as [p w'|] eqn:Hm; [|done].
  intros Hp. eapply rtc_l; [by econstructor|]. by apply IH.
Qed.

(** ** Where a thread is *)

Inductive point :=
| AtReset | AtFormat | AtCheck | AtMdc | AtLock | AtFree | AtClear | AtTake | AtSet | AtUnlock
| AtRLock | AtRead | AtRUnlock | AtEnd.

(** The point, the attributes of the initialisation under way, whether the identity is
    read after it, and the calls that are left. *)
Record tstate := TState { pt : point; attrs : ptr; reads : bool; calls : list op }.

Definition read_steps (k : prog) : prog := pthread_rwlock_rdlock >>> use_identity >>> pthread_rwlock_unlock >>> k.

Definition prog_at (s : tstate) : prog :=
  let k := if reads s then read_steps (program (calls s)) else program (calls s) in
  let a := attrs s in
  let take := take_identity a >>> set_init_done 1 >>> pthread_rwlock_unlock >>> k in
  match pt s with
  | AtReset => mdclog_init_steps a k
  | AtFormat => set_format_done 0 >>> init_steps a k
  | AtCheck => init_steps a k
  | AtMdc => (mdclog_internal_init_mdc ;; mret tt) >>> pthread_rwlock_wrlock >>> locked_steps a k
  | AtLock => pthread_rwlock_wrlock >>> locked_steps a k
  | AtFree => locked_steps a k
  | AtClear => set_identity Null >>> take
  | AtTake => take
  | AtSet => set_init_done 1 >>> pthread_rwlock_unlock >>> k
  | AtUnlock => pthread_rwlock_unlock >>> k
  | AtRLock => read_steps (program (calls s))
  | AtRead => use_identity >>> pthread_rwlock_unlock >>> program (calls s)
  | AtRUnlock => pthread_rwlock_unlock >>> program (calls s)
  | AtEnd => Done
  end.

(** The state at the start of the next call. *)
Definition enter (ops : list op) : tstate :=
  match ops with
  | [] | OpClean :: _ => TState AtEnd Null false []
  | OpInit a :: ops' => TState AtReset a false ops'
  | OpTouch :: ops' => TState AtCheck Null false ops'
  | OpWrite :: ops' => TState AtCheck Null true ops'
  end.

Definition after_init (s : tstate) : tstate :=
  if reads s then TState AtRLock Null false (calls s) else enter (calls s).

Definition goto (q : point) (s : tstate) : tstate := TState q (attrs s) (reads s) (calls s).

(** No call of [mdclog_lib_clean]; attributes from the set [A]. *)
Definition op_ok (A : gset positive) (o : op) : Prop :=
  match o with
  | OpInit Null => True
  | OpInit (Ptr a 0) => a ∈ A
  | OpTouch | OpWrite => True
  | _ => False
  end.

Lemma enter_prog A ops : Forall (op_ok A) ops → prog_at (enter ops) = program ops.
Proof. intros Ho. destruct Ho as [|o ops Ho _]; [done|]. by destruct o. Qed.

Lemma after_init_prog A s : Forall (op_ok A) (calls s) →
  prog_at (after_init s) = if reads s then read_steps (program (calls s)) else program (calls s).
Proof. intros Ho. rewrite /after_init. destruct (reads s); [done|]. by eapply enter_prog. Qed.

(** Who holds the lock, for writing ([true]) or reading. *)
Definition mode (s : tstate) : option bool :=
  match pt s with
  | AtFree | AtClear | AtTake | AtSet | AtUnlock => Some true
  | AtRead | AtRUnlock => Some false
  | _ => None
  end.

Definition holders (b : bool) (S : gmap positive tstate) : gset positive :=
  dom (filter (λ x, mode x.2 = Some b) S).

Section holders.
Implicit Types (S : gmap positive tstate) (s : tstate) (t : positive).

Lemma elem_of_holders b S t : t ∈ holders b S ↔ ∃ s, S !! t = Some s ∧ mode s = Some b.
Proof.
  rewrite /holders elem_of_dom. split.
  - intros [s [Hs Hm]%map_lookup_filter_Some]. by exists s.
  - intros (s & Hs & Hm). exists s. by apply map_lookup_filter_Some.
Qed.

Lemma holders_insert b S t s :
  holders b (<[t := s]> S) = if decide (mode s = Some b) then {[t]} ∪ holders b S else holders b S ∖ {[t]}.
Proof.
  apply set_eq. intros t'. rewrite elem_of_holders. destruct (decide (t' = t)) as [->|Hne].
  - rewrite lookup_insert_eq. case_decide as Hd.
    + rewrite elem_of_union elem_of_singleton. split; [by left|]. intros _. by exists s.
    + rewrite elem_of_difference elem_of_singleton. split; [by intros (? & [= <-] & ?)|by intros []].
  - rewrite lookup_insert_ne //. rewrite -elem_of_holders. case_decide.
    + rewrite elem_of_union elem_of_singleton. tauto.
    + rewrite elem_of_difference elem_of_singleton. tauto.
Qed.

Lemma diff_empty (X : gset positive) : ∅ ∖ X = ∅.
Proof. set_solver. Qed.

(** A step that leaves the lock alone. *)
Lemma holders_keep b S t s s' : S !! t = Some s → mode s' = mode s → holders b (<[t := s']> S) = holders b S.
Proof.
  intros Hs Hm. rewrite holders_insert Hm. apply set_eq. intros t'. case_decide as Hd.
  - rewrite elem_of_union elem_of_singleton. split; [|by right]. intros [->|?]; [|done]. apply elem_of_holders. by exists s.
  - rewrite elem_of_difference elem_of_singleton. split; [by intros []|]. intros Ht. split; [done|]. intros ->.
    apply elem_of_holders in Ht as (s2 & Hs2 & ?). by simplify_eq.
Qed.

(** The lock and its holders agree. *)
Definition lock_ok (m : rwlock) S : Prop :=
  match m with
  | Unlocked => holders true S = ∅ ∧ holders false S = ∅
  | WriteLocked => (∃ t, holders true S = {[t]}) ∧ holders false S = ∅
  | ReadLocked n => holders true S = ∅ ∧ size (holders false S) = n ∧ n ≠ 0%nat
  end.

Lemma lock_ok_keep m S t s s' : lock_ok m S → S !! t = Some s → mode s' = mode s → lock_ok m (<[t := s']> S).
Proof. intros Hl Hs Hm. rewrite /lock_ok !(holders_keep _ _ _ _ _ Hs Hm). exact Hl. Qed.

Lemma lock_ok_write S t s s' :
  lock_ok Unlocked S → S !! t = Some s → mode s' = Some true → lock_ok WriteLocked (<[t := s']> S).
Proof.
  intros [H1 H2] Hs Hm. split.
  - exists t. rewrite holders_insert H1. by case_decide; [rewrite right_id_L|].
  - rewrite holders_insert H2 Hm. case_decide; [done|]. by rewrite diff_empty.
Qed.
End holders.

Section lock.
Implicit Types (S : gmap positive tstate) (s : tstate) (t : positive).

Lemma lock_ok_read m S t s s' :
  lock_ok m S → m ≠ WriteLocked → S !! t = Some s → mode s = None → mode s' = Some false →
  lock_ok (match m with ReadLocked n => ReadLocked (Datatypes.S n) | _ => ReadLocked 1 end) (<[t := s']> S).
Proof.
  intros Hl Hm Hs Hn Hr. assert (Hin : t ∉ holders false S).
  { intros (s2 & Hs2 & ?)%elem_of_holders. by simplify_eq. }
  destruct m as [|n|]; [| |done].
  - destruct Hl as [H1 H2]. split_and!; [|rewrite holders_insert H2; case_decide; [by rewrite right_id_L size_singleton|done]|done].
    rewrite holders_insert H1 Hr. case_decide; [done|]. by rewrite diff_empty.
  - destruct Hl as (H1 & H2 & H3). split_and!; [| |done].
    + rewrite holders_insert H1 Hr. case_decide; [done|]. by rewrite diff_empty.
    + rewrite holders_insert. case_decide; [|done]. rewrite size_union; [|set_solver]. rewrite size_singleton. lia.
Qed.

Lemma lock_ok_write_unlock m S t s s' :
  lock_ok m S → S !! t = Some s → mode s = Some true → mode s' = None →
  m = WriteLocked ∧ lock_ok Unlocked (<[t := s']> S).
Proof.
  intros Hl Hs Hm Hm'. assert (Ht : t ∈ holders true S) by (apply elem_of_holders; by exists s).
  destruct m as [|n|]; [destruct Hl as [H _]|destruct Hl as [H _]|destruct Hl as [[t' H] H2]];
    rewrite H in Ht; [by apply not_elem_of_empty in Ht..|]. apply elem_of_singleton in Ht as <-.
  split; [done|]. split; rewrite holders_insert Hm' ?H ?H2; (case_decide; [done|]).
  - by rewrite difference_diag_L.
  - by rewrite diff_empty.
Qed.

Lemma lock_ok_read_unlock m S t s s' :
  lock_ok m S → S !! t = Some s → mode s = Some false → mode s' = None →
  ∃ n, m = ReadLocked (Datatypes.S n) ∧
    lock_ok (match n with O => Unlocked | Datatypes.S k => ReadLocked (Datatypes.S k) end) (<[t := s']> S).
Proof.
  intros Hl Hs Hm Hm'. assert (Ht : t ∈ holders false S) by (apply elem_of_holders; by exists s).
  destruct m as [|[|n]|]; [destruct Hl as [_ H]|by destruct Hl as (_ & _ & ?)|destruct Hl as (H1 & H2 & _)|destruct Hl as [_ H]];
    try (rewrite H in Ht; by apply not_elem_of_empty in Ht).
  exists n. split; [done|].
  assert (H1' : holders true (<[t := s']> S) = ∅).
  { rewrite holders_insert Hm' H1. case_decide; [done|]. by rewrite diff_empty. }
  assert (H2' : size (holders false (<[t := s']> S)) = n).
  { rewrite holders_insert Hm'. case_decide; [done|]. rewrite size_difference; [|by apply singleton_subseteq_l].
    rewrite size_singleton H2. lia. }
  destruct n as [|n]; [|by split_and!]. split; [done|]. by apply leibniz_equiv, size_empty_inv.
Qed.

(** The writer is alone. *)
Lemma writer_unique m S t s t' s' :
  lock_ok m S → S !! t = Some s → mode s = Some true → S !! t' = Some s' → mode s' = Some true → t' = t.
Proof.
  intros Hl Hs Hm Hs' Hm'. assert (Ht : t ∈ holders true S) by (apply elem_of_holders; by exists s).
  assert (Ht' : t' ∈ holders true S) by (apply elem_of_holders; by exists s').
  destruct m as [|n|]; [destruct Hl as [H _]|destruct Hl as [H _]|destruct Hl as [[t2 H] _]]; rewrite H in Ht, Ht';
    [by apply not_elem_of_empty in Ht..|]. apply elem_of_singleton in Ht, Ht'. congruence.
Qed.

Lemma writer_no_reader m S t s t' s' :
  lock_ok m S → S !! t = Some s → mode s = Some false → S !! t' = Some s' → mode s' = Some true → False.
Proof.
  intros Hl Hs Hm Hs' Hm'. assert (Ht : t ∈ holders false S) by (apply elem_of_holders; by exists s).
  assert (Ht' : t' ∈ holders true S) by (apply elem_of_holders; by exists s').
  destruct m as [|n|]; [destruct Hl as [_ H]|destruct Hl as [H _]|destruct Hl as [_ H]]; rewrite H in Ht, Ht';
    by [apply not_elem_of_empty in Ht|apply not_elem_of_empty in Ht'].
Qed.
End lock.

(** ** The strings *)

(** The attribute objects [A] and the block [io] of the identity: every identity is a
    string of its own. *)
Record owned (h : gmap positive block) (A : gset positive) (io : option positive) : Prop := {
  ow_attrs : ∀ a, a ∈ A → ∃ p, h !! a = Some (BAttr p) ∧
    (p = Null ∨ ∃ b s, p = Ptr b 0 ∧ h !! b = Some (cstr_block s) ∧ is_str s ∧ io ≠ Some b);
  ow_apart : ∀ a a' b, a ∈ A → a' ∈ A → h !! a = Some (BAttr (Ptr b 0)) → h !! a' = Some (BAttr (Ptr b 0)) → a = a';
  ow_ident : ∀ b, io = Some b → ∃ s, h !! b = Some (cstr_block s) ∧ is_str s
}.

Definition ident_ptr (io : option positive) : ptr := match io with Some b => Ptr b 0 | None => Null end.

Section owned.
Implicit Types (h : gmap positive block) (A : gset positive) (io : option positive).

Lemma owned_free h A b : owned h A (Some b) → owned (delete b h) A None.
Proof.
  intros [H1 H2 H3]. destruct (H3 b eq_refl) as (s & Hb & _).
  assert (Ha : ∀ a p, delete b h !! a = Some (BAttr p) ↔ h !! a = Some (BAttr p)).
  { intros a p. rewrite lookup_delete_Some. split; [by intros []|]. intros Hp. split; [|done]. intros <-. by rewrite Hb in Hp. }
  split; [| |done].
  - intros a Hin. destruct (H1 a Hin) as (p & Hp & Hs). exists p. rewrite Ha. split; [done|].
    destruct Hs as [->|(b' & s' & -> & Hb' & Hs' & Hne)]; [by left|]. right. exists b', s'. split_and!; try done.
    rewrite lookup_delete_ne //. congruence.
  - intros a a' b' Hin Hin'. rewrite !Ha. by apply H2.
Qed.

(** The identity of the attributes becomes the process's. *)
Lemma owned_take h A a b :
  owned h A None → a ∈ A → h !! a = Some (BAttr (Ptr b 0)) → owned (<[a := BAttr Null]> h) A (Some b).
Proof.
  intros [H1 H2 H3] Ha Hb. split.
  - intros a' Hin. destruct (decide (a = a')) as [<-|Hne]; [exists Null; rewrite lookup_insert_eq; by auto|].
    destruct (H1 a' Hin) as (p & Hp & Hs). exists p. rewrite lookup_insert_ne //. split; [done|].
    destruct Hs as [->|(b' & s' & -> & Hb' & Hs' & _)]; [by left|]. right. exists b', s'. split_and!; try done.
    + rewrite lookup_insert_ne //. intros <-. by rewrite Hb in Hb'.
    + intros [= ->]. apply Hne. by eapply H2.
  - intros a1 a2 b' Hi1 Hi2 [[? [= ]]|[_ Hh1]]%lookup_insert_Some [[? [= ]]|[_ Hh2]]%lookup_insert_Some. by eapply H2.
  - intros b' [= <-]. destruct (H1 a Ha) as (p & Hp & Hs). rewrite Hb in Hp. injection Hp as <-.
    destruct Hs as [?|(b' & s' & [= <-] & Hb' & Hs' & _)]; [done|]. exists s'. split; [|done].
    rewrite lookup_insert_ne //. intros <-. by rewrite Hb in Hb'.
Qed.

(** A new string becomes the identity. *)
Lemma owned_new h h' A b s :
  owned h A None → (∀ c, is_Some (h !! c) → h' !! c = h !! c) → h !! b = None → h' !! b = Some (cstr_block s) → is_str s →
  owned h' A (Some b).
Proof.
  intros [H1 H2 H3] Hold Hfresh Hb Hs. assert (Hsame : ∀ a x, h !! a = Some x → h' !! a = Some x).
  { intros a x Hx. by rewrite Hold; [|eauto]. }
  assert (Ha : ∀ a, a ∈ A → h' !! a = h !! a).
  { intros a Hin. destruct (H1 a Hin) as (p & Hp & _). apply Hold. by eauto. }
  split; [| |by intros b' [= <-]; eauto].
  - intros a Hin. destruct (H1 a Hin) as (p & Hp & Hps). exists p. split; [by apply Hsame|].
    destruct Hps as [->|(b' & s' & -> & Hb' & Hs' & _)]; [by left|]. right. exists b', s'. split_and!; auto.
    intros [= ->]. by rewrite Hfresh in Hb'.
  - intros a a' b' Hi1 Hi2. rewrite !Ha //. by apply H2.
Qed.
End owned.

(** ** The invariant *)

#[export] Instance rwlock_eq_dec : EqDecision rwlock.
Proof. solve_decision. Defined.

(** Some thread has freed the identity and not yet cleared it. *)
Definition clearing (S : gmap positive tstate) : Prop := ∃ t s, S !! t = Some s ∧ pt s = AtClear.

Definition good_state (A : gset positive) (s : tstate) : Prop :=
  Forall (op_ok A) (calls s) ∧ op_ok A (OpInit (attrs s)).

Record inv (pn : list Z) (A : gset positive) (w : world) (S : gmap positive tstate) : Prop := {
  iv_wf : wf_heap w;
  iv_plan : plan w = [];
  iv_sys : sys_progname (os w) = Lit pn 0 ∧ sys_key_create (os w) = true;
  iv_lock : lock_ok (config_mutex (cfg w)) S;
  iv_ident : ∃ io, owned (heap w) A io ∧ (identity (cfg w) = ident_ptr io ∨ io = None ∧ clearing S);
  iv_taken : ∀ t s, S !! t = Some s → pt s = AtTake → identity (cfg w) = Null;
  iv_good : ∀ t s, S !! t = Some s → good_state A s
}.

#[export] Instance point_eq_dec : EqDecision point.
Proof. solve_decision. Defined.

(** Whether a thread can go on, given the lock. *)
Definition can_go (m : rwlock) (s : tstate) : bool :=
  match pt s with
  | AtEnd => false
  | AtLock => bool_decide (m = Unlocked)
  | AtRLock => bool_decide (m ≠ WriteLocked)
  | _ => true
  end.

Section invariant.
Context (pn : list Z) (A : gset positive).
Implicit Types (w : world) (S : gmap positive tstate) (s : tstate) (t : positive).

Lemma enter_point ops : mode (enter ops) = None ∧ pt (enter ops) ≠ AtTake ∧ pt (enter ops) ≠ AtClear.
Proof. by destruct ops as [|[]]. Qed.

Lemma after_init_point s : mode (after_init s) = None ∧ pt (after_init s) ≠ AtTake.
Proof. rewrite /after_init. destruct (reads s); [done|]. by destruct (enter_point (calls s)) as (? & ? & ?). Qed.

Lemma enter_good ops : Forall (op_ok A) ops → good_state A (enter ops).
Proof. intros Ho. destruct Ho as [|o ops Ho Hos]; [done|]. by destruct o as [[]| | |]. Qed.

Lemma after_init_good s : good_state A s → good_state A (after_init s).
Proof. intros [H1 H2]. rewrite /after_init. destruct (reads s); [done|by apply enter_good]. Qed.

Lemma clearing_insert S t s s' : clearing S → S !! t = Some s → pt s ≠ AtClear → clearing (<[t := s']> S).
Proof.
  intros (t' & s2 & Hs2 & Hp) Hs Hn. exists t', s2. rewrite lookup_insert_ne; [done|]. intros ->. by simplify_eq.
Qed.

Lemma good_insert S t s' : (∀ t s, S !! t = Some s → good_state A s) → good_state A s' →
  ∀ t2 s2, <[t := s']> S !! t2 = Some s2 → good_state A s2.
Proof. intros Hg Hs t2 s2 [[_ <-]|[_ H2]]%lookup_insert_Some; [done|by eapply Hg]. Qed.

(** A step that changes neither the heap nor the identity. *)
Lemma inv_move w S t s s' w' :
  inv pn A w S → S !! t = Some s → good_state A s' → pt s ≠ AtClear → (pt s' = AtTake → identity (cfg w) = Null) →
  heap w' = heap w → next w' = next w → plan w' = plan w → os w' = os w → identity (cfg w') = identity (cfg w) →
  lock_ok (config_mutex (cfg w')) (<[t := s']> S) → inv pn A w' (<[t := s']> S).
Proof.
  intros [H1 H2 H3 H4 (io & H5 & H6) H7 H8] Hs Hg Hp Ht Eh En Ep Eo Ei Hl. split; try done.
  - rewrite /wf_heap Eh En. exact H1.
  - congruence.
  - rewrite Eo. exact H3.
  - exists io. rewrite Eh Ei. split; [done|]. destruct H6 as [?|[? ?]]; [by left|right]. split; [done|]. by eapply clearing_insert.
  - rewrite Ei. intros t2 s2 [[_ <-]|[_ H]]%lookup_insert_Some; [done|by eapply H7].
  - by apply good_insert.
Qed.

(** A step of the writer that does. *)
Lemma inv_write w S t s s' w' io :
  inv pn A w S → S !! t = Some s → mode s = Some true → mode s' = Some true → good_state A s' →
  wf_heap w' → plan w' = [] → os w' = os w → config_mutex (cfg w') = config_mutex (cfg w) →
  owned (heap w') A io → (identity (cfg w') = ident_ptr io ∨ io = None ∧ pt s' = AtClear) →
  (pt s' = AtTake → identity (cfg w') = Null) → inv pn A w' (<[t := s']> S).
Proof.
  intros [H1 H2 H3 H4 H5 H6 H7] Hs Hm Hm' Hg Hw Hp Eo Em Ho Hi Ht. split; try done.
  - rewrite Eo. exact H3.
  - rewrite Em. eapply lock_ok_keep; [done|done|congruence].
  - exists io. split; [done|]. destruct Hi as [?|[? ?]]; [by left|right]. split; [done|]. exists t, s'. by rewrite lookup_insert_eq.
  - intros t2 s2 [[_ <-]|[Hne H]]%lookup_insert_Some; [done|]. intros Hp2. destruct Hne. symmetry.
    eapply (writer_unique _ _ t s); [done..|by rewrite /mode Hp2].
  - by apply good_insert.
Qed.

(** No other thread is clearing while this one holds the lock. *)
Lemma inv_identity w S t s :
  inv pn A w S → S !! t = Some s → mode s ≠ None → pt s ≠ AtClear →
  ∃ io, owned (heap w) A io ∧ identity (cfg w) = ident_ptr io.
Proof.
  intros Hi Hs Hm Hp. destruct (iv_ident _ _ _ _ Hi) as (io & Ho & [?|[-> (t' & s' & Hs' & Hp')]]); [by exists io|].
  pose proof (iv_lock _ _ _ _ Hi) as Hl. destruct (mode s) as [[]|] eqn:Hms; [| |done].
  - assert (t' = t) as ->; [eapply (writer_unique _ _ t s); [done..|by rewrite /mode Hp']|]. by simplify_eq.
  - destruct (writer_no_reader _ _ t s t' s' Hl Hs Hms Hs'). by rewrite /mode Hp'.
Qed.

(** A thread makes a step and the invariant stays. *)
Definition steps_to w S t s : Prop :=
  ∃ m s' w', prog_at s = Act m ∧ m (with_self t w) = Ok (prog_at s') w' ∧ inv pn A w' (<[t := s']> S).

Lemma act_step w S t s (m : M unit) k s' w' :
  prog_at s = act m k → m (with_self t w) = Ok tt w' → prog_at s' = k → inv pn A w' (<[t := s']> S) → steps_to w S t s.
Proof.
  intros Hp Hm Hk Hi. exists (m ;; mret k), s', w'. split_and!; [exact Hp|by rewrite (bind_ok _ _ _ _ _ Hm) Hk|done].
Qed.

Lemma owned_drop h io : owned h A io → owned h A None.
Proof.
  intros [H1 H2 _]. split; [|done|done]. intros a Ha. destruct (H1 a Ha) as (p & Hp & Hx). exists p. split; [done|].
  destruct Hx as [->|(b & x & -> & ? & ? & _)]; [by left|right; by exists b, x].
Qed.

Lemma step_free w S t s : inv pn A w S → S !! t = Some s → pt s = AtFree → steps_to w S t s.
Proof.
  intros Hi Hs Hp. destruct (inv_identity _ _ _ _ Hi Hs) as (io & Ho & Hid); [by rewrite /mode Hp|by rewrite Hp|].
  pose proof (iv_good _ _ _ _ Hi _ _ Hs) as Hg. destruct s as [q a r ops]. cbn in Hp. subst q.
  destruct io as [b|]; cbn [ident_ptr] in Hid.
  - destruct (ow_ident _ _ _ Ho b eq_refl) as (x & Hb & _). eexists _, (TState AtClear a r ops), _. split; [reflexivity|].
    rewrite /gets {1}/mbind {1}/M_bind /free. cbn [cfg with_self]. rewrite Hid. cbn [is_null].
    rewrite /mbind /M_bind. cbn [heap with_self]. rewrite Hb. split; [reflexivity|].
    eapply (inv_write w S t _ _ _ None); [done|done|done|done|exact Hg|..]; cbn.
    + exact (wf_heap_delete _ (with_self t w) (iv_wf _ _ _ _ Hi)).
    + apply (iv_plan _ _ _ _ Hi).
    + done.
    + done.
    + by apply owned_free.
    + by right.
    + done.
  - eexists _, (TState AtTake a r ops), _. split; [reflexivity|].
    rewrite /gets {1}/mbind {1}/M_bind. cbn [cfg with_self]. rewrite Hid. split; [reflexivity|].
    eapply inv_move; [exact Hi|exact Hs|exact Hg|done|done|done..|].
    eapply lock_ok_keep; [apply (iv_lock _ _ _ _ Hi)|exact Hs|done].
Qed.

Lemma step_take w S t s :
  is_str pn → zlen (esc pn) < INT_MAX → inv pn A w S → S !! t = Some s → pt s = AtTake → steps_to w S t s.
Proof.
  intros Hpn Hpl Hi Hs Hp. destruct (inv_identity _ _ _ _ Hi Hs) as (io & Ho & Hid); [by rewrite /mode Hp|by rewrite Hp|].
  pose proof (iv_taken _ _ _ _ Hi _ _ Hs Hp) as Hnull. rewrite Hnull in Hid. destruct io; [done|]. clear Hid.
  pose proof (iv_good _ _ _ _ Hi _ _ Hs) as Hg. destruct s as [q a r ops]. cbn in Hp. subst q. pose proof Hg as [_ Ha]. cbn in Ha.
  pose proof (iv_wf _ _ _ _ Hi) as Hw. destruct (iv_sys _ _ _ _ Hi) as [Hprog Hkc]. set (w0 := with_self t w).
  assert (Hnew : ∃ w', default_identity w0 = Ok tt w' ∧ inv pn A w' (<[t := TState AtSet a r ops]> S)).
  { destruct (proj1 (wp_run default_identity w0 (λ _ w', inv pn A w' (<[t := TState AtSet a r ops]> S)))) as ([] & w' & Hrun & ?); [|by eauto].
    apply wp_supply; [apply _|apply (iv_plan _ _ _ _ Hi)|].
    eapply (wp_default_identity_any pn); [done|done|done|exact Hw|exact Hnull|].
    intros io w' Hout Hst Hio Hc Htl Hos Hsf Her Hpl'.
    pose proof (default_outcome_ok pn 0 w0 (allocs_ok_nil _ _ (iv_plan _ _ _ _ Hi))) as [Hs1 _]. rewrite Hout in Hs1.
    destruct io as [[b s1]|]; [|done]. injection Hs1 as ->. destruct Hio as (Hid & Hb & _). cbn [ident_foot] in Hst. assert (Hbf : heap w !! b = None).
    { apply Hw. assert (Hin : b ∈ ({[b]} : gset positive)) by by apply elem_of_singleton.
      apply (step_owned _ _ _ _ Hst) in Hin as [[?%not_elem_of_empty|?] _]; done. }
    eapply (inv_write w S t _ _ _ (Some b)); [done|done|done|done|exact Hg|apply (step_wf _ _ _ _ Hst)|done|done|by rewrite Hc| |by left|done].
    eapply owned_new; [exact Ho| |exact Hbf|exact Hb|apply esc_is_str].
    intros c [x Hx]. apply (step_frame _ _ _ _ Hst); [apply not_elem_of_empty|by eapply (wf_heap_lt w)]. }
  set (s' := TState AtSet a r ops) in Hnew.
  destruct a as [|a [| |]|]; try done.
  - destruct Hnew as (w' & Hrun & Hinv). eapply (act_step w S t _ _ _ s'); [done|exact Hrun|done|exact Hinv].
  - destruct (ow_attrs _ _ _ Ho a Ha) as (p & Hpa & Hps). destruct Hps as [->|(b & x & -> & Hb & Hx & _)].
    + destruct Hnew as (w' & Hrun & Hinv). eapply (act_step w S t _ _ _ s'); [done| |done|exact Hinv].
      rewrite /take_identity /load_attr /mbind /M_bind /= Hpa. exact Hrun.
    + eapply (act_step w S t _ _ _ s'); [done| |done|].
      { rewrite /take_identity /load_attr /mbind /M_bind /= Hpa /=. rewrite /store_attr /load_attr /mbind /M_bind /= Hpa. reflexivity. }
      eapply (inv_write w S t _ _ _ (Some b)); [done|done|done|done|exact Hg|..].
      * exact (wf_heap_insert _ _ _ w Hw Hpa).
      * apply (iv_plan _ _ _ _ Hi).
      * done.
      * done.
      * by apply owned_take.
      * by left.
      * done.
Qed.

(** A step that leaves the heap, the identity and the lock alone. *)
Lemma step_plain w S t s s' (m : M unit) k w' :
  inv pn A w S → S !! t = Some s → prog_at s = act m k → m (with_self t w) = Ok tt w' → prog_at s' = k →
  good_state A s' → mode s' = mode s → pt s ≠ AtClear → pt s' ≠ AtTake →
  heap w' = heap w → next w' = next w → plan w' = plan w → os w' = os w → identity (cfg w') = identity (cfg w) →
  config_mutex (cfg w') = config_mutex (cfg w) → steps_to w S t s.
Proof.
  intros Hi Hs Hp Hm Hk Hg Hmd Hc Ht Eh En Ep Eo Ei Em. eapply act_step; [done|done|done|].
  eapply inv_move; try done. rewrite Em. eapply lock_ok_keep; [apply (iv_lock _ _ _ _ Hi)|done|done].
Qed.

Lemma step_ok w S t s :
  is_str pn → zlen (esc pn) < INT_MAX → inv pn A w S → S !! t = Some s →
  can_go (config_mutex (cfg w)) s = true → steps_to w S t s.
Proof.
  intros Hpn Hpl Hi Hs Hgo. pose proof (iv_good _ _ _ _ Hi _ _ Hs) as Hg. pose proof (iv_lock _ _ _ _ Hi) as Hl.
  pose proof (after_init_good s Hg) as Hag. destruct (after_init_point s) as [Ham Hat].
  pose proof (after_init_prog A s (proj1 Hg)) as Hap.
  destruct (decide (pt s = AtFree)); [by apply step_free|]. destruct (decide (pt s = AtTake)); [by apply step_take|].
  destruct s as [q a r ops]; destruct q; try done; cbn in Hgo.
  - by eapply (step_plain w S t _ (TState AtFormat a r ops)).
  - by eapply (step_plain w S t _ (TState AtCheck a r ops)).
  - set (s := TState AtCheck a r ops) in *. set (b := negb (init_done (cfg w) =? 0)).
    eexists _, (if b then after_init s else TState AtMdc a r ops), (with_self t w).
    split; [reflexivity|]. split.
    + rewrite /gets /mbind /M_bind /mret /M_ret. cbn [cfg with_self]. fold b. destruct b; [by rewrite Hap|done].
    + eapply inv_move; [exact Hi|exact Hs|by destruct b|done|by destruct b|done..|].
      eapply lock_ok_keep; [exact Hl|exact Hs|]. by destruct b.
  - eapply (step_plain w S t _ (TState AtLock a r ops)); [done|done|done| |done|done|done|done|done|..].
    { rewrite /mbind /M_bind init_mdc_run //. apply (iv_sys _ _ _ _ Hi). }
    all: done.
  - apply bool_decide_eq_true in Hgo. rewrite Hgo in Hl.
    eapply (act_step w S t _ _ _ (TState AtFree a r ops)); [done| |done|].
    { rewrite /pthread_rwlock_wrlock /gets /mbind /M_bind /=. rewrite Hgo. reflexivity. }
    eapply inv_move; [done|done|done|done|done|done..|]. by eapply lock_ok_write.
  - destruct (iv_ident _ _ _ _ Hi) as (io & Ho & _). apply owned_drop in Ho.
    eapply (act_step w S t _ _ _ (TState AtTake a r ops)); [done|reflexivity|done|].
    eapply (inv_write w S t _ _ _ None); try done; [apply (iv_wf _ _ _ _ Hi)|apply (iv_plan _ _ _ _ Hi)|by left].
  - by eapply (step_plain w S t _ (TState AtUnlock a r ops)).
  - set (s := TState AtUnlock a r ops) in *. destruct (lock_ok_write_unlock _ _ _ _ (after_init s) Hl Hs eq_refl Ham) as [Hm Hl'].
    eapply (act_step w S t _ _ _ (after_init s)); [done| |done|].
    { rewrite /pthread_rwlock_unlock /gets /mbind /M_bind /=. rewrite Hm. reflexivity. }
    by eapply inv_move.
  - apply bool_decide_eq_true in Hgo. pose proof (lock_ok_read _ _ _ _ (TState AtRead Null false ops) Hl Hgo Hs eq_refl eq_refl) as Hl'.
    set (m' := match config_mutex (cfg w) with ReadLocked n => _ | _ => _ end) in Hl'.
    eapply (act_step w S t _ _ _ (TState AtRead Null false ops) (with_cfg (with_mutex m' (cfg w)) (with_self t w)));
      [done| |done|].
    { rewrite /pthread_rwlock_rdlock /gets /mbind /M_bind /=. by destruct (config_mutex (cfg w)). }
    eapply inv_move; [done|done|by destruct Hg|done..].
  - destruct (inv_identity _ _ _ _ Hi Hs) as (io & Ho & Hid); [done..|].
    eapply (step_plain w S t _ (TState AtRUnlock Null false ops) use_identity _ (with_self t w)); try done; [|by destruct Hg].
    rewrite /use_identity /gets /mbind /M_bind /=. rewrite Hid. destruct io as [b|]; cbn; [|done].
    destruct (ow_ident _ _ _ Ho b eq_refl) as (x & Hb & Hx). by rewrite /read_cstr (get_cstr_block _ _ x).
  - destruct (enter_point ops) as (Hem & Het & _). destruct Hg as [Hops _].
    destruct (lock_ok_read_unlock _ _ _ _ (enter ops) Hl Hs eq_refl Hem) as (n' & Hm & Hl').
    set (m' := match n' with O => _ | Datatypes.S k => _ end) in Hl'.
    eapply (act_step w S t _ _ _ (enter ops) (with_cfg (with_mutex m' (cfg w)) (with_self t w))); [done| |by eapply enter_prog|].
    { rewrite /pthread_rwlock_unlock /gets /mbind /M_bind /=. rewrite Hm. by destruct n'. }
    eapply inv_move; [done|done|by apply enter_good|done..].
Qed.
End invariant.

Section reached.
Context (pn : list Z) (A : gset positive) (Hpn : is_str pn) (Hpl : zlen (esc pn) < INT_MAX).
Implicit Types (w : world) (S : gmap positive tstate) (s : tstate) (t : positive) (T : pool).

Lemma blocked w t s m :
  can_go (config_mutex (cfg w)) s = false → prog_at s = Act m → m (with_self t w) = Stop Blocked.
Proof.
  destruct s as [q a r ops]. rewrite /can_go. cbn [pt]. destruct q; try done.
  - intros Hm%bool_decide_eq_false [= <-]. rewrite /pthread_rwlock_wrlock /gets /mbind /M_bind /=.
    by destruct (config_mutex (cfg w)).
  - intros Hm%bool_decide_eq_false [= <-]. rewrite /pthread_rwlock_rdlock /gets /mbind /M_bind /=.
    destruct (config_mutex (cfg w)); try done; by destruct Hm.
Qed.

Lemma prog_at_done s : prog_at s = Done ↔ pt s = AtEnd.
Proof. by destruct s as [[] a r ops]. Qed.

(** The pool and the world as the invariant sees them. *)
Definition at_states (c : world * pool) : Prop := ∃ S, c.2 = prog_at <$> S ∧ inv pn A c.1 S.

Lemma at_states_step c c' : at_states c → istep c c' → at_states c'.
Proof.
  intros (S & HT & Hi) Hst. destruct Hst as [t m p w w' T Ht Hm]. cbn in HT, Hi. subst T.
  rewrite lookup_fmap in Ht. destruct (S !! t) as [s|] eqn:Hs; [|done]. cbn in Ht. injection Ht as Ht.
  destruct (can_go (config_mutex (cfg w)) s) eqn:Hgo; [|by rewrite (blocked w t s m Hgo Ht) in Hm].
  destruct (step_ok pn A w S t s Hpn Hpl Hi Hs Hgo) as (m' & s' & w2 & Hp & Hm' & Hi').
  rewrite Ht in Hp. injection Hp as <-. rewrite Hm in Hm'. injection Hm' as -> ->.
  exists (<[t := s']> S). by rewrite fmap_insert.
Qed.

Lemma at_states_reach c c' : at_states c → rtc istep c c' → at_states c'.
Proof. intros Hc Hr. induction Hr as [|c1 c2 c3 Hst _ IH]; [done|]. by apply IH, (at_states_step c1). Qed.

(** Somebody can go on, or everybody has finished. *)
Lemma at_states_progress w S :
  inv pn A w S → map_Forall (λ _ s, pt s = AtEnd) S ∨
  ∃ t s, S !! t = Some s ∧ can_go (config_mutex (cfg w)) s = true.
Proof.
  intros Hi. destruct (decide (map_Forall (λ _ s, pt s = AtEnd) S)) as [|Hn]; [by left|right].
  assert (Hholder : ∀ b t, t ∈ holders b S → ∃ t s, S !! t = Some s ∧ can_go (config_mutex (cfg w)) s = true).
  { intros b t (s & Hs & Hm)%elem_of_holders. exists t, s. split; [done|]. by destruct s as [[] a r ops]. }
  pose proof (iv_lock _ _ _ _ Hi) as Hl. destruct (config_mutex (cfg w)) as [|n|] eqn:Hm.
  - apply map_not_Forall in Hn as (t & s & Hs & Hp); [|apply _]. exists t, s. split; [done|]. rewrite /can_go.
    destruct s as [[] a r ops]; try done; by apply bool_decide_eq_true.
  - destruct Hl as (_ & Hsz & Hne). destruct (size_pos_elem_of (holders false S)) as [t Ht]; [lia|]. by eapply Hholder.
  - destruct Hl as [[t Ht] _]. apply (Hholder true t). rewrite Ht. by apply elem_of_singleton.
Qed.

(** What a process needs at the start. *)
Record ready (w : world) (calls : gmap positive (list op)) : Prop := {
  rd_wf : wf_heap w;
  rd_plan : plan w = [];
  rd_sys : sys_progname (os w) = Lit pn 0 ∧ sys_key_create (os w) = true;
  rd_lock : config_mutex (cfg w) = Unlocked;
  rd_ident : ∃ io, owned (heap w) A io ∧ identity (cfg w) = ident_ptr io;
  rd_calls : ∀ t ops, calls !! t = Some ops → Forall (op_ok A) ops
}.

Lemma start_states w calls : ready w calls → at_states (start w calls).
Proof.
  intros [H1 H2 H3 H4 (io & H5 & H6) H7]. exists (enter <$> calls). rewrite /start /=. split.
  - rewrite -map_fmap_compose. apply map_fmap_ext. intros t ops Ho. cbn. symmetry. eapply enter_prog. by apply H7 in Ho.
  - assert (Hmode : ∀ t s, (enter <$> calls) !! t = Some s → mode s = None ∧ pt s ≠ AtTake ∧ good_state A s).
    { intros t s (ops & <- & Ho)%lookup_fmap_Some. destruct (enter_point ops) as (? & ? & ?). split_and!; [done..|].
      apply enter_good. by eapply H7. }
    split; try done.
    + rewrite H4. split; apply set_eq; intros t; rewrite elem_of_holders; split; [|by intros ?%not_elem_of_empty| |by intros ?%not_elem_of_empty];
        intros (s & Hs & Hm); destruct (Hmode t s Hs) as (Hn & _); congruence.
    + exists io. split; [done|by left].
    + intros t s Hs Hp. by destruct (Hmode t s Hs) as (_ & ? & _).
    + intros t s Hs. by destruct (Hmode t s Hs) as (_ & _ & ?).
Qed.
End reached.

(** ** Properties *)

(** C11: however the threads interleave, their initialisations and uses of the identity
    go well as long as nobody calls [mdclog_lib_clean]: no access is to memory that has
    been freed, no string is freed twice, the lock is never released by a thread that
    does not hold it; while it is free the identity is null or a live string; and
    unless everybody has finished somebody can go on. *)
Theorem init_interleaves_safely pn A w calls c :
  is_str pn → zlen (esc pn) < INT_MAX → ready pn A w calls → rtc istep (start w calls) c →
  (∀ t m, c.2 !! t = Some (Act m) →
     m (with_self t c.1) = Stop Blocked ∨ ∃ p w', m (with_self t c.1) = Ok p w') ∧
  (config_mutex (cfg c.1) = Unlocked → ∃ io, owned (heap c.1) A io ∧ identity (cfg c.1) = ident_ptr io) ∧
  ((∀ t p, c.2 !! t = Some p → p = Done) ∨ ∃ c', istep c c').
Proof.
  intros Hpn Hpl Hr Hc. apply (at_states_reach pn A Hpn Hpl) in Hc; [|by apply start_states].
  destruct c as [w' T]. destruct Hc as (S & HT & Hi). cbn in HT, Hi |- *. subst T. split_and!.
  - intros t m Ht. rewrite lookup_fmap in Ht. destruct (S !! t) as [s|] eqn:Hs; [|done]. cbn in Ht. injection Ht as Ht.
    destruct (can_go (config_mutex (cfg w')) s) eqn:Hgo; [right|left; by eapply blocked].
    destruct (step_ok pn A w' S t s Hpn Hpl Hi Hs Hgo) as (m' & s' & w2 & Hp & Hm & _).
    rewrite Ht in Hp. injection Hp as <-. by eauto.
  - intros Hm. destruct (iv_ident _ _ _ _ Hi) as (io & Ho & [?|[_ (t & s & Hs & Hp)]]); [by exists io|].
    pose proof (iv_lock _ _ _ _ Hi) as Hl. rewrite Hm in Hl. destruct Hl as [Hl _].
    assert (Hin : t ∈ holders true S) by (apply elem_of_holders; exists s; by rewrite /mode Hp).
    rewrite Hl in Hin. by apply not_elem_of_empty in Hin.
  - destruct (at_states_progress _ _ _ _ Hi) as [Hend|(t & s & Hs & Hgo)].
    + left. intros t p (s & <- & Hs)%lookup_fmap_Some. apply prog_at_done. by apply Hend in Hs.
    + right. destruct (step_ok pn A w' S t s Hpn Hpl Hi Hs Hgo) as (m' & s' & w2 & Hp & Hm & _).
      eexists. econstructor; [|exact Hm]. by rewrite lookup_fmap Hs /= Hp.
Qed.

(** The identity as a string. *)
Definition identity_text (w : world) : option (list Z) := get_cstr (heap w) (identity (cfg w)).

Definition is_done (o : option prog) : bool := match o with Some Done => true | _ => false end.

Lemma is_done_spec o : is_done o = true → o = Some Done.
Proof. by destruct o as [[|m]|]. Qed.

(** A process with attributes that name it [svc]. *)
Definition attr_app : world :=
  with_next 3 (with_heap {[1%positive := cstr_block (lit "svc"); 2%positive := BAttr (Ptr 1 0)]} app).

(** What the schedule [ts] leads to, decided by computation. *)
Lemma play_check ts c (f : world * pool → bool) :
  match play ts c with Some c' => f c' | None => false end = true → ∃ c', rtc istep c c' ∧ f c' = true.
Proof. destruct (play ts c) as [c'|] eqn:Hp; [|done]. intros Hf. exists c'. split; [by eapply play_steps|done]. Qed.

(** C34: [init_done] is read outside the lock.  One thread finds the library not
    initialised; another calls [mdclog_init] with the name [svc] and returns; the first
    goes on and puts the name of the program in its place.  If the calls do not
    overlap, the name is [svc] in either order. *)
Theorem init_race_loses_identity :
  (∃ c1 c2, rtc istep (start attr_app {[1%positive := [OpInit (Ptr 2 0)]; 2%positive := [OpWrite]]}) c1 ∧
     c1.2 !! 1%positive = Some Done ∧ identity_text c1.1 = Some (lit "svc") ∧
     rtc istep c1 c2 ∧ c2.2 !! 2%positive = Some Done ∧ identity_text c2.1 = Some (lit "app")) ∧
  (∃ w, run (program [OpInit (Ptr 2 0); OpWrite]) attr_app = Ok tt w ∧ identity_text w = Some (lit "svc")) ∧
  (∃ w, run (program [OpWrite; OpInit (Ptr 2 0)]) attr_app = Ok tt w ∧ identity_text w = Some (lit "svc")).
Proof.
  split_and!.
  - set (c0 := start _ _). set (ts1 := 2%positive :: replicate 9 1%positive). set (ts2 := replicate 10 2%positive).
    assert (H : match play ts1 c0 with
      | Some c1 => is_done (c1.2 !! 1%positive) && bool_decide (identity_text c1.1 = Some (lit "svc")) &&
          match play ts2 c1 with
          | Some c2 => is_done (c2.2 !! 2%positive) && bool_decide (identity_text c2.1 = Some (lit "app"))
          | None => false
          end
      | None => false
      end = true) by (vm_compute; reflexivity).
    apply play_check in H as (c1 & Hr1 & [[Hd1 Hi1]%andb_true_iff H2]%andb_true_iff).
    apply (play_check _ _ (λ c, is_done (c.2 !! 2%positive) && bool_decide (identity_text c.1 = Some (lit "app"))))
      in H2 as (c2 & Hr2 & [Hd2 Hi2]%andb_true_iff).
    apply bool_decide_eq_true in Hi1, Hi2. apply is_done_spec in Hd1, Hd2. by exists c1, c2.
  - eexists. split; vm_compute; reflexivity.
  - eexists. split; vm_compute; reflexivity.
Qed.

(** C37: [mdclog_lib_clean] does not take the lock: it can free the identity under a
    thread that is writing an entry and holds the lock for reading. *)
Theorem lib_clean_race_uses_freed : ∃ c m,
  rtc istep (start app {[1%positive := [OpWrite]; 2%positive := [OpClean]]}) c ∧
  c.2 !! 1%positive = Some (Act m) ∧ config_mutex (cfg c.1) = ReadLocked 1 ∧
  m (with_self 1 c.1) = Stop UndefinedBehaviour.
Proof.
  set (c0 := start _ _). set (ts := replicate 8 1%positive ++ [2%positive]).
  assert (H : match play ts c0 with
    | Some c => bool_decide (config_mutex (cfg c.1) = ReadLocked 1) &&
        match c.2 !! 1%positive with
        | Some (Act m) => match m (with_self 1 c.1) with Stop UndefinedBehaviour => true | _ => false end
        | _ => false
        end
    | None => false
    end = true) by (vm_compute; reflexivity).
  apply play_check in H as (c & Hr & [Hm%bool_decide_eq_true H]%andb_true_iff). exists c.
  destruct (c.2 !! 1%positive) as [[|m]|] eqn:Ht; try done. exists m. split_and!; [done..|].
  by destruct (m (with_self 1 c.1)) as [|[]].
Qed.

(** Two threads that write while a third names the process. *)
Definition three_calls : gmap positive (list op) :=
  {[1%positive := [OpInit (Ptr 2 0)]; 2%positive := [OpWrite; OpWrite]; 3%positive := [OpTouch]]}.

Lemma three_ready : ready (lit "app") {[2%positive]} attr_app three_calls.
Proof.
  split; try done.
  - intros b Hb. cbn in Hb |- *. rewrite !lookup_insert_ne; [apply lookup_empty|lia..].
  - exists None. split; [|done]. split; [| |done].
    + intros a ->%elem_of_singleton. exists (Ptr 1 0). split; [done|]. right. exists 1%positive, (lit "svc").
      split_and!; [done|done|by repeat constructor|done].
    + by intros a a' b ->%elem_of_singleton ->%elem_of_singleton.
  - intros t ops Ht. rewrite /three_calls in Ht. apply lookup_insert_Some in Ht as [[_ <-]|[_ Ht]].
    { apply Forall_cons; split; [|constructor]. cbn [op_ok]. by apply elem_of_singleton. }
    apply lookup_insert_Some in Ht as [[_ <-]|[_ [_ <-]%lookup_singleton_Some]]; by repeat constructor.
Qed.

Lemma init_interleaves_safely_witness :
  let c := start attr_app three_calls in
  (∀ t m, c.2 !! t = Some (Act m) → m (with_self t c.1) = Stop Blocked ∨ ∃ p w', m (with_self t c.1) = Ok p w') ∧
  (config_mutex (cfg c.1) = Unlocked → ∃ io, owned (heap c.1) {[2%positive]} io ∧ identity (cfg c.1) = ident_ptr io) ∧
  ((∀ t p, c.2 !! t = Some p → p = Done) ∨ ∃ c', istep c c').
Proof.
  exact (init_interleaves_safely (lit "app") {[2%positive]} attr_app three_calls _ ltac:(by repeat constructor)
    ltac:(by vm_compute) three_ready (rtc_refl _ _)).
Defined.
