(* ===== verification/LogLevel.v ===== *)
(** src/mdclog.c: the configuration that comes from the environment: the fields of
    [mdclog_format_initialize], the logging level of the configuration file, and the
    thread that follows the changes of that file.

    A [FILE *] is modelled by its unread contents.  [strtok] works on the heap and
    keeps its position in the state.  [keep] says whether the storage of the array
    [line] of [parse_file] is still there between the end of its block and the end of
    the function: the language says no, a compiler may leave it. *)

From S2P Require Import Prelude World Memory Libc Escape MdcIface Mdc JsonFormat Mdclog Within Api.

(** ** Functions of the C library *)

Definition getenv (key : ptr) : M ptr :=
  k ← read_cstr key;
  env ← gets (λ w, sys_env (os w));
  mret (match env !! k with Some v => Lit v 0 | None => Null end).

(** [printf] (to [Stdout]) and [fprintf(stderr, ...)] of a message. *)
Definition print (to : stream) (msg : list Z) : M unit :=
  modify (λ w, with_os (with_stdio (sys_stdio (os w) ++ [(to, msg)]) (os w)) w).

(** At most [n] characters of a line, its newline included, and the rest. *)
Fixpoint next_line (n : nat) (s : list Z) : list Z * list Z :=
  match n, s with
  | O, _ => ([], s)
  | _, [] => ([], [])
  | S n', c :: s' =>
      if c =? NL then ([c], s') else let '(l, r) := next_line n' s' in (c :: l, r)
  end.

(** [fgets]: false for a null result. *)
Definition fgets (line : ptr) (n : Z) (file : list Z) : M (bool * list Z) :=
  match file with
  | [] => mret (false, [])
  | _ =>
      let '(l, r) := next_line (Z.to_nat (n - 1)) file in
      store_chars line (l ++ [NUL]) ;;
      mret (true, r)
  end.

Definition isin (cs : list Z) (c : Z) : bool := existsb (Z.eqb c) cs.

Definition set_strtok (p : ptr) : M unit := modify (λ w, with_os (with_strtok p (os w)) w).

(** [strtok]: [strspn], [strcspn] and a zero at the end of the token. *)
Definition strtok (p : ptr) (delims : list Z) : M ptr :=
  p ← (if is_null p then gets (λ w, sys_strtok (os w)) else mret p);
  s ← read_cstr p;
  let n := zlen (take_while (isin delims) s) in
  let s := drop_while (isin delims) s in
  let tok := p +ₚ n in
  match s with
  | [] => set_strtok tok ;; mret Null
  | _ =>
      let m := zlen (take_while (λ c, negb (isin delims c)) s) in
      if m =? zlen s then set_strtok (tok +ₚ m) ;; mret tok
      else store_char (tok +ₚ m) NUL ;; set_strtok (tok +ₚ (m + 1)) ;; mret tok
  end.

(** ** The code *)

Definition STR_BUFF : Z := 128.
Definition LOG_FILE_CONFIG_MAP : list Z := lit "CONFIG_MAP_NAME".
Definition LOGFIELDS : list (list Z) :=
  [lit "SYSTEM_NAME"; lit "HOST_NAME"; lit "SERVICE_NAME"; lit "CONTAINER_NAME"; lit "POD_NAME"].

Definition read_env_param (envkey : ptr) : M ptr :=
  if is_null envkey then mret Null
  else
    value ← getenv envkey;
    if is_null value then mret Null else strdup value.

Definition invalid_level_message : list Z :=
  lit "### ERR ### Invalid Log-Level Configuration in ConfigMap, Default Log-Level Applied:   1" ++ [NL].

Definition update_mdc_log_level_severity (log_level : ptr) : M unit :=
  level ← (if is_null log_level then print Stdout invalid_level_message ;; mret MDCLOG_ERR
           else
             c ← strcasecmp log_level (Lit (lit "ERR") 0);
             if c =? 0 then mret MDCLOG_ERR
             else
               c ← strcasecmp log_level (Lit (lit "WARN") 0);
               if c =? 0 then mret MDCLOG_WARN
               else
                 c ← strcasecmp log_level (Lit (lit "INFO") 0);
                 if c =? 0 then mret MDCLOG_INFO
                 else
                   c ← strcasecmp log_level (Lit (lit "DEBUG") 0);
                   if c =? 0 then mret MDCLOG_DEBUG
                   else mret MDCLOG_ERR);
  mdclog_level_set level.

Definition search : list Z := lit ": ".
Definition string_match : list Z := lit "log-level".
Definition LINE : Z := 128.

(** The loop of [parse_file]: whether the line was found, and [token]. *)
Fixpoint parse_loop (fuel : nat) (line : ptr) (file : list Z) : M (bool * ptr) :=
  match fuel with
  | O => stopped OutOfFuel
  | S fuel' =>
      '(more, file) ← fgets line LINE file;
      if (more : bool) then
        token ← strtok line search;
        c ← strcmp token (Lit string_match 0);
        if c =? 0 then
          token ← strtok Null search;
          token ← strtok token [NL];
          mret (true, token)
        else parse_loop fuel' line file
      else mret (false, Null)
  end.

Definition found_token (r : bool * ptr) : M ptr := if r.1 then strdup r.2 else mret Null.

Definition parse_file (keep : bool) (filename : ptr) : M ptr :=
  name ← read_cstr filename;
  files ← gets (λ w, sys_files (os w));
  match files !! name with
  | None => mret Null
  | Some file =>
      let scan line := parse_loop (S (length file)) line file in
      if keep then with_local LINE (λ line, r ← scan line; found_token r)
      else r ← with_local LINE scan; found_token r
  end.

Definition update_mdclog_array (key value : ptr) : M Z :=
  old_value ← mdclog_mdc_get key;
  when (negb (is_null old_value)) (mdclog_mdc_remove key ;; free old_value) ;;
  mdclog_mdc_add key value.

(** The level of the configuration file. *)
Definition apply_config_file (keep : bool) (filename : ptr) : M unit :=
  log_level ← parse_file keep filename;
  update_mdc_log_level_severity log_level ;;
  free log_level.

(** A thread that is created with argument [p]; or the creation fails. *)
Definition create (p : ptr) (s : sys) : sys :=
  with_threads (tail (sys_creates s))
    (if default 0 (head (sys_creates s)) =? 0 then sys_threads s ++ [p] else sys_threads s) s.

(** [pthread_create] of the monitor with its argument: 0 or an error. *)
Definition pthread_create (arg : ptr) : M Z :=
  r ← gets (λ w, default 0 (head (sys_creates (os w))));
  modify (λ w, with_os (create arg (os w)) w) ;;
  mret r.

Section notify.
Context (keep : bool).

Definition register_log_change_notify (fileName : ptr) : M Z :=
  arg ← strdup fileName; pthread_create arg.

(** [lstat(fileName, ...) == 0] if the file exists. *)
Definition enable_log_change_notify (fileName : ptr) : M Z :=
  name ← read_cstr fileName;
  files ← gets (λ w, sys_files (os w));
  match files !! name with
  | Some _ => register_log_change_notify fileName
  | None => mret (-1)
  end.

(** The loop over [LOGFIELDS]. *)
Fixpoint format_fields (ret : Z) (fields : list (list Z)) : M Z :=
  match fields with
  | [] => mret ret
  | f :: fields' =>
      if ret =? 0 then
        field_value ← read_env_param (Lit f 0);
        ret ← (if is_null field_value then mdclog_mdc_add (Lit f 0) (Lit [] 0) ;; mret ret
               else
                 r ← update_mdclog_array (Lit f 0) field_value;
                 free field_value ;;
                 mret r);
        format_fields ret fields'
      else mret ret
  end.

Definition mdclog_format_initialize (logfile_monitor : Z) : M Z :=
  done ← gets (λ w, log_format_init_done (cfg w));
  if done =? 0 then
    with_local STR_BUFF (λ buff_string,
      store_chars buff_string (replicate (Z.to_nat STR_BUFF) NUL) ;;
      ret ← format_fields 0 LOGFIELDS;
      if ret =? 0 then
        store_chars buff_string (replicate (Z.to_nat STR_BUFF) NUL) ;;
        pid ← gets (λ w, sys_pid (os w));
        snprintf buff_string STR_BUFF (Lit (lit "%d") 0) [AInt pid] ;;
        logFile_Name ← read_env_param (Lit LOG_FILE_CONFIG_MAP 0);
        ret ← update_mdclog_array (Lit (lit "PID") 0) buff_string;
        when (negb (is_null logFile_Name)) (apply_config_file keep logFile_Name) ;;
        ret ← (if negb (logfile_monitor =? 0) && (ret =? 0) && negb (is_null logFile_Name)
               then enable_log_change_notify logFile_Name else mret ret);
        when (negb (is_null logFile_Name)) (free logFile_Name) ;;
        mret ret
      else mret ret)
  else mret 0.
End notify.

(** ** The monitor thread *)

(** What the loop sees in one round: no event within the second, a failed [read], an
    event after which the files are [files]; or another thread has cleared the flag. *)
Inductive monitor_input :=
| SelectTimeout
| ReadFails (e : Z)
| FileChanged (files : gmap (list Z) (list Z))
| FlagCleared.

Section monitor.
Context (keep : bool).

(** [strerror]: a text of the C library. *)
Context (strerror : Z → list Z).

(** One round of the loop. *)
Definition monitor_round (fileName : ptr) (i : monitor_input) : M unit :=
  match i with
  | SelectTimeout => mret tt
  | ReadFails e =>
      set_errno e ;;
      when (negb (e =? EAGAIN))
        (print Stderr (lit "### CRIT ### config listener read err: " ++ strerror e ++ [NL]))
  | FileChanged files =>
      modify (λ w, with_os (with_files files (os w)) w) ;;
      apply_config_file keep fileName
  | FlagCleared => set_format_done 0
  end.

(** The loop of [monitor_loglevel_change_handler], as long as there are inputs; true
    when it has seen its flag cleared. *)
Fixpoint monitor_loop (fileName : ptr) (inputs : list monitor_input) : M bool :=
  run ← gets (λ w, log_format_init_done (cfg w));
  if run =? 0 then mret true
  else
    match inputs with
    | [] => mret false
    | i :: inputs' => monitor_round fileName i ;; monitor_loop fileName inputs'
    end.

(** [strrchr(dname, '/')], as an offset. *)
Fixpoint last_slash (i : Z) (s : list Z) : option Z :=
  match s with
  | [] => None
  | c :: s' =>
      match last_slash (i + 1) s' with
      | Some j => Some j
      | None => if c =? SLASH then Some i else None
      end
  end.

(** The directory and the base name of the file. *)
Definition split_name (fileName : ptr) : M (ptr * ptr) :=
  dname ← strdup fileName;
  s ← read_cstr dname;
  bname ← (match last_slash 0 s with
           | None => mret Null
           | Some i => store_char (dname +ₚ i) NUL ;; strdup (dname +ₚ (i + 1))
           end);
  mret (dname, bname).

(** [inotify_init1] and [inotify_add_watch] give a descriptor ([None]) or an error;
    with both of them the flag is set and the loop begins. *)
Definition add_watch (ifd wfd : option Z) (fileName : ptr) : M bool :=
  match ifd with
  | Some e =>
      set_errno e ;;
      print Stderr (lit "### ERR ### unable to initialise file watch " ++ strerror e ++ [NL]) ;;
      mret false
  | None =>
      match wfd with
      | Some e =>
          set_errno e ;;
          name ← read_cstr fileName;
          print Stderr (lit "### ERR ### unable to add watch on config file " ++ name ++ lit ": " ++ strerror e ++ [NL]) ;;
          mret false
      | None => set_format_done 1 ;; mret true
      end
  end.

Definition free_names (dname bname : ptr) : M unit := free bname ;; free dname.

(** The thread is still in its loop when the inputs end without clearing its flag. *)
Definition monitor_loglevel_change_handler (ifd wfd : option Z) (fileName : ptr)
    (inputs : list monitor_input) : M unit :=
  '(dname, bname) ← split_name fileName;
  watching ← add_watch ifd wfd fileName;
  (if watching : bool then
     ended ← monitor_loop fileName inputs;
     if (ended : bool) then mret tt else stopped OutOfFuel
   else mret tt) ;;
  free_names dname bname.
End monitor.

(** ** What they respect *)

(** What the library says on the buffered streams: one message on the standard output,
    anything on the standard error. *)
Definition said (to : stream) (msg : list Z) : Prop := to = Stdout → msg = invalid_level_message.

(** Relations that see nothing of the statics of [strtok], of the messages, of the
    threads and of the files. *)
Class Quiet (R : relation world) : Prop := {
  quiet_plain :: Plain R;
  quiet_strtok w p : R w (with_os (with_strtok p (os w)) w);
  quiet_print w to msg : said to msg → R w (with_os (with_stdio (sys_stdio (os w) ++ [(to, msg)]) (os w)) w);
  quiet_create w p : R w (with_os (create p (os w)) w);
  quiet_files w files : R w (with_os (with_files files (os w)) w)
}.

#[export] Hint Extern 3 (Within _ (modify _)) =>
  apply within_modify; intro; cbn beta;
  first [ apply quiet_strtok | apply quiet_create | apply quiet_files ] : typeclass_instances.

Section quiet.
Context (R : relation world) `{!Quiet R}.

#[export] Instance within_getenv key : Within R (getenv key).
Proof. rewrite /getenv. stays. Qed.
#[export] Instance within_read_env_param key : Within R (read_env_param key).
Proof. rewrite /read_env_param. stays. Qed.
Lemma within_print to msg : said to msg → Within R (print to msg).
Proof. intros Hs. apply within_modify. intros w. by apply quiet_print. Qed.
#[export] Instance within_print_invalid : Within R (print Stdout invalid_level_message).
Proof. by apply within_print. Qed.
#[export] Instance within_print_stderr msg : Within R (print Stderr msg).
Proof. by apply within_print. Qed.
#[export] Instance within_fgets line n file : Within R (fgets line n file).
Proof. rewrite /fgets. stays. Qed.
#[export] Instance within_strtok p ds : Within R (strtok p ds).
Proof. rewrite /strtok /set_strtok. stays. Qed.
#[export] Instance within_parse_loop fuel line file : Within R (parse_loop fuel line file).
Proof. revert file. induction fuel; intros file; cbn [parse_loop]; stays. Qed.
#[export] Instance within_parse_file keep name : Within R (parse_file keep name).
Proof. rewrite /parse_file /found_token. stays. Qed.
#[export] Instance within_strcasecmp p q : Within R (strcasecmp p q).
Proof. rewrite /strcasecmp. stays. Qed.
#[export] Instance within_update_level p : Within R (update_mdc_log_level_severity p).
Proof. rewrite /update_mdc_log_level_severity. stays. Qed.
#[export] Instance within_update_array key value : Within R (update_mdclog_array key value).
Proof. rewrite /update_mdclog_array. stays. Qed.
#[export] Instance within_apply_config_file keep name : Within R (apply_config_file keep name).
Proof. rewrite /apply_config_file. stays. Qed.
#[export] Instance within_enable name : Within R (enable_log_change_notify name).
Proof. rewrite /enable_log_change_notify /register_log_change_notify /pthread_create. stays. Qed.
#[export] Instance within_format_fields ret fields : Within R (format_fields ret fields).
Proof. revert ret. induction fields; intros ret; cbn; stays. Qed.
#[export] Instance within_format_initialize keep m : Within R (mdclog_format_initialize keep m).
Proof. rewrite /mdclog_format_initialize. stays. Qed.
#[export] Instance within_split_name name : Within R (split_name name).
Proof. rewrite /split_name. stays. Qed.
#[export] Instance within_free_names d b : Within R (free_names d b).
Proof. rewrite /free_names. stays. Qed.
End quiet.

(** ** What the file says *)

(** The first token of a text, and what follows its delimiter. *)
Definition first_token (ds s : list Z) : list Z :=
  take_while (λ c, negb (isin ds c)) (drop_while (isin ds) s).
Definition after_token (ds s : list Z) : list Z :=
  tail (drop_while (λ c, negb (isin ds c)) (drop_while (isin ds) s)).

Inductive parsed :=
| Absent
| Value (v : list Z)
| Broken.

(** What [parse_file] makes of a line: the line is not about the level; its value; or
    a token is missing, and the code goes on with a null pointer. *)
Definition parse_line (l : list Z) : parsed :=
  match first_token search l with
  | [] => Broken
  | key =>
      if decide (key = string_match) then
        match first_token [NL] (first_token search (after_token search l)) with
        | [] => Broken
        | v => Value v
        end
      else Absent
  end.

(** The lines, in pieces of at most 127 characters. *)
Fixpoint pieces (fuel : nat) (s : list Z) : list (list Z) :=
  match fuel, s with
  | O, _ | _, [] => []
  | S fuel', _ => let '(l, r) := next_line 127 s in l :: pieces fuel' r
  end.

Fixpoint parse_lines (ls : list (list Z)) : parsed :=
  match ls with
  | [] => Absent
  | l :: ls' => match parse_line l with Absent => parse_lines ls' | r => r end
  end.

Definition parse_contents (s : list Z) : parsed := parse_lines (pieces (S (length s)) s).

(** The level a value names; anything else means errors only. *)
Definition named_level (v : list Z) : Z :=
  let v := tolower <$> v in
  if decide (v = lit "warn") then MDCLOG_WARN
  else if decide (v = lit "info") then MDCLOG_INFO
  else if decide (v = lit "debug") then MDCLOG_DEBUG
  else MDCLOG_ERR.

(** The level a file asks for. *)
Definition file_level (file : option (list Z)) : Z :=
  match parse_contents (default [] file) with Value v => named_level v | _ => MDCLOG_ERR end.

Example parse_contents_ex :
  parse_contents (lit "log-mode: x" ++ [NL] ++ lit "log-level: DEBUG" ++ [NL]) = Value (lit "DEBUG").
Proof. by vm_compute. Qed.

Section texts.
Implicit Types (s ds : list Z).

Lemma take_while_str f s : is_str s → is_str (take_while f s).
Proof. intros Hs. rewrite -(take_drop_while f s) in Hs. by apply is_str_app in Hs as []. Qed.

Lemma drop_while_str f s : is_str s → is_str (drop_while f s).
Proof. intros Hs. rewrite -(take_drop_while f s) in Hs. by apply is_str_app in Hs as []. Qed.

Lemma first_token_str ds s : is_str s → is_str (first_token ds s).
Proof. intros Hs. by apply take_while_str, drop_while_str. Qed.

Lemma after_token_str ds s : is_str s → is_str (after_token ds s).
Proof.
  intros Hs. rewrite /after_token. apply drop_while_str with (f := isin ds) in Hs.
  apply drop_while_str with (f := λ c, negb (isin ds c)) in Hs. by destruct Hs; [constructor|].
Qed.

Lemma next_line_split n s : (next_line n s).1 ++ (next_line n s).2 = s.
Proof.
  revert s. induction n as [|n IH]; intros s; [done|]. destruct s as [|c s]; [done|]. cbn.
  destruct (c =? NL); [done|]. destruct (next_line n s) as [l r] eqn:He. cbn. f_equal. by rewrite -(IH s) He.
Qed.

Lemma next_line_len n s : (length (next_line n s).1 ≤ n)%nat.
Proof.
  revert s. induction n as [|n IH]; intros s; [done|]. destruct s as [|c s]; cbn; [lia|].
  destruct (c =? NL); cbn; [lia|]. destruct (next_line n s) as [l r] eqn:He. cbn.
  specialize (IH s). rewrite He in IH. cbn in IH. lia.
Qed.

(** A line takes at least one character. *)
Lemma next_line_rest n c s : (length (next_line (S n) (c :: s)).2 ≤ length s)%nat.
Proof.
  pose proof (next_line_split (S n) (c :: s)) as Hs. apply (f_equal length) in Hs. rewrite length_app /= in Hs.
  assert (0 < length (next_line (S n) (c :: s)).1)%nat; [|cbn in *; lia].
  cbn. destruct (c =? NL); cbn; [lia|]. destruct (next_line n s). cbn. lia.
Qed.
End texts.

(** ** Rules *)

Section strtok.
Implicit Types (w : world) (s ds : list Z).

(** A string kept in a window of block [b]: what follows [o] is [s] and a zero. *)
Definition text_at (cs : list (option Z)) (o : Z) (s : list Z) : Prop := holds cs o (s ++ [NUL]).

Lemma text_at_drop cs o s t : text_at cs o (s ++ t) → text_at cs (o + zlen s) t.
Proof. rewrite /text_at -app_assoc. by intros [_ ?]%holds_app. Qed.

(** The state with the array [b] at [cs] and the position [q] of [strtok]. *)
Definition scanned (b : positive) (cs : list (option Z)) (q : ptr) (w : world) : world :=
  with_os (with_strtok q (os w)) (on b cs w).

Lemma scanned_scanned b cs cs' q q' w : scanned b cs' q' (scanned b cs q w) = scanned b cs' q' w.
Proof. rewrite /scanned /on /=. by rewrite insert_insert_eq. Qed.

Lemma scanned_on b cs w : on b cs w = scanned b cs (sys_strtok (os w)) w.
Proof. by destruct w as [? ? ? ? ? ? ? []]. Qed.

Lemma scanned_lookup b cs q w : heap (scanned b cs q w) !! b = Some (BChars cs).
Proof. apply on_lookup. Qed.

Lemma scanned_id b cs w q : heap w !! b = Some (BChars cs) → with_os (with_strtok q (os w)) w = scanned b cs q w.
Proof. intros Hb. by rewrite /scanned /on insert_id // with_heap_id. Qed.

(** One call of [strtok] on a text in the array [b]. *)
Lemma wp_strtok p b o s ds cs w (Q : ptr → world → Prop) :
  heap w !! b = Some (BChars cs) → text_at cs o s → is_str s →
  (if is_null p then sys_strtok (os w) else p) = Ptr b o →
  (∀ q, first_token ds s = [] → text_at cs q [] → Q Null (scanned b cs (Ptr b q) w)) →
  (∀ cs' o' q, first_token ds s ≠ [] → length cs' = length cs → text_at cs' o' (first_token ds s) →
     text_at cs' q (after_token ds s) → Q (Ptr b o') (scanned b cs' (Ptr b q) w)) →
  wp (strtok p ds) w Q.
Proof.
  intros Hb Ht Hs Hp H1 H2. rewrite /strtok.
  apply wp_bind. assert (Hp' : wp (if is_null p then gets (λ w, sys_strtok (os w)) else mret p) w (λ q w', q = Ptr b o ∧ w' = w)).
  { destruct (is_null p); by rewrite -Hp. }
  eapply wp_mono; [exact Hp'|]. intros ? ? [-> ->].
  step wp_read_cstr; [by eapply get_cstr_holds|]. cbn zeta.
  pose proof (take_drop_while (isin ds) s) as Hsplit. set (sk := take_while (isin ds) s) in *.
  rewrite /first_token /after_token in H1 H2. destruct (drop_while (isin ds) s) as [|c r] eqn:Hd.
  - rewrite /set_strtok. wp_pure. apply wp_ret. cbn [ptr_add]. rewrite (scanned_id b cs) //. apply H1; [done|].
    rewrite app_nil_r in Hsplit. rewrite Hsplit. apply (text_at_drop _ _ s []). by rewrite app_nil_r.
  - assert (Hne : take_while (λ c, negb (isin ds c)) (c :: r) ≠ []) by (cbn; by rewrite (drop_while_head _ _ _ _ Hd)).
    pose proof (take_drop_while (λ c, negb (isin ds c)) (c :: r)) as Hsplit2.
    set (tok := take_while _ (c :: r)) in *. set (rest := drop_while _ (c :: r)) in *.
    rewrite -Hsplit2 in Hsplit |- *. rewrite -Hsplit in Ht. apply text_at_drop in Ht as Ht1. clearbody tok rest sk.
    destruct tok as [|c0 tok0]; [done|]. cbn [app]. change (c0 :: tok0 ++ rest) with ((c0 :: tok0) ++ rest).
    set (tok := c0 :: tok0) in *. cbn [ptr_add]. clearbody tok.
    destruct rest as [|d rest].
    + rewrite app_nil_r in Ht1 |- *. rewrite Z.eqb_refl /set_strtok. wp_pure. apply wp_ret.
      rewrite (scanned_id b cs) //. apply H2; [done|done|exact Ht1|]. rewrite -(app_nil_r tok) in Ht1. by apply text_at_drop in Ht1.
    + destruct (Z.eqb_spec (zlen tok) (zlen (tok ++ d :: rest))) as [Heq|_]; [zl|].
      rewrite /text_at -app_assoc in Ht1. apply holds_app in Ht1 as [Htok Hrest].
      pose proof Htok as [Hok0 _]. pose proof (holds_range _ _ _ Hrest ltac:(done)) as Hrange.
      change ((d :: rest) ++ [NUL]) with ([d] ++ (rest ++ [NUL])) in Hrest. apply holds_app in Hrest as [_ Hrest].
      step wp_store_char; [done|zl|]. rewrite /set_strtok. wp_pure. apply wp_ret.
      set (cs' := <[_ := Some NUL]> cs). apply (H2 cs').
      * done.
      * apply length_insert.
      * apply holds_insert; [done|lia|zl].
      * cbn [tail]. eapply (holds_frame cs _ (o + zlen sk + zlen tok) 1).
        { replace (o + zlen sk + (zlen tok + 1)) with (o + zlen sk + zlen tok + zlen [d]) by zl. exact Hrest. }
        { apply same_outside_insert; zl. }
        { right. zl. }
Qed.

Lemma strtok_run p b o s ds cs w :
  heap w !! b = Some (BChars cs) → text_at cs o s → is_str s →
  (if is_null p then sys_strtok (os w) else p) = Ptr b o →
  (∃ q, first_token ds s = [] ∧ text_at cs q [] ∧ strtok p ds w = Ok Null (scanned b cs (Ptr b q) w)) ∨
  (∃ cs' o' q, first_token ds s ≠ [] ∧ length cs' = length cs ∧ text_at cs' o' (first_token ds s) ∧
     text_at cs' q (after_token ds s) ∧ strtok p ds w = Ok (Ptr b o') (scanned b cs' (Ptr b q) w)).
Proof.
  intros Hb Ht Hs Hp.
  assert (wp (strtok p ds) w (λ r w',
    (∃ q, first_token ds s = [] ∧ text_at cs q [] ∧ r = Null ∧ w' = scanned b cs (Ptr b q) w) ∨
    (∃ cs' o' q, first_token ds s ≠ [] ∧ length cs' = length cs ∧ text_at cs' o' (first_token ds s) ∧
     text_at cs' q (after_token ds s) ∧ r = Ptr b o' ∧ w' = scanned b cs' (Ptr b q) w)))
    as (r & w' & -> & [(q & ? & ? & -> & ->)|(cs' & o' & q & ? & ? & ? & ? & -> & ->)])%wp_run.
  - eapply wp_strtok; [done..| |].
    + intros q H1 H2. left. by exists q.
    + intros cs' o' q H1 H2 H3 H4. right. by exists cs', o', q.
  - left. by exists q.
  - right. by exists cs', o', q.
Qed.

(** The value part of a line. *)
Definition parse_value (rest : list Z) : parsed :=
  match first_token [NL] (first_token search rest) with [] => Broken | v => Value v end.

Definition value_code : M (bool * ptr) :=
  token ← strtok Null search; token ← strtok token [NL]; mret (true, token).

(** How [m] ends in [w] when the text says [p]. *)
Definition ends_as (b : positive) (n : nat) (w : world) (p : parsed) (m : M (bool * ptr)) : Prop :=
  match p with
  | Absent => ∃ cs q, length cs = n ∧ m w = Ok (false, Null) (scanned b cs q w)
  | Value v => ∃ cs o q, length cs = n ∧ text_at cs o v ∧ is_str v ∧ m w = Ok (true, Ptr b o) (scanned b cs q w)
  | Broken => m w = Stop UndefinedBehaviour ∨ ∃ w', m w = Ok (true, Null) w'
  end.

Lemma ends_as_scanned b n w cs q p m m' :
  m w = m' (scanned b cs q w) → ends_as b n (scanned b cs q w) p m' → ends_as b n w p m.
Proof.
  intros Hm. destruct p as [|v|]; cbn.
  - intros (cs' & q' & ? & Hr). exists cs', q'. by rewrite Hm Hr scanned_scanned.
  - intros (cs' & o & q' & ? & ? & ? & Hr). exists cs', o, q'. by rewrite Hm Hr scanned_scanned.
  - rewrite Hm. done.
Qed.

Lemma value_code_run b cs q rest w :
  heap w !! b = Some (BChars cs) → text_at cs q rest → is_str rest → sys_strtok (os w) = Ptr b q →
  ends_as b (length cs) w (parse_value rest) value_code.
Proof.
  intros Hb Ht Hs Hp. rewrite /parse_value /value_code.
  destruct (strtok_run Null b q rest search cs w Hb Ht Hs Hp)
    as [(q1 & He & Ht1 & Hr1)|(cs1 & o1 & q1 & Hne & Hl1 & Ht1 & _ & Hr1)].
  - rewrite He. cbn. right.
    destruct (strtok_run Null b q1 [] [NL] cs (scanned b cs (Ptr b q1) w) (scanned_lookup _ _ _ _) Ht1 ltac:(constructor) eq_refl)
      as [(q2 & _ & _ & Hr2)|(cs2 & ? & ? & Hne & _)]; [|done].
    eexists. rewrite (bind_ok _ _ _ _ _ Hr1) (bind_ok _ _ _ _ _ Hr2). done.
  - set (v := first_token search rest) in *. eapply ends_as_scanned; [by apply (bind_ok _ _ _ _ _ Hr1)|].
    assert (Hv : is_str v) by by apply first_token_str.
    destruct (strtok_run (Ptr b o1) b o1 v [NL] cs1 (scanned b cs1 (Ptr b q1) w) (scanned_lookup _ _ _ _) Ht1 Hv eq_refl)
      as [(q2 & He & _ & Hr2)|(cs2 & o2 & q2 & Hne2 & Hl2 & Ht2 & _ & Hr2)].
    + rewrite He. cbn. right. eexists. rewrite (bind_ok _ _ _ _ _ Hr2). done.
    + destruct (first_token [NL] v) as [|c v'] eqn:Hf; [done|]. exists cs2, o2, (Ptr b q2).
      split; [congruence|]. split; [done|]. split; [rewrite -Hf; by apply first_token_str|].
      by rewrite (bind_ok _ _ _ _ _ Hr2).
Qed.

Lemma fgets_run b cs c file w :
  heap w !! b = Some (BChars cs) → length cs = Z.to_nat LINE →
  let '(l, r) := next_line 127 (c :: file) in
  ∃ cs', fgets (Ptr b 0) LINE (c :: file) w = Ok (true, r) (on b cs' w) ∧ length cs' = length cs ∧ text_at cs' 0 l.
Proof.
  intros Hb Hl. pose proof (next_line_len 127 (c :: file)) as Hlen.
  destruct (next_line 127 (c :: file)) as [l r] eqn:Hn. cbn in Hlen.
  assert (wp (fgets (Ptr b 0) LINE (c :: file)) w (λ x w', ∃ cs', x = (true, r) ∧ w' = on b cs' w ∧
    length cs' = length cs ∧ text_at cs' 0 l)) as (x & w' & Hrun & cs' & -> & -> & ? & ?)%wp_run; [|by exists cs'].
  rewrite /fgets. change (Z.to_nat (LINE - 1)) with 127%nat. rewrite Hn.
  change (Z.to_nat LINE) with 128%nat in Hl.
  step wp_store_chars; [done|done|zl|]. intros cs' Hh [Hs _]. apply wp_ret. by exists cs'.
Qed.

Lemma parse_line_value l :
  first_token search l ≠ [] →
  parse_line l = if decide (first_token search l = string_match) then parse_value (after_token search l) else Absent.
Proof. rewrite /parse_line /parse_value. by destruct (first_token search l). Qed.

Lemma parse_value_found rest : parse_value rest ≠ Absent.
Proof. rewrite /parse_value. by destruct (first_token _ _). Qed.

(** The loop finds what the text says. *)
Lemma parse_loop_run fuel b cs file w :
  heap w !! b = Some (BChars cs) → length cs = Z.to_nat LINE → is_str file → (length file < fuel)%nat →
  ends_as b (Z.to_nat LINE) w (parse_lines (pieces fuel file)) (parse_loop fuel (Ptr b 0) file).
Proof.
  revert b cs file w. induction fuel as [|fuel IH]; intros b cs file w Hb Hl Hs Hf; [lia|].
  destruct file as [|c file].
  { exists cs, (sys_strtok (os w)). split; [done|]. rewrite -scanned_on /on insert_id // with_heap_id. done. }
  cbn [pieces parse_loop]. pose proof (fgets_run b cs c file w Hb Hl) as Hg.
  pose proof (next_line_rest 126 c file) as Hrest. pose proof (next_line_split 127 (c :: file)) as Hsplit.
  destruct (next_line 127 (c :: file)) as [l r]. destruct Hg as (cs1 & Hg & Hl1 & Ht1). cbn in Hrest, Hsplit.
  rewrite -Hsplit in Hs. apply is_str_app in Hs as [Hls Hrs]. rewrite scanned_on in Hg.
  eapply ends_as_scanned; [by apply (bind_ok _ _ _ _ _ Hg)|]. cbn [fst snd parse_lines].
  destruct (strtok_run (Ptr b 0) b 0 l search cs1 (scanned b cs1 (sys_strtok (os w)) w) (scanned_lookup _ _ _ _) Ht1 Hls eq_refl)
    as [(q2 & He & _ & Hr2)|(cs2 & o2 & q2 & Hne & Hl2 & Ht2 & Ha2 & Hr2)].
  - rewrite /parse_line He. left. rewrite (bind_ok _ _ _ _ _ Hr2). apply bind_stop. done.
  - eapply ends_as_scanned; [by apply (bind_ok _ _ _ _ _ Hr2)|]. set (w2 := scanned b cs2 _ _).
    assert (Hc : strcmp (Ptr b o2) (Lit string_match 0) w2 =
      Ok (if decide (first_token search l = string_match) then 0 else 1) w2).
    { apply wp_exact. eapply wp_strcmp; [|by apply get_cstr_lit; repeat constructor|done].
      eapply get_cstr_holds; [apply scanned_lookup|exact Ht2|by apply first_token_str]. }
    assert (Hw2 : heap w2 !! b = Some (BChars cs2)) by apply scanned_lookup.
    assert (Hl2' : length cs2 = Z.to_nat LINE) by congruence.
    rewrite (parse_line_value l Hne). destruct (decide (first_token search l = string_match)) as [Heq|Hneq].
    + pose proof (value_code_run b cs2 q2 (after_token search l) w2 Hw2 Ha2 ltac:(by apply after_token_str) eq_refl) as Hv.
      rewrite Hl2' in Hv. assert (Hex : ∀ p, ends_as b (Z.to_nat LINE) w2 p value_code →
        ends_as b (Z.to_nat LINE) w2 p (c0 ← strcmp (Ptr b o2) (Lit string_match 0);
          if c0 =? 0 then value_code else parse_loop fuel (Ptr b 0) r)).
      { intros p. rewrite /ends_as (bind_ok _ _ _ _ _ Hc). done. }
      apply Hex in Hv. destruct (parse_value _) eqn:Hpv; [by destruct (parse_value_found _ Hpv)|exact Hv..].
    + specialize (IH b cs2 r w2 Hw2 Hl2' Hrs ltac:(cbn in Hf; lia)).
      rewrite /ends_as (bind_ok _ _ _ _ _ Hc) /=. exact IH.
Qed.
End strtok.

(** A change of the configuration: the level, the position of [strtok] and the messages
    may differ, and identifiers of blocks may have been used up; the heap is the same. *)
Record config_step (w : world) (level : Z) (w' : world) : Prop := {
  cs_heap : heap w' = heap w;
  cs_next : (next w ≤ next w')%positive;
  cs_cfg : cfg w' = with_level level (cfg w);
  cs_tls : tls w' = tls w;
  cs_self : self w' = self w;
  cs_errno : errno w' = errno w;
  cs_os : ∃ q msgs, os w' = with_strtok q (with_stdio msgs (os w));
  cs_plan : plan w = [] → plan w' = []
}.

Section config.
Implicit Types (w : world).

Lemma wp_update_level_null w (Q : unit → world → Prop) :
  Q tt (with_cfg (with_level MDCLOG_ERR (cfg w)) (with_os (with_stdio (sys_stdio (os w) ++ [(Stdout, invalid_level_message)]) (os w)) w)) →
  wp (update_mdc_log_level_severity Null) w Q.
Proof.
  intros HQ. rewrite /update_mdc_log_level_severity /print /mdclog_level_set. cbn [is_null].
  apply wp_bind. wp_pure. by apply wp_ret, wp_modify.
Qed.

Lemma wp_update_level p v w (Q : unit → world → Prop) :
  get_cstr (heap w) p = Some v → Q tt (with_cfg (with_level (named_level v) (cfg w)) w) →
  wp (update_mdc_log_level_severity p) w Q.
Proof.
  intros Hp HQ. rewrite /update_mdc_log_level_severity (get_cstr_not_null _ _ _ Hp) /mdclog_level_set /named_level in HQ |- *.
  apply wp_bind. step wp_strcasecmp; [done|by apply get_cstr_lit; repeat constructor|].
  change (tolower <$> lit "ERR") with (lit "err"). destruct (decide (tolower <$> v = lit "err")) as [He|_]; cbn [Z.eqb].
  { apply wp_ret. wp_pure. rewrite He in HQ. by apply HQ. }
  step wp_strcasecmp; [done|by apply get_cstr_lit; repeat constructor|].
  change (tolower <$> lit "WARN") with (lit "warn"). destruct (decide (tolower <$> v = lit "warn")); cbn [Z.eqb].
  { apply wp_ret. by wp_pure. }
  step wp_strcasecmp; [done|by apply get_cstr_lit; repeat constructor|].
  change (tolower <$> lit "INFO") with (lit "info"). destruct (decide (tolower <$> v = lit "info")); cbn [Z.eqb].
  { apply wp_ret. by wp_pure. }
  step wp_strcasecmp; [done|by apply get_cstr_lit; repeat constructor|].
  change (tolower <$> lit "DEBUG") with (lit "debug").
  destruct (decide (tolower <$> v = lit "debug")); cbn [Z.eqb]; apply wp_ret; by wp_pure.
Qed.

Lemma scanned_gone cs0 cs q w :
  wf_heap w →
  let w' := scanned (next w) cs q (alloc_world (BChars cs0) w) in
  with_heap (delete (next w) (heap w')) w' = with_os (with_strtok q (os w)) (with_next (Pos.succ (next w)) w).
Proof.
  intros Hw. cbn. rewrite insert_insert_eq delete_insert_eq delete_id; [done|]. by apply Hw.
Qed.

(** [parse_file] when the array outlives its block. *)
Lemma wp_parse_file filename name w (Q : ptr → world → Prop) :
  get_cstr (heap w) filename = Some name → wf_heap w → plan_ok (plan w) = true →
  (∀ file, sys_files (os w) !! name = Some file → is_str file) →
  (∀ q n, (next w ≤ n)%positive →
     match parse_contents (default [] (sys_files (os w) !! name)) with
     | Absent => Q Null (with_os (with_strtok q (os w)) (with_next n w))
     | Value v => is_str v → Q (Ptr n 0) (malloc_world (cstr_block v) (with_os (with_strtok q (os w)) (with_next n w)))
     | Broken => True
     end) →
  parse_contents (default [] (sys_files (os w) !! name)) ≠ Broken →
  wp (parse_file true filename) w Q.
Proof.
  intros Hn Hw Hp Hstr HQ Hnb. rewrite /parse_file. step wp_read_cstr; [done|]. wp_pure.
  destruct (sys_files (os w) !! name) as [file|] eqn:Hf; cbn [default from_option id] in *.
  2: { apply wp_ret. specialize (HQ (sys_strtok (os w)) (next w) ltac:(lia)). cbn in HQ.
       by destruct w as [? ? ? ? ? ? ? []]. }
  apply wp_with_local. set (cs0 := replicate _ None). set (b := next w).
  pose proof (parse_loop_run (S (length file)) b cs0 file (alloc_world (BChars cs0) w) (lookup_insert_eq _ _ _)
    (length_replicate _ _) (Hstr _ eq_refl) ltac:(lia)) as Hrun.
  rewrite -/(parse_contents file) in Hrun.
  destruct (parse_contents file) as [|v|]; [| |done].
  - destruct Hrun as (cs & q & _ & Hrun). apply wp_bind. eapply wp_eq; [exact Hrun|].
    rewrite /found_token. cbn [fst snd]. apply wp_ret. split; [rewrite scanned_lookup; by eauto|].
    rewrite scanned_gone //. apply HQ. lia.
  - destruct Hrun as (cs & o & q & _ & Ht & Hv & Hrun). apply wp_bind. eapply wp_eq; [exact Hrun|].
    rewrite /found_token. cbn [fst snd].
    eapply wp_strdup; [by eapply get_cstr_holds; [apply scanned_lookup|..]| |cbn; congruence].
    intros _. rewrite /malloc_world. cbn [heap alloc_world with_next with_heap with_plan].
    assert (Hne : next (scanned b cs q (alloc_world (BChars cs0) w)) ≠ b) by (cbn; unfold b; lia).
    split; [rewrite lookup_insert_ne // scanned_lookup; by eauto|].
    specialize (HQ q (Pos.succ (next w)) ltac:(lia) Hv). revert HQ. rewrite delete_insert_ne //.
    pose proof (scanned_gone cs0 cs q w Hw) as Hg. apply (f_equal heap) in Hg. cbn in Hg. cbn. by rewrite Hg.
Qed.

(** A configuration file that can be used: text, and not [Broken]. *)
Definition good_file (file : option (list Z)) : Prop :=
  is_str (default [] file) ∧ parse_contents (default [] file) ≠ Broken.

Lemma wp_apply_config_file filename name w (Q : unit → world → Prop) :
  get_cstr (heap w) filename = Some name → wf_heap w → plan_ok (plan w) = true →
  good_file (sys_files (os w) !! name) →
  (∀ w', config_step w (file_level (sys_files (os w) !! name)) w' → Q tt w') →
  wp (apply_config_file true filename) w Q.
Proof.
  intros Hn Hw Hp [Hs Hnb] HQ. rewrite /apply_config_file /file_level in HQ |- *.
  step wp_parse_file; [done..|by intros f Hf; rewrite Hf in Hs| |done].
  intros q n Hle. destruct (parse_contents _) as [|v|]; [| |done].
  - step wp_update_level_null. eapply wp_eq; [reflexivity|]. apply HQ. split; cbn; try done. by exists q, (sys_stdio (os w) ++ [(Stdout, invalid_level_message)]).
  - intros Hv. set (w1 := malloc_world _ _).
    step wp_update_level; [by apply get_cstr_block; [apply lookup_insert_eq|]|].
    eapply wp_free; [apply lookup_insert_eq|]. apply HQ. split; cbn; try done.
    + rewrite delete_insert_eq delete_id //. by apply Hw.
    + lia.
    + exists q, (sys_stdio (os w)). by destruct (os w).
    + by intros ->.
Qed.
End config.

(** ** The monitor *)

(** The level after the loop has seen the inputs: the one of the last file it read
    before its flag was cleared. *)
Fixpoint followed (name : list Z) (level : Z) (inputs : list monitor_input) : Z :=
  match inputs with
  | [] | FlagCleared :: _ => level
  | FileChanged files :: inputs' => followed name (file_level (files !! name)) inputs'
  | _ :: inputs' => followed name level inputs'
  end.

Definition sees_stop (inputs : list monitor_input) : bool :=
  existsb (λ i, match i with FlagCleared => true | _ => false end) inputs.

(** The files the loop reads can be used. *)
Definition good_input (name : list Z) (i : monitor_input) : Prop :=
  match i with FileChanged files => good_file (files !! name) | _ => True end.

Section loop.
Context (strerror : Z → list Z).
Implicit Types (w : world).

Lemma wp_monitor_round filename name i w (Q : unit → world → Prop) :
  get_cstr (heap w) filename = Some name → wf_heap w → plan w = [] → good_input name i →
  (∀ w', heap w' = heap w → wf_heap w' → plan w' = [] → 
     log_format_init_done (cfg w') = (match i with FlagCleared => 0 | _ => log_format_init_done (cfg w) end) →
     current_level (cfg w') = followed name (current_level (cfg w)) [i] → Q tt w') →
  wp (monitor_round true strerror filename i) w Q.
Proof.
  intros Hn Hw Hp Hi HQ. destruct i as [|e|files|]; cbn [monitor_round followed] in *.
  - apply wp_ret. by apply HQ.
  - rewrite /when /print. wp_pure. destruct (negb _); [apply wp_modify|apply wp_ret]; by apply HQ.
  - wp_pure. eapply wp_apply_config_file; [exact Hn|done|by rewrite /= Hp|exact Hi|].
    intros w' [Hh Hnx Hc Ht Hs He Ho Hp']. apply HQ; [done| |by apply Hp'|by rewrite Hc|by rewrite Hc].
    intros b Hb. rewrite Hh. apply Hw. cbn in Hnx. lia.
  - rewrite /set_format_done. apply wp_modify. by apply HQ.
Qed.

Lemma wp_monitor_loop filename name inputs w (Q : bool → world → Prop) :
  get_cstr (heap w) filename = Some name → wf_heap w → plan w = [] → Forall (good_input name) inputs →
  log_format_init_done (cfg w) ≠ 0 →
  (∀ w', heap w' = heap w → wf_heap w' → plan w' = [] →
     current_level (cfg w') = followed name (current_level (cfg w)) inputs → Q (sees_stop inputs) w') →
  wp (monitor_loop true strerror filename inputs) w Q.
Proof.
  intros Hn Hw Hp Hi. revert w Hn Hw Hp. induction Hi as [|i inputs Hi _ IH]; intros w Hn Hw Hp Hd HQ;
    cbn [monitor_loop]; wp_pure; destruct (Z.eqb_spec (log_format_init_done (cfg w)) 0); try done.
  { apply wp_ret. by apply HQ. }
  step wp_monitor_round; [done..|]. intros w1 Hh1 Hw1 Hp1 Hd1 Hl1.
  assert (Hgo : log_format_init_done (cfg w1) ≠ 0 →
    followed name (current_level (cfg w1)) inputs = followed name (current_level (cfg w)) (i :: inputs) →
    sees_stop inputs = sees_stop (i :: inputs) → wp (monitor_loop true strerror filename inputs) w1 Q).
  { intros Hd' Hf Hs. apply IH; [by rewrite Hh1|done..|]. intros w' Hh' Hw' Hp' Hl'. rewrite Hs.
    apply HQ; [congruence|done|done|congruence]. }
  destruct i as [|e|files|]; cbn [followed] in Hl1; try (apply Hgo; [by rewrite Hd1|by rewrite Hl1|done]).
  assert (Hstop : monitor_loop true strerror filename inputs w1 = Ok true w1).
  { destruct inputs; cbn [monitor_loop]; rewrite /mbind /M_bind /gets Hd1; done. }
  eapply wp_eq; [exact Hstop|]. by apply HQ.
Qed.
End loop.

(** [strrchr] points into its string. *)
Lemma last_slash_range i s j : last_slash i s = Some j → i ≤ j < i + zlen s.
Proof.
  revert i. induction s as [|c s IH]; intros i; cbn [last_slash]; [done|].
  pose proof (zlen_nonneg s). destruct (last_slash (i + 1) s) as [k|] eqn:Hk.
  - intros [= <-]. apply IH in Hk. zl.
  - destruct (c =? SLASH); [|done]. intros [= <-]. zl.
Qed.

(** The rest of a string after a character that has been overwritten. *)
Lemma cut_text s i :
  is_str s → 0 ≤ i < zlen s →
  text_at (<[Z.to_nat i := Some NUL]> (Some <$> (s ++ [NUL]))) (i + 1) (drop (Z.to_nat (i + 1)) s) ∧
  is_str (drop (Z.to_nat (i + 1)) s).
Proof.
  intros Hs Hi. rewrite -(take_drop (Z.to_nat (i + 1)) s) in Hs. apply is_str_app in Hs as [_ Hs]. split; [|done].
  eapply (holds_frame (Some <$> (s ++ [NUL])) _ i 1); [|apply same_outside_insert; zl|right; lia].
  assert (Ht : text_at (Some <$> (s ++ [NUL])) 0 (take (Z.to_nat (i + 1)) s ++ drop (Z.to_nat (i + 1)) s)).
  { rewrite take_drop. split; [done|]. intros k x Hk. by rewrite list_lookup_fmap Hk. }
  apply text_at_drop in Ht. replace (0 + zlen (take (Z.to_nat (i + 1)) s)) with (i + 1) in Ht; [done|].
  rewrite /zlen length_take. unfold zlen in Hi. lia.
Qed.

Section handler.
Context (strerror : Z → list Z).
Implicit Types (w : world).

(** The blocks of the two names. *)
Definition name_blocks (d : positive) (bn : option positive) : gset positive :=
  {[d]} ∪ match bn with Some b => {[b]} | None => ∅ end.

Lemma elem_of_name_blocks b d bn : b ∈ name_blocks d bn ↔ b = d ∨ bn = Some b.
Proof.
  rewrite /name_blocks elem_of_union elem_of_singleton. destruct bn as [c|]; [rewrite elem_of_singleton|].
  - naive_solver.
  - set_solver.
Qed.

Definition bname_ptr (bn : option positive) : ptr := match bn with Some b => Ptr b 0 | None => Null end.

(** [w'] has the heap of [w] and the blocks [own] of the names; it may have used up
    identifiers. *)
Record watching (w : world) (d : positive) (bn : option positive) (own : gmap positive block) (w' : world) : Prop := {
  wa_own : dom own = name_blocks d bn;
  wa_distinct : bn ≠ Some d;
  wa_fresh : ∀ b, b ∈ dom own → (next w ≤ b)%positive;
  wa_heap : heap w' = own ∪ heap w;
  wa_wf : wf_heap w';
  wa_next : (next w ≤ next w')%positive;
  wa_rest : w' = with_next (next w') (with_heap (heap w') w)
}.

(** The names are freed. *)
Lemma wp_free_names d bn w (Q : unit → world → Prop) :
  (∀ b, b ∈ name_blocks d bn → is_Some (heap w !! b)) → bn ≠ Some d →
  (∀ h, (∀ b, b ∈ name_blocks d bn → h !! b = None) → (∀ b, b ∉ name_blocks d bn → h !! b = heap w !! b) →
     Q tt (with_heap h w)) →
  wp (free_names (Ptr d 0) (bname_ptr bn)) w Q.
Proof.
  intros Hl Hd HQ. rewrite /free_names.
  assert (is_Some (heap w !! d)) as [x Hx] by (apply Hl, elem_of_name_blocks; by left).
  destruct bn as [b|]; cbn [bname_ptr].
  - assert (is_Some (heap w !! b)) as [y Hy] by (apply Hl, elem_of_name_blocks; by right).
    step wp_free; [exact Hy|]. eapply wp_free; [rewrite /= lookup_delete_ne //; congruence|]. apply HQ.
    + intros c [->|[= ->]]%elem_of_name_blocks; [by rewrite lookup_delete_eq|].
      rewrite lookup_delete_ne; [by rewrite /= lookup_delete_eq|congruence].
    + intros c Hc. rewrite elem_of_name_blocks in Hc. cbn. rewrite !lookup_delete_ne //; naive_solver.
  - step wp_free_null. eapply wp_free; [exact Hx|]. apply HQ.
    + intros c [->|[=]]%elem_of_name_blocks. by rewrite lookup_delete_eq.
    + intros c Hc. rewrite elem_of_name_blocks in Hc. rewrite lookup_delete_ne //. naive_solver.
Qed.

Lemma watching_live w d bn own w' b : watching w d bn own w' → b ∈ name_blocks d bn → is_Some (heap w' !! b).
Proof.
  intros [Ho _ _ Hh _ _ _] Hb. rewrite Hh. rewrite -Ho in Hb. apply elem_of_dom in Hb as [x Hx].
  exists x. by apply lookup_union_Some_l.
Qed.

Lemma watching_old w d bn own w' b : watching w d bn own w' → (b < next w)%positive → heap w' !! b = heap w !! b.
Proof.
  intros [Ho _ Hf Hh _ _ _] Hb. rewrite Hh lookup_union_r //. apply not_elem_of_dom. intros Hin.
  apply Hf in Hin. lia.
Qed.

(** Nothing is left of the names. *)
Lemma watching_end w d bn own w' h :
  wf_heap w → watching w d bn own w' → (∀ b, b ∈ name_blocks d bn → h !! b = None) →
  (∀ b, b ∉ name_blocks d bn → h !! b = heap w' !! b) → h = heap w.
Proof.
  intros Hw [Ho _ Hf Hh _ _ _] H1 H2. rewrite -Ho in H1, H2. apply map_eq. intros b.
  destruct (decide (b ∈ dom own)) as [Hin|Hn].
  - rewrite H1 //. symmetry. by apply Hw, Hf.
  - rewrite H2 // Hh lookup_union_r //. by apply not_elem_of_dom.
Qed.

Lemma watching_str w d bn own w' p s :
  wf_heap w → watching w d bn own w' → get_cstr (heap w) p = Some s → get_cstr (heap w') p = Some s.
Proof.
  intros Hw Ha. apply (get_cstr_agree (heap w) _ ∅); [|intros b _; apply not_elem_of_empty].
  intros c _ [x Hx]. eapply watching_old; [done|]. by apply (wf_heap_lt _ _ _ Hw Hx).
Qed.

(** The directory and the base name. *)
Lemma wp_split_name fileName name w (Q : ptr * ptr → world → Prop) :
  get_cstr (heap w) fileName = Some name → wf_heap w → plan w = [] →
  (∀ d bn own w', watching w d bn own w' → Q (Ptr d 0, bname_ptr bn) w') →
  wp (split_name fileName) w Q.
Proof.
  intros Hn Hw Hp HQ. pose proof (get_cstr_nonzero _ _ _ Hn) as Hs. rewrite /split_name.
  step (wp_strdup_ok 0); [done|by apply allocs_ok_nil|]. intros _. set (d := next w). set (w1 := malloc_world _ w).
  assert (Hw1 : wf_heap w1) by by apply wf_heap_alloc.
  step wp_read_cstr; [by apply get_cstr_block; [apply lookup_insert_eq|]|].
  destruct (last_slash 0 name) as [i|] eqn:Hi.
  - apply last_slash_range in Hi. rewrite Z.add_0_l in Hi. destruct (cut_text name i Hs Hi) as [Ht Hsd].
    apply wp_bind, wp_bind. cbn [ptr_add]. rewrite Z.add_0_l. eapply wp_store_char; [apply lookup_insert_eq|zl|].
    eapply (wp_strdup_ok 0); [by eapply get_cstr_holds; [apply lookup_insert_eq|exact Ht|]|by apply allocs_ok_nil; rewrite /= Hp|].
    intros _. apply wp_ret. set (x := BChars _). set (y := cstr_block (drop _ name)).
    apply (HQ d (Some (Pos.succ d)) (<[Pos.succ d := y]> {[d := x]})). split; cbn.
    + by rewrite dom_insert_L dom_singleton_L /name_blocks union_comm_L.
    + intros [= ?]. lia.
    + intros b. rewrite dom_insert_L dom_singleton_L elem_of_union !elem_of_singleton. fold d. lia.
    + rewrite -insert_union_l -insert_union_l left_id_L. fold d. by rewrite insert_insert_eq.
    + intros b Hb. cbn in Hb |- *. rewrite !lookup_insert_ne; [apply Hw; fold d; lia|unfold d; lia..].
    + lia.
    + rewrite /malloc_world /= Hp /=. destruct w; cbn in Hp. by rewrite Hp.
  - wp_pure. apply (HQ d None {[d := cstr_block name]}). split; cbn.
    + by rewrite dom_singleton_L /name_blocks right_id_L.
    + done.
    + intros b. rewrite dom_singleton_L elem_of_singleton. fold d. lia.
    + by rewrite insert_union_singleton_l.
    + exact Hw1.
    + lia.
    + rewrite /w1. destruct w; cbn in Hp. by subst.
Qed.

(** Watching the file or giving up. *)
Lemma wp_add_watch ifd wfd fileName name w (Q : bool → world → Prop) :
  get_cstr (heap w) fileName = Some name →
  (match ifd, wfd with
   | None, None => Q true (with_cfg (with_format_done 1 (cfg w)) w)
   | _, _ => ∀ e msgs, Q false (with_os (with_stdio msgs (os w)) (with_errno e w))
   end) →
  wp (add_watch strerror ifd wfd fileName) w Q.
Proof.
  intros Hn HQ. rewrite /add_watch /print. destruct ifd as [e|]; [|destruct wfd as [e|]].
  - do 2 wp_pure. apply wp_ret, HQ.
  - wp_pure. step wp_read_cstr; [exact Hn|]. wp_pure. apply wp_ret, HQ.
  - rewrite /set_format_done. wp_pure. by apply wp_ret.
Qed.
End handler.

Lemma with_local_eq {A} n (body : ptr → M A) w :
  with_local n body w =
    (r ← body (Ptr (next w) 0); free (Ptr (next w) 0) ;; mret r) (alloc_world (BChars (replicate (Z.to_nat n) None)) w).
Proof. done. Qed.

Lemma with_local_ok {A} n (body : ptr → M A) w r w' x :
  body (Ptr (next w) 0) (alloc_world (BChars (replicate (Z.to_nat n) None)) w) = Ok r w' →
  heap w' !! next w = Some x → with_local n body w = Ok r (with_heap (delete (next w) (heap w')) w').
Proof. intros Hb Hx. by rewrite with_local_eq (bind_ok _ _ _ _ _ Hb) /free /mbind /M_bind Hx. Qed.

(** The loop of [parse_file] in its array. *)
Lemma scan_run file w :
  is_str file →
  ends_as (next w) (Z.to_nat LINE) (alloc_world (BChars (replicate (Z.to_nat LINE) None)) w) (parse_contents file)
    (parse_loop (S (length file)) (Ptr (next w) 0) file).
Proof. intros Hs. eapply parse_loop_run; [apply lookup_insert_eq|apply length_replicate|done|lia]. Qed.

Lemma parse_file_eq keep filename name file w :
  get_cstr (heap w) filename = Some name → sys_files (os w) !! name = Some file →
  parse_file keep filename w =
    (let scan line := parse_loop (S (length file)) line file in
     if keep then with_local LINE (λ line, r ← scan line; found_token r)
     else r ← with_local LINE scan; found_token r) w.
Proof.
  intros Hn Hf. rewrite /parse_file. erewrite bind_ok; [|by rewrite /read_cstr Hn].
  erewrite bind_ok; [|done]. by rewrite Hf.
Qed.

(** ** Properties *)

(** [update_mdc_log_level_severity] sets the level its argument names, in upper or
    lower case; any other text means the error level. *)
Theorem update_level_spec p v w :
  get_cstr (heap w) p = Some v →
  update_mdc_log_level_severity p w = Ok tt (with_cfg (with_level (named_level v) (cfg w)) w).
Proof. intros Hp. apply wp_exact. by eapply wp_update_level. Qed.

(** C26: [parse_file] finds the first line about the level and returns a fresh copy of
    its value, or null if there is no such line or no file; it changes no other block
    and leaves no block behind.  (As long as the storage of its array survives the end
    of the block that declares it.) *)
Theorem parse_file_finds filename name w :
  get_cstr (heap w) filename = Some name → wf_heap w → plan w = [] →
  good_file (sys_files (os w) !! name) →
  ∃ p w', parse_file true filename w = Ok p w' ∧ cfg w' = cfg w ∧
    match parse_contents (default [] (sys_files (os w) !! name)) with
    | Absent => p = Null ∧ heap w' = heap w
    | Value v => ∃ b, (next w ≤ b)%positive ∧ p = Ptr b 0 ∧ heap w' = <[b := cstr_block v]> (heap w)
    | Broken => False
    end.
Proof.
  intros Hn Hw Hp [Hs Hnb]. apply wp_run.
  eapply wp_parse_file; [done|done|by rewrite Hp|by intros f Hf; rewrite Hf in Hs| |done].
  intros q n Hle. destruct (parse_contents _) as [|v|]; [done| |done]. by eauto 6.
Qed.

(** C39: a line without a token, or a line about the level without a value, makes
    [parse_file] pass a null pointer to [strcmp] or [strdup]. *)
Theorem parse_file_broken keep filename name file w :
  get_cstr (heap w) filename = Some name → sys_files (os w) !! name = Some file → is_str file →
  parse_contents file = Broken → parse_file keep filename w = Stop UndefinedBehaviour.
Proof.
  intros Hn Hf Hs Hb. pose proof (scan_run file w Hs) as Hrun. rewrite Hb in Hrun.
  rewrite (parse_file_eq _ _ _ _ _ Hn Hf). cbn zeta. destruct keep.
  - rewrite with_local_eq. apply bind_stop. destruct Hrun as [Hrun|[w' Hrun]]; [by apply bind_stop|].
    by rewrite (bind_ok _ _ _ _ _ Hrun).
  - destruct Hrun as [Hrun|[w' Hrun]]; [by apply bind_stop; rewrite with_local_eq; apply bind_stop|].
    destruct (heap w' !! next w) as [x|] eqn:Hx.
    + erewrite bind_ok; [|by eapply with_local_ok]. done.
    + apply bind_stop. rewrite with_local_eq (bind_ok _ _ _ _ _ Hrun). apply bind_stop. by rewrite /free Hx.
Qed.

(** C40: when a value is found, [parse_file] copies it out of an array whose block has
    ended: as the language has it, the behaviour is undefined. *)
Theorem parse_file_scope filename name file v w :
  get_cstr (heap w) filename = Some name → sys_files (os w) !! name = Some file → is_str file →
  parse_contents file = Value v → parse_file false filename w = Stop UndefinedBehaviour.
Proof.
  intros Hn Hf Hs Hb. pose proof (scan_run file w Hs) as Hrun. rewrite Hb in Hrun.
  rewrite (parse_file_eq _ _ _ _ _ Hn Hf). cbn zeta. destruct Hrun as (cs & o & q & _ & _ & _ & Hrun).
  erewrite bind_ok; [|eapply with_local_ok; [exact Hrun|apply scanned_lookup]].
  apply bind_stop. by rewrite /read_cstr /get_cstr /= lookup_delete_eq.
Qed.

(** C18: whatever the monitor has been told so far, the level is that of the last file
    it was told about before its flag was cleared; it has left its loop exactly if the
    flag was cleared, and no round leaves a block behind. *)
Theorem monitor_follows strerror filename name inputs w :
  get_cstr (heap w) filename = Some name → wf_heap w → plan w = [] → Forall (good_input name) inputs →
  log_format_init_done (cfg w) ≠ 0 →
  ∃ w', monitor_loop true strerror filename inputs w = Ok (sees_stop inputs) w' ∧ heap w' = heap w ∧
    current_level (cfg w') = followed name (current_level (cfg w)) inputs.
Proof.
  intros Hn Hw Hp Hi Hd. destruct (proj1 (wp_run (monitor_loop true strerror filename inputs) w (λ r w',
    r = sees_stop inputs ∧ heap w' = heap w ∧
    current_level (cfg w') = followed name (current_level (cfg w)) inputs))) as (r & w' & Hrun & -> & ?); [|by eauto].
  eapply wp_monitor_loop; [done..|]. done.
Qed.

(** C19: the monitor thread ends once its flag is cleared, or at once when the file
    cannot be watched; it frees the two names it made and nothing else (the name it was
    started with stays allocated). *)
Theorem monitor_handler_ends strerror fileName name ifd wfd inputs w :
  get_cstr (heap w) fileName = Some name → wf_heap w → plan w = [] → Forall (good_input name) inputs →
  sees_stop inputs = true →
  ∃ w', monitor_loglevel_change_handler true strerror ifd wfd fileName inputs w = Ok tt w' ∧ heap w' = heap w ∧
    current_level (cfg w') =
      match ifd, wfd with
      | None, None => followed name (current_level (cfg w)) inputs
      | _, _ => current_level (cfg w)
      end.
Proof.
  intros Hn Hw Hp Hi Hst. destruct (proj1 (wp_run (monitor_loglevel_change_handler true strerror ifd wfd fileName inputs) w
    (λ _ w', heap w' = heap w ∧ current_level (cfg w') = match ifd, wfd with
      | None, None => followed name (current_level (cfg w)) inputs
      | _, _ => current_level (cfg w)
      end))) as ([] & w' & ? & ?); [|by eauto].
  rewrite /monitor_loglevel_change_handler. step wp_split_name; [done..|].
  intros d bn own w1 Hwa. cbn [fst snd]. pose proof (watching_str _ _ _ _ _ _ _ Hw Hwa Hn) as Hn1.
  pose proof (wa_rest _ _ _ _ _ Hwa) as Hr.
  assert (Hp1 : plan w1 = []) by by rewrite Hr. assert (Hc1 : cfg w1 = cfg w) by by rewrite Hr.
  assert (Hend : ∀ w2, heap w2 = heap w1 → current_level (cfg w2) = match ifd, wfd with
    | None, None => followed name (current_level (cfg w)) inputs | _, _ => current_level (cfg w) end →
    wp (free_names (Ptr d 0) (bname_ptr bn)) w2 (λ _ w', heap w' = heap w ∧ current_level (cfg w') =
      match ifd, wfd with
      | None, None => followed name (current_level (cfg w)) inputs | _, _ => current_level (cfg w) end)).
  { intros w2 Hh2 Hl2. apply wp_free_names; [intros b Hb; rewrite Hh2; by eapply watching_live|apply (wa_distinct _ _ _ _ _ Hwa)|].
    intros h H1 H2. rewrite Hh2 in H2. split; [by eapply watching_end|exact Hl2]. }
  step wp_add_watch; [exact Hn1|].
  destruct ifd as [e|]; [|destruct wfd as [e|]]; try (intros e' msgs; wp_pure; apply Hend; cbn; by rewrite ?Hc1).
  apply wp_bind. step wp_monitor_loop; [exact Hn1|apply (wa_wf _ _ _ _ _ Hwa)|done..|].
  intros w2 Hh2 Hw2 Hp2 Hl2. rewrite Hst. apply wp_ret, Hend; [done|]. by rewrite Hl2 /= Hc1.
Qed.

(** A process with a configuration file [cfg]. *)
Definition with_config (text : list Z) : world :=
  with_os (with_files {[lit "cfg" := text]} (os app)) app.

Lemma config_lookup text : sys_files (os (with_config text)) !! lit "cfg" = Some text.
Proof. apply lookup_singleton_eq. Qed.

Definition info_file : list Z := lit "# x" ++ [NL] ++ lit "log-level: INFO" ++ [NL].

Lemma info_parse : is_str info_file ∧ parse_contents info_file = Value (lit "INFO").
Proof. split; [by repeat constructor|by vm_compute]. Qed.

Lemma update_level_spec_witness :
  update_mdc_log_level_severity (Lit (lit "Debug") 0) app = Ok tt (with_cfg (with_level MDCLOG_DEBUG (cfg app)) app).
Proof. exact (update_level_spec (Lit (lit "Debug") 0) (lit "Debug") app eq_refl). Defined.

Lemma parse_file_finds_witness : ∃ b w',
  parse_file true (Lit (lit "cfg") 0) (with_config info_file) = Ok (Ptr b 0) w' ∧
  heap w' !! b = Some (cstr_block (lit "INFO")).
Proof.
  destruct info_parse as [Hs Hv].
  destruct (parse_file_finds (Lit (lit "cfg") 0) (lit "cfg") (with_config info_file)) as (p & w' & Hrun & _ & Hp);
    [reflexivity|done|reflexivity| |].
  - rewrite config_lookup. cbn [default from_option id]. rewrite /good_file Hv. by split.
  - rewrite config_lookup in Hp. cbn [default from_option id] in Hp. rewrite Hv in Hp.
    destruct Hp as (b & _ & Hp & Hh). exists b, w'. rewrite -Hp Hh. split; [exact Hrun|apply lookup_insert_eq].
Defined.

Lemma parse_file_broken_witness :
  parse_file true (Lit (lit "cfg") 0) (with_config (lit "log-level: " ++ [NL])) = Stop UndefinedBehaviour.
Proof.
  exact (parse_file_broken true (Lit (lit "cfg") 0) (lit "cfg") (lit "log-level: " ++ [NL])
    (with_config (lit "log-level: " ++ [NL])) eq_refl (config_lookup _) ltac:(by repeat constructor)
    ltac:(by vm_compute)).
Defined.

Lemma parse_file_scope_witness :
  parse_file false (Lit (lit "cfg") 0) (with_config info_file) = Stop UndefinedBehaviour.
Proof.
  destruct info_parse as [Hs Hv].
  exact (parse_file_scope (Lit (lit "cfg") 0) (lit "cfg") info_file (lit "INFO") (with_config info_file) eq_refl
    (config_lookup _) Hs Hv).
Defined.

(** The file changes, a second passes, and the flag is cleared. *)
Definition watch_inputs : list monitor_input :=
  [FileChanged {[lit "cfg" := info_file]}; SelectTimeout; FlagCleared].

Lemma watch_inputs_good : Forall (good_input (lit "cfg")) watch_inputs.
Proof.
  apply Forall_cons. split; [|by repeat constructor].
  cbn [good_input]. rewrite lookup_singleton_eq /good_file /=. destruct info_parse as [Hs Hv]. by rewrite Hv.
Qed.

Lemma watch_inputs_level : followed (lit "cfg") MDCLOG_ERR watch_inputs = MDCLOG_INFO.
Proof. cbn [followed watch_inputs]. rewrite lookup_singleton_eq /file_level. cbn [default from_option id]. by rewrite (proj2 info_parse). Qed.

Lemma monitor_follows_witness : ∃ w',
  monitor_loop true (λ _, []) (Lit (lit "cfg") 0) watch_inputs (with_cfg (with_format_done 1 (cfg app)) app) = Ok true w' ∧
  current_level (cfg w') = MDCLOG_INFO.
Proof.
  destruct (monitor_follows (λ _, []) (Lit (lit "cfg") 0) (lit "cfg") watch_inputs
    (with_cfg (with_format_done 1 (cfg app)) app) eq_refl ltac:(done) eq_refl watch_inputs_good ltac:(done))
    as (w' & Hrun & _ & Hl).
  exists w'. rewrite -watch_inputs_level. split; [exact Hrun|exact Hl].
Defined.

Lemma monitor_handler_ends_witness : ∃ w',
  monitor_loglevel_change_handler true (λ _, []) None None (Lit (lit "cfg") 0) watch_inputs app = Ok tt w' ∧
  current_level (cfg w') = MDCLOG_INFO.
Proof.
  destruct (monitor_handler_ends (λ _, []) (Lit (lit "cfg") 0) (lit "cfg") None None watch_inputs
    app eq_refl ltac:(done) eq_refl watch_inputs_good eq_refl) as (w' & Hrun & _ & Hl).
  exists w'. rewrite -watch_inputs_level. split; [exact Hrun|exact Hl].
Defined.
