(* ===== verification/ParseRace.v ===== *)
(** Two threads that read the configuration file of src/mdclog.c at the same time: the
    monitor thread and a call of [mdclog_format_initialize], or two monitors.

    [parse_file_steps] and [apply_config_steps] are the functions of LogLevel cut at the
    calls of the C library ([prog] of Interleave); running one alone is running the
    function.  What the threads share is the position of [strtok]. *)

From S2P Require Import Prelude World Memory Libc Escape MdcIface Mdc JsonFormat Mdclog Within Api Interleave LogLevel.

(** ** The functions *)

(** An action with a result, and what depends on it. *)
Definition act_with {A} (m : M A) (k : A → prog) : prog := Act (a ← m; mret (k a)).

Fixpoint parse_steps (fuel : nat) (line : ptr) (file : list Z) (k : bool * ptr → prog) : prog :=
  match fuel with
  | O => Act (stopped OutOfFuel)
  | S fuel' =>
      act_with (fgets line LINE file) (λ '(more, file),
        if (more : bool) then
          act_with (strtok line search) (λ token,
          act_with (strcmp token (Lit string_match 0)) (λ c,
          if c =? 0 then
            act_with (strtok Null search) (λ token,
            act_with (strtok token [NL]) (λ token, k (true, token)))
          else parse_steps fuel' line file k))
        else k (false, Null))
  end.

Definition parse_file_steps (keep : bool) (filename : ptr) (k : ptr → prog) : prog :=
  act_with (name ← read_cstr filename; files ← gets (λ w, sys_files (os w)); mret (files !! name)) (λ file,
    match file with
    | None => k Null
    | Some file =>
        act_with (alloc (BChars (replicate (Z.to_nat LINE) None))) (λ line,
        parse_steps (S (length file)) line file (λ r,
        if keep then act_with (found_token r) (λ token, free line >>> k token)
        else free line >>> act_with (found_token r) k))
    end).

Definition apply_config_steps (keep : bool) (filename : ptr) (k : prog) : prog :=
  parse_file_steps keep filename (λ log_level,
    update_mdc_log_level_severity log_level >>> free log_level >>> k).

Section alone.
Implicit Types (w : world).

Lemma run_act_with {A} (m : M A) k w : run (act_with m k) w = (a ← m; run (k a)) w.
Proof. rewrite /act_with run_Act bind_assoc. by apply bind_ext. Qed.

Lemma parse_steps_run fuel line file k w :
  run (parse_steps fuel line file k) w = (r ← parse_loop fuel line file; run (k r)) w.
Proof.
  revert file w. induction fuel as [|fuel IH]; intros file w; [done|].
  cbn [parse_steps parse_loop]. rewrite run_act_with bind_assoc. apply bind_ext. intros [[|] file'] w1 _; [|done].
  rewrite run_act_with bind_assoc. apply bind_ext. intros token w2 _.
  rewrite run_act_with bind_assoc. apply bind_ext. intros c w3 _.
  destruct (c =? 0); [|apply IH].
  rewrite run_act_with bind_assoc. apply bind_ext. intros token' w4 _.
  rewrite run_act_with bind_assoc. by apply bind_ext.
Qed.

Lemma parse_file_steps_run keep filename k w :
  run (parse_file_steps keep filename k) w = (r ← parse_file keep filename; run (k r)) w.
Proof.
  rewrite /parse_file_steps /parse_file run_act_with !bind_assoc. apply bind_ext. intros name w1 _.
  rewrite !bind_assoc. apply bind_ext. intros files w2 _. rewrite bind_ret.
  destruct (files !! name) as [file|]; [|done]. remember (S (length file)) as fuel eqn:Hfuel. clear Hfuel.
  rewrite run_act_with /with_local.
  destruct keep; rewrite !bind_assoc; apply bind_ext; intros line w3 _; rewrite parse_steps_run !bind_assoc.
  - apply bind_ext. intros r w4 _. rewrite run_act_with. apply bind_ext. intros token w5 _.
    rewrite run_act bind_assoc. by apply bind_ext.
  - apply bind_ext. intros r w4 _. rewrite run_act bind_assoc. apply bind_ext. intros [] w5 _.
    by rewrite run_act_with.
Qed.

(** Cutting the reading of the file into its calls does not change what it does alone. *)
Lemma apply_config_steps_run keep filename k w :
  run (apply_config_steps keep filename k) w = (apply_config_file keep filename ;; run k) w.
Proof.
  rewrite /apply_config_steps /apply_config_file parse_file_steps_run bind_assoc. apply bind_ext. intros level w1 _.
  rewrite run_act bind_assoc. apply bind_ext. intros [] w2 _. by rewrite run_act.
Qed.
End alone.

(** ** Properties *)

Definition cfg_steps : prog := apply_config_steps true (Lit (lit "cfg") 0) Done.

Definition debug_line : list Z := lit "log-level: DEBUG" ++ [NL].

(** Two files, with different levels. *)
Definition two_files : world :=
  with_os (with_files {[lit "a" := debug_line; lit "b" := lit "log-level: INFO" ++ [NL]]} (os app)) app.

Definition two_readers : gmap positive prog :=
  {[1%positive := apply_config_steps true (Lit (lit "a") 0) Done;
    2%positive := parse_file_steps true (Lit (lit "b") 0) (λ _, Done)]}.

(** C38: [strtok] keeps one position for all threads.  Two threads that read a correct
    file one after the other set its level; if the second reads while the first is
    between its calls, the first gets a null token and gives it to [strdup].  With two
    files, a thread sets the level of the file that the other one is reading. *)
Theorem strtok_race :
  (∃ w, run (apply_config_steps true (Lit (lit "cfg") 0) cfg_steps) (with_config debug_line) = Ok tt w ∧
     current_level (cfg w) = MDCLOG_DEBUG) ∧
  (∃ c m, rtc istep (with_config debug_line, {[1%positive := cfg_steps; 2%positive := cfg_steps]}) c ∧
     c.2 !! 1%positive = Some (Act m) ∧ m (with_self 1 c.1) = Stop UndefinedBehaviour) ∧
  (∃ c, rtc istep (two_files, two_readers) c ∧ c.2 !! 1%positive = Some Done ∧
     current_level (cfg c.1) = MDCLOG_INFO).
Proof.
  split_and!.
  - eexists. split; vm_compute; reflexivity.
  - set (c0 := (_, _)). set (ts := replicate 5 1%positive ++ replicate 7 2%positive ++ replicate 2 1%positive).
    assert (H : match play ts c0 with
      | Some c =>
          match c.2 !! 1%positive with
          | Some (Act m) => match m (with_self 1 c.1) with Stop UndefinedBehaviour => true | _ => false end
          | _ => false
          end
      | None => false
      end = true) by (vm_compute; reflexivity).
    apply play_check in H as (c & Hr & Hc). exists c.
    destruct (c.2 !! 1%positive) as [[|m]|]; try done. exists m.
    destruct (m (with_self 1 c.1)) as [|[]]; try done.
  - set (ts := replicate 5 1%positive ++ replicate 4 2%positive ++ replicate 6 1%positive).
    assert (H : match play ts (two_files, two_readers) with
      | Some c => is_done (c.2 !! 1%positive) && (current_level (cfg c.1) =? MDCLOG_INFO)
      | None => false
      end = true) by (vm_compute; reflexivity).
    apply play_check in H as (c & Hr & [Hd%is_done_spec Hl%Z.eqb_eq]%andb_true_iff). by exists c.
Qed.
