(* ===== verification/Startup.v ===== *)
(** [mdclog_format_initialize] of src/mdclog.c on top of the public functions: the
    fields it stores in the thread's list and the level it sets.

    [held] is the invariant of code that calls the library while it owns blocks of
    its own: the library is in a good state, the blocks [X] are the caller's, and
    every block that is new since the start belongs to one of them. *)

From S2P Require Import Prelude World Memory Libc Escape MdcIface Mdc JsonFormat Mdclog Within Api LogLevel.

Record held (pn : list Z) (F0 : gset positive) (w0 w : world) (level : Z)
    (io : option (positive * list Z)) (lo : option positive) (es : list ent) (X : gset positive) : Prop := {
  hd_lib : lib pn w io lo es;
  hd_owns : owns_step F0 w0 (lib_foot io lo es ∪ X) w;
  hd_disj : lib_foot io lo es ## X;
  hd_plan : plan w = [];
  hd_level : current_level (cfg w) = level;
  hd_self : self w = self w0;
  hd_others : ∀ t, t ≠ self w0 → tls_values (tls w) !! t = tls_values (tls w0) !! t;
  hd_os : ∃ q msgs, os w = with_strtok q (with_stdio msgs (os w0))
}.

Section held.
Context (pn : list Z) (F0 : gset positive) (w0 : world).
Implicit Types (w : world) (X : gset positive) (es : list ent).

Lemma held_start io lo es level :
  lib pn w0 io lo es → F0 = lib_foot io lo es → plan w0 = [] → current_level (cfg w0) = level →
  held pn F0 w0 w0 level io lo es ∅.
Proof.
  intros Hl -> Hp Hlv. split; try done.
  - rewrite right_id_L. by eapply lib_owns.
  - exists (sys_strtok (os w0)), (sys_stdio (os w0)). by destruct (os w0).
Qed.

Lemma held_end w level io lo es : held pn F0 w0 w level io lo es ∅ → owns_step F0 w0 (lib_foot io lo es) w.
Proof. intros Hh. pose proof (hd_owns _ _ _ _ _ _ _ _ _ Hh) as Ho. by rewrite right_id_L in Ho. Qed.

Lemma held_live w level io lo es X b :
  held pn F0 w0 w level io lo es X → b ∈ X → is_Some (heap w !! b) ∧ (b < next w)%positive ∧ b ∉ lib_foot io lo es.
Proof.
  intros Hh Hb. assert (Hin : b ∈ lib_foot io lo es ∪ X) by by apply elem_of_union_r.
  pose proof (owns_step_live _ _ _ _ _ (hd_owns _ _ _ _ _ _ _ _ _ Hh) Hin) as [x Hx].
  split; [by eauto|]. split; [by eapply owns_step_lt; [apply Hh|]|].
  intros Hl. by apply (proj1 (elem_of_disjoint _ _) (hd_disj _ _ _ _ _ _ _ _ _ Hh) b).
Qed.

(** A call of the library. *)
Lemma held_call w level io lo es X w' io' lo' es' :
  held pn F0 w0 w level io lo es X → lib_call pn w io lo es w' io' lo' es' → plan w' = [] →
  held pn F0 w0 w' level io' lo' es' X ∧ ∀ b, b ∈ X → heap w' !! b = heap w !! b.
Proof.
  intros Hh [Hl Ho [He1 He2 He3 He4] _ _] Hp. pose proof Hh as [Hl0 Ho0 Hd _ Hlv Hs Hot (q & m & Hos)].
  assert (HX : ∀ b, b ∈ X → heap w' !! b = heap w !! b).
  { intros b Hb. destruct (held_live _ _ _ _ _ _ b Hh Hb) as (_ & ? & ?). by apply (step_frame _ _ _ _ Ho). }
  split; [|done]. split; try done; try congruence.
  - eapply owns_step_trans; [exact Ho0|]. apply owns_step_frame; [done|apply (lib_wf _ _ _ _ _ Hl0)|done|].
    intros b Hb. by destruct (held_live _ _ _ _ _ _ b Hh Hb).
  - apply elem_of_disjoint. intros b Hb Hb'. destruct (held_live _ _ _ _ _ _ b Hh Hb') as (_ & ? & ?).
    apply (step_owned _ _ _ _ Ho) in Hb as [[?|?] _]; [done|lia].
  - intros t Ht. rewrite He4; [by apply Hot|congruence].
  - exists q, m. congruence.
Qed.

(** A block of one's own. *)
Lemma held_alloc w level io lo es X x :
  held pn F0 w0 w level io lo es X → held pn F0 w0 (malloc_world x w) level io lo es (X ∪ {[next w]}).
Proof.
  intros [Hl Ho Hd Hp Hlv Hs Hot Hos]. pose proof (lib_wf _ _ _ _ _ Hl) as Hw. split; try done.
  - by apply lib_malloc.
  - rewrite assoc_L union_comm_L. by apply owns_step_malloc.
  - apply disjoint_union_r. split; [done|]. apply elem_of_disjoint. intros b Hb ->%elem_of_singleton.
    by eapply fresh_lib; [|reflexivity|].
  - by rewrite /= Hp.
Qed.

Lemma held_local w level io lo es X x :
  held pn F0 w0 w level io lo es X → held pn F0 w0 (alloc_world x w) level io lo es (X ∪ {[next w]}).
Proof.
  intros Hh. pose proof (hd_plan _ _ _ _ _ _ _ _ _ Hh) as Hp. apply (held_alloc _ _ _ _ _ _ x) in Hh.
  replace (alloc_world x w) with (malloc_world x w); [done|]. destruct w; cbn in *. by rewrite Hp.
Qed.

(** A change of the blocks of one's own. *)
Lemma held_heap w level io lo es X h X' :
  held pn F0 w0 w level io lo es X → X' ⊆ X → (∀ b, b ∉ X → h !! b = heap w !! b) →
  (∀ b, b ∈ X → (b ∈ X') ↔ is_Some (h !! b)) → held pn F0 w0 (with_heap h w) level io lo es X'.
Proof.
  intros Hh Hsub Hout Hin. pose proof Hh as [Hl Ho Hd Hp Hlv Hs Hot Hos].
  assert (Ho' : owns_step F0 w0 (lib_foot io lo es ∪ X') (with_heap h w)).
  { eapply owns_step_bulk; [exact Ho| | |].
    - intros b Hb. apply Hout. intros ?. by apply Hb, elem_of_union_r.
    - by apply union_mono_l.
    - intros b [Hb|Hb]%elem_of_union.
      + split; [|intros _; by apply elem_of_union_l]. intros _. rewrite Hout; [by eapply lib_foot_live|].
        intros Hx. by apply (proj1 (elem_of_disjoint _ _) Hd b).
      + rewrite -Hin // elem_of_union. split; [|by right]. intros [Hb'|]; [|done].
        by destruct (proj1 (elem_of_disjoint _ _) Hd b). }
  split; try done.
  - eapply lib_heap; [exact Hl|apply (step_wf _ _ _ _ Ho')|apply (lib_mutex _ _ _ _ _ Hl)|done..|].
    intros b Hb. apply Hout. intros ?. by apply (proj1 (elem_of_disjoint _ _) Hd b).
  - apply elem_of_disjoint. intros b Hb Hb'. by apply (proj1 (elem_of_disjoint _ _) Hd b); [|apply Hsub].
Qed.

Lemma held_store w level io lo es X b x :
  held pn F0 w0 w level io lo es X → b ∈ X →
  held pn F0 w0 (with_heap (<[b := x]> (heap w)) w) level io lo es X.
Proof.
  intros Hh Hb. eapply held_heap; [done|done| |].
  - intros b' Hb'. apply lookup_insert_ne. by intros ->.
  - intros b' Hb'. split; [|done]. intros _. destruct (held_live _ _ _ _ _ _ b' Hh Hb') as [Hs _].
    destruct (decide (b = b')) as [->|]; [rewrite lookup_insert_eq; by eauto|by rewrite lookup_insert_ne].
Qed.

Lemma held_free w level io lo es X b :
  held pn F0 w0 w level io lo es X → b ∈ X →
  held pn F0 w0 (with_heap (delete b (heap w)) w) level io lo es (X ∖ {[b]}).
Proof.
  intros Hh Hb. eapply held_heap; [done|set_solver| |].
  - intros b' Hb'. apply lookup_delete_ne. by intros ->.
  - intros b' Hb'. rewrite elem_of_difference elem_of_singleton.
    destruct (held_live _ _ _ _ _ _ b' Hh Hb') as [Hs _].
    destruct (decide (b' = b)) as [->|Hne]; [rewrite lookup_delete_eq; split; [by intros []|by intros []]|].
    rewrite lookup_delete_ne; [|done]. by split.
Qed.

(** A thread is created. *)
Lemma held_create w level io lo es X p :
  held pn F0 w0 w level io lo es X →
  held pn F0 (with_os (create p (os w0)) w0) (with_os (create p (os w)) w) level io lo es X.
Proof.
  intros [Hl [? ? ? ?] Hd Hp Hlv Hs Hot (q & m & Hos)]. split; try done; [by apply lib_os|].
  exists q, m. by rewrite /= /create Hos.
Qed.

Lemma held_same_os w level io lo es X :
  held pn F0 w0 w level io lo es X → held pn F0 (with_os (os w0) w0) w level io lo es X.
Proof. by destruct w0. Qed.

(** A change of the configuration. *)
Lemma held_config w level io lo es X level' w' :
  held pn F0 w0 w level io lo es X → config_step w level' w' → held pn F0 w0 w' level' io lo es X.
Proof.
  intros [Hl Ho Hd Hp Hlv Hs Hot (q & m & Hos)] [Hh Hn Hc Ht Hsf _ (q' & m' & Hos') Hp'].
  assert (Ho' : owns_step F0 w0 (lib_foot io lo es ∪ X) w') by by eapply owns_step_next.
  split; try done.
  - eapply lib_heap; [exact Hl|apply (step_wf _ _ _ _ Ho')|..]; rewrite ?Hc ?Hos' ?Hh //. apply (lib_mutex _ _ _ _ _ Hl).
  - by apply Hp'.
  - by rewrite Hc.
  - congruence.
  - intros t Hne. by rewrite Ht Hot.
  - exists q', m'. by rewrite Hos' Hos.
Qed.
End held.

(** ** What is stored *)

(** A field replaces an old one. *)
Definition put_field (k v : list Z) (l : list (list Z * list Z)) : list (list Z * list Z) :=
  al_put k (esc v) (al_remove k l).

(** The fields of the environment: one that is not set gets an empty value. *)
Definition put_env (env : gmap (list Z) (list Z)) (k : list Z) (l : list (list Z * list Z))
  : list (list Z * list Z) :=
  match env !! k with
  | Some v => put_field k v l
  | None => al_put k [] l
  end.

Definition put_fields (env : gmap (list Z) (list Z)) (fields : list (list Z)) (l : list (list Z * list Z)) :=
  foldl (λ l k, put_env env k l) l fields.

Section calls.
Context (pn : list Z) (F0 : gset positive) (w0 : world).
Implicit Types (w : world) (X : gset positive) (es : list ent).

Lemma malloc_plan x w : tail (plan w) = [] → malloc_world x (with_plan [] w) = malloc_world x w.
Proof. destruct w. rewrite /malloc_world /with_plan /=. by intros ->. Qed.

(** A call that gives a fresh block to the caller. *)
Lemma held_call_alloc w level io lo es X w1 io1 lo1 es1 x :
  held pn F0 w0 w level io lo es X → lib_call pn w io lo es w1 io1 lo1 es1 → plan (malloc_world x w1) = [] →
  held pn F0 w0 (malloc_world x w1) level io1 lo1 es1 (X ∪ {[next w1]}) ∧
  ∀ b, b ∈ X → heap (malloc_world x w1) !! b = heap w !! b.
Proof.
  intros Hh Hc Hp. assert (Hc' : lib_call pn w io lo es (with_plan [] w1) io1 lo1 es1).
  { destruct Hc as [[? ? ? ? ? ? ? ?] [? ? ? ?] [? ? ? ?] ? ?]. by split. }
  destruct (held_call _ _ _ _ _ _ _ _ _ _ _ _ _ Hh Hc' eq_refl) as [Hh1 HX1].
  apply (held_alloc _ _ _ _ _ _ _ _ _ x) in Hh1.
  rewrite malloc_plan // in Hh1.
  split; [exact Hh1|]. intros b Hb. destruct (held_live _ _ _ _ _ _ _ _ _ b Hh Hb) as (_ & Hlt & _).
  pose proof (step_next _ _ _ _ (lc_owns _ _ _ _ _ _ _ _ _ Hc)). cbn. rewrite lookup_insert_ne; [|lia]. by apply HX1.
Qed.

(** The last step: the new value. *)
Lemma wp_array_add w level io lo es X k value v l (Q : Z → world → Prop) :
  held pn F0 w0 w level io lo es X → mdcs es = al_remove k l → is_str k → has_special k = false → zlen k ≤ INT_MAX →
  get_cstr (heap w) value = Some v → outside (lib_foot io lo es) value → zlen (esc v) + 1 < 2 ^ 64 →
  init_done (cfg w) ≠ 0 →
  (∀ w' io' l' es', held pn F0 w0 w' level io' (Some l') es' X → mdcs es' = put_field k v l →
     (∀ b, b ∈ X → heap w' !! b = heap w !! b) → init_done (cfg w') ≠ 0 → snd <$> io' = snd <$> io → Q 0 w') →
  wp (mdclog_mdc_add (Lit k 0) value) w Q.
Proof.
  intros Hh Hes Hk Hsp Hkl Hv Hvo Hvl Hd HQ. pose proof (hd_plan _ _ _ _ _ _ _ _ _ Hh) as Hp. apply wp_supply; [apply _|done|].
  eapply wp_mdc_add; [apply (hd_lib _ _ _ _ _ _ _ _ _ Hh)|by apply allocs_ok_nil|by apply get_cstr_lit|apply outside_lit|done..|].
  intros io' l' es' w' Hc Hes' _ Hp'. destruct (held_call _ _ _ _ _ _ _ _ _ _ _ _ _ Hh Hc Hp') as [Hh' HX].
  eapply HQ; [exact Hh'|by rewrite Hes' Hes|exact HX|apply Hc|].
  rewrite (lc_ident _ _ _ _ _ _ _ _ _ Hc) /ident_after. by destruct (Z.eqb_spec (init_done (cfg w)) 0).
Qed.

(** The step before: [mdclog_mdc_get] has led to [w1] and given a copy of the old
    value; the key is removed and the copy freed. *)
Lemma wp_array_drop w level io lo es X k value v w1 io1 lo1 es1 old (Q : unit → world → Prop) :
  held pn F0 w0 w level io lo es X → lib_call pn w io lo es w1 io1 lo1 es1 → tail (plan w1) = [] → is_str k →
  get_cstr (heap w1) value = Some v → outside (lib_foot io1 lo1 es1) value →
  (∀ w' io' l' es', held pn F0 w0 w' level io' (Some l') es' X → mdcs es' = al_remove k (mdcs es1) →
     get_cstr (heap w') value = Some v → outside (lib_foot io' (Some l') es') value →
     (∀ b, b ∈ X → heap w' !! b = heap w !! b) → init_done (cfg w') ≠ 0 → snd <$> io' = ident_after w pn io → Q tt w') →
  wp (mdclog_mdc_remove (Lit k 0) ;; free (Ptr (next w1) 0)) (malloc_world (cstr_block old) w1) Q.
Proof.
  intros Hh Hc1 Hp1 Hk Hv1 Hvo1 HQ. set (b := next w1). set (w2 := malloc_world (cstr_block old) w1) in *.
  destruct (held_call_alloc _ _ _ _ _ _ _ _ _ _ (cstr_block old) Hh Hc1 Hp1) as [Hh2 HX2]. fold w2 b in Hh2, HX2.
  assert (Hbx : b ∈ X ∪ {[b]}) by by apply elem_of_union_r, elem_of_singleton.
  assert (HbX : b ∉ X).
  { intros Hb. destruct (held_live _ _ _ _ _ _ _ _ _ b Hh Hb) as (_ & Hlt & _).
    pose proof (step_next _ _ _ _ (lc_owns _ _ _ _ _ _ _ _ _ Hc1)). unfold b in *. lia. }
  apply wp_bind, wp_supply; [apply _|apply Hh2|].
  eapply wp_mdc_remove; [apply Hh2|apply allocs_ok_nil, Hh2|by apply get_cstr_lit|apply outside_lit|].
  intros io3 l3 es3 w3 Hc3 Hes3 _ Hp3. destruct (held_call _ _ _ _ _ _ _ _ _ _ _ _ _ Hh2 Hc3 Hp3) as [Hh3 HX3].
  assert (Hb3 : heap w3 !! b = Some (cstr_block old)) by (rewrite HX3 //; apply lookup_insert_eq).
  eapply wp_free; [exact Hb3|]. apply (held_free _ _ _ _ _ _ _ _ _ b) in Hh3; [|done].
  replace ((X ∪ {[b]}) ∖ {[b]}) with X in Hh3 by set_solver.
  assert (Hid : snd <$> io3 = ident_after w pn io).
  { rewrite (lc_ident _ _ _ _ _ _ _ _ _ Hc3) /ident_after. change (cfg w2) with (cfg w1).
    destruct (Z.eqb_spec (init_done (cfg w1)) 0); [by destruct (lc_init _ _ _ _ _ _ _ _ _ Hc1)|].
    apply (lc_ident _ _ _ _ _ _ _ _ _ Hc1). }
  assert (Hvb : outside {[b]} value).
  { intros b' Hb' ->%elem_of_singleton. destruct value as [|b'' o|]; try done. cbn in Hb'. injection Hb' as ->.
    rewrite /get_cstr /cells_at (lib_wf _ _ _ _ _ (lc_lib _ _ _ _ _ _ _ _ _ Hc1)) // in Hv1. }
  assert (Hv2 : get_cstr (heap w2) value = Some v).
  { apply (get_cstr_agree (heap w1) _ {[b]}); [|done|done].
    intros c Hc _. cbn. rewrite lookup_insert_ne //. intros Heq. apply Hc, elem_of_singleton. unfold b. congruence. }
  destruct (lib_call_str _ _ _ _ _ _ _ _ _ _ _ (hd_lib _ _ _ _ _ _ _ _ _ Hh2) Hc3 Hv2 Hvo1) as [Hv3 Hvo3].
  eapply HQ; [exact Hh3|exact Hes3| |exact Hvo3| |apply (lc_init _ _ _ _ _ _ _ _ _ Hc3)|exact Hid].
  - apply (get_cstr_agree (heap w3) _ {[b]}); [|done|done].
    intros c Hc _. cbn. rewrite lookup_delete_ne //. intros Heq. apply Hc, elem_of_singleton. congruence.
  - intros c Hc. cbn. rewrite lookup_delete_ne; [|congruence]. rewrite HX3; [by apply HX2|by apply elem_of_union_l].
Qed.

Lemma wp_update_array w level io lo es X k value v (Q : Z → world → Prop) :
  held pn F0 w0 w level io lo es X → is_str k → has_special k = false → zlen k ≤ INT_MAX →
  get_cstr (heap w) value = Some v → outside (lib_foot io lo es) value → zlen (esc v) + 1 < 2 ^ 64 →
  (∀ w' io' l es', held pn F0 w0 w' level io' (Some l) es' X → mdcs es' = put_field k v (mdcs es) →
     (∀ b, b ∈ X → heap w' !! b = heap w !! b) → init_done (cfg w') ≠ 0 → snd <$> io' = ident_after w pn io → Q 0 w') →
  wp (update_mdclog_array (Lit k 0) value) w Q.
Proof.
  intros Hh Hk Hsp Hkl Hv Hvo Hvl HQ. pose proof (hd_plan _ _ _ _ _ _ _ _ _ Hh) as Hp.
  pose proof (hd_lib _ _ _ _ _ _ _ _ _ Hh) as Hlib. rewrite /update_mdclog_array.
  apply wp_bind, wp_supply; [apply _|done|].
  eapply wp_mdc_get; [exact Hlib|by apply allocs_ok_nil|by apply get_cstr_lit|apply outside_lit|].
  intros io1 l1 w1 Hc1 _. destruct (lib_call_str _ _ _ _ _ _ _ _ _ _ _ Hlib Hc1 Hv Hvo) as [Hv1 Hvo1].
  pose proof (lc_init _ _ _ _ _ _ _ _ _ Hc1) as Hd1.
  destruct (al_get k (mdcs es)) as [old|] eqn:Hget; cbn [is_null negb].
  - intros _ Hp1. apply wp_bind. rewrite /when. eapply wp_array_drop; [exact Hh|exact Hc1|exact Hp1|exact Hk|exact Hv1|exact Hvo1|].
    intros w2 io2 l2 es2 Hh2 Hes2 Hv2 Hvo2 HX2 Hd2 Hid2. eapply wp_array_add; [exact Hh2|exact Hes2|done..|].
    intros w3 io3 l3 es3 Hh3 Hes3 HX3 Hd3 Hid3.
    eapply HQ; [exact Hh3|exact Hes3|intros b Hb; by rewrite HX3 // HX2|exact Hd3|by rewrite Hid3].
  - intros Hp1. cbn [when]. wp_pure. destruct (held_call _ _ _ _ _ _ _ _ _ _ _ _ _ Hh Hc1 Hp1) as [Hh1 HX1].
    eapply wp_array_add; [exact Hh1| |done..|].
    { symmetry. apply al_remove_none. rewrite find_ent_get in Hget. by destruct (find_ent k es). }
    intros w3 io3 l3 es3 Hh3 Hes3 HX3 Hd3 Hid3.
    eapply HQ; [exact Hh3|exact Hes3|intros b Hb; by rewrite HX3 // HX1|exact Hd3|].
    rewrite Hid3. apply (lc_ident _ _ _ _ _ _ _ _ _ Hc1).
Qed.

(** Names and values the library can take. *)
Definition field_ok (k : list Z) : Prop := is_str k ∧ has_special k = false ∧ zlen k ≤ INT_MAX.
Definition value_ok (v : list Z) : Prop := is_str v ∧ zlen (esc v) + 1 < 2 ^ 64.
Definition env_ok (env : gmap (list Z) (list Z)) : Prop := ∀ k v, env !! k = Some v → value_ok v.

Lemma ident_after_call w io lo es w' io' lo' es' :
  lib_call pn w io lo es w' io' lo' es' → ident_after w' pn io' = ident_after w pn io.
Proof.
  intros [_ _ _ Hi Hd]. rewrite {1}/ident_after -Hi. by destruct (Z.eqb_spec (init_done (cfg w')) 0).
Qed.

Lemma held_env w level io lo es X : held pn F0 w0 w level io lo es X → sys_env (os w) = sys_env (os w0).
Proof. intros [_ _ _ _ _ _ _ (q & m & ->)]. done. Qed.

Lemma wp_read_env f ov w (Q : ptr → world → Prop) :
  is_str f → sys_env (os w) !! f = ov → env_ok (sys_env (os w)) → plan w = [] →
  match ov with Some v => Q (Ptr (next w) 0) (malloc_world (cstr_block v) w) | None => Q Null w end →
  wp (read_env_param (Lit f 0)) w Q.
Proof.
  intros Hf Hov Hok Hp HQ. rewrite /read_env_param /getenv. cbn [is_null].
  apply wp_bind. step wp_read_cstr; [by apply get_cstr_lit|]. wp_pure. apply wp_ret. rewrite Hov.
  destruct ov as [v|]; cbn [is_null]; [|by apply wp_ret].
  eapply (wp_strdup_ok 0); [apply get_cstr_lit; by apply Hok in Hov as []|by apply allocs_ok_nil|done].
Qed.

Lemma wp_format_fields fields w level io lo es X (Q : Z → world → Prop) :
  held pn F0 w0 w level io lo es X → Forall field_ok fields → env_ok (sys_env (os w0)) →
  (∀ w' io' lo' es', held pn F0 w0 w' level io' lo' es' X →
     mdcs es' = put_fields (sys_env (os w0)) fields (mdcs es) →
     (∀ b, b ∈ X → heap w' !! b = heap w !! b) → ident_after w' pn io' = ident_after w pn io → Q 0 w') →
  wp (format_fields 0 fields) w Q.
Proof.
  intros Hh Hf Henv. revert w io lo es Hh. induction Hf as [|f fields (Hfs & Hfsp & Hfl) _ IH]; intros w io lo es Hh HQ.
  { cbn [format_fields]. apply wp_ret. by eapply HQ. }
  cbn [format_fields Z.eqb]. pose proof (hd_plan _ _ _ _ _ _ _ _ _ Hh) as Hp.
  pose proof (held_env _ _ _ _ _ _ Hh) as He. assert (Hnext : ∀ w' io' lo' es', held pn F0 w0 w' level io' lo' es' X →
    mdcs es' = put_env (sys_env (os w0)) f (mdcs es) → (∀ b, b ∈ X → heap w' !! b = heap w !! b) →
    ident_after w' pn io' = ident_after w pn io → wp (format_fields 0 fields) w' Q).
  { intros w' io' lo' es' Hh' Hes' HX' Hid'. eapply IH; [exact Hh'|]. intros w2 io2 lo2 es2 Hh2 Hes2 HX2 Hid2.
    eapply HQ; [exact Hh2|by rewrite Hes2 Hes'|intros b Hb; by rewrite HX2 // HX'|congruence]. }
  step wp_read_env; [done|reflexivity|by rewrite He|done|]. rewrite /put_env -He in Hnext.
  destruct (sys_env (os w) !! f) as [v|] eqn:Hv; cbn [is_null].
  - rewrite He in Hv. destruct (Henv _ _ Hv) as [Hvs Hvl]. set (b := next w). set (w1 := malloc_world _ w).
    apply (held_alloc _ _ _ _ _ _ _ _ _ (cstr_block v)) in Hh as Hh1. fold w1 b in Hh1.
    assert (Hbx : b ∈ X ∪ {[b]}) by by apply elem_of_union_r, elem_of_singleton.
    destruct (held_live _ _ _ _ _ _ _ _ _ b Hh1 Hbx) as (_ & _ & Hbl).
    assert (HbX : b ∉ X).
    { intros Hb. destruct (held_live _ _ _ _ _ _ _ _ _ b Hh Hb) as (_ & Hlt & _). unfold b in *. lia. }
    apply wp_bind. step wp_update_array; [exact Hh1|done..|by apply get_cstr_block; [apply lookup_insert_eq|]| |done|].
    { intros b' [= <-]. exact Hbl. }
    intros w2 io2 l2 es2 Hh2 Hes2 HX2 Hd2 Hid2.
    assert (Hb2 : heap w2 !! b = Some (cstr_block v)) by (rewrite HX2 //; apply lookup_insert_eq).
    step wp_free; [exact Hb2|]. apply wp_ret. apply (held_free _ _ _ _ _ _ _ _ _ b) in Hh2; [|done].
    replace ((X ∪ {[b]}) ∖ {[b]}) with X in Hh2 by set_solver.
    eapply Hnext; [exact Hh2|done| |].
    + intros c Hc. cbn. rewrite lookup_delete_ne; [|congruence]. rewrite HX2; [|by apply elem_of_union_l].
      cbn. rewrite lookup_insert_ne //. unfold b in *. congruence.
    + change (ident_after w1 pn io) with (ident_after w pn io) in Hid2. rewrite -Hid2 /ident_after /=. by destruct (Z.eqb_spec (init_done (cfg w2)) 0).
  - apply wp_bind, wp_bind, wp_supply; [apply _|done|].
    eapply wp_mdc_add; [apply (hd_lib _ _ _ _ _ _ _ _ _ Hh)|by apply allocs_ok_nil|by apply get_cstr_lit|apply outside_lit|done
      |apply (get_cstr_lit _ []); constructor|apply outside_lit|done|done|].
    intros io2 l2 es2 w2 Hc2 Hes2 _ Hp2. apply wp_ret.
    destruct (held_call _ _ _ _ _ _ _ _ _ _ _ _ _ Hh Hc2 Hp2) as [Hh2 HX2].
    eapply Hnext; [exact Hh2|done|done|by eapply ident_after_call].
Qed.

(** Writing to an array of one's own. *)
Lemma held_array_zero w level io lo es X b cs (Q : unit → world → Prop) :
  held pn F0 w0 w level io lo es X → b ∈ X → heap w !! b = Some (BChars cs) → length cs = Z.to_nat STR_BUFF →
  (∀ cs', length cs' = Z.to_nat STR_BUFF → held pn F0 w0 (on b cs' w) level io lo es X → Q tt (on b cs' w)) →
  wp (store_chars (Ptr b 0) (replicate (Z.to_nat STR_BUFF) NUL)) w Q.
Proof.
  intros Hh Hb Hcs Hl HQ. eapply wp_store_chars; [exact Hcs|done| |].
  - unfold zlen. rewrite length_replicate Hl. done.
  - intros cs' _ [Hl' _]. apply HQ; [congruence|]. by apply held_store.
Qed.

Lemma vformat_d h n : vformat h (lit "%d") [AInt n] = Some (dec_signed n).
Proof. rewrite /vformat /=. by rewrite app_nil_r. Qed.

Lemma held_array_print w level io lo es X b cs n (Q : Z → world → Prop) :
  held pn F0 w0 w level io lo es X → b ∈ X → heap w !! b = Some (BChars cs) → length cs = Z.to_nat STR_BUFF →
  zlen (dec_signed n) < STR_BUFF →
  (∀ cs' r, held pn F0 w0 (on b cs' w) level io lo es X → get_cstr (heap (on b cs' w)) (Ptr b 0) = Some (dec_signed n) →
     Q r (on b cs' w)) →
  wp (snprintf (Ptr b 0) STR_BUFF (Lit (lit "%d") 0) [AInt n]) w Q.
Proof.
  intros Hh Hb Hcs Hl Hn HQ. unfold STR_BUFF in *. pose proof (zlen_nonneg (dec_signed n)).
  eapply wp_vsnprintf; [exact Hcs|done|lia| |by apply get_cstr_lit; repeat constructor|apply vformat_d|unfold INT_MAX; lia|].
  - unfold zlen. rewrite Hl. lia.
  - intros cs' _ Ht. specialize (Ht ltac:(lia)). rewrite take_ge in Ht; [|unfold zlen in *; lia].
    apply HQ; [by apply held_store|]. eapply get_cstr_holds; [apply lookup_insert_eq|exact Ht|apply dec_signed_is_str].
Qed.

Lemma held_files w level io lo es X :
  held pn F0 w0 w level io lo es X →
  sys_files (os w) = sys_files (os w0) ∧ sys_pid (os w) = sys_pid (os w0) ∧ sys_creates (os w) = sys_creates (os w0).
Proof. intros [_ _ _ _ _ _ _ (q & m & ->)]. done. Qed.

(** The file the environment names. *)
Definition config_file (env files : gmap (list Z) (list Z)) : option (option (list Z)) :=
  (λ name, files !! name) <$> env !! LOG_FILE_CONFIG_MAP.

(** The level after the initialisation. *)
Definition config_level (env files : gmap (list Z) (list Z)) (level : Z) : Z :=
  from_option file_level level (config_file env files).

(** What becomes of the request to watch the file: the answer, the copy of the name
    that the new thread is given, and the threads. *)
Definition watch_outcome (m : Z) (s : sys) (h : gmap positive block) (r : Z)
    (given : gset positive) (s' : sys) : Prop :=
  match sys_env s !! LOG_FILE_CONFIG_MAP with
  | Some name =>
      if m =? 0 then r = 0 ∧ given = ∅ ∧ s' = s
      else match sys_files s !! name with
           | None => r = -1 ∧ given = ∅ ∧ s' = s
           | Some _ => ∃ b, given = {[b]} ∧ h !! b = Some (cstr_block name) ∧
               r = default 0 (head (sys_creates s)) ∧ s' = create (Ptr b 0) s
           end
  | None => r = 0 ∧ given = ∅ ∧ s' = s
  end.

(** Asking for the monitor. *)
Lemma wp_enable w level io lo es X b name (Q : Z → world → Prop) :
  held pn F0 w0 w level io lo es X → b ∈ X → heap w !! b = Some (cstr_block name) → is_str name →
  (sys_files (os w0) !! name = None → Q (-1) w) →
  (is_Some (sys_files (os w0) !! name) → let p := Ptr (next w) 0 in
     let w' := with_os (create p (os w)) (malloc_world (cstr_block name) w) in
     held pn F0 (with_os (create p (os w0)) w0) w' level io lo es (X ∪ {[next w]}) →
     Q (default 0 (head (sys_creates (os w0)))) w') →
  wp (enable_log_change_notify (Ptr b 0)) w Q.
Proof.
  intros Hh Hb Hbn Hns H1 H2. destruct (held_files _ _ _ _ _ _ Hh) as (Hf & _ & Hc). rewrite /enable_log_change_notify.
  assert (Hs : get_cstr (heap w) (Ptr b 0) = Some name) by by apply get_cstr_block.
  step wp_read_cstr; [exact Hs|]. wp_pure. rewrite Hf.
  destruct (sys_files (os w0) !! name) as [file|]; [|by apply wp_ret, H1]. rewrite /register_log_change_notify.
  step (wp_strdup_ok 0); [exact Hs|by apply allocs_ok_nil, (hd_plan _ _ _ _ _ _ _ _ _ Hh)|]. intros _.
  rewrite /pthread_create. do 2 wp_pure. apply wp_ret. change (os (malloc_world _ w)) with (os w). rewrite Hc. apply H2; [by eauto|]. apply (held_create _ _ _ (malloc_world (cstr_block name) w)). by apply held_alloc.
Qed.

(** The end of the initialisation, with the name of the file in [b1]: asking for the
    monitor, and freeing the name. *)
Lemma wp_watch_rest w level io lo es X b1 name m (Q : Z → world → Prop) :
  held pn F0 w0 w level io lo es (X ∪ {[b1]}) → b1 ∉ X → heap w !! b1 = Some (cstr_block name) → is_str name →
  sys_env (os w0) !! LOG_FILE_CONFIG_MAP = Some name → init_done (cfg w) ≠ 0 →
  (∀ w' r given s', held pn F0 (with_os s' w0) w' level io lo es (X ∪ given) → (∀ b, b ∈ X → b ∉ given) →
     init_done (cfg w') ≠ 0 → watch_outcome m (os w0) (heap w') r given s' → Q r w') →
  wp (ret ← (if negb (m =? 0) && (0 =? 0) && negb (is_null (Ptr b1 0))
             then enable_log_change_notify (Ptr b1 0) else mret 0);
      when (negb (is_null (Ptr b1 0))) (free (Ptr b1 0)) ;;
      mret ret) w Q.
Proof.
  intros Hh HbX Hb1 Hns Hname Hd HQ. rewrite /watch_outcome Hname in HQ.
  assert (Hb1x : b1 ∈ X ∪ {[b1]}) by by apply elem_of_union_r, elem_of_singleton.
  assert (Hend : ∀ w4 r given s', held pn F0 (with_os s' w0) w4 level io lo es (X ∪ {[b1]} ∪ given) →
    heap w4 !! b1 = Some (cstr_block name) → (∀ b, b ∈ X ∪ {[b1]} → b ∉ given) → init_done (cfg w4) ≠ 0 →
    (if m =? 0 then r = 0 ∧ given = ∅ ∧ s' = os w0
     else match sys_files (os w0) !! name with
          | None => r = -1 ∧ given = ∅ ∧ s' = os w0
          | Some _ => ∃ b2, given = {[b2]} ∧ heap w4 !! b2 = Some (cstr_block name) ∧
              r = default 0 (head (sys_creates (os w0))) ∧ s' = create (Ptr b2 0) (os w0)
          end) →
    wp (free (Ptr b1 0) ;; mret r) w4 Q).
  { intros w4 r given s' Hh4 Hb4 Hbg Hd4 Hw. step wp_free; [exact Hb4|]. apply wp_ret.
    apply (held_free _ _ _ _ _ _ _ _ _ b1) in Hh4; [|by apply elem_of_union_l].
    replace ((X ∪ {[b1]} ∪ given) ∖ {[b1]}) with (X ∪ given) in Hh4 by (pose proof (Hbg b1 Hb1x); set_solver).
    eapply HQ; [exact Hh4|intros b Hb; by apply Hbg, elem_of_union_l|exact Hd4|]. destruct (m =? 0); [exact Hw|].
    destruct (sys_files (os w0) !! name); [|exact Hw]. destruct Hw as (b2 & -> & Hb2 & -> & ->). exists b2. split_and!; [done| |done..].
    cbn. rewrite lookup_delete_ne //. intros ->. by apply (Hbg b2 Hb1x), elem_of_singleton. }
  cbn [is_null negb andb when Z.eqb]. destruct (m =? 0) eqn:Hm; cbn [negb andb].
  - wp_pure. eapply (Hend _ _ ∅); [rewrite right_id_L; by apply held_same_os|exact Hb1|intros; apply not_elem_of_empty|exact Hd|done].
  - step wp_enable; [exact Hh|exact Hb1x|exact Hb1|exact Hns| |].
    + intros Hnone. eapply (Hend _ _ ∅);
        [rewrite right_id_L; by apply held_same_os|exact Hb1|intros; apply not_elem_of_empty|exact Hd|by rewrite Hnone].
    + intros [f Hsome] p w4 Hh4. assert (Hlt : ∀ c, c ∈ X ∪ {[b1]} → (c < next w)%positive).
      { intros c Hc. by destruct (held_live _ _ _ _ _ _ _ _ _ c Hh Hc) as (_ & ? & _). }
      pose proof (Hlt b1 Hb1x).
      eapply Hend; [exact Hh4|rewrite /= lookup_insert_ne //; lia
        |by intros b Hb%Hlt ->%elem_of_singleton; lia|exact Hd|].
      rewrite Hsome. exists (next w). split_and!; [done|apply lookup_insert_eq|done..].
Qed.

(** Reading the name of the file, storing the process number, setting the level, and
    asking for the monitor. *)
Lemma wp_format_rest w level io lo es X b out m (Q : Z → world → Prop) :
  held pn F0 w0 w level io lo es X → b ∈ X → get_cstr (heap w) (Ptr b 0) = Some out → value_ok out →
  env_ok (sys_env (os w0)) → (∀ f, config_file (sys_env (os w0)) (sys_files (os w0)) = Some f → good_file f) →
  (∀ w' io' l es' r given s', held pn F0 (with_os s' w0) w' (config_level (sys_env (os w0)) (sys_files (os w0)) level) io' (Some l) es' (X ∪ given) →
     mdcs es' = put_field (lit "PID") out (mdcs es) → b ∉ given → init_done (cfg w') ≠ 0 →
     snd <$> io' = ident_after w pn io → watch_outcome m (os w0) (heap w') r given s' → Q r w') →
  wp (logFile_Name ← read_env_param (Lit LOG_FILE_CONFIG_MAP 0);
      ret ← update_mdclog_array (Lit (lit "PID") 0) (Ptr b 0);
      when (negb (is_null logFile_Name)) (apply_config_file true logFile_Name) ;;
      ret ← (if negb (m =? 0) && (ret =? 0) && negb (is_null logFile_Name)
             then enable_log_change_notify logFile_Name else mret ret);
      when (negb (is_null logFile_Name)) (free logFile_Name) ;;
      mret ret) w Q.
Proof.
  intros Hh Hb Hout [Hos Hol] Henv Hcf HQ. rewrite /config_level /config_file /watch_outcome in HQ Hcf.
  pose proof (held_env _ _ _ _ _ _ Hh) as He. pose proof (hd_plan _ _ _ _ _ _ _ _ _ Hh) as Hp.
  destruct (held_live _ _ _ _ _ _ _ _ _ b Hh Hb) as ([bx Hbx] & Hblt & Hbl).
  assert (Hbo : ∀ w1, heap w1 !! b = heap w !! b → get_cstr (heap w1) (Ptr b 0) = Some out).
  { intros w1 Hw1. rewrite /get_cstr /cells_at Hw1 in Hout |- *. exact Hout. }
  assert (Hpid : is_str (lit "PID") ∧ has_special (lit "PID") = false ∧ zlen (lit "PID") ≤ INT_MAX) by by split_and!; [repeat constructor|..].
  destruct Hpid as (Hps & Hpsp & Hpl).
  step wp_read_env; [by repeat constructor|reflexivity|by rewrite He|done|].
  rewrite He. destruct (sys_env (os w0) !! LOG_FILE_CONFIG_MAP) as [name|] eqn:Hname; cbn [fmap option_fmap option_map from_option] in *.
  - destruct (Henv _ _ Hname) as [Hns _]. set (b1 := next w). set (w1 := malloc_world _ w).
    apply (held_alloc _ _ _ _ _ _ _ _ _ (cstr_block name)) in Hh as Hh1. fold w1 b1 in Hh1.
    assert (Hb1x : b1 ∈ X ∪ {[b1]}) by by apply elem_of_union_r, elem_of_singleton.
    assert (Hb1X : b1 ∉ X).
    { intros Hin. destruct (held_live _ _ _ _ _ _ _ _ _ b1 Hh Hin) as (_ & Hlt & _). unfold b1 in *. lia. }
    assert (Hbw1 : heap w1 !! b = heap w !! b) by (cbn; rewrite lookup_insert_ne //; unfold b1 in *; congruence).
    step wp_update_array; [exact Hh1|done..|by apply Hbo| |done|].
    { intros b' [= <-]. exact Hbl. }
    intros w2 io2 l2 es2 Hh2 Hes2 HX2 Hd2 Hid2. cbn [is_null negb when].
    change (ident_after w1 pn io) with (ident_after w pn io) in Hid2.
    assert (Hb1w2 : heap w2 !! b1 = Some (cstr_block name)) by (rewrite HX2 //; apply lookup_insert_eq).
    pose proof (held_files _ _ _ _ _ _ Hh2) as [Hfiles _].
    step wp_apply_config_file; [by apply get_cstr_block|apply (lib_wf _ _ _ _ _ (hd_lib _ _ _ _ _ _ _ _ _ Hh2))
      |by rewrite (hd_plan _ _ _ _ _ _ _ _ _ Hh2)|rewrite Hfiles; by apply Hcf|].
    rewrite Hfiles. intros w3 Hst. apply (held_config _ _ _ _ _ _ _ _ _ _ _ Hh2) in Hst as Hh3.
    assert (Hb1w3 : heap w3 !! b1 = Some (cstr_block name)) by by rewrite (cs_heap _ _ _ Hst).
    assert (Hd3 : init_done (cfg w3) ≠ 0) by by rewrite (cs_cfg _ _ _ Hst).
    eapply (wp_watch_rest w3); [exact Hh3|exact Hb1X|exact Hb1w3|exact Hns|exact Hname|exact Hd3|].
    intros w4 r given s' Hh4 Hg Hd4 Hw. eapply HQ; [exact Hh4|exact Hes2|by apply Hg|exact Hd4|exact Hid2|].
    by rewrite /watch_outcome Hname in Hw.
  - step wp_update_array; [exact Hh|done..|exact Hout| |done|].
    { intros b' [= <-]. exact Hbl. }
    intros w2 io2 l2 es2 Hh2 Hes2 HX2 Hd2 Hid2. cbn [is_null negb when andb Z.eqb]. rewrite andb_false_r. do 3 wp_pure. apply wp_ret.
    eapply (HQ _ _ _ _ _ ∅ (os w0)); [rewrite right_id_L; by apply held_same_os|exact Hes2|apply not_elem_of_empty|done..].
Qed.
End calls.

(** The fields and the process number. *)
Definition put_startup (env : gmap (list Z) (list Z)) (pid : Z) (l : list (list Z * list Z))
  : list (list Z * list Z) :=
  put_field (lit "PID") (dec_signed pid) (put_fields env LOGFIELDS l).

(** What the initialisation needs of the system: values and a file it can use, and a
    process number that fits its buffer. *)
Record startup_ok (s : sys) : Prop := {
  so_env : env_ok (sys_env s);
  so_file : ∀ f, config_file (sys_env s) (sys_files s) = Some f → good_file f;
  so_pid : zlen (dec_signed (sys_pid s)) < STR_BUFF;
  so_pid_ok : value_ok (dec_signed (sys_pid s))
}.

Lemma logfields_ok : Forall field_ok LOGFIELDS.
Proof. by repeat constructor. Qed.

Lemma wp_format_initialize pn w io lo es m (Q : Z → world → Prop) :
  lib pn w io lo es → plan w = [] → log_format_init_done (cfg w) = 0 → startup_ok (os w) →
  (∀ w' io' l es' r given s', 
     held pn (lib_foot io lo es) (with_os s' w) w' (config_level (sys_env (os w)) (sys_files (os w)) (current_level (cfg w))) io' (Some l) es' given →
     mdcs es' = put_startup (sys_env (os w)) (sys_pid (os w)) (mdcs es) → init_done (cfg w') ≠ 0 → snd <$> io' = ident_after w pn io →
     watch_outcome m (os w) (heap w') r given s' → Q r w') →
  wp (mdclog_format_initialize true m) w Q.
Proof.
  intros Hlib Hp Hdone [Henv Hcf Hpid Hpv] HQ. set (F0 := lib_foot io lo es) in *.
  rewrite /mdclog_format_initialize. wp_pure. rewrite Hdone. cbn [Z.eqb]. apply wp_with_local.
  set (b := next w). pose proof (held_start pn F0 w io lo es _ Hlib eq_refl Hp eq_refl) as Hh0.
  apply (held_local _ _ _ _ _ _ _ _ _ (BChars (replicate (Z.to_nat STR_BUFF) None))) in Hh0. fold b in Hh0.
  assert (Hb : b ∈ (∅ ∪ {[b]} : gset positive)) by by apply elem_of_union_r, elem_of_singleton.
  step held_array_zero; [exact Hh0|exact Hb|apply lookup_insert_eq|apply length_replicate|]. intros cs1 Hl1 Hh1.
  step wp_format_fields; [exact Hh1|apply logfields_ok|exact Henv|]. intros w2 io2 lo2 es2 Hh2 Hes2 HX2 Hid2. cbn [Z.eqb].
  step held_array_zero; [exact Hh2|exact Hb|rewrite HX2 //; apply on_lookup|done|]. intros cs3 Hl3 Hh3.
  wp_pure. pose proof (held_files _ _ _ _ _ _ _ _ _ Hh2) as (_ & Hpid2 & _).
  change (sys_pid (os (on b cs3 w2))) with (sys_pid (os w2)). rewrite Hpid2.
  step held_array_print; [exact Hh3|exact Hb|apply on_lookup|done|done|]. intros cs4 r Hh4 Hout4.
  eapply wp_format_rest; [exact Hh4|exact Hb|exact Hout4|done|done|done|].
  intros w5 io5 l5 es5 r5 given s5 Hh5 Hes5 Hbg Hd5 Hid5 Hw5. rewrite left_id_L in Hh5.
  assert (Hb5 : b ∈ {[b]} ∪ given) by by apply elem_of_union_l, elem_of_singleton.
  destruct (held_live _ _ _ _ _ _ _ _ _ b Hh5 Hb5) as (Hlive & _). split; [done|].
  apply (held_free _ _ _ _ _ _ _ _ _ b) in Hh5; [|done]. replace (({[b]} ∪ given) ∖ {[b]}) with given in Hh5 by set_solver.
  change (ident_after (on b cs4 (on b cs3 w2)) pn io2) with (ident_after w2 pn io2) in Hid5. rewrite Hid2 in Hid5.
  eapply HQ; [exact Hh5|by rewrite Hes5 Hes2|exact Hd5|exact Hid5|].
  revert Hw5. rewrite /watch_outcome. repeat case_match; try done. intros (b2 & -> & Hb2 & -> & ->). exists b2. split_and!; [done| |done..].
  cbn. rewrite lookup_delete_ne //. intros <-. by apply Hbg, elem_of_singleton.
Qed.

(** Nothing happens when a monitor is watching. *)
Lemma format_initialize_done m w :
  log_format_init_done (cfg w) ≠ 0 → mdclog_format_initialize true m w = Ok 0 w.
Proof.
  intros Hd. rewrite /mdclog_format_initialize /mbind /M_bind /gets. by destruct (Z.eqb_spec (log_format_init_done (cfg w)) 0).
Qed.

(** ** Properties *)

(** C15: [mdclog_format_initialize] puts the five fields of the environment (empty ones
    where a variable is not set) and the process number into the thread's list, sets
    the level the configuration file names, and frees everything it allocated on the
    way: the blocks that are new belong to the library.  If it is to watch the file it
    returns -1 when there is none, and otherwise what [pthread_create] returns, be it a
    positive error number; the copy of the name is then the new thread's, or nobody's
    if there is no new thread. *)
Theorem format_initialize_fills pn w io lo es m :
  lib pn w io lo es → plan w = [] → log_format_init_done (cfg w) = 0 → startup_ok (os w) →
  ∃ w' io' l es' r given s', mdclog_format_initialize true m w = Ok r w' ∧ lib pn w' io' (Some l) es' ∧
    mdcs es' = put_startup (sys_env (os w)) (sys_pid (os w)) (mdcs es) ∧
    current_level (cfg w') = config_level (sys_env (os w)) (sys_files (os w)) (current_level (cfg w)) ∧
    owns_step (lib_foot io lo es) w (lib_foot io' (Some l) es' ∪ given) w' ∧
    watch_outcome m (os w) (heap w') r given s' ∧ sys_threads (os w') = sys_threads s'.
Proof.
  intros Hlib Hp Hdone Hok.
  assert (wp (mdclog_format_initialize true m) w (λ r w', ∃ io' l es' given s',
    held pn (lib_foot io lo es) (with_os s' w) w' (config_level (sys_env (os w)) (sys_files (os w)) (current_level (cfg w))) io' (Some l) es' given ∧
    mdcs es' = put_startup (sys_env (os w)) (sys_pid (os w)) (mdcs es) ∧ watch_outcome m (os w) (heap w') r given s'))
    as (r & w' & Hrun & io' & l & es' & given & s' & Hh & Hes & Hw)%wp_run.
  { eapply wp_format_initialize; [done..|]. eauto 10. }
  exists w', io', l, es', r, given, s'. destruct Hh as [Hl [? ? ? ?] _ _ Hlv _ _ (q & msgs & Hos)].
  split_and!; [done..|by rewrite Hos].
Qed.

(** The process with a host name and a configuration file in its environment; it cannot
    create threads. *)
Definition started : world :=
  with_os (Sys (Lit (lit "app") 0)
    {[lit "HOST_NAME" := lit "node"; LOG_FILE_CONFIG_MAP := lit "cfg"]} {[lit "cfg" := info_file]}
    (0, 0) 42 true [] [] Null [] [11] []) app.

Lemma started_ok : startup_ok (os started).
Proof.
  split.
  - intros k v Hk. cbn [started os with_os sys_env] in Hk. apply lookup_insert_Some in Hk as [[_ <-]|[_ [_ <-]%lookup_singleton_Some]];
      (split; [by repeat constructor|by vm_compute]).
  - intros f Hf. vm_compute in Hf. injection Hf as <-. split; [by repeat constructor|by vm_compute].
  - by vm_compute.
  - split; [by repeat constructor|by vm_compute].
Qed.

Lemma format_initialize_fills_witness : ∃ w' io' lo' es' b,
  mdclog_format_initialize true 1 started = Ok 11 w' ∧ lib (lit "app") w' io' lo' es' ∧
  al_get (lit "HOST_NAME") (mdcs es') = Some (lit "node") ∧ al_get (lit "PID") (mdcs es') = Some (lit "42") ∧
  current_level (cfg w') = MDCLOG_INFO ∧
  heap w' !! b = Some (cstr_block (lit "cfg")) ∧ sys_threads (os w') = [].
Proof.
  destruct (format_initialize_fills (lit "app") started None None [] 1)
    as (w' & io' & l & es' & r & given & s' & Hrun & Hl & Hm & Hlv & _ & Hw & Ht).
  - by apply lib_os; [apply app_lib|..].
  - reflexivity.
  - reflexivity.
  - apply started_ok.
  - assert (He : sys_env (os started) !! LOG_FILE_CONFIG_MAP = Some (lit "cfg")) by (vm_compute; reflexivity).
    assert (Hf : sys_files (os started) !! lit "cfg" = Some info_file) by (vm_compute; reflexivity).
    rewrite /watch_outcome He Hf in Hw. destruct Hw as (b & _ & Hb & Hr & Hs).
    exists w', io', (Some l), es', b. cbn [started os with_os sys_creates head default from_option id] in Hr. subst r. rewrite Hm Hlv Ht Hs. split; [exact Hrun|]. split; [exact Hl|].
    split; [|split; [|split; [|split]]]; [vm_compute; reflexivity..|exact Hb|reflexivity].
Defined.
