(* ===== verification/Process.v ===== *)
(** The whole process: calls of the public functions by several threads,
    initialisations from the environment, and the monitor threads those start.

    [run_pevent] is one event of the process: a call, an initialisation, an edit of the
    files, or a turn of a monitor thread (its start, or one round of its loop).
    [sp_pevent] is what the abstract machine of Threads.v does, extended with the
    files, the flag and the monitors.  [pabs] relates the two; it says which blocks the
    monitors own, so that nothing is freed twice and everything that is lost is known. *)

From stdpp Require Import functions.
From S2P Require Import Prelude World Memory Libc Escape MdcIface Mdc JsonFormat Mdclog Within Api Threads LogLevel Startup.

(** ** Monitor threads *)

(** A thread that runs [monitor_loglevel_change_handler]: it has not begun, it is in
    its loop with the two names it made, or it has returned. *)
Inductive phase :=
| Starting
| Watching (dname bname : ptr)
| Ended.

(** A thread is the argument it was created with, and its phase. *)
Abbreviation monitors := (list (ptr * phase)).

Section monitor.
Context (strerror : Z → list Z).

(** The handler up to its loop. *)
Definition monitor_begin (ifd wfd : option Z) (fileName : ptr) : M phase :=
  '(dname, bname) ← split_name fileName;
  watching ← add_watch strerror ifd wfd fileName;
  if (watching : bool) then mret (Watching dname bname)
  else free_names dname bname ;; mret Ended.

(** The test of the loop, and one round of it or the end of the handler. *)
Definition monitor_turn (fileName dname bname : ptr) (i : monitor_input) : M phase :=
  run ← gets (λ w, log_format_init_done (cfg w));
  if run =? 0 then free_names dname bname ;; mret Ended
  else monitor_round true strerror fileName i ;; mret (Watching dname bname).

Fixpoint monitor_turns (fileName : ptr) (ph : phase) (inputs : list monitor_input) : M phase :=
  match inputs with
  | [] => mret ph
  | i :: inputs' =>
      ph ← (match ph with Watching d b => monitor_turn fileName d b i | _ => mret ph end);
      monitor_turns fileName ph inputs'
  end.
End monitor.

(** ** Events *)

Inductive pevent :=
| PCall (e : event)
| PStart (t : positive) (logfile_monitor : Z)
| PEdit (files : gmap (list Z) (list Z))
| PBegin (n : nat) (ifd wfd : option Z)
| PTurn (n : nat) (i : monitor_input).

(** The threads that are new since there were [ms]. *)
Definition join_new (ms : monitors) (threads : list ptr) : monitors :=
  ms ++ ((λ p, (p, Starting)) <$> drop (length ms) threads).

Section process.
Context (strerror : Z → list Z).

Definition run_pevent (e : pevent) (ms : monitors) : M (reply * monitors) :=
  match e with
  | PCall e => r ← run_event e; mret (r, ms)
  | PStart t m =>
      modify (with_self t) ;;
      r ← mdclog_format_initialize true m;
      threads ← gets (λ w, sys_threads (os w));
      mret (RInt r, join_new ms threads)
  | PEdit files => modify (λ w, with_os (with_files files (os w)) w) ;; mret (RNone, ms)
  | PBegin n ifd wfd =>
      match ms !! n with
      | Some (arg, Starting) =>
          ph ← monitor_begin strerror ifd wfd arg; mret (RNone, <[n := (arg, ph)]> ms)
      | _ => mret (RNone, ms)
      end
  | PTurn n i =>
      match ms !! n with
      | Some (arg, Watching d b) =>
          ph ← monitor_turn strerror arg d b i; mret (RNone, <[n := (arg, ph)]> ms)
      | _ => mret (RNone, ms)
      end
  end.

Fixpoint run_pevents (es : list pevent) (ms : monitors) : M (list reply * monitors) :=
  match es with
  | [] => mret ([], ms)
  | e :: es' =>
      '(r, ms) ← run_pevent e ms;
      '(rs, ms) ← run_pevents es' ms;
      mret (r :: rs, ms)
  end.
End process.

(** ** The abstract machine *)

Inductive sphase := SStarting | SWatching | SEnded.

(** The machine of the calls, the files, the results of the coming creations of
    threads, whether the flag of the monitor is set, the monitors, and how many copies
    of the name of the file were lost because no thread could be created. *)
Record pspec := PSpec {
  ps_spec : spec;
  ps_files : gmap (list Z) (list Z);
  ps_creates : list Z;
  ps_flag : bool;
  ps_mons : list sphase;
  ps_lost : nat
}.

Definition sp_with_level (level : Z) (s : spec) : spec :=
  Spec level (sp_init s) (sp_ident s) (sp_mdcs s) (sp_list s) (sp_time s) (sp_out s).

(** Calls that clear the flag. *)
Definition clears (e : event) : bool :=
  match e with Call _ (CallInit _) | Call _ CallLibClean => true | _ => false end.

Section machine.
Context (pn : list Z) (env : gmap (list Z) (list Z)) (pid : Z).

(** The thread's fields and the level are set. *)
Definition sp_fill (t : positive) (files : gmap (list Z) (list Z)) (s : spec) : spec :=
  let s := sp_ready pn s in
  sp_with_level (config_level env files (sp_level s)) (sp_set t (put_startup env pid (sp_mdcs s t)) s).

(** The answer of an initialisation, and whether a thread was asked for. *)
Definition sp_watch (m : Z) (files : gmap (list Z) (list Z)) (creates : list Z) : Z * bool :=
  match config_file env files with
  | Some file =>
      if m =? 0 then (0, false)
      else match file with
           | None => (-1, false)
           | Some _ => (default 0 (head creates), true)
           end
  | None => (0, false)
  end.

Definition sp_start (t : positive) (m : Z) (s : pspec) : reply * pspec :=
  if ps_flag s then (RInt 0, s)
  else
    let s1 := sp_fill t (ps_files s) (ps_spec s) in
    match sp_watch m (ps_files s) (ps_creates s) with
    | (r, false) => (RInt r, PSpec s1 (ps_files s) (ps_creates s) false (ps_mons s) (ps_lost s))
    | (r, true) =>
        (RInt r,
         if r =? 0 then PSpec s1 (ps_files s) (tail (ps_creates s)) false (ps_mons s ++ [SStarting]) (ps_lost s)
         else PSpec s1 (ps_files s) (tail (ps_creates s)) false (ps_mons s) (S (ps_lost s)))
    end.

(** A round of a loop. *)
Definition sp_round (i : monitor_input) (s : pspec) : pspec :=
  match i, env !! LOG_FILE_CONFIG_MAP with
  | FileChanged files, Some name =>
      PSpec (sp_with_level (file_level (files !! name)) (ps_spec s)) files (ps_creates s) (ps_flag s) (ps_mons s) (ps_lost s)
  | _, _ => s
  end.

Definition with_mon (n : nat) (flag : bool) (ph : sphase) (s : pspec) : pspec :=
  PSpec (ps_spec s) (ps_files s) (ps_creates s) flag (<[n := ph]> (ps_mons s)) (ps_lost s).

Definition sp_pevent (e : pevent) (s : pspec) : reply * pspec :=
  match e with
  | PCall e =>
      let '(r, s1) := sp_event pn e (ps_spec s) in
      (r, PSpec s1 (ps_files s) (ps_creates s) (negb (clears e) && ps_flag s) (ps_mons s) (ps_lost s))
  | PStart t m => sp_start t m s
  | PEdit files => (RNone, PSpec (ps_spec s) files (ps_creates s) (ps_flag s) (ps_mons s) (ps_lost s))
  | PBegin n ifd wfd =>
      (RNone, match ps_mons s !! n, ifd, wfd with
              | Some SStarting, None, None => with_mon n true SWatching s
              | Some SStarting, _, _ => with_mon n (ps_flag s) SEnded s
              | _, _, _ => s
              end)
  | PTurn n i =>
      (RNone, match ps_mons s !! n with
              | Some SWatching => if ps_flag s then sp_round i s else with_mon n false SEnded s
              | _ => s
              end)
  end.

Fixpoint sp_pevents (es : list pevent) (s : pspec) : list reply * pspec :=
  match es with
  | [] => ([], s)
  | e :: es' =>
      let '(r, s1) := sp_pevent e s in
      let '(rs, s2) := sp_pevents es' s1 in (r :: rs, s2)
  end.

(** Files that can be used. *)
Definition good_files (files : gmap (list Z) (list Z)) : Prop := ∀ name, good_file (files !! name).

Definition pvalid (e : pevent) : Prop :=
  match e with
  | PCall e => valid e
  | PEdit files | PTurn _ (FileChanged files) => good_files files
  | PTurn _ FlagCleared => False
  | _ => True
  end.

(** What the process is started with: values that fit an [int], and a process number. *)
Record setting_ok : Prop := {
  se_name : is_str pn ∧ zlen (esc pn) < INT_MAX;
  se_env : ∀ k v, env !! k = Some v → is_str v ∧ zlen (esc v) + 100 < INT_MAX;
  se_pid : 0 ≤ pid < 2 ^ 31
}.
End machine.

(** The process at its start, and the machine. *)
Definition pboot (pn : list Z) (env files : gmap (list Z) (list Z)) (pid : Z) (creates : list Z) : world :=
  with_os (Sys (Lit pn 0) env files (0, 0) pid true [] [] Null [] creates []) (boot (Lit pn 0)).

Definition sp_pboot (files : gmap (list Z) (list Z)) (creates : list Z) : pspec :=
  PSpec sp_boot files creates false [] 0.

(** ** Memory of the monitors *)

Definition pblock (p : ptr) : list positive := option_list (ptr_block p).
Definition phase_blocks (ph : phase) : list positive :=
  match ph with Watching d b => pblock d ++ pblock b | _ => [] end.

(** The arguments of the threads, and the names the loops work with. *)
Definition args (ms : monitors) : list positive := ms ≫= λ m, pblock m.1.
Definition names (ms : monitors) : list positive := ms ≫= λ m, phase_blocks m.2.

(** All the blocks of the monitors, and those of nobody. *)
Definition foot (ms : monitors) (lost : list positive) : list positive := (args ms ++ lost) ++ names ms.

Section foot.
Implicit Types (ms : monitors) (lost : list positive).

Lemma foot_lookup ms lost n arg ph :
  ms !! n = Some (arg, ph) → foot ms lost ≡ₚ phase_blocks ph ++ (args ms ++ lost) ++ names (delete n ms).
Proof.
  intros Hn. rewrite /foot. transitivity ((args ms ++ lost) ++ phase_blocks ph ++ names (delete n ms)).
  - f_equiv. rewrite /names {1}(delete_Permutation _ _ _ Hn). done.
  - apply Permutation_app_swap_app.
Qed.

Lemma args_insert ms n arg ph ph' : ms !! n = Some (arg, ph) → args (<[n := (arg, ph')]> ms) = args ms.
Proof.
  revert n. induction ms as [|m ms IH]; intros [|n] Hn; try done; cbn in Hn |- *.
  - injection Hn as ->. done.
  - rewrite /args in IH. by rewrite IH.
Qed.

Lemma foot_insert ms lost n arg ph ph' :
  ms !! n = Some (arg, ph) →
  foot (<[n := (arg, ph')]> ms) lost ≡ₚ phase_blocks ph' ++ (args ms ++ lost) ++ names (delete n ms).
Proof.
  intros Hn. assert (Hlt : (n < length ms)%nat) by by eapply lookup_lt_Some.
  rewrite (foot_lookup _ _ n arg ph'); [|by apply list_lookup_insert_eq]. rewrite (args_insert _ _ _ _ _ Hn).
  replace (delete n (<[n:=(arg, ph')]> ms)) with (delete n ms); [done|].
  clear Hn. revert n Hlt. induction ms as [|m ms IH]; intros [|n] Hlt; cbn in *; [lia|lia|done|]. f_equal. apply IH. lia.
Qed.

Lemma foot_new ms lost b : foot (ms ++ [(Ptr b 0, Starting)]) lost ≡ₚ b :: foot ms lost.
Proof.
  rewrite /foot /args /names !bind_app /= app_nil_r -(assoc_L (++) _ [b]) /=. by rewrite -Permutation_middle.
Qed.

Lemma foot_lost ms lost b : foot ms (b :: lost) ≡ₚ b :: foot ms lost.
Proof. rewrite /foot. rewrite -(Permutation_middle (args ms)). done. Qed.

Lemma elem_of_phase_blocks d bn b : b ∈ phase_blocks (Watching (Ptr d 0) (bname_ptr bn)) ↔ b ∈ name_blocks d bn.
Proof.
  rewrite elem_of_name_blocks. destruct bn as [c|]; cbn.
  - rewrite !elem_of_cons elem_of_nil. naive_solver.
  - rewrite !elem_of_cons elem_of_nil. naive_solver.
Qed.
End foot.

(** ** The abstraction *)

(** The parts of the system that calls go by are the same. *)
Definition same_io (s s' : sys) : Prop :=
  sys_time s' = sys_time s ∧ sys_stdout s' = sys_stdout s ∧ sys_writes s' = sys_writes s ∧
  sys_progname s' = sys_progname s ∧ sys_key_create s' = sys_key_create s.

Lemma sp_with_level_id s : sp_with_level (sp_level s) s = s.
Proof. by destruct s. Qed.

(** A change of the frame, of the flag and of the level leaves the library as it is. *)
Lemma abs_private F F' pn w w' io L s level i :
  abs F pn w io L s → wf_heap w' → (next w ≤ next w')%positive → tls w' = tls w → plan w' = [] →
  cfg w' = with_format_done i (with_level level (cfg w)) → same_io (os w) (os w') → F' ⊆ heap w' →
  (∀ b, b ∈ dom F' → b ∈ dom F ∨ (next w ≤ b)%positive) →
  (∀ b, b ∈ dom F → b ∉ dom F' → heap w' !! b = None) →
  (∀ b, b ∉ dom F → b ∉ dom F' → heap w' !! b = heap w !! b) →
  abs F' pn w' io L (sp_with_level level s).
Proof.
  intros Ha Hw' Hn Ht Hp Hc (Ho1 & Ho2 & Ho3 & Ho4 & Ho5) Hsub Hnew Hgone Hrest.
  pose proof Ha as [Hsh Hlv Hi Hid Hm Hsm Hls Htm Hout _ Hws].
  assert (Hlib : ∀ t b, b ∈ lib_foot io (L t).1 (L t).2 → (b ∉ dom F) ∧ b ∉ dom F').
  { intros t b Hb. assert (HbF : b ∉ dom F).
    { intros HbF. by apply (proj1 (elem_of_disjoint _ _) (sh_apart _ _ _ _ _ Hsh t) b). }
    split; [done|]. intros [?|Hle]%Hnew; [done|].
    destruct (lib_foot_live _ _ _ _ _ b (sh_lib _ _ _ _ _ Hsh t) Hb) as [x Hx].
    pose proof (wf_heap_lt _ _ _ (lib_wf _ _ _ _ _ (sh_lib _ _ _ _ _ Hsh t)) Hx). cbn in *. lia. }
  split; cbn; rewrite ?Hc ?Ho1 ?Ho2 ?Ho3 //. split; [| |done| |].
  - intros t. pose proof (sh_lib _ _ _ _ _ Hsh t) as Hl.
    eapply (lib_heap _ (with_self t w)); cbn; rewrite ?Hc ?Ht ?Ho4 ?Ho5; try done.
    + apply (lib_mutex _ _ _ _ _ Hl).
    + intros b Hb. destruct (Hlib _ _ Hb). by apply Hrest.
  - apply (sh_disj _ _ _ _ _ Hsh).
  - intros t. apply elem_of_disjoint. intros b Hb Hb'. by destruct (Hlib _ _ Hb).
  - intros b Hb. destruct (decide (b ∈ dom F')) as [|HnF']; [by right; right|].
    destruct (decide (b ∈ dom F)) as [HbF|HnF].
    { by rewrite (Hgone _ HbF HnF') in Hb; apply is_Some_None in Hb. }
    rewrite Hrest // in Hb. destruct (sh_live _ _ _ _ _ Hsh _ Hb) as [?|[?|?]]; [by left|by right; left|done].
Qed.

Definition phase_ok (ph : phase) (a : sphase) : Prop :=
  match ph, a with
  | Starting, SStarting | Ended, SEnded => True
  | Watching d b, SWatching => ∃ d' bn, d = Ptr d' 0 ∧ b = bname_ptr bn
  | _, _ => False
  end.

Section abstraction.
Context (pn : list Z) (env : gmap (list Z) (list Z)) (pid : Z).

(** The blocks [F] are those of the monitors and the lost ones. *)
Record owned (F : gmap positive block) (ms : monitors) (lost : list positive) : Prop := {
  ow_nodup : NoDup (foot ms lost);
  ow_dom : ∀ b, b ∈ dom F ↔ b ∈ foot ms lost;
  ow_names : ∀ b, b ∈ args ms ++ lost → ∃ name, env !! LOG_FILE_CONFIG_MAP = Some name ∧ F !! b = Some (cstr_block name)
}.

(** The process is in the machine's state [s]. *)
Record pabs (w : world) (ms : monitors) (s : pspec) (F : gmap positive block) (lost : list positive) : Prop := {
  pa_abs : ∃ io L, abs F pn w io L (ps_spec s);
  pa_env : sys_env (os w) = env;
  pa_pid : sys_pid (os w) = pid;
  pa_files : sys_files (os w) = ps_files s;
  pa_creates : sys_creates (os w) = ps_creates s;
  pa_flag : ps_flag s = negb (log_format_init_done (cfg w) =? 0);
  pa_threads : length (sys_threads (os w)) = length ms;
  pa_good : good_files (ps_files s);
  pa_phases : Forall2 (λ m a, (∃ b, m.1 = Ptr b 0) ∧ phase_ok m.2 a) ms (ps_mons s);
  pa_owned : owned F ms lost;
  pa_lost : length lost = ps_lost s
}.
End abstraction.

(** ** What calls leave alone *)

(** No call but the initialisation touches the environment, the files and the threads. *)
Definition same_setup : relation world := λ w w',
  sys_env (os w') = sys_env (os w) ∧ sys_files (os w') = sys_files (os w) ∧ sys_pid (os w') = sys_pid (os w) ∧
  sys_creates (os w') = sys_creates (os w) ∧ sys_threads (os w') = sys_threads (os w).

#[export] Instance same_setup_preorder : PreOrder same_setup.
Proof. split; rewrite /same_setup; [done|]. intros w1 w2 w3 (?&?&?&?&?) (?&?&?&?&?). split_and!; congruence. Qed.
#[export] Instance same_setup_flagless : Flagless same_setup.
Proof. split; [split; [apply _|..]|]; done. Qed.

(** Nor the flag, but for the calls that clear it. *)
Definition same_flag : relation world := λ w w',
  log_format_init_done (cfg w') = log_format_init_done (cfg w).

#[export] Instance same_flag_preorder : PreOrder same_flag.
Proof. split; rewrite /same_flag; [done|]. intros w1 w2 w3 ??. congruence. Qed.
#[export] Instance same_flag_plain : Plain same_flag.
Proof. split; [apply _|..]; done. Qed.

Lemma within_run_call (R : relation world) `{!Flagless R} c : Within R (run_call c).
Proof.
  destruct c as [| | | | | | |[ident|]| |]; cbn [run_call]; rewrite /read_and_free /configure /thread_exit; stays.
Qed.

Lemma run_event_setup e w r w' : run_event e w = Ok r w' → same_setup w w'.
Proof.
  destruct e as [t c|tv]; cbn [run_event].
  - rewrite /mbind /M_bind /modify. intros Hr. by eapply (within_run_call same_setup) in Hr.
  - by intros [= _ <-].
Qed.

#[export] Instance same_flag_quiet : Quiet same_flag.
Proof. split; [apply _|..]; done. Qed.

(** Relations that hold of every event. *)
Class Eventful (R : relation world) : Prop := {
  eventful_quiet :: Quiet R;
  eventful_flagless :: Flagless R;
  eventful_self w t : R w (with_self t w);
  eventful_time w tv : R w (with_os (with_time tv (os w)) w)
}.

Section eventful.
Context (R : relation world) `{!Eventful R} (strerror : Z → list Z).

Lemma within_self t : Within R (modify (with_self t)).
Proof. apply within_modify. intros w. apply eventful_self. Qed.

#[export] Instance within_run_event e : Within R (run_event e).
Proof.
  destruct e as [t c|tv]; cbn [run_event]; (apply within_bind; [apply _| |]).
  - apply within_self.
  - intros _. by apply within_run_call, eventful_flagless.
  - apply within_modify. intros w. apply eventful_time.
  - apply _.
Qed.
#[export] Instance within_round name i : Within R (monitor_round true strerror name i).
Proof. destruct i; cbn; rewrite /set_format_done; stays. Qed.
#[export] Instance within_begin ifd wfd name : Within R (monitor_begin strerror ifd wfd name).
Proof. rewrite /monitor_begin /add_watch /set_format_done. stays. Qed.
#[export] Instance within_turn name d b i : Within R (monitor_turn strerror name d b i).
Proof. rewrite /monitor_turn. stays. Qed.
#[export] Instance within_run_pevent e ms : Within R (run_pevent strerror e ms).
Proof. destruct e; cbn [run_pevent]; [stays| |stays..]. apply within_bind; [apply _|apply within_self|]. stays. Qed.
#[export] Instance within_run_pevents es ms : Within R (run_pevents strerror es ms).
Proof. revert ms. induction es; intros ms; cbn [run_pevents]; stays. Qed.
End eventful.

(** Computations after which the flag is clear. *)
Class Clears {A} (m : M A) : Prop := clear w a w' : m w = Ok a w' → log_format_init_done (cfg w') = 0.

Lemma clears_before {A B} (m : M A) (k : A → M B) :
  Clears m → (∀ a, Within same_flag (k a)) → Clears (m ≫= k).
Proof.
  intros Hm Hk w r w'. rewrite /mbind /M_bind. destruct (m w) as [a w1|] eqn:He; [|done].
  intros Hr%Hk. rewrite Hr. by eapply Hm.
Qed.

Lemma clears_after {A B} (m : M A) (k : A → M B) : (∀ a, Clears (k a)) → Clears (m ≫= k).
Proof. intros Hk w r w'. rewrite /mbind /M_bind. destruct (m w); [apply Hk|done]. Qed.

Lemma clears_set : Clears (set_format_done 0).
Proof. by intros w a w' [= _ <-]. Qed.

Lemma clears_init attr : Clears (mdclog_init attr).
Proof. apply clears_after. intros _. apply clears_before; [apply clears_set|]. stays. Qed.

Lemma clears_configure ident : Clears (configure ident).
Proof. rewrite /configure. do 4 (apply clears_after; intros ?). apply clears_before; [apply clears_init|]. stays. Qed.

Lemma clears_lib_clean : Clears mdclog_lib_clean.
Proof. rewrite /mdclog_lib_clean. repeat (apply clears_after; intros ?). apply clears_set. Qed.

Lemma run_event_flag e w r w' :
  run_event e w = Ok r w' →
  log_format_init_done (cfg w') = if clears e then 0 else log_format_init_done (cfg w).
Proof.
  destruct e as [t c|tv]; cbn [run_event]; [|by intros [= _ <-]].
  rewrite {1}/mbind {1}/M_bind {1}/modify. change (log_format_init_done (cfg w)) with (log_format_init_done (cfg (with_self t w))).
  destruct c as [| | | | | | |[ident|]| |]; cbn [run_call clears]; rewrite /read_and_free /thread_exit.
  all: try (intros Hr; match type of Hr with ?m _ = _ => assert (Hw : Within same_flag m) by stays end; by apply Hw in Hr).
  - apply clears_before; [apply clears_configure|apply _].
  - apply clears_before; [apply clears_init|apply _].
  - apply clears_before; [apply clears_lib_clean|apply _].
Qed.

(** ** Names that come and go *)

Section owned.
Context (env : gmap (list Z) (list Z)).
Implicit Types (w : world) (ms : monitors) (F : gmap positive block) (lost : list positive).

Lemma phase_blocks_nodup d bn : bn ≠ Some d → NoDup (phase_blocks (Watching (Ptr d 0) (bname_ptr bn))).
Proof.
  intros Hd. destruct bn as [b|]; cbn; [|apply NoDup_singleton].
  apply NoDup_cons. split; [|apply NoDup_singleton]. intros ->%list_elem_of_singleton. done.
Qed.

Lemma owned_grow F ms lost n arg w d bn own w' :
  owned env F ms lost → ms !! n = Some (arg, Starting) → watching w d bn own w' →
  (∀ b, b ∈ dom F → (b < next w)%positive) →
  owned env (own ∪ F) (<[n := (arg, Watching (Ptr d 0) (bname_ptr bn))]> ms) lost.
Proof.
  intros [Hnd Hdom Hnm] Hn Hwa Hlt. pose proof (foot_lookup ms lost n _ _ Hn) as Hf. cbn [phase_blocks] in Hf. rewrite app_nil_l in Hf.
  pose proof (foot_insert _ lost _ _ _ (Watching (Ptr d 0) (bname_ptr bn)) Hn) as Hf'. rewrite -Hf in Hf'.
  assert (Hfresh : ∀ b, b ∈ name_blocks d bn → (next w ≤ b)%positive).
  { intros b Hb. apply (wa_fresh _ _ _ _ _ Hwa). by rewrite (wa_own _ _ _ _ _ Hwa). }
  assert (Hnew : ∀ b, b ∈ name_blocks d bn → b ∉ foot ms lost).
  { intros b Hb Hin. apply Hdom, Hlt in Hin. apply Hfresh in Hb. lia. }
  split.
  - rewrite Hf'. apply NoDup_app. split; [by apply phase_blocks_nodup, (wa_distinct _ _ _ _ _ Hwa)|]. split; [|done].
    intros b Hb%elem_of_phase_blocks. by apply Hnew.
  - intros b. rewrite Hf' dom_union_L (wa_own _ _ _ _ _ Hwa) elem_of_union elem_of_app elem_of_phase_blocks Hdom. done.
  - intros b. rewrite (args_insert _ _ _ _ _ Hn). intros Hb. destruct (Hnm b Hb) as (name & Hname & HF).
    exists name. split; [done|]. rewrite lookup_union_r //. apply not_elem_of_dom. rewrite (wa_own _ _ _ _ _ Hwa).
    intros Hin. apply (Hnew b Hin). apply Hdom. by eapply elem_of_dom_2.
Qed.

(** The blocks but those of the names. *)
Definition forget (d : positive) (bn : option positive) F : gmap positive block :=
  filter (λ p, p.1 ∉ name_blocks d bn) F.

Lemma forget_lookup d bn F b x : forget d bn F !! b = Some x ↔ F !! b = Some x ∧ b ∉ name_blocks d bn.
Proof. by rewrite /forget map_lookup_filter_Some. Qed.

Lemma elem_of_forget d bn F b : b ∈ dom (forget d bn F) ↔ b ∈ dom F ∧ b ∉ name_blocks d bn.
Proof. rewrite !elem_of_dom /is_Some. setoid_rewrite forget_lookup. naive_solver. Qed.

Lemma owned_shrink F ms lost n arg d bn :
  owned env F ms lost → ms !! n = Some (arg, Watching (Ptr d 0) (bname_ptr bn)) →
  owned env (forget d bn F) (<[n := (arg, Ended)]> ms) lost.
Proof.
  intros [Hnd Hdom Hnm] Hn. pose proof (foot_lookup ms lost n _ _ Hn) as Hf.
  pose proof (foot_insert _ lost _ _ _ Ended Hn) as Hf'. cbn [phase_blocks] in Hf'. rewrite app_nil_l in Hf'.
  rewrite -Hf' in Hf. rewrite Hf in Hnd. apply NoDup_app in Hnd as (_ & Hdis & Hnd).
  assert (Hout : ∀ b, b ∈ foot (<[n:=(arg, Ended)]> ms) lost → b ∉ name_blocks d bn).
  { intros b Hb Hin. apply (Hdis b); [by apply elem_of_phase_blocks|done]. }
  split.
  - done.
  - intros b. rewrite elem_of_forget Hdom Hf elem_of_app elem_of_phase_blocks. naive_solver.
  - intros b Hb. specialize (Hnm b). rewrite (args_insert _ _ _ _ _ Hn) in Hb. destruct (Hnm Hb) as (name & Hname & HF).
    exists name. split; [done|]. apply forget_lookup. split; [done|]. apply Hout.
    rewrite /foot (args_insert _ _ _ _ _ Hn). apply elem_of_app. by left.
Qed.

Lemma names_owned F ms lost n arg d bn b :
  owned env F ms lost → ms !! n = Some (arg, Watching (Ptr d 0) (bname_ptr bn)) → b ∈ name_blocks d bn → b ∈ dom F.
Proof.
  intros [_ Hdom _] Hn Hb. apply Hdom. rewrite (foot_lookup ms lost n _ _ Hn) elem_of_app. left. by apply elem_of_phase_blocks.
Qed.
End owned.

(** ** What an initialisation stores *)

Section setting.
Context (pn : list Z) (env : gmap (list Z) (list Z)) (pid : Z).
Context (Hset : setting_ok pn env pid).

Lemma pid_text : is_str (dec_signed pid) ∧ zlen (dec_signed pid) ≤ 10.
Proof.
  pose proof (se_pid _ _ _ Hset) as Hpid. split; [apply dec_signed_is_str|]. rewrite /dec_signed.
  destruct (Z.ltb_spec pid 0); [lia|]. apply dec_len; lia.
Qed.

Lemma setting_startup files s :
  sys_env s = env → sys_files s = files → sys_pid s = pid → good_files files → startup_ok s.
Proof.
  intros He Hf Hp Hg. destruct pid_text as [Hs Hl]. pose proof (esc_len_le (dec_signed pid)). split; rewrite ?He ?Hf ?Hp.
  - intros k v Hk. destruct (se_env _ _ _ Hset _ _ Hk). split; [done|]. unfold INT_MAX in *. lia.
  - intros f. rewrite /config_file. destruct (env !! _) as [name|]; [|done]. intros [= <-]. apply Hg.
  - unfold STR_BUFF. lia.
  - split; [done|]. lia.
Qed.

Lemma small_field k v l :
  zlen k ≤ 20 → zlen (esc v) + 100 < INT_MAX → small l → small (put_field k v l).
Proof. intros Hk Hv Hl. apply small_put; [rewrite pair_text_len; lia|by apply small_remove]. Qed.

Lemma small_startup l : small l → small (put_startup env pid l).
Proof.
  intros Hl. rewrite /put_startup. destruct pid_text as [_ Hp]. pose proof (esc_len_le (dec_signed pid)).
  apply small_field; [done|unfold INT_MAX; lia|]. rewrite /put_fields.
  assert (Hf : Forall (λ f, zlen f ≤ 20) LOGFIELDS) by by repeat constructor.
  revert l Hl. induction Hf as [|f fs Hf _ IH]; intros l Hl; cbn [foldl]; [done|]. apply IH. rewrite /put_env.
  destruct (env !! f) as [v|] eqn:Hv.
  - destruct (se_env _ _ _ Hset _ _ Hv). by apply small_field.
  - apply small_put; [rewrite pair_text_len; change (zlen []) with 0; unfold INT_MAX; lia|done].
Qed.

Lemma abs_fill F G t w io L s w' io' l es' files :
  abs F pn w io L s → call_ok G pn t w io L w' io' (Some l) es' →
  current_level (cfg w') = config_level env files (current_level (cfg w)) → init_done (cfg w') ≠ 0 →
  snd <$> io' = ident_after (with_self t w) pn io → mdcs es' = put_startup env pid (mdcs (L t).2) →
  same_io (os w) (os w') → plan w' = [] →
  abs (G ∪ F) pn w' io' (<[t := (Some l, es')]> L) (sp_fill pn env pid t files s).
Proof.
  intros Ha Hc Hlv Hd Hid Hm (Ho1 & Ho2 & Ho3 & _) Hp. pose proof (sp_ready_proj pn s) as (H1 & H2 & H3 & H4 & H5 & H6).
  pose proof (ab_mdcs _ _ _ _ _ _ Ha t) as Hmt. rewrite Hmt in Hm.
  eapply abs_give; [exact Ha|exact Hc|..]; cbn; rewrite ?H1 ?H2 ?H3 ?H4 ?H5 ?H6 ?Ho1 ?Ho2 ?Ho3; try done.
  - by rewrite Hlv (ab_level _ _ _ _ _ _ Ha).
  - by destruct (Z.eqb_spec (init_done (cfg w')) 0).
  - rewrite Hid. by eapply abs_ident.
  - by rewrite fn_lookup_insert Hm.
  - intros t' Hne. by rewrite fn_lookup_insert_ne.
  - by rewrite fn_lookup_insert.
  - intros t' Hne. by rewrite fn_lookup_insert_ne.
  - rewrite Hm. apply small_startup, (ab_small _ _ _ _ _ _ Ha).
  - apply (ab_time _ _ _ _ _ _ Ha).
  - apply (ab_out _ _ _ _ _ _ Ha).
  - apply (ab_writes _ _ _ _ _ _ Ha).
Qed.
End setting.

(** ** The events refine the machine *)

Section refinement.
Context (strerror : Z → list Z) (pn : list Z) (env : gmap (list Z) (list Z)) (pid : Z).
Context (Hset : setting_ok pn env pid).
Implicit Types (w : world) (ms : monitors) (s : pspec) (F : gmap positive block) (lost : list positive).

(** What an event [e] has to do. *)
Definition prefines (e : pevent) s (r : reply * monitors) w' : Prop :=
  r.1 = (sp_pevent pn env pid e s).1 ∧
  ∃ F' lost', pabs pn env pid w' r.2 (sp_pevent pn env pid e s).2 F' lost'.

Lemma refines_call e w ms s F lost :
  pabs pn env pid w ms s F lost → valid e → wp (run_pevent strerror (PCall e) ms) w (prefines (PCall e) s).
Proof.
  intros [(io & L & Ha) He Hp Hf Hc Hfl Ht Hg Hph How Hlo] Hv. cbn [run_pevent]. apply wp_bind.
  destruct (proj1 (wp_run _ _ _) (run_event_refines F pn e _ _ _ _ Ha Hv)) as (r & w' & Hrun & io' & L' & -> & Ha').
  eapply wp_eq; [exact Hrun|]. apply wp_ret. rewrite /prefines. cbn [sp_pevent fst snd].
  destruct (sp_event pn e (ps_spec s)) as [r s1]. cbn [fst snd] in *. split; [done|]. exists F, lost.
  destruct (run_event_setup _ _ _ _ Hrun) as (H1 & H2 & H3 & H4 & H5). pose proof (run_event_flag _ _ _ _ Hrun) as H6.
  split; cbn; try congruence; [by eauto|rewrite H6 Hfl; by destruct (clears e)|done..].
Qed.

(** Running the private rule. *)
Lemma pabs_abs F F' w w' s level i :
  (∃ io L, abs F pn w io L (ps_spec s)) → wf_heap w' → (next w ≤ next w')%positive → tls w' = tls w → plan w' = [] →
  cfg w' = with_format_done i (with_level level (cfg w)) → same_io (os w) (os w') → F' ⊆ heap w' →
  (∀ b, b ∈ dom F' → b ∈ dom F ∨ (next w ≤ b)%positive) →
  (∀ b, b ∈ dom F → b ∉ dom F' → heap w' !! b = None) →
  (∀ b, b ∉ dom F → b ∉ dom F' → heap w' !! b = heap w !! b) →
  ∃ io L, abs F' pn w' io L (sp_with_level level (ps_spec s)).
Proof. intros (io & L & Ha) ?????????. exists io, L. by eapply abs_private. Qed.

(** The facts about the state of a process that rules need. *)
Lemma pabs_wf w ms s F lost : pabs pn env pid w ms s F lost →
  wf_heap w ∧ plan w = [] ∧ F ⊆ heap w ∧ current_level (cfg w) = sp_level (ps_spec s).
Proof.
  intros [(io & L & Ha) _ _ _ _ _ _ _ _ _ _]. split_and!.
  - apply (lib_wf _ _ _ _ _ (sh_lib _ _ _ _ _ (ab_shared _ _ _ _ _ _ Ha) 1%positive)).
  - apply (ab_plan _ _ _ _ _ _ Ha).
  - apply (sh_frame _ _ _ _ _ (ab_shared _ _ _ _ _ _ Ha)).
  - apply (ab_level _ _ _ _ _ _ Ha).
Qed.

(** The name a monitor was given. *)
Lemma pabs_arg w ms s F lost n arg ph :
  pabs pn env pid w ms s F lost → ms !! n = Some (arg, ph) →
  ∃ b name a, arg = Ptr b 0 ∧ env !! LOG_FILE_CONFIG_MAP = Some name ∧ is_str name ∧
    F !! b = Some (cstr_block name) ∧ get_cstr (heap w) arg = Some name ∧ ps_mons s !! n = Some a ∧ phase_ok ph a.
Proof.
  intros Hpa Hn. destruct (pabs_wf _ _ _ _ _ Hpa) as (_ & _ & Hsub & _). destruct Hpa as [_ _ _ _ _ _ _ _ Hph How _].
  destruct (Forall2_lookup_l _ _ _ _ _ Hph Hn) as (a & Hna & (b & Hb) & Hok). cbn in Hb, Hok. subst arg.
  destruct (ow_names _ _ _ _ How b) as (name & Hname & HF).
  { apply elem_of_app. left. apply list_elem_of_bind. exists (Ptr b 0, ph). split; [by left|by eapply list_elem_of_lookup_2]. }
  exists b, name, a. destruct (se_env _ _ _ Hset _ _ Hname) as [Hs _]. split_and!; try done.
  apply get_cstr_block; [|done]. by eapply lookup_weaken.
Qed.

Lemma refines_edit files w ms s F lost :
  pabs pn env pid w ms s F lost → good_files files →
  wp (run_pevent strerror (PEdit files) ms) w (prefines (PEdit files) s).
Proof.
  intros Hpa Hg. destruct (pabs_wf _ _ _ _ _ Hpa) as (Hw & Hp & Hsub & Hlv). cbn [run_pevent]. wp_pure. apply wp_ret.
  split; [done|]. exists F, lost. destruct Hpa as [Ha He Hpd Hf Hc Hfl Ht _ Hph How Hlo]. split; try done.
  cbn. rewrite -(sp_with_level_id (ps_spec s)).
  apply (pabs_abs F F w _ s _ (log_format_init_done (cfg w))); try done; [|by auto].
  cbn. rewrite -Hlv. by destruct (cfg w).
Qed.

(** A monitor goes to another phase. *)
Lemma pabs_mon w ms s F lost w' n arg ph ph' a' F' i :
  pabs pn env pid w ms s F lost → ms !! n = Some (arg, ph) → phase_ok ph' a' →
  wf_heap w' → (next w ≤ next w')%positive → tls w' = tls w → plan w' = [] →
  cfg w' = with_format_done i (cfg w) → (∃ msgs, os w' = with_stdio msgs (os w)) → F' ⊆ heap w' →
  (∀ b, b ∈ dom F' → b ∈ dom F ∨ (next w ≤ b)%positive) →
  (∀ b, b ∈ dom F → b ∉ dom F' → heap w' !! b = None) →
  (∀ b, b ∉ dom F → b ∉ dom F' → heap w' !! b = heap w !! b) →
  owned env F' (<[n := (arg, ph')]> ms) lost →
  pabs pn env pid w' (<[n := (arg, ph')]> ms) (with_mon n (negb (i =? 0)) a' s) F' lost.
Proof.
  intros Hpa Hn Hok Hw' Hnx Htl Hp' Hcf (msgs & Hos) Hsub H1 H2 H3 How'.
  destruct (pabs_wf _ _ _ _ _ Hpa) as (_ & _ & _ & Hlv). destruct Hpa as [Ha He Hpd Hf Hc Hfl Ht Hg Hph How Hlo].
  destruct (Forall2_lookup_l _ _ _ _ _ Hph Hn) as (a & Hna & Harg & _).
  split; cbn; rewrite ?Hos ?length_insert //=.
  - rewrite -(sp_with_level_id (ps_spec s)). eapply (pabs_abs F F' w w' s _ i); try done.
    + rewrite Hcf -Hlv. by destruct (cfg w).
    + by rewrite Hos.
  - by rewrite Hcf.
  - by apply Forall2_insert.
Qed.

(** A loop ends. *)
Lemma pabs_end w ms s F lost n arg d b (Q : unit → world → Prop) :
  pabs pn env pid w ms s F lost → ms !! n = Some (arg, Watching d b) →
  (∀ w' F', pabs pn env pid w' (<[n := (arg, Ended)]> ms) (with_mon n (ps_flag s) SEnded s) F' lost → Q tt w') →
  wp (free_names d b) w Q.
Proof.
  intros Hpa Hn HQ. destruct (pabs_wf _ _ _ _ _ Hpa) as (Hw & Hp & Hsub & Hlv).
  destruct (pabs_arg _ _ _ _ _ _ _ _ Hpa Hn) as (ba & name & a & -> & Hname & Hns & HFa & Hstr & Hna & Hok).
  destruct a; try done. destruct Hok as (d' & bn & -> & ->). pose proof (pa_owned _ _ _ _ _ _ _ _ Hpa) as How.
  assert (Hlive : ∀ c, c ∈ name_blocks d' bn → c ∈ dom F) by (intros c Hc; by eapply names_owned).
  assert (Hd : bn ≠ Some d').
  { intros ->. destruct How as [Hnd _ _]. rewrite (foot_lookup ms lost n _ _ Hn) in Hnd.
    apply NoDup_app in Hnd as [Hnd _]. apply NoDup_cons in Hnd as [Hnd _]. apply Hnd. by left. }
  apply wp_free_names; [|done|].
  { intros c Hc. apply Hlive, elem_of_dom in Hc as [x Hx]. exists x. by eapply lookup_weaken. }
  intros h H1 H2. apply (HQ _ (forget d' bn F)). rewrite (pa_flag _ _ _ _ _ _ _ _ Hpa).
  eapply pabs_mon; cbn; try done.
  - intros c Hc. cbn in Hc |- *. destruct (decide (c ∈ name_blocks d' bn)); [by apply H1|]. rewrite H2 //. by apply Hw.
  - by destruct (cfg w).
  - exists (sys_stdio (os w)). by destruct (os w).
  - apply map_subseteq_spec. intros c x [Hx Hc]%forget_lookup. rewrite H2 //. by eapply lookup_weaken.
  - intros c [Hc _]%elem_of_forget. by left.
  - intros c Hc Hn'. apply H1. destruct (decide (c ∈ name_blocks d' bn)); [done|]. destruct Hn'. by apply elem_of_forget.
  - intros c Hc _. apply H2. intros Hin. by apply Hc, Hlive.
  - by apply owned_shrink.
Qed.

Lemma mons_none {A B} (P : A → B → Prop) (l : list A) (k : list B) n : Forall2 P l k → l !! n = None → k !! n = None.
Proof. intros Hl Hn. apply lookup_ge_None. rewrite -(Forall2_length _ _ _ Hl). by apply lookup_ge_None. Qed.

(** A monitor that has made its names. *)
Lemma pabs_begin w ms s F lost n arg d bn own w1 w2 i :
  pabs pn env pid w ms s F lost → ms !! n = Some (arg, Starting) → watching w d bn own w1 →
  heap w2 = heap w1 → next w2 = next w1 → tls w2 = tls w → plan w2 = [] →
  cfg w2 = with_format_done i (cfg w) → (∃ msgs, os w2 = with_stdio msgs (os w)) →
  pabs pn env pid w2 (<[n := (arg, Watching (Ptr d 0) (bname_ptr bn))]> ms)
    (with_mon n (negb (i =? 0)) SWatching s) (own ∪ F) lost.
Proof.
  intros Hpa Hn Hwa Hh2 Hn2 Ht2 Hp2 Hc2 Ho2. destruct (pabs_wf _ _ _ _ _ Hpa) as (Hw & Hp & Hsub & Hlv).
  assert (Hlt : ∀ b, b ∈ dom F → (b < next w)%positive).
  { intros b [x Hx]%elem_of_dom. apply (wf_heap_lt _ _ _ Hw (lookup_weaken _ _ _ _ Hx Hsub)). }
  eapply pabs_mon; try done.
  - by exists d, bn.
  - intros b. rewrite Hh2 Hn2. apply (wa_wf _ _ _ _ _ Hwa).
  - rewrite Hn2. apply (wa_next _ _ _ _ _ Hwa).
  - rewrite Hh2 (wa_heap _ _ _ _ _ Hwa). by apply map_union_mono_l.
  - intros b. rewrite dom_union_L. intros [Hb|Hb]%elem_of_union; [right; by apply (wa_fresh _ _ _ _ _ Hwa)|by left].
  - intros b Hb Hb'. destruct Hb'. rewrite dom_union_L. by apply elem_of_union_r.
  - intros b _ Hb'. rewrite Hh2 (wa_heap _ _ _ _ _ Hwa) lookup_union_r //. apply not_elem_of_dom. intros Hin. apply Hb'.
    rewrite dom_union_L. by apply elem_of_union_l.
  - eapply owned_grow; [apply (pa_owned _ _ _ _ _ _ _ _ Hpa)|exact Hn|exact Hwa|exact Hlt].
Qed.

Lemma refines_begin n ifd wfd w ms s F lost :
  pabs pn env pid w ms s F lost → wp (run_pevent strerror (PBegin n ifd wfd) ms) w (prefines (PBegin n ifd wfd) s).
Proof.
  intros Hpa. cbn [run_pevent]. destruct (pabs_wf _ _ _ _ _ Hpa) as (Hw & Hp & Hsub & Hlv).
  pose proof (pa_phases _ _ _ _ _ _ _ _ Hpa) as Hph.
  destruct (ms !! n) as [[arg ph]|] eqn:Hn.
  2: { apply wp_ret. split; [done|]. exists F, lost. cbn. 
       by rewrite (mons_none _ _ _ _ Hph Hn). }
  destruct (pabs_arg _ _ _ _ _ _ _ _ Hpa Hn) as (ba & name & a & -> & Hname & Hns & HFa & Hstr & Hna & Hok).
  rewrite /prefines. cbn [sp_pevent fst snd]. rewrite Hna.
  destruct ph, a; try done; try (apply wp_ret; split; [done|]; by exists F, lost).
  rewrite /monitor_begin. apply wp_bind. step wp_split_name; [done..|]. intros d bn own w1 Hwa. cbn [fst snd].
  pose proof (watching_str _ _ _ _ _ _ _ Hw Hwa Hstr) as Hstr1. pose proof (wa_rest _ _ _ _ _ Hwa) as Hr.
  assert (Hw1 : tls w1 = tls w ∧ plan w1 = [] ∧ cfg w1 = cfg w ∧ os w1 = os w) by by rewrite Hr.
  destruct Hw1 as (Ht1 & Hp1 & Hc1 & Ho1).
  assert (Hfail : ∀ e msgs, 
    wp (free_names (Ptr d 0) (bname_ptr bn) ;; mret Ended) (with_os (with_stdio msgs (os w1)) (with_errno e w1))
      (λ ph w', wp (mret (RNone, <[n := (Ptr ba 0, ph)]> ms)) w' (λ r w'', r.1 = RNone ∧
         ∃ F' lost', pabs pn env pid w'' r.2 (with_mon n (ps_flag s) SEnded s) F' lost'))).
  { intros e msgs. set (w2 := with_os _ _).
    assert (Hpa2 : pabs pn env pid w2 (<[n := (Ptr ba 0, Watching (Ptr d 0) (bname_ptr bn))]> ms)
      (with_mon n (ps_flag s) SWatching s) (own ∪ F) lost).
    { rewrite (pa_flag _ _ _ _ _ _ _ _ Hpa). eapply (pabs_begin w); try done; cbn.
      - rewrite Hc1. by destruct (cfg w).
      - exists msgs. by rewrite Ho1. }
    step pabs_end; [exact Hpa2|by apply list_lookup_insert_eq, (lookup_lt_Some _ _ _ Hn)|].
    intros w' F' Hpa'. rewrite list_insert_insert_eq /with_mon /= list_insert_insert_eq in Hpa'.
    do 2 apply wp_ret. split; [done|]. by exists F', lost. }
  step wp_add_watch; [exact Hstr1|].
  destruct ifd as [e|]; [|destruct wfd as [e|]]; try (intros e' msgs; apply Hfail).
  do 2 apply wp_ret. split; [done|]. exists (own ∪ F), lost. cbn [snd]. eapply (pabs_begin w _ _ _ _ _ _ _ _ _ _ _ 1); try done; cbn.
  - by rewrite Hc1.
  - exists (sys_stdio (os w)). rewrite Ho1. by destruct (os w).
Qed.

Lemma with_mon_id n a s : ps_mons s !! n = Some a → with_mon n (ps_flag s) a s = s.
Proof. intros Hn. rewrite /with_mon list_insert_id //. by destruct s. Qed.

Lemma refines_turn n i w ms s F lost :
  pabs pn env pid w ms s F lost → pvalid (PTurn n i) → wp (run_pevent strerror (PTurn n i) ms) w (prefines (PTurn n i) s).
Proof.
  intros Hpa Hi. cbn [run_pevent]. destruct (pabs_wf _ _ _ _ _ Hpa) as (Hw & Hp & Hsub & Hlv).
  pose proof (pa_phases _ _ _ _ _ _ _ _ Hpa) as Hph.
  destruct (ms !! n) as [[arg ph]|] eqn:Hn.
  2: { apply wp_ret. split; [done|]. exists F, lost. cbn. by rewrite (mons_none _ _ _ _ Hph Hn). }
  destruct (pabs_arg _ _ _ _ _ _ _ _ Hpa Hn) as (ba & name & a & -> & Hname & Hns & HFa & Hstr & Hna & Hok).
  rewrite /prefines. cbn [sp_pevent fst snd]. rewrite Hna.
  destruct ph as [|d b|], a; try done; try (apply wp_ret; split; [done|]; by exists F, lost).
  pose proof (pa_flag _ _ _ _ _ _ _ _ Hpa) as Hfl. rewrite /monitor_turn. apply wp_bind. wp_pure.
  destruct (Z.eqb_spec (log_format_init_done (cfg w)) 0) as [H0|H0]; cbn [negb] in Hfl; rewrite Hfl.
  { step pabs_end; [exact Hpa|exact Hn|]. intros w' F' Hpa'. rewrite Hfl in Hpa'. do 2 apply wp_ret. split; [done|]. by exists F', lost. }
  assert (Hquiet : ∀ w', heap w' = heap w → next w' = next w → tls w' = tls w → plan w' = [] → cfg w' = cfg w →
    (∃ msgs, os w' = with_stdio msgs (os w)) → pabs pn env pid w' (<[n := (Ptr ba 0, Watching d b)]> ms) s F lost).
  { intros w' Hh' Hn' Ht' Hp' Hc' Ho'. rewrite -{1}(with_mon_id _ _ _ Hna) (pa_flag _ _ _ _ _ _ _ _ Hpa).
    eapply pabs_mon; try done; rewrite ?Hh' ?Hn' //; [by intros c; rewrite Hh' Hn'; apply Hw|by rewrite Hc'; destruct (cfg w)|by auto|].
    rewrite list_insert_id //. apply (pa_owned _ _ _ _ _ _ _ _ Hpa). }
  apply wp_bind. destruct i as [|e|files|]; cbn [monitor_round sp_round]; rewrite ?Hname; [| | |done].
  - do 3 apply wp_ret. split; [done|]. exists F, lost. apply Hquiet; try done. exists (sys_stdio (os w)). by destruct (os w).
  - rewrite /when /print. wp_pure. destruct (negb _); [apply wp_modify|apply wp_ret]; do 2 apply wp_ret;
      (split; [done|]; exists F, lost; apply Hquiet; try done; cbn).
    + by eexists.
    + exists (sys_stdio (os w)). by destruct (os w).
  - wp_pure. eapply wp_apply_config_file; [exact Hstr|done|by rewrite /= Hp|apply Hi|].
    intros w' [Hh Hnx Hcf Ht _ _ (q & msgs & Ho) Hp']. do 2 apply wp_ret. split; [done|]. exists F, lost.
    rewrite list_insert_id //. cbn [snd]. destruct Hpa as [Ha He Hpd Hf Hc _ Hth Hg _ How Hlo].
    split; cbn; rewrite ?Ho ?Hcf //=.
    2: { rewrite Hfl. by destruct (Z.eqb_spec (log_format_init_done (cfg w)) 0). }
    eapply (pabs_abs F F w w' s _ (log_format_init_done (cfg w))); rewrite ?Hh ?Ho //; [|by apply Hp'|by auto].
    intros c Hle. rewrite Hh. apply Hw. cbn in *. lia.
Qed.

(** ** The initialisation *)

Lemma pabs_self t w ms s F lost : pabs pn env pid w ms s F lost → pabs pn env pid (with_self t w) ms s F lost.
Proof. intros [(io & L & Ha) ? ? ? ? ? ? ? ? ? ?]. split; try done. exists io, L. by apply abs_self. Qed.

Lemma join_new_same ms (ts : list ptr) : length ts = length ms → join_new ms ts = ms.
Proof. intros Hl. rewrite /join_new -Hl drop_all /= app_nil_r. done. Qed.

Lemma join_new_one ms (ts : list ptr) p : length ts = length ms → join_new ms (ts ++ [p]) = ms ++ [(p, Starting)].
Proof. intros Hl. by rewrite /join_new -Hl drop_app_length. Qed.

(** The blocks of the new thread, or of nobody. *)
Lemma owned_give F ms lost b name :
  owned env F ms lost → env !! LOG_FILE_CONFIG_MAP = Some name → b ∉ dom F →
  owned env ({[b := cstr_block name]} ∪ F) (ms ++ [(Ptr b 0, Starting)]) lost ∧
  owned env ({[b := cstr_block name]} ∪ F) ms (b :: lost).
Proof.
  intros [Hnd Hdom Hnm] Hname Hb. assert (HbF : b ∉ foot ms lost) by by rewrite -Hdom.
  assert (Hall : ∀ ms' lost', foot ms' lost' ≡ₚ b :: foot ms lost →
    (∀ c, c ∈ args ms' ++ lost' ↔ c = b ∨ c ∈ args ms ++ lost) →
    owned env ({[b := cstr_block name]} ∪ F) ms' lost').
  { intros ms' lost' Hf Ha. split.
    - rewrite Hf. by apply NoDup_cons.
    - intros c. rewrite Hf dom_union_L dom_singleton_L elem_of_union elem_of_singleton elem_of_cons Hdom. done.
    - intros c [->|Hc]%Ha; [exists name; split; [done|by apply lookup_union_Some_l, lookup_singleton_eq]|].
      destruct (Hnm c Hc) as (name' & ? & HF). exists name'. split; [done|]. rewrite lookup_union_r //.
      apply lookup_singleton_ne. intros <-. apply Hb. by eapply elem_of_dom_2. }
  split; apply Hall.
  - apply foot_new.
  - intros c. rewrite /args bind_app /= !elem_of_app elem_of_cons elem_of_nil. naive_solver.
  - apply foot_lost.
  - intros c. rewrite !elem_of_app elem_of_cons. naive_solver.
Qed.

Lemma refines_start t m w ms s F lost :
  pabs pn env pid w ms s F lost → wp (run_pevent strerror (PStart t m) ms) w (prefines (PStart t m) s).
Proof.
  intros Hpa. cbn [run_pevent]. wp_pure. apply (pabs_self t) in Hpa as Hpas.
  pose proof Hpa as [(io & L & Ha) He Hpd Hf Hc Hfl Hth Hg Hph How Hlo].
  rewrite /prefines. cbn [sp_pevent]. rewrite /sp_start Hfl.
  destruct (Z.eqb_spec (log_format_init_done (cfg w)) 0) as [H0|H0]; cbn [negb].
  2: { apply wp_bind. eapply wp_eq; [by apply format_initialize_done|]. wp_pure. apply wp_ret. split; [done|].
       exists F, lost. by rewrite /= join_new_same. }
  pose proof (sh_lib _ _ _ _ _ (ab_shared _ _ _ _ _ _ Ha) t) as Hlib.
  pose proof (setting_startup pn env pid Hset _ (os w) He Hf Hpd Hg) as Hok.
  apply wp_bind, (wp_within same_flag (mdclog_format_initialize true m)). eapply wp_format_initialize; [exact Hlib|apply (ab_plan _ _ _ _ _ _ Ha)|exact H0|exact Hok|].
  intros w' io' l es' r given s' [Hl [Ho1 Ho2 Ho3 Ho4] Hdj Hp' Hlv Hself Hot (q & msgs & Hos)] Hm Hd Hid Hw Hflag.
  cbn in Ho1, Ho2, Ho3, Hself, Hot, Hlv, Hos, Hm, Hw. rewrite He Hf in Hlv. rewrite He Hpd in Hm.
  rewrite /same_flag /= H0 in Hflag. wp_pure. apply wp_ret. cbn [fst snd].
  assert (Hcall : ∀ G, dom G = given → G ⊆ heap w' → call_ok G pn t w io L w' io' (Some l) es').
  { intros G <- HG. split; try done. intros _. by apply (lib_init _ _ _ _ _ Hl). }
  assert (Hfill : ∀ G, dom G = given → G ⊆ heap w' → same_io (os w) s' →
    ∃ io L, abs (G ∪ F) pn w' io L (sp_fill pn env pid t (ps_files s) (ps_spec s))).
  { intros G HG1 HG2 Hio. eexists _, _. eapply abs_fill; [exact Hset|exact Ha|by apply Hcall|done..| |done]. by rewrite Hos. }
  rewrite /watch_outcome He Hf Hc in Hw. rewrite /sp_watch /config_file.
  assert (Hquiet : given = ∅ → s' = os w → ∃ F' lost', pabs pn env pid w' (join_new ms (sys_threads (os w')))
    (PSpec (sp_fill pn env pid t (ps_files s) (ps_spec s)) (ps_files s) (ps_creates s) false (ps_mons s) (ps_lost s)) F' lost').
  { intros -> ->. exists F, lost. destruct (Hfill ∅) as (io2 & L2 & Ha2); [apply dom_empty_L|apply map_empty_subseteq|done|].
    rewrite left_id_L in Ha2. split; cbn; rewrite ?Hos ?Hflag //= ?join_new_same //; by eauto. }
  destruct (env !! LOG_FILE_CONFIG_MAP) as [name|] eqn:Hname; cbn [fmap option_fmap option_map].
  2: { destruct Hw as (-> & ? & ?). split; [done|]. by apply Hquiet. }
  destruct (m =? 0); [destruct Hw as (-> & ? & ?); split; [done|]; by apply Hquiet|].
  destruct (ps_files s !! name); [|destruct Hw as (-> & ? & ?); split; [done|]; by apply Hquiet].
  destruct Hw as (b & -> & Hb & Hr & ->). rewrite -Hr. clear Hquiet.
  destruct (Hfill {[b := cstr_block name]}) as (io2 & L2 & Ha2); [apply dom_singleton_L|by apply map_singleton_subseteq_l|done|].
  assert (HbF : b ∉ dom F).
  { intros HF. destruct (frame_foot _ _ _ _ _ t _ (ab_shared _ _ _ _ _ _ Ha) HF) as [Hn Hlt].
    assert (Hin : b ∈ lib_foot io' (Some l) es' ∪ {[b]}) by by apply elem_of_union_r, elem_of_singleton.
    apply Ho2 in Hin as [[?|?] _]; [done|lia]. }
  destruct (owned_give F ms lost b name How Hname HbF) as [How1 How2].
  split; [done|]. destruct (r =? 0) eqn:Hr0; rewrite Hos /create /= Hc -Hr Hr0.
  - exists ({[b := cstr_block name]} ∪ F), lost. rewrite join_new_one //. split; cbn; rewrite ?Hos /= /create ?Hc -?Hr ?Hr0 ?Hflag //.
    + by eauto.
    + rewrite !length_app /=. lia.
    + apply Forall2_app; [done|]. repeat constructor. by exists b.
  - exists ({[b := cstr_block name]} ∪ F), (b :: lost). rewrite join_new_same //. split; cbn; rewrite ?Hos /= /create ?Hc -?Hr ?Hr0 ?Hflag //; [by eauto|].
    by rewrite Hlo.
Qed.

Lemma run_pevent_refines e w ms s F lost :
  pabs pn env pid w ms s F lost → pvalid e → wp (run_pevent strerror e ms) w (prefines e s).
Proof.
  intros Hpa Hv. destruct e as [e|t m|files|n ifd wfd|n i].
  - by eapply refines_call.
  - by eapply refines_start.
  - by eapply refines_edit.
  - by eapply refines_begin.
  - by eapply refines_turn.
Qed.

Lemma run_pevents_refine es w ms s F lost :
  pabs pn env pid w ms s F lost → Forall pvalid es →
  wp (run_pevents strerror es ms) w (λ r w', r.1 = (sp_pevents pn env pid es s).1 ∧
    ∃ F' lost', pabs pn env pid w' r.2 (sp_pevents pn env pid es s).2 F' lost').
Proof.
  intros Hpa Hv. revert w ms s F lost Hpa. induction Hv as [|e es He _ IH]; intros w ms s F lost Hpa; cbn [run_pevents sp_pevents].
  { apply wp_ret. split; [done|]. by exists F, lost. }
  apply wp_bind. eapply wp_mono; [by eapply run_pevent_refines|]. intros [r ms1] w1 (Hr & F1 & lost1 & Hpa1). cbn [fst snd] in *.
  apply wp_bind. eapply wp_mono; [by eapply IH|]. intros [rs ms2] w2 (Hrs & F2 & lost2 & Hpa2). cbn [fst snd] in *.
  apply wp_ret. destruct (sp_pevent pn env pid e s) as [r' s1]. cbn [fst snd] in *.
  destruct (sp_pevents pn env pid es s1) as [rs' s2]. cbn [fst snd] in *. split; [congruence|]. by exists F2, lost2.
Qed.

Lemma pboot_pabs files creates :
  good_files files → pabs pn env pid (pboot pn env files pid creates) [] (sp_pboot files creates) ∅ [].
Proof.
  intros Hg. split; try done.
  - exists None, (λ _, (None, [])). rewrite -(sp_with_level_id (ps_spec _)).
    destruct (se_name _ _ _ Hset) as [Hn Hl]. by eapply (abs_private ∅ ∅ pn (boot (Lit pn 0)) _ _ _ _ _ 0); [by apply boot_abs|..].
  - split; [constructor| |].
    + intros b. cbn. split; [by intros ?%not_elem_of_empty|by intros ?%elem_of_nil].
    + by intros b ?%elem_of_nil.
Qed.
End refinement.

(** ** The machine *)

Section machine_facts.
Context (pn : list Z) (env : gmap (list Z) (list Z)) (pid : Z).
Implicit Types (s : pspec) (es : list pevent).

Abbreviation step := (sp_pevent pn env pid).
Abbreviation steps := (sp_pevents pn env pid).

Lemma steps_cons e es s : (steps (e :: es) s).2 = (steps es (step e s).2).2.
Proof. cbn. destruct (step e s) as [r s1]. cbn. by destruct (steps es s1). Qed.

Lemma steps_app es1 es2 s : (steps (es1 ++ es2) s).2 = (steps es2 (steps es1 s).2).2.
Proof. revert s. induction es1 as [|e es1 IH]; intros s; [done|]. by rewrite -app_comm_cons !steps_cons IH. Qed.

(** What holds of a state and is kept by each of some events holds after them. *)
Lemma steps_ind (P : pspec → Prop) es s :
  (∀ e s, e ∈ es → P s → P (step e s).2) → P s → P (steps es s).2.
Proof.
  revert s. induction es as [|e es IH]; intros s He Hs; [done|]. rewrite steps_cons. apply IH.
  - intros e' s' Hin. apply He. by right.
  - apply He; [by left|done].
Qed.

(** Events leave monitors where they are or move them on. *)
Lemma step_mons e s n a :
  ps_mons s !! n = Some a →
  ∃ a', ps_mons (step e s).2 !! n = Some a' ∧
    match a with SStarting => True | SWatching => a' ≠ SStarting | SEnded => a' = SEnded end.
Proof.
  intros Hn. assert (Hsame : ∃ a', ps_mons s !! n = Some a' ∧
    match a with SStarting => True | SWatching => a' ≠ SStarting | SEnded => a' = SEnded end) by (exists a; by destruct a).
  assert (Hset : ∀ k fl ph, ps_mons s !! k ≠ Some SEnded → ph ≠ SStarting → ∃ a', ps_mons (with_mon k fl ph s) !! n = Some a' ∧
    match a with SStarting => True | SWatching => a' ≠ SStarting | SEnded => a' = SEnded end).
  { intros k fl ph Hk Hph. cbn. destruct (decide (k = n)) as [->|Hne]; [|by rewrite list_lookup_insert_ne].
    rewrite list_lookup_insert_eq; [|by eapply lookup_lt_Some]. exists ph. split; [done|]. destruct a; [done|done|congruence]. }
  destruct e as [e|t m|files|k ifd wfd|k i]; cbn [sp_pevent]; try done.
  - destruct (sp_event pn e (ps_spec s)). done.
  - rewrite /sp_start. destruct (ps_flag s); [done|]. destruct (sp_watch _ _ _ _) as [r [|]]; [|done].
    destruct (r =? 0); cbn; [|done]. destruct Hsame as (a' & Ha' & Hr). exists a'. split; [by apply lookup_app_l_Some|done].
  - cbn [snd]. destruct (ps_mons s !! k) as [[| |]|] eqn:Hk; try done. destruct ifd, wfd; apply Hset; congruence.
  - cbn [snd]. destruct (ps_mons s !! k) as [[| |]|] eqn:Hk; try done.
    destruct (ps_flag s); [|apply Hset; congruence]. rewrite /sp_round. by repeat case_match.
Qed.

Lemma step_length e s : (length (ps_mons (step e s).2) ≤ S (length (ps_mons s)))%nat.
Proof.
  destruct e as [e|t m|files|k ifd wfd|k i]; cbn [sp_pevent snd]; [| |cbn; lia| |].
  - destruct (sp_event pn e (ps_spec s)). cbn. lia.
  - rewrite /sp_start. destruct (ps_flag s); [cbn; lia|]. destruct (sp_watch _ _ _ _) as [r [|]]; [|cbn; lia].
    destruct (r =? 0); cbn; rewrite ?length_app /=; lia.
  - destruct (ps_mons s !! k) as [[| |]|], ifd, wfd; cbn; rewrite ?length_insert; lia.
  - rewrite /sp_round. repeat case_match; cbn; rewrite ?length_insert; lia.
Qed.

Lemma steps_length es s : (length (ps_mons (steps es s).2) ≤ length es + length (ps_mons s))%nat.
Proof.
  revert s. induction es as [|e es IH]; intros s; [done|]. rewrite steps_cons. specialize (IH (step e s).2).
  pose proof (step_length e s). cbn [length]. lia.
Qed.

(** The flag and the monitors while the files are [files] and threads can be created. *)
Definition watched (files : gmap (list Z) (list Z)) (flag : bool) (mons : list sphase) s : Prop :=
  ps_flag s = flag ∧ ps_mons s = mons ∧ ps_files s = files ∧ ps_creates s = [].

Lemma watched_start files mons s t name file :
  env !! LOG_FILE_CONFIG_MAP = Some name → files !! name = Some file →
  watched files false mons s → watched files false (mons ++ [SStarting]) (step (PStart t 1) s).2.
Proof.
  intros Hn Hfile (Hf & <- & Hfi & Hc). cbn [sp_pevent]. rewrite /watched /sp_start Hf /sp_watch /config_file Hn.
  cbn [fmap option_fmap option_map]. by rewrite Hfi Hfile Hc.
Qed.

Lemma watched_begin files flag mons s n :
  mons !! n = Some SStarting → watched files flag mons s →
  watched files true (<[n := SWatching]> mons) (step (PBegin n None None) s).2.
Proof. intros Hn (Hf & <- & Hfi & Hc). cbn. by rewrite Hn. Qed.

Lemma watched_clean files flag mons s t :
  watched files flag mons s → watched files false mons (step (PCall (Call t CallLibClean)) s).2.
Proof. by intros (Hf & Hm & Hfi & Hc). Qed.

Lemma watched_turn files mons s n :
  mons !! n = Some SWatching → watched files true mons s → watched files true mons (step (PTurn n SelectTimeout) s).2.
Proof. intros Hn (Hf & <- & Hfi & Hc). cbn. by rewrite Hn Hf. Qed.

(** Events that do not set the level. *)
Definition keeps_level (e : pevent) : Prop :=
  match e with
  | PCall (Call _ (CallLevelSet _)) | PStart _ _ | PTurn _ (FileChanged _) => False
  | _ => True
  end.

Lemma step_level e s : keeps_level e → sp_level (ps_spec (step e s).2) = sp_level (ps_spec s).
Proof.
  intros He. destruct e as [e|t m|files|k ifd wfd|k i]; cbn [sp_pevent]; try done.
  - destruct (sp_event pn e (ps_spec s)) as [r s1] eqn:Hs. cbn. replace s1 with (sp_event pn e (ps_spec s)).2 by by rewrite Hs.
    destruct (sp_ready_proj pn (ps_spec s)) as (H1 & _). destruct e as [t c|tv]; [|done].
    destruct c; try done; cbn; rewrite ?H1; try case_match; cbn; by rewrite ?H1.
  - cbn. by destruct (ps_mons s !! k) as [[| |]|], ifd, wfd.
  - cbn. destruct (ps_mons s !! k) as [[| |]|]; try done. by destruct (ps_flag s), i.
Qed.

(** ** The end of a process *)

(** The threads that made calls. *)
Definition callers es : list positive :=
  omap (λ e, match e with PCall (Call t _) | PStart t _ => Some t | _ => None end) es.

(** Every monitor gets to its loop, the callers end, the library is cleaned up, and
    every monitor has one more turn. *)
Definition begins (k : nat) : list pevent := (λ n, PBegin n None None) <$> seq 0 k.
Definition turns (k : nat) : list pevent := (λ n, PTurn n SelectTimeout) <$> seq 0 k.
Definition wind_down (t0 : positive) es : list pevent :=
  begins (length es) ++ (PCall <$> exits (callers es)) ++ [PCall (Call t0 CallLibClean)] ++ turns (length es).

Lemma steps_calls evs s : ps_spec (steps (PCall <$> evs) s).2 = (sp_events pn evs (ps_spec s)).2.
Proof.
  revert s. induction evs as [|e evs IH]; intros s; [done|]. rewrite fmap_cons steps_cons IH sp_events_cons.
  cbn [sp_pevent]. by destruct (sp_event pn e (ps_spec s)).
Qed.

Lemma steps_calls_mons evs s :
  ps_mons (steps (PCall <$> evs) s).2 = ps_mons s ∧ ps_lost (steps (PCall <$> evs) s).2 = ps_lost s.
Proof.
  revert s. induction evs as [|e evs IH]; intros s; [done|]. rewrite fmap_cons steps_cons.
  destruct (IH (step (PCall e) s).2) as [-> ->]. cbn [sp_pevent]. by destruct (sp_event pn e (ps_spec s)).
Qed.

Lemma step_list e s t : t ∉ callers [e] → sp_list (ps_spec (step e s).2) t = sp_list (ps_spec s) t.
Proof.
  intros Ht. destruct e as [e|t' m|files|k ifd wfd|k i]; cbn [sp_pevent].
  - pose proof (sp_events_list pn [e] (ps_spec s) t) as Hl. rewrite sp_events_cons in Hl. cbn [sp_events snd] in Hl.
    destruct (sp_event pn e (ps_spec s)) as [r s1]. cbn in *. apply Hl. destruct e; [|by apply not_elem_of_nil]. exact Ht.
  - cbn in Ht. apply not_elem_of_cons in Ht as [Ht _]. rewrite /sp_start. destruct (ps_flag s); [done|].
    assert (Hf : sp_list (sp_fill pn env pid t' (ps_files s) (ps_spec s)) t = sp_list (ps_spec s) t).
    { cbn. rewrite fn_lookup_insert_ne //. by destruct (sp_ready_proj pn (ps_spec s)) as (_ & _ & _ & -> & _). }
    destruct (sp_watch _ _ _ _) as [r [|]]; [|done]. by destruct (r =? 0).
  - done.
  - cbn. by destruct (ps_mons s !! k) as [[| |]|], ifd, wfd.
  - cbn. rewrite /sp_round. by repeat case_match.
Qed.

Lemma steps_list es s t : t ∉ callers es → sp_list (ps_spec (steps es s).2) t = sp_list (ps_spec s) t.
Proof.
  intros Ht. apply (steps_ind (λ s', sp_list (ps_spec s') t = sp_list (ps_spec s) t)); [|done].
  intros e s' He <-. apply step_list. intros Hin. apply Ht. apply list_elem_of_omap in Hin as (e' & ->%list_elem_of_singleton & Hq).
  apply list_elem_of_omap. by exists e.
Qed.

(** No monitor waits after the first part. *)
Lemma steps_begins k s :
  (∀ n a, (n < k)%nat → ps_mons (steps (begins k) s).2 !! n = Some a → a ≠ SStarting) ∧
  length (ps_mons (steps (begins k) s).2) = length (ps_mons s) ∧
  ps_spec (steps (begins k) s).2 = ps_spec s.
Proof.
  induction k as [|k (IH & Hl & Hs)]; [split; [lia|done]|]. rewrite /begins seq_S fmap_app steps_app. fold (begins k).
  set (s1 := (steps (begins k) s).2) in *. cbn [fmap list_fmap]. rewrite steps_cons. cbn [sp_pevents sp_pevent snd Nat.add].
  destruct (ps_mons s1 !! k) as [b|] eqn:Hk.
  2: { split; [|done]. intros n a Hn Ha. destruct (decide (n = k)) as [->|]; [congruence|]. apply (IH n); [lia|done]. }
  assert (Hlt : (k < length (ps_mons s1))%nat) by by eapply lookup_lt_Some.
  destruct b; cbn; rewrite ?length_insert.
  1: split; [|done]; intros n a Hn; destruct (decide (k = n)) as [->|]; 
    [rewrite list_lookup_insert_eq //; congruence|rewrite list_lookup_insert_ne //; apply IH; lia].
  all: split; [|done]; intros n a Hn Ha; destruct (decide (n = k)) as [->|]; [congruence|]; apply (IH n); [lia|done].
Qed.

(** They all end once the flag is clear. *)
Lemma steps_turns k s :
  ps_flag s = false → (∀ n a, ps_mons s !! n = Some a → a ≠ SStarting) →
  let s' := (steps (turns k) s).2 in
  ps_flag s' = false ∧ ps_spec s' = ps_spec s ∧ length (ps_mons s') = length (ps_mons s) ∧ ps_lost s' = ps_lost s ∧
  ∀ n a, ps_mons s' !! n = Some a → a ≠ SStarting ∧ ((n < k)%nat → a = SEnded).
Proof.
  intros Hf Hm. induction k as [|k (IH1 & IH2 & IH3 & IH4 & IH5)].
  { split_and!; try done. intros n a Ha. split; [by eapply Hm|lia]. }
  rewrite /turns seq_S fmap_app steps_app. fold (turns k). set (s1 := (steps (turns k) s).2) in *.
  cbn [fmap list_fmap]. rewrite steps_cons. cbn [sp_pevents sp_pevent snd Nat.add]. rewrite IH1.
  assert (Hkeep : ps_mons s1 !! k ≠ Some SWatching → ∀ n a, ps_mons s1 !! n = Some a → a ≠ SStarting ∧ ((n < S k)%nat → a = SEnded)).
  { intros Hw n a Ha. destruct (IH5 n a Ha) as [H1 H2]. split; [done|]. intros Hn.
    destruct (decide (n = k)) as [->|]; [|apply H2; lia]. destruct a; [done|congruence|done]. }
  destruct (ps_mons s1 !! k) as [[| |]|] eqn:Hk; try (split_and!; try done; by apply Hkeep).
  assert (Hlt : (k < length (ps_mons s1))%nat) by by eapply lookup_lt_Some.
  cbn. rewrite length_insert. split_and!; try done. intros n a. destruct (decide (k = n)) as [->|].
  - rewrite list_lookup_insert_eq //. by intros [= <-].
  - rewrite list_lookup_insert_ne //. intros Ha. destruct (IH5 n a Ha) as [H1 H2]. split; [done|]. intros ?. apply H2. lia.
Qed.

(** After the end there is nothing but the ended monitors. *)
Lemma steps_wind_down t0 es files creates :
  let s' := (steps (es ++ wind_down t0 es) (sp_pboot files creates)).2 in
  (∀ t, sp_list (ps_spec s') t = false) ∧ sp_ident (ps_spec s') = None ∧ Forall (eq SEnded) (ps_mons s').
Proof.
  set (s0 := sp_pboot files creates). cbn zeta. rewrite /wind_down !steps_app. set (s1 := (steps es s0).2).
  pose proof (steps_length es s0) as Hlen. fold s1 in Hlen. cbn in Hlen.
  destruct (steps_begins (length es) s1) as (Hb1 & Hb2 & Hb3). set (s2 := (steps (begins (length es)) s1).2) in *.
  destruct (steps_calls_mons (exits (callers es)) s2) as [Hc1 _].
  pose proof (steps_calls (exits (callers es)) s2) as Hc2. set (s3 := (steps (PCall <$> exits (callers es)) s2).2) in *.
  rewrite steps_cons. set (s4 := (step (PCall (Call t0 CallLibClean)) s3).2). cbn [sp_pevents snd].
  assert (Hm4 : ps_mons s4 = ps_mons s2) by by rewrite -Hc1.
  destruct (steps_turns (length es) s4) as (_ & Ht2 & Ht3 & _ & Ht5); [done| |].
  { intros n a. rewrite Hm4. intros Ha. apply (Hb1 n); [|done]. apply lookup_lt_Some in Ha. lia. }
  rewrite Ht2. split_and!; [|done|].
  - intros t. cbn. rewrite Hc2 Hb3. apply sp_exits_list. destruct (decide (t ∈ callers es)); [by right|left].
    by rewrite steps_list.
  - apply Forall_lookup. intros n a Ha. symmetry. apply (Ht5 n a Ha). apply lookup_lt_Some in Ha. rewrite Ht3 Hm4 in Ha. lia.
Qed.
End machine_facts.

(** ** Turns of a monitor *)

Section turns.
Context (strerror : Z → list Z).

Lemma turns_ended fileName inputs w : monitor_turns strerror fileName Ended inputs w = Ok Ended w.
Proof. induction inputs as [|i inputs IH]; [done|]. cbn [monitor_turns]. by erewrite bind_ok; [|done]. Qed.

(** The loop and the end of the handler. *)
Lemma turns_loop fileName d b inputs w :
  (ended ← monitor_loop true strerror fileName inputs;
   (if (ended : bool) then mret tt else stopped OutOfFuel) ;;
   free_names d b) w =
  (ph ← monitor_turns strerror fileName (Watching d b) (inputs ++ [SelectTimeout]);
   match ph with Ended => mret tt | _ => stopped OutOfFuel end) w.
Proof.
  assert (Hstop : ∀ inputs w, (log_format_init_done (cfg w) =? 0) = true → monitor_loop true strerror fileName inputs w = Ok true w).
  { intros [|i l] w0 Hf; cbn [monitor_loop]; (erewrite bind_ok; [|done]); by rewrite Hf. }
  revert w. induction inputs as [|i inputs IH]; intros w.
  - rewrite app_nil_l. cbn [monitor_turns]. rewrite /monitor_turn /mbind /M_bind /gets.
    destruct (log_format_init_done (cfg w) =? 0) eqn:Hf.
    + rewrite (Hstop _ _ Hf) /mret /M_ret. by destruct (free_names d b w) as [[]|].
    + cbn [monitor_loop monitor_round]. by rewrite /mbind /M_bind /gets Hf.
  - rewrite -app_comm_cons. cbn [monitor_turns]. rewrite /monitor_turn.
    destruct (log_format_init_done (cfg w) =? 0) eqn:Hf.
    + erewrite bind_ok; [|by apply Hstop]. cbn beta iota. rewrite /mbind /M_bind /gets. rewrite Hf /mret /M_ret.
      destruct (free_names d b w) as [[] w1|]; [|done]. by rewrite turns_ended.
    + cbn [monitor_loop]. specialize (IH). rewrite /mbind /M_bind /gets in IH |- *. rewrite Hf.
      destruct (monitor_round true strerror fileName i w) as [[] w1|]; [|done]. apply IH.
Qed.

(** The handler of the monitor is its beginning, one turn after the other, and its
    end, so that the turns of the process are those of the code. *)
Lemma handler_turns ifd wfd fileName inputs w :
  monitor_loglevel_change_handler true strerror ifd wfd fileName inputs w =
  (ph ← monitor_begin strerror ifd wfd fileName;
   ph ← monitor_turns strerror fileName ph (inputs ++ [SelectTimeout]);
   match ph with Ended => mret tt | _ => stopped OutOfFuel end) w.
Proof.
  rewrite /monitor_loglevel_change_handler /monitor_begin /mbind /M_bind.
  destruct (split_name fileName w) as [[d b] w1|]; [|done].
  destruct (add_watch strerror ifd wfd fileName w1) as [[|] w2|]; [| |done].
  - pose proof (turns_loop fileName d b inputs w2) as Hl. rewrite /mbind /M_bind in Hl.
    destruct (monitor_loop true strerror fileName inputs w2); apply Hl.
  - rewrite /mret /M_ret. destruct (free_names d b w2) as [[] w3|]; [|done]. by rewrite turns_ended.
Qed.
End turns.

(** Monitors that have ended own their arguments only. *)
Lemma ended_foot (ms : monitors) mons :
  Forall2 (λ m a, (∃ b, m.1 = Ptr b 0) ∧ phase_ok m.2 a) ms mons → Forall (eq SEnded) mons →
  length (args ms) = length ms ∧ names ms = [].
Proof.
  induction 1 as [|[p ph] a ms mons ((b & Hp) & Hok) _ IH]; intros He; [done|]. cbn in Hp. subst p.
  apply Forall_cons in He as [<- He]. destruct (IH He) as [IH1 IH2]. cbn in Hok. destruct ph; try done.
  rewrite /args /names in IH1, IH2 |- *. cbn. by rewrite IH1 IH2.
Qed.

(** Monitors that watch. *)
Lemma all_watching (ms : monitors) mons :
  Forall2 (λ m a, (∃ b, m.1 = Ptr b 0) ∧ phase_ok m.2 a) ms mons → Forall (eq SWatching) mons →
  Forall (λ m, ∃ d b, m.2 = Watching d b) ms ∧ length ms = length mons.
Proof.
  intros Hph Hw. split; [|by eapply Forall2_length]. revert Hw.
  induction Hph as [|[p ph] a ms mons [_ Hok] _ IH]; intros He; [done|].
  apply Forall_cons in He as [<- He]. constructor; [|by apply IH]. cbn in Hok |- *. destruct ph; try done. by eexists _, _.
Qed.

(** A process from its start. *)
Lemma run_from_boot strerror pn env files pid creates es :
  setting_ok pn env pid → good_files files → Forall pvalid es →
  ∃ ms w F lost, run_pevents strerror es [] (pboot pn env files pid creates) =
      Ok ((sp_pevents pn env pid es (sp_pboot files creates)).1, ms) w ∧
    pabs pn env pid w ms (sp_pevents pn env pid es (sp_pboot files creates)).2 F lost.
Proof.
  intros Hset Hg Hv. destruct (proj1 (wp_run _ _ _) (run_pevents_refine strerror pn env pid Hset es _ _ _ _ _
    (pboot_pabs pn env pid Hset files creates Hg) Hv)) as ([rs ms] & w & Hrun & Hrs & F & lost & Hpa).
  cbn [fst snd] in *. exists ms, w, F, lost. by rewrite -Hrs.
Qed.

(** ** Properties *)

(** C1: the whole process implements the abstract machine: whatever the callers, the
    initialisations, the edits of the files and the turns of the monitor threads, in any
    order, every event returns with the machine's answer, the lines written and the level
    are the machine's, and so are the monitors and the phase each is in. *)
Theorem process_refines strerror pn env files pid creates es :
  setting_ok pn env pid → good_files files → Forall pvalid es →
  let s := (sp_pevents pn env pid es (sp_pboot files creates)).2 in
  ∃ ms w, run_pevents strerror es [] (pboot pn env files pid creates) =
      Ok ((sp_pevents pn env pid es (sp_pboot files creates)).1, ms) w ∧
    sys_stdout (os w) = sp_out (ps_spec s) ∧ current_level (cfg w) = sp_level (ps_spec s) ∧
    Forall2 (λ m a, phase_ok m.2 a) ms (ps_mons s).
Proof.
  intros Hset Hg Hv. destruct (run_from_boot strerror pn env files pid creates es Hset Hg Hv)
    as (ms & w & F & lost & Hrun & [(io & L & Ha) _ _ _ _ _ _ _ Hph _ _]).
  exists ms, w. split_and!; [done|apply (ab_out _ _ _ _ _ _ Ha)|apply (ab_level _ _ _ _ _ _ Ha)|].
  eapply Forall2_impl; [exact Hph|]. by intros m a [_ ?].
Qed.

(** C8: a process whose monitors have reached their loops, whose callers have ended and
    which has cleaned the library leaves nothing on the heap once every monitor has had
    one more turn, except one copy of the name of the configuration file for every
    monitor thread it created or failed to create. *)
Theorem process_leaks strerror pn env files pid creates es t0 :
  setting_ok pn env pid → good_files files → Forall pvalid es →
  let es' := es ++ wind_down t0 es in
  let s := (sp_pevents pn env pid es' (sp_pboot files creates)).2 in
  ∃ rs ms w, run_pevents strerror es' [] (pboot pn env files pid creates) = Ok (rs, ms) w ∧
    size (heap w) = (length (ps_mons s) + ps_lost s)%nat ∧
    ∀ b x, heap w !! b = Some x → ∃ name, env !! LOG_FILE_CONFIG_MAP = Some name ∧ x = cstr_block name.
Proof.
  intros Hset Hg Hv. cbn zeta.
  assert (Hv' : Forall pvalid (es ++ wind_down t0 es)).
  { apply Forall_app. split; [done|]. rewrite /wind_down !Forall_app. split_and!; [| |by repeat constructor|];
      apply Forall_fmap, Forall_forall; try done. by intros ? (t & -> & _)%list_elem_of_fmap. }
  destruct (run_from_boot strerror pn env files pid creates _ Hset Hg Hv')
    as (ms & w & F & lost & Hrun & [(io & L & Ha) _ _ _ _ _ _ _ Hph [Hnd Hdom Hnm] Hlo]).
  destruct (steps_wind_down pn env pid t0 es files creates) as (Hl & Hid & Hend).
  set (s := (sp_pevents pn env pid _ (sp_pboot files creates)).2) in *.
  pose proof (abs_empty _ _ _ _ _ _ Ha Hl Hid) as Hh. eexists _, ms, w. split; [done|]. rewrite Hh.
  destruct (ended_foot _ _ Hph Hend) as [Hargs Hnames].
  assert (Hf : foot ms lost = args ms ++ lost) by by rewrite /foot Hnames app_nil_r.
  rewrite Hf in Hnd, Hdom. split.
  - rewrite -size_dom. replace (dom F) with (list_to_set (args ms ++ lost) : gset positive) by (apply set_eq; intros b; by rewrite elem_of_list_to_set Hdom).
    by rewrite size_list_to_set // length_app Hargs Hlo (Forall2_length _ _ _ Hph).
  - intros b x Hx. destruct (Hnm b) as (name & Hname & HF); [by apply Hdom; eapply elem_of_dom_2|]. exists name. split; [done|congruence].
Qed.

(** C9: a change of the file that a watching monitor sees is the level of every caller
    from then on, until the level is set again. *)
Theorem change_sets_level strerror pn env files pid creates es1 n files' name es2 :
  setting_ok pn env pid → good_files files → Forall pvalid es1 → good_files files' → Forall pvalid es2 →
  env !! LOG_FILE_CONFIG_MAP = Some name → Forall keeps_level es2 →
  ps_flag (sp_pevents pn env pid es1 (sp_pboot files creates)).2 = true →
  ps_mons (sp_pevents pn env pid es1 (sp_pboot files creates)).2 !! n = Some SWatching →
  ∃ rs ms w, run_pevents strerror (es1 ++ PTurn n (FileChanged files') :: es2) [] (pboot pn env files pid creates) =
      Ok (rs, ms) w ∧ current_level (cfg w) = file_level (files' !! name).
Proof.
  intros Hset Hg Hv1 Hg' Hv2 Hname Hk Hf Hm.
  assert (Hv : Forall pvalid (es1 ++ PTurn n (FileChanged files') :: es2)) by (apply Forall_app; split; [done|by constructor]).
  destruct (run_from_boot strerror pn env files pid creates _ Hset Hg Hv)
    as (ms & w & F & lost & Hrun & [(io & L & Ha) _ _ _ _ _ _ _ _ _ _]). eexists _, ms, w. split; [done|].
  rewrite (ab_level _ _ _ _ _ _ Ha) steps_app steps_cons.
  set (s1 := (sp_pevents pn env pid es1 (sp_pboot files creates)).2) in *.
  assert (Hs : sp_level (ps_spec (sp_pevent pn env pid (PTurn n (FileChanged files')) s1).2) = file_level (files' !! name)).
  { cbn [sp_pevent snd]. by rewrite Hm Hf /sp_round Hname. }
  rewrite -Hs. apply (steps_ind pn env pid (λ s, sp_level (ps_spec s) = _)); [|done].
  intros e s He <-. apply step_level. by eapply Forall_forall in Hk.
Qed.

(** C33: one flag does not tell monitors apart: if the process is initialised again
    before the monitor has set the flag, or if the library is cleaned and initialised
    again before the monitor has looked at it, there are two monitors, which both watch
    the file. *)
Theorem monitors_multiply strerror pn env files pid name file t es :
  setting_ok pn env pid → good_files files → env !! LOG_FILE_CONFIG_MAP = Some name → files !! name = Some file →
  es = [PStart t 1; PStart t 1; PBegin 0 None None; PBegin 1 None None; PTurn 0 SelectTimeout] ∨
  es = [PStart t 1; PBegin 0 None None; PCall (Call t CallLibClean); PStart t 1; PBegin 1 None None; PTurn 0 SelectTimeout] →
  ∃ rs ms w, run_pevents strerror es [] (pboot pn env files pid []) = Ok (rs, ms) w ∧
    length ms = 2%nat ∧ Forall (λ m, ∃ d b, m.2 = Watching d b) ms.
Proof.
  intros Hset Hg Hname Hfile Hes.
  assert (Hv : Forall pvalid es) by (destruct Hes as [->| ->]; repeat (apply Forall_cons; split; [exact I|]); apply Forall_nil_2).
  destruct (run_from_boot strerror pn env files pid [] es Hset Hg Hv)
    as (ms & w & F & lost & Hrun & [_ _ _ _ _ _ _ _ Hph _ _]).
  assert (Hm : ps_mons (sp_pevents pn env pid es (sp_pboot files [])).2 = [SWatching; SWatching]).
  { pose proof (watched_start pn env pid files [] (sp_pboot files []) t name file Hname Hfile ltac:(done)) as H1.
    destruct Hes as [-> | ->]; rewrite !steps_cons.
    - apply (watched_start pn env pid _ _ _ t name file Hname Hfile) in H1 as H2.
      apply (watched_begin pn env pid _ _ _ _ 0) in H2 as H3; [|done]. apply (watched_begin pn env pid _ _ _ _ 1) in H3 as H4; [|done].
      by apply (watched_turn pn env pid _ _ _ 0) in H4 as (_ & H5 & _).
    - apply (watched_begin pn env pid _ _ _ _ 0) in H1 as H2; [|done]. apply (watched_clean pn env pid _ _ _ _ t) in H2 as H3.
      apply (watched_start pn env pid _ _ _ t name file Hname Hfile) in H3 as H4.
      apply (watched_begin pn env pid _ _ _ _ 1) in H4 as H5; [|done]. by apply (watched_turn pn env pid _ _ _ 0) in H5 as (_ & H6 & _). }
  rewrite Hm in Hph. destruct (all_watching _ _ Hph) as [Hw Hl]; [by repeat constructor|]. by eexists _, ms, w.
Qed.

(** A process with a host name and a configuration file, two threads, and a monitor that
    sees a change. *)
Definition demo_env : gmap (list Z) (list Z) := {[lit "HOST_NAME" := lit "node"; LOG_FILE_CONFIG_MAP := lit "cfg"]}.
Definition demo_files (text : list Z) : gmap (list Z) (list Z) := {[lit "cfg" := text]}.
Definition debug_file : list Z := lit "log-level: DEBUG" ++ [NL].
Definition demo_watch : list pevent :=
  [PStart 1 1; PBegin 0 None None; PCall (Call 2 (CallWrite MDCLOG_INFO (lit "hi")))].
Definition demo_change : list pevent := [PCall (Call 2 (CallWrite MDCLOG_DEBUG (lit "ho")))].

Lemma demo_files_good text : good_file (Some text) → good_files (demo_files text).
Proof.
  intros Ht name. rewrite /demo_files. destruct (decide (name = lit "cfg")) as [->|Hne].
  - by rewrite lookup_singleton_eq.
  - rewrite lookup_singleton_ne //. split; [constructor|by vm_compute].
Qed.

Lemma info_good : good_files (demo_files info_file).
Proof. apply demo_files_good. destruct info_parse as [Hs Hv]. rewrite /good_file /=. by rewrite Hv. Qed.

Lemma debug_good : good_files (demo_files debug_file).
Proof. apply demo_files_good. split; [by repeat constructor|by vm_compute]. Qed.

Lemma demo_setting : setting_ok (lit "app") demo_env 42.
Proof.
  split; [split; [by repeat constructor|by vm_compute]| |lia].
  intros k v Hk. rewrite /demo_env in Hk. apply lookup_insert_Some in Hk as [[_ <-]|[_ [_ <-]%lookup_singleton_Some]];
    (split; [by repeat constructor|by vm_compute]).
Qed.

Lemma demo_watch_valid : Forall pvalid demo_watch.
Proof. repeat (apply Forall_cons; split; [|]); try exact I; [split; [by repeat constructor|by vm_compute]|apply Forall_nil_2]. Qed.

Lemma process_refines_witness : ∃ ms w,
  run_pevents (λ _, []) demo_watch [] (pboot (lit "app") demo_env (demo_files info_file) 42 []) =
    Ok ([RInt 0; RNone; RNone], ms) w ∧
  sys_stdout (os w) = [qlit "{'ts':0,'crit':'INFO','id':'app','mdc':{},'msg':'hi'}" ++ [NL]] ∧
  current_level (cfg w) = MDCLOG_INFO ∧ length ms = 1%nat.
Proof.
  destruct (process_refines (λ _, []) (lit "app") demo_env (demo_files info_file) 42 [] demo_watch
    demo_setting info_good demo_watch_valid) as (ms & w & Hrun & Hout & Hlv & Hph).
  exists ms, w. apply Forall2_length in Hph.
  assert (Hr : (sp_pevents (lit "app") demo_env 42 demo_watch (sp_pboot (demo_files info_file) [])).1 =
    [RInt 0; RNone; RNone]) by (vm_compute; reflexivity).
  split; [rewrite -Hr; exact Hrun|]. rewrite Hout Hlv Hph. split; [vm_compute; reflexivity|]. split; vm_compute; reflexivity.
Defined.

Lemma process_leaks_witness : ∃ rs ms w,
  run_pevents (λ _, []) (demo_watch ++ wind_down 1 demo_watch) []
    (pboot (lit "app") demo_env (demo_files info_file) 42 []) = Ok (rs, ms) w ∧ size (heap w) = 1%nat.
Proof.
  destruct (process_leaks (λ _, []) (lit "app") demo_env (demo_files info_file) 42 [] demo_watch 1
    demo_setting info_good demo_watch_valid) as (rs & ms & w & Hrun & Hsize & _).
  exists rs, ms, w. split; [exact Hrun|]. rewrite Hsize. vm_compute. reflexivity.
Defined.

Lemma change_sets_level_witness : ∃ rs ms w,
  run_pevents (λ _, []) (demo_watch ++ PTurn 0 (FileChanged (demo_files debug_file)) :: demo_change) []
    (pboot (lit "app") demo_env (demo_files info_file) 42 []) = Ok (rs, ms) w ∧ current_level (cfg w) = MDCLOG_DEBUG.
Proof.
  destruct (change_sets_level (λ _, []) (lit "app") demo_env (demo_files info_file) 42 [] demo_watch 0
    (demo_files debug_file) (lit "cfg") demo_change) as (rs & ms & w & Hrun & Hlv).
  - exact demo_setting.
  - exact info_good.
  - exact demo_watch_valid.
  - exact debug_good.
  - apply Forall_cons. split; [split; [by repeat constructor|by vm_compute]|apply Forall_nil_2].
  - vm_compute. reflexivity.
  - by repeat constructor.
  - vm_compute. reflexivity.
  - vm_compute. reflexivity.
  - exists rs, ms, w. split; [exact Hrun|]. rewrite Hlv. vm_compute. reflexivity.
Defined.

Lemma monitors_multiply_witness : ∃ rs ms w,
  run_pevents (λ _, []) [PStart 1 1; PStart 1 1; PBegin 0 None None; PBegin 1 None None; PTurn 0 SelectTimeout] []
    (pboot (lit "app") demo_env (demo_files info_file) 42 []) = Ok (rs, ms) w ∧ length ms = 2%nat.
Proof.
  destruct (monitors_multiply (λ _, []) (lit "app") demo_env (demo_files info_file) 42 (lit "cfg") info_file 1
    [PStart 1 1; PStart 1 1; PBegin 0 None None; PBegin 1 None None; PTurn 0 SelectTimeout]) as (rs & ms & w & Hrun & Hl & _).
  - exact demo_setting.
  - exact info_good.
  - vm_compute. reflexivity.
  - vm_compute. reflexivity.
  - by left.
  - exists rs, ms, w. split; [exact Hrun|exact Hl].
Defined.
