(* ===== verification/Json.v ===== *)
(** What a log entry is: a JSON object.

    The first part is a reader and a writer of JSON values (RFC 8259, without white
    space, arrays, literals, fractions and \u escapes, which the library never
    writes), and the theorem that the reader undoes the writer.  The second part says
    that the text of an entry is what the writer makes of the object of its fields, so
    that a reader of the log gets the fields back; the third follows that through
    every run of the process, and shows the identity that breaks it. *)

From stdpp Require Import functions.
From S2P Require Import Prelude World Memory Libc Escape MdcIface Mdc JsonFormat Mdclog Within Api Threads LogLevel Startup Process.

#[local] Set Warnings "-register-all".

(** ** Values *)

Inductive json :=
| JNum (n : Z)
| JStr (s : list Z)
| JObj (fields : list (list Z * json)).

(** ** Reading *)

(** The character a letter after a backslash stands for. *)
Definition unescape (c : Z) : option Z :=
  if needs_escape c || (c =? SLASH) then Some c
  else if c =? 98 then Some 8
  else if c =? 102 then Some 12
  else if c =? 110 then Some 10
  else if c =? 114 then Some 13
  else if c =? 116 then Some 9
  else None.

Definition push {A} (c : A) (r : option (list A * list Z)) : option (list A * list Z) :=
  (λ '(s, r), (c :: s, r)) <$> r.

(** The characters of a string after its opening mark, and what follows its end. *)
Fixpoint chars (s : list Z) : option (list Z * list Z) :=
  match s with
  | [] => None
  | c :: s' =>
      if c =? DQUOTE then Some ([], s')
      else if c =? BACKSLASH then
        match s' with
        | d :: s'' => match unescape d with Some x => push x (chars s'') | None => None end
        | [] => None
        end
      else if isprint c then push c (chars s') else None
  end.

Definition number (s : list Z) : option (Z * list Z) :=
  match take_while isdigit s with
  | [] => None
  | [c] => Some (undec [c], drop_while isdigit s)
  | c :: _ => if c =? 48 then None else Some (undec (take_while isdigit s), drop_while isdigit s)
  end.

Section members.
Context (value : list Z → option (json * list Z)).

Definition member (s : list Z) : option ((list Z * json) * list Z) :=
  match s with
  | c :: s' =>
      if c =? DQUOTE then
        '(k, r) ← chars s';
        match r with
        | d :: r' => if d =? COLON then '(v, r) ← value r'; Some ((k, v), r) else None
        | [] => None
        end
      else None
  | [] => None
  end.

(** The members of an object after its brace or a comma. *)
Fixpoint members (n : nat) (s : list Z) : option (list (list Z * json) * list Z) :=
  match n with
  | O => None
  | S n' =>
      '(m, r) ← member s;
      match r with
      | c :: r' =>
          if c =? RBRACE then Some ([m], r')
          else if c =? COMMA then push m (members n' r')
          else None
      | [] => None
      end
  end.
End members.

Fixpoint value (n : nat) (s : list Z) : option (json * list Z) :=
  match n, s with
  | O, _ | _, [] => None
  | S n', c :: s' =>
      if c =? DQUOTE then '(t, r) ← chars s'; Some (JStr t, r)
      else if c =? LBRACE then
        match s' with
        | [] => None
        | d :: r =>
            if d =? RBRACE then Some (JObj [], r)
            else '(fs, r) ← members (value n') n' s'; Some (JObj fs, r)
        end
      else '(x, r) ← number s; Some (JNum x, r)
  end.

(** The value of a whole text. *)
Definition parse (s : list Z) : option json :=
  match value (S (length s)) s with
  | Some (v, []) => Some v
  | _ => None
  end.

(** ** Writing *)

Definition quoted (s : list Z) : list Z := [DQUOTE] ++ esc s ++ [DQUOTE].

Fixpoint print (v : json) : list Z :=
  match v with
  | JNum n => dec n
  | JStr s => quoted s
  | JObj fields => [LBRACE] ++ commas ((λ p, quoted p.1 ++ [COLON] ++ print p.2) <$> fields) ++ [RBRACE]
  end.

Definition print_member (p : list Z * json) : list Z := quoted p.1 ++ [COLON] ++ print p.2.

Definition plain_text (s : list Z) : Prop := Forall (λ c, isprint c = true) s.

(** Values whose strings are printable and whose numbers are natural. *)
Inductive writable : json → Prop :=
| writable_num n : 0 ≤ n → writable (JNum n)
| writable_str s : plain_text s → writable (JStr s)
| writable_obj fields : Forall (λ p, plain_text p.1) fields → Forall (λ p, writable p.2) fields → writable (JObj fields).

Example parse_ex : parse (qlit "{'a':12,'b':{'c':'x\'y'}}") =
  Some (JObj [(lit "a", JNum 12); (lit "b", JObj [(lit "c", JStr (qlit "x'y"))])]).
Proof. by vm_compute. Qed.

Section json_ind.
Context (P : json → Prop) (Hnum : ∀ n, P (JNum n)) (Hstr : ∀ s, P (JStr s))
  (Hobj : ∀ fields, Forall (λ p, P p.2) fields → P (JObj fields)).

(** Induction over the values of an object's members. *)
Fixpoint json_induct (v : json) : P v :=
  match v with
  | JNum n => Hnum n
  | JStr s => Hstr s
  | JObj fields =>
      Hobj fields ((fix go fs : Forall (λ p, P p.2) fs :=
        match fs with [] => Forall_nil_2 _ | p :: fs' => Forall_cons_2 _ p fs' (json_induct p.2) (go fs') end) fields)
  end.
End json_ind.

Section roundtrip.
Implicit Types (s r : list Z) (v : json).

Lemma print_obj fields : print (JObj fields) = [LBRACE] ++ commas (print_member <$> fields) ++ [RBRACE].
Proof. done. Qed.

Lemma chars_quoted s r : plain_text s → chars (esc s ++ DQUOTE :: r) = Some (s, r).
Proof.
  induction 1 as [|c s Hc _ IH]; [done|]. rewrite esc_cons /esc_char.
  destruct (needs_escape c) eqn:Hn.
  - rewrite /= /unescape Hn /= IH. done.
  - rewrite Hc /=. apply orb_false_iff in Hn as [H1 H2]. by rewrite H2 H1 Hc IH.
Qed.

(** What follows a number does not continue it. *)
Definition ends_number (r : list Z) : Prop := match r with c :: _ => isdigit c = false | [] => True end.

Lemma take_while_app (f : Z → bool) s r :
  Forall (λ c, f c = true) s → match r with c :: _ => f c = false | [] => True end →
  take_while f (s ++ r) = s ∧ drop_while f (s ++ r) = r.
Proof.
  intros Hs Hr. induction Hs as [|c s Hc _ [IH1 IH2]]; cbn.
  - destruct r as [|c r]; cbn; [done|]. by rewrite Hr.
  - by rewrite Hc IH1 IH2.
Qed.

Lemma number_dec n r : 0 ≤ n → ends_number r → number (dec n ++ r) = Some (n, r).
Proof.
  intros Hn Hr. destruct (take_while_app isdigit (dec n) r (dec_isdigit n Hn) Hr) as [H1 H2].
  rewrite /number H1 H2. pose proof (undec_dec n Hn) as Hu. destruct (dec_head n Hn) as (c & l & Hd & Hc).
  rewrite Hd in Hu |- *. destruct l as [|c' l]; [by rewrite Hu|]. destruct (Z.eqb_spec c 48) as [->|]; [|by rewrite Hu].
  destruct (decide (n = 0)) as [->|]; [by vm_compute in Hd|]. by destruct Hc; [lia|].
Qed.

(** Reading back what was written. *)
Definition reads_back (v : json) : Prop := ∀ n r,
  writable v → (length (print v) < n)%nat → ends_number r → value n (print v ++ r) = Some (v, r).

Lemma member_print n p r :
  reads_back p.2 → plain_text p.1 → writable p.2 → (length (print p.2) < n)%nat → ends_number r →
  member (value n) (print_member p ++ r) = Some (p, r).
Proof.
  destruct p as [k v]. intros Hv Hk Hw Hn Hr. cbn [fst snd] in *. rewrite /print_member /quoted /= -!app_assoc /=.
  rewrite chars_quoted //=. by rewrite Hv.
Qed.

Lemma print_member_len p : (length (print p.2) < length (print_member p))%nat.
Proof. rewrite /print_member /quoted !length_app /=. lia. Qed.

Lemma members_last get n s m r : member get s = Some (m, RBRACE :: r) → members get (S n) s = Some ([m], r).
Proof. intros Hm. by rewrite /= Hm. Qed.

Lemma members_step get n s m r : member get s = Some (m, COMMA :: r) → members get (S n) s = push m (members get n r).
Proof. intros Hm. by rewrite /= Hm. Qed.

Lemma members_print n m fields r :
  Forall (λ p, reads_back p.2) fields → Forall (λ p, plain_text p.1) fields → Forall (λ p, writable p.2) fields →
  fields ≠ [] → (length (commas (print_member <$> fields)) < n)%nat → (length fields ≤ m)%nat →
  members (value n) m (commas (print_member <$> fields) ++ RBRACE :: r) = Some (fields, r).
Proof.
  revert m. induction fields as [|p fields IH]; intros m Hv Hk Hw Hne Hn Hm; [done|].
  destruct m as [|m]; [cbn in Hm; lia|].
  apply Forall_cons in Hv as [Hv Hvs]. apply Forall_cons in Hk as [Hk Hks]. apply Forall_cons in Hw as [Hw Hws].
  pose proof (print_member_len p) as Hpl.
  destruct fields as [|p' fields].
  - change (commas (print_member <$> [p])) with (print_member p) in Hn |- *.
    apply members_last, member_print; done || lia.
  - change (commas (print_member <$> p :: p' :: fields))
      with (print_member p ++ COMMA :: commas (print_member <$> p' :: fields)) in Hn |- *.
    rewrite -app_assoc -app_comm_cons. rewrite length_app in Hn. cbn [length] in Hn, Hm.
    erewrite members_step; [|apply member_print; done || lia]. rewrite IH //; [lia|cbn [length]; lia].
Qed.

Lemma print_head v : writable v → ∃ c s, print v = c :: s ∧
  match v with
  | JNum _ => c ≠ DQUOTE ∧ c ≠ LBRACE
  | JStr t => c = DQUOTE
  | JObj _ => c = LBRACE
  end.
Proof.
  intros [n Hn|s _|fields _ _]; [|by eexists _, _|by eexists _, _].
  destruct (dec_head n Hn) as (c & l & Hd & _). exists c, l. split; [exact Hd|].
  pose proof (dec_isdigit n Hn) as Hi. rewrite Hd in Hi. apply Forall_cons in Hi as [Hi _].
  split; intros ->; by vm_compute in Hi.
Qed.

Lemma commas_len (ts : list (list Z)) : (length (concat ts) ≤ length (commas ts))%nat.
Proof.
  induction ts as [|t [|t' ts] IH]; [done|cbn; by rewrite app_nil_r|].
  cbn [concat commas] in IH |- *. rewrite !length_app /=. rewrite !length_app in IH. lia.
Qed.

Lemma members_len fields : (length fields ≤ length (commas (print_member <$> fields)))%nat.
Proof.
  etrans; [|apply commas_len]. induction fields as [|p fields IH]; [done|]. cbn. rewrite length_app.
  pose proof (print_member_len p). lia.
Qed.

Lemma value_obj n s fields r :
  (∃ s', s = DQUOTE :: s') → members (value n) n s = Some (fields, r) → value (S n) (LBRACE :: s) = Some (JObj fields, r).
Proof. intros [s' ->] Hm. cbn [value]. by rewrite /= in Hm |- *; rewrite Hm. Qed.

Lemma value_print v : reads_back v.
Proof.
  induction v as [x|s|fields IH] using json_induct; intros n r Hw Hn Hr; (destruct n as [|n]; [lia|]).
  - destruct (print_head _ Hw) as (c & s & Hp & H1 & H2). inversion_clear Hw. rewrite Hp /=.
    rewrite (proj2 (Z.eqb_neq _ _) H1) (proj2 (Z.eqb_neq _ _) H2) /=. change (c :: s ++ r) with ((c :: s) ++ r).
    rewrite -Hp /= number_dec //.
  - inversion_clear Hw. rewrite /= /quoted /= -app_assoc /=. by rewrite chars_quoted.
  - inversion_clear Hw as [| |? Hk Hv]. rewrite print_obj in Hn |- *. rewrite !length_app /= in Hn.
    destruct fields as [|p fields]; [done|]. pose proof (members_len (p :: fields)) as Hml.
    rewrite -!app_assoc. apply value_obj; [|apply members_print; done || lia].
    destruct fields; by eexists.
Qed.

Lemma parse_print v : writable v → parse (print v) = Some v.
Proof.
  intros Hw. rewrite /parse. pose proof (value_print v (S (length (print v))) [] Hw ltac:(lia) I) as Hv.
  rewrite app_nil_r in Hv. by rewrite Hv.
Qed.

(** A written value has no character a terminal would act on: no line feed. *)
Lemma print_plain v : writable v → plain_text (print v).
Proof.
  induction v as [x|s|fields IH] using json_induct; intros Hw; inversion_clear Hw as [? Hx|? Hs|? Hk Hv].
  - eapply Forall_impl; [by apply dec_isdigit|]. intros c. rewrite /isdigit /isprint. cbn. lia.
  - rewrite /= /quoted. apply Forall_app. split; [by repeat constructor|]. apply Forall_app. split; [apply esc_print|by repeat constructor].
  - rewrite print_obj. apply Forall_app. split; [by repeat constructor|]. apply Forall_app. split; [|by repeat constructor].
    assert (Hm : Forall (λ p, plain_text (print_member p)) fields).
    { apply Forall_forall. intros p Hp. rewrite /print_member /quoted. eapply Forall_forall in IH, Hv; [|done..].
      repeat (apply Forall_app; split); try (by repeat constructor); [apply esc_print|by apply IH]. }
    clear IH Hk Hv. induction Hm as [|p fields Hp Hm IH]; [constructor|]. destruct fields as [|p' fields]; [done|].
    cbn [fmap list_fmap commas] in IH |- *. apply Forall_app. split; [exact Hp|]. by constructor; [|exact IH].
Qed.
End roundtrip.

(** ** The entry as an object *)

(** A binding of a thread's list: a key without special characters and an escaped
    value; and the member it becomes. *)
Definition plain_pair (p : list Z * list Z) : Prop := has_special p.1 = false ∧ ∃ v, p.2 = esc v.
Definition pair_member (p : list Z * list Z) : list Z * json := (p.1, JStr (default [] (deesc p.2))).

Definition severity_members (severity : Z) : list (list Z * json) :=
  match severity_val severity with Some v => [(SEVERITY_KEY, JStr v)] | None => [] end.

(** The object of an entry with the identity [i], the bindings [l] and the message [m]. *)
Definition entry_object (tv : Z * Z) (severity : Z) (i : list Z) (l : list (list Z * list Z)) (m : list Z) : json :=
  JObj ([(TIMESTAMP_KEY, JNum (timestamp_ms tv))] ++ severity_members severity ++
        [(LOGGER_KEY, JStr i); (MDC_KEY, JObj (pair_member <$> l)); (MESSAGE_KEY, JStr m)]).

Section entry.
Implicit Types (s id out : list Z) (l : list (list Z * list Z)).

Lemma sanitize_plain s : plain_text (sanitize s).
Proof. apply Forall_fmap, Forall_forall. intros c _. apply isprint_replacement. Qed.

Lemma esc_sanitize s : esc (sanitize s) = esc s.
Proof.
  induction s as [|c s IH]; [done|]. cbn [sanitize fmap list_fmap]. rewrite !esc_cons. f_equal; [|exact IH].
  destruct (isprint c) eqn:Hc; [done|]. rewrite /esc_char Hc.
  destruct (needs_escape c) eqn:Hn; [by rewrite needs_escape_isprint in Hc|done].
Qed.

Lemma plain_key_print k : has_special k = false → esc k = k ∧ plain_text k.
Proof. intros Hk%esc_no_special. split; [done|]. rewrite -Hk. apply esc_print. Qed.

Lemma pair_member_print p : plain_pair p → print_member (pair_member p) = pair_text p ∧
  plain_text (pair_member p).1 ∧ writable (pair_member p).2.
Proof.
  destruct p as [k v']. intros [Hk [v Hv]]. cbn in Hk, Hv. subst v'. destruct (plain_key_print k Hk) as [He Hp].
  rewrite /print_member /pair_member /pair_text /quoted. cbn [fst snd]. rewrite deesc_esc. cbn [default from_option id print].
  split_and!; [|done|constructor; apply sanitize_plain]. by rewrite /quoted esc_sanitize He -!app_assoc.
Qed.

Lemma mdc_object_print l : Forall plain_pair l →
  print_member (MDC_KEY, JObj (pair_member <$> l)) = mdc_head ++ commas (pair_text <$> l) ++ [RBRACE] ∧
  writable (JObj (pair_member <$> l)).
Proof.
  intros Hl. rewrite /print_member. cbn [fst snd]. rewrite print_obj.
  assert (Hm : print_member <$> (pair_member <$> l) = pair_text <$> l).
  { rewrite -list_fmap_compose. apply list_fmap_ext. intros i p Hp. eapply Forall_lookup_1 in Hl; [|done].
    by apply pair_member_print. }
  rewrite Hm. split; [done|]. constructor; apply Forall_fmap; (eapply Forall_impl; [exact Hl|]); intros p Hp; by apply pair_member_print.
Qed.

Lemma severity_plain severity v : severity_val severity = Some v → has_special v = false.
Proof. rewrite /severity_val. repeat case_match; intros [= <-]; by vm_compute. Qed.

Lemma fit_all len s : zlen s < len → fit len s = s.
Proof. intros Hl. rewrite /fit. by destruct (Z.ltb_spec (zlen s) len); [|lia]. Qed.

Lemma add_field_text acc c s : add_field acc (c :: s) = acc ++ (c :: s) ++ [COMMA].
Proof. done. Qed.

(** The fields before the bindings. *)
Definition entry_head (tv : Z * Z) (severity : Z) (id : list Z) : list Z :=
  [LBRACE] ++ (ts_text tv ++ [COMMA]) ++ from_option (λ v, sev_text v ++ [COMMA]) [] (severity_val severity) ++
  id_text id ++ [COMMA].

(** The fields before the message, with the bindings [l]. *)
Definition entry_open (tv : Z * Z) (severity : Z) (id : list Z) (l : list (list Z * list Z)) : list Z :=
  entry_head tv severity id ++ (mdc_head ++ commas (pair_text <$> l) ++ [RBRACE]) ++ [COMMA].

(** With the smallest buffer that is accepted, the first fields are always there. *)
Lemma entry_fields_eq len tv severity id l :
  MIN_BUFFER_LENGTH ≤ len → zlen (entry_head tv severity id) ≤ 152 ∧
  entry_fields len tv severity id l =
    entry_open tv severity id (mdc_fit (len - zlen (entry_head tv severity id) - 27) l).
Proof.
  unfold MIN_BUFFER_LENGTH. intros Hlen. pose proof (fields_len len tv severity id Hlen) as (H1 & H2 & H3). rewrite /entry_fields.
  set (acc1 := add_field [LBRACE] _) in *. set (acc2 := add_field acc1 _) in *. set (acc3 := add_field acc2 _) in *.
  assert (E1 : acc1 = [LBRACE] ++ ts_text tv ++ [COMMA]).
  { unfold acc1. rewrite fit_all //. pose proof (ts_text_len tv). rewrite /field_room. change (zlen [LBRACE]) with 1. lia. }
  assert (E2 : acc2 = acc1 ++ from_option (λ v, sev_text v ++ [COMMA]) [] (severity_val severity)).
  { unfold acc2. destruct (severity_val severity) as [v|] eqn:Hv; cbn [from_option]; [|by rewrite app_nil_r].
    rewrite fit_all //. pose proof (sev_text_len _ _ Hv). rewrite /field_room. lia. }
  assert (E3 : acc3 = acc2 ++ id_text id ++ [COMMA]).
  { unfold acc3. rewrite fit_all //. pose proof (id_text_len id). rewrite /field_room. lia. }
  rewrite /entry_open. assert (acc3 = entry_head tv severity id) as <- by by rewrite E3 E2 E1 /entry_head -!app_assoc.
  split; [lia|]. rewrite /mdc_text. change (zlen mdc_head) with 7.
  destruct (Z.ltb_spec (7 + 1) (field_room len acc3)); [|unfold field_room in *; lia].
  replace (field_room len acc3 - 7) with (len - zlen acc3 - 27) by (unfold field_room; lia).
  change (add_field acc3 (mdc_head ++ ?x)) with (acc3 ++ (mdc_head ++ x) ++ [COMMA]). done.
Qed.

(** A member whose value is a string. *)
Lemma string_member k s s' : esc k = k → esc s = s' → print_member (k, JStr s) = [DQUOTE] ++ k ++ qlit "':'" ++ s' ++ [DQUOTE].
Proof. intros Hk <-. rewrite /print_member /quoted. cbn [fst snd print]. by rewrite /quoted Hk -!app_assoc. Qed.

(** The object of an entry is written as its text. *)
Lemma entry_object_print tv severity id i l m :
  Forall plain_pair l → take (Z.to_nat IDENTITY_MAX_LENGTH) id = esc i →
  print (entry_object tv severity (sanitize i) l m) =
    entry_open tv severity id l ++ (msg_head ++ esc m ++ [DQUOTE]) ++ [RBRACE].
Proof.
  intros Hl Hid. destruct (mdc_object_print _ Hl) as [Hmdc _]. rewrite /entry_object /severity_members print_obj /entry_open /entry_head.
  set (ts := (TIMESTAMP_KEY, _)). set (i0 := (LOGGER_KEY, _)). set (d := (MDC_KEY, _)). set (m0 := (MESSAGE_KEY, _)).
  assert (Hi : print_member i0 = id_text id) by by rewrite /id_text Hid; exact (string_member LOGGER_KEY _ _ eq_refl (esc_sanitize i)).
  assert (Hmm : print_member m0 = msg_head ++ esc m ++ [DQUOTE]) by exact (string_member MESSAGE_KEY _ _ eq_refl eq_refl).
  destruct (severity_val severity) as [v|] eqn:Hv; cbn [from_option].
  - assert (Hs : print_member (SEVERITY_KEY, JStr v) = sev_text v).
    { exact (string_member SEVERITY_KEY _ _ eq_refl (proj1 (plain_key_print _ (severity_plain _ _ Hv)))). }
    change (commas (print_member <$> _)) with (print_member ts ++ [COMMA] ++ print_member (SEVERITY_KEY, JStr v) ++ [COMMA] ++
      print_member i0 ++ [COMMA] ++ print_member d ++ [COMMA] ++ print_member m0).
    rewrite Hi Hmm Hs Hmdc. change (print_member ts) with (ts_text tv).
    generalize (ts_text tv) (sev_text v) (id_text id) mdc_head (commas (pair_text <$> l)) msg_head.
    intros. by rewrite -!app_assoc.
  - change (commas (print_member <$> _)) with (print_member ts ++ [COMMA] ++
      print_member i0 ++ [COMMA] ++ print_member d ++ [COMMA] ++ print_member m0).
    rewrite Hi Hmm Hmdc. change (print_member ts) with (ts_text tv).
    generalize (ts_text tv) (id_text id) mdc_head (commas (pair_text <$> l)) msg_head.
    intros. by rewrite -!app_assoc.
Qed.

Lemma entry_object_writable tv severity i l m :
  Forall plain_pair l → plain_text m → writable (entry_object tv severity (sanitize i) l m).
Proof.
  intros Hl Hm. destruct (mdc_object_print _ Hl) as [_ Hw].
  assert (Hsw : Forall (λ p, plain_text p.1 ∧ writable p.2)
    (match severity_val severity with Some v => [(SEVERITY_KEY, JStr v)] | None => [] end)).
  { destruct (severity_val severity) as [v|] eqn:Hv; repeat constructor. apply plain_key_print. by eapply severity_plain. }
  apply Forall_and in Hsw as [Hs1 Hs2]. pose proof (timestamp_range tv).
  constructor; rewrite !Forall_app !Forall_cons; cbn [fst snd]; split_and!; try done; try (by repeat constructor).
  - constructor. lia.
  - constructor. apply sanitize_plain.
Qed.

(** The length of the object in writing. *)
Lemma entry_object_len tv severity id i l m :
  Forall plain_pair l → take (Z.to_nat IDENTITY_MAX_LENGTH) id = esc i →
  zlen (print (entry_object tv severity (sanitize i) l m)) = zlen (entry_open tv severity id l) + 9 + zlen (esc m).
Proof. intros Hl Hid. rewrite (entry_object_print _ _ id) // !zlen_app. change (zlen msg_head) with 7. change (zlen [_]) with 1. lia. Qed.

Lemma entry_open_len tv severity id l :
  zlen (entry_open tv severity id l) = zlen (entry_head tv severity id) + 9 + zlen (commas (pair_text <$> l)).
Proof. rewrite /entry_open !zlen_app. change (zlen mdc_head) with 7. change (zlen [_]) with 1. lia. Qed.

Lemma pairs_text_len l : zlen (pairs_text l) = zlen (commas (pair_text <$> l)) + (match l with [] => 0 | _ => 1 end).
Proof.
  induction l as [|p l IH]; [done|]. rewrite pairs_text_cons. destruct l as [|p' l]; [cbn [pairs_text mbind list_bind commas fmap list_fmap]; zl|].
  change (commas (pair_text <$> p :: p' :: l)) with (pair_text p ++ [COMMA] ++ commas (pair_text <$> p' :: l)). zl.
Qed.

(** The message of an entry in a buffer of [len] characters, where [obj] is the entry
    with a message: the message if there is room for it, or as much of it as there is
    room for, and the mark. *)
Definition fitted (len : Z) (obj : list Z → json) (out m : list Z) : Prop :=
  if zlen (print (obj (sanitize out))) <? len then m = sanitize out
  else ∃ j, longest (λ j, zlen (print (obj (sanitize (take j out) ++ TRUNCATED))) < len) (length out) j ∧
    m = sanitize (take j out) ++ TRUNCATED.

(** The bindings that fit. *)
Lemma entry_bindings len tv severity id i l :
  MIN_BUFFER_LENGTH ≤ len → Forall plain_pair l → take (Z.to_nat IDENTITY_MAX_LENGTH) id = esc i →
  ∃ k, longest (λ k, zlen (print (entry_object tv severity (sanitize i) (take k l) TRUNCATED)) ≤ len) (length l) k ∧
    entry_fields len tv severity id l = entry_open tv severity id (take k l).
Proof.
  intros Hlen Hl Hid. destruct (entry_fields_eq len tv severity id l Hlen) as [Hh ->]. unfold MIN_BUFFER_LENGTH in Hlen.
  destruct (mdc_fit_longest (len - zlen (entry_head tv severity id) - 27) l) as (k & -> & Hk); [lia|].
  exists k. split; [|done]. revert Hk. apply longest_iff. intros j _.
  rewrite (entry_object_len _ _ id) //; [|by apply Forall_take]. rewrite entry_open_len pairs_text_len.
  change (zlen (esc TRUNCATED)) with 11. destruct (take j l); [cbn [commas fmap list_fmap]; rewrite zlen_nil|]; lia.
Qed.

(** The message that fits. *)
Lemma entry_message len tv severity id i l out n :
  Forall plain_pair l → take (Z.to_nat IDENTITY_MAX_LENGTH) id = esc i →
  n = len - zlen (entry_open tv severity id l) - 1 → 20 ≤ n →
  ∃ m, msg_body n out = esc m ∧ plain_text m ∧ fitted len (entry_object tv severity (sanitize i) l) out m.
Proof.
  intros Hl Hid Hn Hn20. rewrite /msg_body /fitted. rewrite (entry_object_len _ _ id) // esc_sanitize.
  destruct (Z.leb_spec (zlen (esc out)) (n - 9)), (Z.ltb_spec (zlen (entry_open tv severity id l) + 9 + zlen (esc out)) len); try lia.
  - exists (sanitize out). rewrite esc_sanitize. split_and!; [done|apply sanitize_plain|done].
  - destruct (esc_take_most (n - 20) out) as (j & -> & Hj); [lia|]. exists (sanitize (take j out) ++ TRUNCATED).
    rewrite esc_app esc_sanitize. split_and!; [by vm_compute (esc TRUNCATED)|
      apply Forall_app; split; [apply sanitize_plain|by repeat constructor]|].
    exists j. split; [|done]. revert Hj. apply longest_iff. intros j' _.
    rewrite (entry_object_len _ _ id) // esc_app esc_sanitize zlen_app. change (zlen (esc TRUNCATED)) with 11. lia.
Qed.

(** The text of an entry is its object in writing: the first bindings, as many as leave
    room for the mark, and the message, as far as it fits.  There is no entry when that
    takes the whole buffer. *)
Lemma entry_text_object len tv severity id i l out :
  MIN_BUFFER_LENGTH ≤ len → Forall plain_pair l → take (Z.to_nat IDENTITY_MAX_LENGTH) id = esc i →
  let obj k := entry_object tv severity (sanitize i) (take k l) in
  ∃ k, longest (λ k, zlen (print (obj k TRUNCATED)) ≤ len) (length l) k ∧
    match entry_text len tv severity id l out with
    | Some t => zlen (print (obj k TRUNCATED)) < len ∧ ∃ m, t = print (obj k m) ∧ writable (obj k m) ∧ fitted len (obj k) out m
    | None => zlen (print (obj k TRUNCATED)) = len
    end.
Proof.
  intros Hlen Hl Hid obj. destruct (entry_bindings len tv severity id i l Hlen Hl Hid) as (k & Hk & Hf).
  exists k. split; [exact Hk|]. destruct Hk as (_ & Hle & _). fold (obj k TRUNCATED) in Hle.
  assert (Hlk : Forall plain_pair (take k l)) by by apply Forall_take.
  assert (Hs : zlen (print (obj k TRUNCATED)) = zlen (entry_open tv severity id (take k l)) + 20).
  { rewrite /obj (entry_object_len _ _ id) //. change (zlen (esc TRUNCATED)) with 11. lia. }
  rewrite /entry_text Hf /msg_text. change (zlen MINIMUM_MESSAGE) with 19. set (n := len - zlen _ - 1).
  destruct (Z.leb_spec n 19) as [?|Hn]; [unfold n in *; lia|]. split; [unfold n in *; lia|].
  destruct (entry_message len tv severity id i (take k l) out n Hlk Hid eq_refl ltac:(lia)) as (m & -> & Hm & Hfit).
  exists m. split_and!; [by rewrite (entry_object_print _ _ id)|by apply entry_object_writable|done].
Qed.
End entry.

(** ** The log as a sequence of objects *)

(** The part of the identity that is written is the escape of something. *)
Definition ident_whole (id : list Z) : Prop := ∃ i, take (Z.to_nat IDENTITY_MAX_LENGTH) id = esc i.

(** A line of the log: one object, without a line feed inside, that a pipe takes in one
    piece. *)
Definition log_record (line : list Z) : Prop := ∃ t tv severity i l m,
  line = t ++ [NL] ∧ parse t = Some (entry_object tv severity i l m) ∧ plain_text t ∧ zlen line ≤ PIPE_BUF.

Section log.
Implicit Types (s : spec) (l : list (list Z * list Z)).

Lemma entry_text_len len tv severity id l out t :
  MIN_BUFFER_LENGTH ≤ len → entry_text len tv severity id l out = Some t → zlen t < len.
Proof.
  unfold MIN_BUFFER_LENGTH. intros Hlen. pose proof (entry_fields_len len tv severity id l Hlen).
  rewrite /entry_text. set (acc := entry_fields _ _ _ _ _) in *. set (n := len - zlen acc - 1).
  destruct (msg_text n out) as [|c m] eqn:Hm; [done|]. intros [= <-].
  assert (Hn : 20 ≤ n).
  { rewrite /msg_text in Hm. change (zlen MINIMUM_MESSAGE) with 19 in Hm. destruct (Z.leb_spec n 19); [done|lia]. }
  pose proof (msg_text_len n out Hn). rewrite Hm in H0. unfold n in *. zl.
Qed.

Lemma log_record_entry len tv severity id l out t :
  MIN_BUFFER_LENGTH ≤ len < PIPE_BUF → entry_text len tv severity id l out = Some t →
  Forall plain_pair l → ident_whole id → log_record (t ++ [NL]).
Proof.
  intros [Hlen Hpb] Ht Hl [i Hi]. destruct (entry_text_object len tv severity id i l out Hlen Hl Hi) as (k & _ & Hm).
  rewrite Ht in Hm. destruct Hm as (_ & m & Hp & Hw & _).
  apply entry_text_len in Ht; [|done]. rewrite Hp in Ht |- *. exists (print (entry_object tv severity (sanitize i) (take k l) m)), tv, severity, (sanitize i), (take k l), m.
  split_and!; [done|by apply parse_print|by apply print_plain|zl].
Qed.

(** The bindings of the machine's lists are plain, and its lines are records. *)
Record plain_spec s : Prop := {
  ps_mdcs : ∀ t, Forall plain_pair (sp_mdcs s t);
  ps_ident : ident_whole (log_name (sp_ident s));
  ps_out : Forall log_record (sp_out s)
}.

Lemma ident_whole_esc i : zlen (esc i) ≤ IDENTITY_MAX_LENGTH → ident_whole (esc i).
Proof. intros Hl. exists i. apply take_ge. unfold zlen, IDENTITY_MAX_LENGTH in *. lia. Qed.

Lemma plain_put k v l : has_special k = false → Forall plain_pair l → Forall plain_pair (al_put k (esc v) l).
Proof.
  intros Hk Hl. rewrite /al_put. case_decide; [|by constructor; [split; eauto|]].
  apply Forall_fmap. eapply Forall_impl; [exact Hl|]. intros [k' v'] Hp. cbn. case_decide; [|done]. split; [apply Hp|by eexists].
Qed.

Lemma plain_remove k l : Forall plain_pair l → Forall plain_pair (al_remove k l).
Proof. intros Hl. apply Forall_forall. intros p [_ Hp]%list_elem_of_filter. by eapply Forall_forall in Hl. Qed.

Context (pn : list Z) (Hpn : zlen (esc pn) ≤ IDENTITY_MAX_LENGTH).

Lemma plain_ready s : plain_spec s → plain_spec (sp_ready pn s).
Proof.
  intros [H1 H2 H3]. rewrite /sp_ready. destruct (sp_init s); [done|]. split; [done| |done].
  by apply ident_whole_esc.
Qed.

Lemma plain_set t l s : plain_spec s → Forall plain_pair l → plain_spec (sp_set t l s).
Proof.
  intros [H1 H2 H3] Hl. split; [|done|done]. intros t'. cbn.
  destruct (decide (t' = t)) as [->|Hne]; [by rewrite fn_lookup_insert|by rewrite fn_lookup_insert_ne].
Qed.

Lemma plain_line t severity msg s : plain_spec s → Forall log_record (sp_line t severity msg s).
Proof.
  intros [H1 H2 _]. rewrite /sp_line. destruct (entry_text _ _ _ _ _ _) as [line|] eqn:He; [|done].
  constructor; [|done]. by eapply log_record_entry; [|exact He|..].
Qed.

Lemma plain_event e s : valid e → plain_spec s → plain_spec (sp_event pn e s).2.
Proof.
  intros He Hs. pose proof (plain_ready _ Hs) as Hr. pose proof Hr as [Hr1 _ _]. destruct Hs as [H1 H2 H3].
  destruct e as [t c|tv]; [|by split]. destruct c as [severity msg|level| |k v|k|k| |[ident|]| |]; cbn in He |- *.
  - destruct (_ <? _); [by split|]. destruct (plain_set t (sp_mdcs (sp_ready pn s) t) _ Hr (Hr1 t)) as [H4 H5 H6].
    split; [done|done|]. apply Forall_app. split; [done|]. by apply plain_line.
  - by split.
  - by split.
  - destruct (has_special k) eqn:Hk; [by split|]. apply plain_set; [done|]. by apply plain_put.
  - by apply plain_set.
  - apply plain_set; [done|]. by apply plain_remove.
  - by apply plain_set.
  - split; [done| |done]. destruct He as (_ & Hg%esc_no_special & Hl). cbn. rewrite -Hg. apply ident_whole_esc. by rewrite Hg.
  - split; [done| |done]. by apply ident_whole_esc.
  - split; [done| |done]. exists (lit "(null)"). done.
  - split; [|done|done]. intros t'. cbn. destruct (decide (t' = t)) as [->|Hne]; [by rewrite fn_lookup_insert|by rewrite fn_lookup_insert_ne].
Qed.

Lemma plain_events es s : Forall valid es → plain_spec s → plain_spec (sp_events pn es s).2.
Proof.
  intros Hes. revert s. induction Hes as [|e es He _ IH]; intros s Hs; [done|].
  rewrite sp_events_cons. by apply IH, plain_event.
Qed.

Lemma plain_boot : plain_spec sp_boot.
Proof. split; [done|exists (lit "(null)"); done|constructor]. Qed.

(** Initialisations and monitors. *)
Lemma plain_level level s : plain_spec s → plain_spec (sp_with_level level s).
Proof. by intros [H1 H2 H3]. Qed.

Lemma plain_field k v l : has_special k = false → Forall plain_pair l → Forall plain_pair (put_field k v l).
Proof. intros Hk Hl. by apply plain_put, plain_remove. Qed.

Lemma plain_startup env pid l : Forall plain_pair l → Forall plain_pair (put_startup env pid l).
Proof.
  intros Hl. apply plain_field; [done|]. rewrite /put_fields.
  assert (Hf : Forall (λ f, has_special f = false) LOGFIELDS) by by repeat constructor.
  revert l Hl. induction Hf as [|f fs Hf _ IH]; intros l Hl; cbn [foldl]; [done|]. apply IH. rewrite /put_env.
  destruct (env !! f) as [v|]; [by apply plain_field|by apply (plain_put f [])].
Qed.

Lemma plain_pevent env pid e (s : pspec) :
  pvalid e → plain_spec (ps_spec s) → plain_spec (ps_spec (sp_pevent pn env pid e s).2).
Proof.
  intros He Hs. destruct e as [e|t m|files|n ifd wfd|n i]; cbn [sp_pevent].
  - pose proof (plain_event e (ps_spec s) He Hs) as Hs1. by destruct (sp_event pn e (ps_spec s)).
  - rewrite /sp_start. destruct (ps_flag s); [done|].
    assert (Hf : plain_spec (sp_fill pn env pid t (ps_files s) (ps_spec s))).
    { apply plain_ready in Hs. apply plain_level, plain_set; [done|apply plain_startup, Hs]. }
    destruct (sp_watch _ _ _ _) as [r [|]]; [|done]. by destruct (r =? 0).
  - done.
  - cbn. by destruct (ps_mons s !! n) as [[| |]|], ifd, wfd.
  - cbn. destruct (ps_mons s !! n) as [[| |]|]; try done. destruct (ps_flag s); [|done].
    rewrite /sp_round. repeat case_match; try done. by apply plain_level.
Qed.

Lemma plain_pevents env pid es (s : pspec) :
  Forall pvalid es → plain_spec (ps_spec s) → plain_spec (ps_spec (sp_pevents pn env pid es s).2).
Proof.
  intros Hes. apply (steps_ind pn env pid (λ s' : pspec, plain_spec (ps_spec s'))).
  intros e s' He. apply plain_pevent. by eapply Forall_forall in Hes.
Qed.
End log.

(** *** The other text *)

(** More is said on the buffered streams, and of the standard output only the message
    about a log level that is missing. *)
Definition talks : relation world := λ w w',
  ∃ more, sys_stdio (os w') = sys_stdio (os w) ++ more ∧ Forall (λ p, said p.1 p.2) more.

Lemma talks_same w w' : sys_stdio (os w') = sys_stdio (os w) → talks w w'.
Proof. intros Hs. exists []. split; [by rewrite app_nil_r|constructor]. Qed.

#[export] Instance talks_preorder : PreOrder talks.
Proof.
  split; [intros w; by apply talks_same|]. intros w1 w2 w3 (m1 & H1 & Hm1) (m2 & H2 & Hm2).
  exists (m1 ++ m2). split; [by rewrite H2 H1 assoc_L|by apply Forall_app].
Qed.

#[export] Instance talks_plain : Plain talks.
Proof. split; [apply _|..]; intros; by apply talks_same. Qed.
#[export] Instance talks_flagless : Flagless talks.
Proof. split; [apply _|]. intros. by apply talks_same. Qed.
#[export] Instance talks_quiet : Quiet talks.
Proof.
  split; [apply _|..]; intros; try (by apply talks_same). exists [(to, msg)].
  split; [done|by apply Forall_singleton].
Qed.
#[export] Instance talks_eventful : Eventful talks.
Proof. split; [apply _|apply _|..]; intros; by apply talks_same. Qed.

(** ** Properties *)

Section properties.
Context `{MdcWalk}.

(** C12: what [mdclog_internal_format_to_json_str] writes into its [len] characters is a
    JSON object: a reader finds the time, the severity, the identity, the bindings of the
    thread with their values unescaped, and the message, with a space for each character
    that is not printable.  The bindings are all of them, or the most of the first ones
    that leave room for a message that is only the mark; the message is whole if there
    is room for it, and otherwise the longest part of it that fits, and the mark.  The
    entry is dropped, with an empty string and -1, only when those bindings and the mark
    take exactly the whole buffer. *)
Theorem entry_is_object w b o len cs tv severity identity id i mdc F l msg args out :
  entry_input w b o len cs identity id mdc F l msg args out → plan_ok (plan w) = true →
  Forall plain_pair l → take (Z.to_nat IDENTITY_MAX_LENGTH) id = esc i →
  let obj k := entry_object tv severity (sanitize i) (take k l) in
  let run := mdclog_internal_format_to_json_str (Ptr b o) len tv identity severity mdc msg args w in
  ∃ k, longest (λ k, zlen (print (obj k TRUNCATED)) ≤ len) (length l) k ∧
    if zlen (print (obj k TRUNCATED)) <? len
    then ∃ m t w', fitted len (obj k) out m ∧ run = Ok (zlen t) w' ∧ zlen t < len ∧
           get_cstr (heap w') (Ptr b o) = Some t ∧ parse t = Some (obj k m)
    else ∃ w', run = Ok (-1) w' ∧ get_cstr (heap w') (Ptr b o) = Some [].
Proof.
  intros Hin Hp Hl Hid obj run. pose proof Hin as [_ _ _ [Hlen _] [Hn _] (_ & _ & Hpl) _]. apply identity_name_is_str in Hn.
  destruct (entry_text_object len tv severity id i l out Hlen Hl Hid) as (k & Hk & Ht). exists k. split; [exact Hk|].
  assert (wp (mdclog_internal_format_to_json_str (Ptr b o) len tv identity severity mdc msg args) w (λ r w',
    match entry_text len tv severity id l out with
    | Some t => r = zlen t ∧ zlen t < len ∧ get_cstr (heap w') (Ptr b o) = Some t
    | None => r = -1 ∧ get_cstr (heap w') (Ptr b o) = Some []
    end)) as (r & w' & Hrun & Hr)%wp_run.
  { eapply wp_format_to_json_str; [done|done|]. intros cs' w' _. destruct (entry_text len tv severity id l out) as [t|] eqn:He.
    - intros Hlt Hh. split_and!; [done|done|].
      eapply get_cstr_holds; [apply on_lookup|exact Hh|eapply entry_text_is_str; [exact Hn|exact Hpl|exact He]].
    - intros Hh. split; [done|]. eapply get_cstr_holds; [apply on_lookup|exact Hh|constructor]. }
  destruct (entry_text len tv severity id l out) as [t|].
  - destruct Ht as (Hlt & m & -> & Hw & Hm). rewrite (proj2 (Z.ltb_lt _ _) Hlt). destruct Hr as (-> & Hlen' & Hs).
    exists m, (print (obj k m)), w'. split_and!; [exact Hm|exact Hrun|exact Hlen'|exact Hs|by apply parse_print].
  - fold (obj k TRUNCATED) in Ht. rewrite Ht Z.ltb_irrefl. destruct Hr as [-> Hs]. by exists w'.
Qed.
End properties.

(** C5: whatever a process does (calls of its threads, initialisations, edits of the
    configuration file and turns of its monitors), if the name of the program has at
    most 100 characters when escaped, every line that is written to the standard output
    is the JSON object of one log entry, free of control characters, and short enough
    for a pipe to take it in one piece.  All other text on the standard output is copies
    of the one message that [printf] prints when a configuration has no log level.  The
    configuration files are usable, memory does not run out, and writes are complete. *)
Theorem output_is_json strerror pn env files pid creates es :
  setting_ok pn env pid → good_files files → Forall pvalid es → zlen (esc pn) ≤ IDENTITY_MAX_LENGTH →
  ∃ rs ms w, run_pevents strerror es [] (pboot pn env files pid creates) = Ok (rs, ms) w ∧
    Forall log_record (sys_stdout (os w)) ∧
    ∀ msg, (Stdout, msg) ∈ sys_stdio (os w) → msg = invalid_level_message.
Proof.
  intros Hset Hg Hv Hl.
  destruct (run_from_boot strerror pn env files pid creates es Hset Hg Hv)
    as (ms & w & F & lost & Hrun & [(io & L & Ha) _ _ _ _ _ _ _ _ _ _]).
  eexists _, ms, w. split; [exact Hrun|]. split.
  - rewrite (ab_out _ _ _ _ _ _ Ha). apply ps_out. by apply plain_pevents; [| |apply plain_boot].
  - apply (within_run_pevents talks) in Hrun as (more & Hm & Hsaid). intros msg. rewrite Hm /=. intros Hin.
    eapply Forall_forall in Hsaid; [|exact Hin]. by apply Hsaid.
Qed.

(** A program whose name ends with a quotation mark as its 100th character. *)
Definition long_name : list Z := replicate 99 97 ++ [DQUOTE].

Definition broken_line : list Z :=
  qlit "{'ts':0,'crit':'ERROR','id':'" ++ replicate 99 97 ++ qlit "\','mdc':{},'msg':'hi'}".

(** C35: an identity that is longer than 100 characters can be cut inside an escape
    sequence: what is written is not JSON. *)
Theorem identity_cut_breaks_json : ∃ rs w line,
  run_events [Call 1 (CallWrite MDCLOG_ERR (lit "hi"))] (boot (Lit long_name 0)) = Ok rs w ∧
  sys_stdout (os w) = [line ++ [NL]] ∧ parse line = None.
Proof.
  assert (Hn : is_str long_name ∧ zlen (esc long_name) < INT_MAX) by by split; [repeat constructor|vm_compute].
  assert (Hv : Forall valid [Call 1 (CallWrite MDCLOG_ERR (lit "hi"))]) by by repeat constructor.
  destruct (proj1 (wp_run _ _ _) (run_events_refine ∅ long_name _ _ _ _ _ (boot_abs long_name (proj1 Hn) (proj2 Hn)) Hv))
    as (rs & w & Hrun & io & L & _ & Ha).
  exists rs, w, broken_line. split; [exact Hrun|]. rewrite (ab_out _ _ _ _ _ _ Ha). split; vm_compute; reflexivity.
Qed.

(** C36: a configuration that has no log level (a missing file, or one without such a
    line) is answered on the standard output itself, where the log entries go: besides
    setting the level to errors, the code prints a line there that a reader of JSON
    rejects.  Nothing else is written. *)
Theorem invalid_level_breaks_json filename name w :
  get_cstr (heap w) filename = Some name → wf_heap w → plan_ok (plan w) = true →
  is_str (default [] (sys_files (os w) !! name)) →
  parse_contents (default [] (sys_files (os w) !! name)) = Absent →
  ∃ w' line, apply_config_file true filename w = Ok tt w' ∧ current_level (cfg w') = MDCLOG_ERR ∧
    sys_stdio (os w') = sys_stdio (os w) ++ [(Stdout, line ++ [NL])] ∧ sys_stdout (os w') = sys_stdout (os w) ∧
    parse line = None.
Proof.
  intros Hn Hw Hp Hs Ha.
  assert (wp (apply_config_file true filename) w (λ _ w', current_level (cfg w') = MDCLOG_ERR ∧
    sys_stdio (os w') = sys_stdio (os w) ++ [(Stdout, invalid_level_message)] ∧ sys_stdout (os w') = sys_stdout (os w)))
    as ([] & w' & Hrun & Hl & Hio & Ho)%wp_run.
  { rewrite /apply_config_file. step wp_parse_file; [done..|by intros f Hf; rewrite Hf in Hs| |by rewrite Ha].
    intros q n _. rewrite Ha. step wp_update_level_null. by eapply wp_eq; [reflexivity|]. }
  exists w', (removelast invalid_level_message). split_and!; [exact Hrun|exact Hl|exact Hio|exact Ho|by vm_compute].
Qed.

(** A file that sets something else, and a process that starts with it. *)
Definition mode_file : list Z := lit "log-mode: x" ++ [NL].

Example invalid_level_run :
  match run_pevents (λ _, []) [PStart 1 0] [] (pboot (lit "app") demo_env (demo_files mode_file) 42 []) with
  | Ok (rs, _) w => rs = [RInt 0] ∧ sys_stdio (os w) = [(Stdout, invalid_level_message)] ∧ sys_stdout (os w) = []
  | Stop _ => False
  end.
Proof. by vm_compute. Qed.

Lemma entry_is_object_witness : ∃ t w',
  mdclog_internal_format_to_json_str (H := lit_access) (Ptr 1 0) 1000 (5, 1000) (Lit (lit "id") 0)
    MDCLOG_ERR (Lit (lit "v") 0) (Lit (lit "%s") 0) [AStr (Lit (qlit "a'b") 0)]
    (with_plan [] (entry_world 1000)) = Ok (zlen t) w' ∧ get_cstr (heap w') (Ptr 1 0) = Some t ∧
  parse t = Some (entry_object (5, 1000) MDCLOG_ERR (lit "id") [(lit "k", lit "v")] (qlit "a'b")).
Proof.
  assert (Hp : Forall plain_pair [(lit "k", lit "v")]).
  { constructor; [|constructor]. split; [by vm_compute|]. by exists (lit "v"). }
  destruct (entry_is_object (H0 := lit_walk) (with_plan [] (entry_world 1000)) 1 0 1000
    (replicate 1000 None) (5, 1000) MDCLOG_ERR (Lit (lit "id") 0) (lit "id") (lit "id") (Lit (lit "v") 0)
    {[2%positive]} [(lit "k", lit "v")] (Lit (lit "%s") 0) [AStr (Lit (qlit "a'b") 0)] (qlit "a'b")
    (entry_world_input [] 1000 1000 (lit "v") (qlit "a'b") eq_refl ltac:(vm_compute; split; congruence)
       ltac:(by repeat constructor) ltac:(by vm_compute) ltac:(by repeat constructor) ltac:(by vm_compute))
    eq_refl Hp eq_refl) as (k & (Hk & _ & Hmax) & Hrun).
  destruct k as [|[|k]]; [|clear Hmax|cbn in Hk; lia].
  { destruct (Hmax 1%nat); [cbn; lia|]. vm_compute. congruence. }
  destruct Hrun as (m & t & w' & Hm & Hrun & _ & Hs & Hpt).
  assert (m = qlit "a'b") as -> by exact Hm.
  exists t, w'. split; [exact Hrun|]. split; [exact Hs|exact Hpt].
Defined.

Lemma output_is_json_witness : ∃ rs ms w,
  run_pevents (λ _, []) demo_watch [] (pboot (lit "app") demo_env (demo_files info_file) 42 []) = Ok (rs, ms) w ∧
  Forall log_record (sys_stdout (os w)).
Proof.
  destruct (output_is_json (λ _, []) (lit "app") demo_env (demo_files info_file) 42 [] demo_watch
    demo_setting info_good demo_watch_valid ltac:(by vm_compute)) as (rs & ms & w & Hrun & Hout & _).
  exists rs, ms, w. split; [exact Hrun|exact Hout].
Defined.

Lemma invalid_level_breaks_json_witness : ∃ w' line,
  apply_config_file true (Lit (lit "cfg") 0) (pboot (lit "app") demo_env (demo_files mode_file) 42 []) = Ok tt w' ∧
  sys_stdio (os w') = [(Stdout, line ++ [NL])] ∧ parse line = None.
Proof.
  destruct (invalid_level_breaks_json (Lit (lit "cfg") 0) (lit "cfg") (pboot (lit "app") demo_env (demo_files mode_file) 42 []))
    as (w' & line & Hrun & _ & Hio & _ & Hpa).
  - vm_compute. reflexivity.
  - intros b _. apply lookup_empty.
  - reflexivity.
  - repeat constructor; vm_compute; congruence.
  - vm_compute. reflexivity.
  - exists w', line. split; [exact Hrun|]. split; [exact Hio|exact Hpa].
Defined.
