(* ===== verification/Types.v ===== *)
(** The types of the heap.

    C gives the blocks of the heap no types that last: a pointer may dangle, a list may
    lead into a block that is something else by now.  [well_typed] says that none of this
    is so: it looks at the heap and the statics only, not at what they represent, and
    every pointer in them leads to a live block of the type its field declares.  The
    theorem shows that every run of the library keeps it, whatever allocations fail, as
    long as the machine of Faults.v survives. *)

From S2P Require Import Prelude World Memory Libc Escape MdcIface Mdc JsonFormat Mdclog Api Threads Faults.

(** ** Typed heaps *)

Section typed.
Context (h : gmap positive block).

(** A terminated string in a block of its own. *)
Definition string_at (p : ptr) : Prop := ∃ b s, p = Ptr b 0 ∧ h !! b = Some (cstr_block s) ∧ is_str s.

(** Null, or an entry of which [P] holds. *)
Definition node_at (p : ptr) (P : mdc → Prop) : Prop :=
  p = Null ∨ ∃ b n, p = Ptr b 0 ∧ h !! b = Some (BMdc n) ∧ P n.

(** A live block is a string, an entry with its strings whose neighbours lead back to
    it, or a list that starts with an entry that has no predecessor.  The attributes of
    an initialisation do not outlive it. *)
Definition typed_block (b : positive) (x : block) : Prop :=
  match x with
  | BChars cs => ∃ s, x = cstr_block s ∧ is_str s
  | BMdc n =>
      string_at (mdc_key n) ∧ string_at (mdc_value n) ∧
      node_at (mdc_prev n) (λ n', mdc_next n' = Ptr b 0) ∧ node_at (mdc_next n) (λ n', mdc_prev n' = Ptr b 0)
  | BList head => node_at head (λ n, mdc_prev n = Null)
  | BAttr _ | BAttrPtr _ => False
  end.
End typed.

Record well_typed (w : world) : Prop := {
  wt_fresh : wf_heap w;
  wt_heap : ∀ b x, heap w !! b = Some x → typed_block (heap w) b x;
  wt_identity : identity (cfg w) = Null ∨ string_at (heap w) (identity (cfg w));
  wt_threads : ∀ t, let p := default Null (tls_values (tls w) !! t) in
    p = Null ∨ ∃ l head, p = Ptr l 0 ∧ heap w !! l = Some (BList head)
}.

(** ** What is represented is typed *)

Section represented.
Implicit Types (h : gmap positive block) (w : world) (es : list ent).

Lemma node_null h P : node_at h Null P.
Proof. by left. Qed.

(** An entry in the middle of a list. *)
Lemma seg_middle h es1 e es2 :
  seg h Null (es1 ++ e :: es2) Null →
  ent_strs h e ∧ ∃ n, h !! e_node e = Some (BMdc n) ∧ typed_block h (e_node e) (BMdc n).
Proof.
  rewrite seg_app /=. intros (H1 & He & Hs & H2). split; [done|]. eexists. split; [exact He|].
  destruct Hs as [Hk Hv Hks Hvs]. split_and!; [by eexists _, _|by eexists _, _|..]; cbn.
  - destruct es1 as [|e1 es1 _] using rev_ind; [apply node_null|].
    apply seg_app in H1 as (_ & H1 & _). right. eexists _, _. rewrite last_ptr_snoc. split; [done|]. split; [exact H1|done].
  - destruct es2 as [|e2 es2]; [apply node_null|]. destruct H2 as [H2 _]. right. eexists _, _. split; [done|]. by split; [exact H2|].
Qed.

Lemma mlist_typed h l es b x :
  mlist h l es → b ∈ footprint (Some l) es → h !! b = Some x → typed_block h b x.
Proof.
  intros [Hh Hs _ _]. rewrite /footprint elem_of_list_to_set elem_of_cons. intros [->|Hb] Hx.
  - rewrite Hh in Hx. injection Hx as <-. cbn. destruct es as [|e es]; [apply node_null|]. right.
    eexists _, _. split; [done|]. split; [apply Hs|done].
  - apply list_elem_of_bind in Hb as (e & Hb & (es1 & es2 & ->)%list_elem_of_split).
    apply seg_middle in Hs as ([Hk Hv Hks Hvs] & n & Hn & Ht).
    cbn in Hb. apply elem_of_cons in Hb as [->|[->|[->|[]%elem_of_nil]%elem_of_cons]%elem_of_cons];
      simplify_eq; [done|by eexists|by eexists].
Qed.

Lemma thread_typed w lo es b x :
  thread_state w lo es → b ∈ footprint lo es → heap w !! b = Some x → typed_block (heap w) b x.
Proof.
  rewrite /thread_state /thread_mdcs. destruct (tls_key (tls w)), lo as [l|]; try naive_solver.
  - intros (_ & _ & Hm). by apply mlist_typed.
  - intros (_ & _ & ->) []%elem_of_empty.
  - intros (_ & -> & _) []%elem_of_empty.
Qed.

(** The library's state is typed, with lists that belong to nobody beside it. *)
Lemma shared_typed F pn w io L :
  shared F pn w io L → map_Forall (λ _ x, x = BList Null) F → well_typed w.
Proof.
  intros [Hl _ Hfr _ Hlive] HF. pose proof (λ t, lib_mdcs _ _ _ _ _ (Hl t)) as Ht.
  assert (Hi : ident_state w io) by exact (lib_ident _ _ _ _ _ (Hl 1%positive)). split.
  - apply (lib_wf _ _ _ _ _ (Hl 1%positive)).
  - intros b x Hx. destruct (Hlive b) as [Hb|[[t Hb]|[y Hy]%elem_of_dom]]; [by eauto|..].
    + destruct io as [[c s]|]; cbn in Hb, Hi; [|by apply not_elem_of_empty in Hb]. apply elem_of_singleton in Hb as ->.
      destruct Hi as (_ & Hc & Hs). rewrite Hc in Hx. injection Hx as <-. by exists s.
    + by apply (thread_typed (with_self t w) _ _ _ _ (Ht t)).
    + rewrite (lookup_weaken _ _ _ _ Hy Hfr) in Hx. injection Hx as <-. apply HF in Hy as ->. apply node_null.
  - destruct io as [[c s]|]; [|by left]. destruct Hi as (-> & Hc & Hs). right. by exists c, s.
  - intros t. specialize (Ht t). rewrite /thread_state /thread_mdcs in Ht. cbn in Ht.
    destruct (tls_key (tls w)); [|left; apply Ht]. destruct (L t) as [[l|] es]; [|left; apply Ht].
    destruct Ht as (_ & Hp & [Hh _ _ _]). right. cbn in Hp, Hh. exists l, (first_ptr es Null). by rewrite /= Hp.
Qed.
End represented.

(** ** Properties *)

(** C22: no run of the library leaves a dangling pointer, or a pointer to a block of
    another type: from the start of the process, with any plan of good and bad
    allocations, any sequence of calls that the machine survives returns, and then every
    live block is a terminated string, an entry with a key and a value and with
    neighbours that lead back to it, or a list that starts at an entry without a
    predecessor; the identity is null or a live string, and every thread has no list or
    a live one. *)
Theorem heap_typed pn es p rs s n p' :
  is_str pn → zlen (esc pn) < INT_MAX → Forall valid es → f_events pn es sp_boot p = (Some (rs, s, n), p') →
  ∃ w', run_events es (with_plan p (boot (Lit pn 0))) = Ok rs w' ∧ well_typed w'.
Proof.
  intros Hpn Hlen Hv Hf.
  destruct (proj1 (wp_run _ _ _) (f_events_refine pn ∅ 0 es _ _ _ _ _ _ _ _ (boot_fabs pn Hpn Hlen p) lost_blocks_empty Hv Hf))
    as (rs' & w' & Hrun & -> & _ & F & io & L & Ha & _ & HF).
  exists w'. split; [done|]. by destruct (shared_typed F pn (with_plan [] w') io L (ab_shared _ _ _ _ _ _ Ha) HF).
Qed.

Lemma heap_typed_witness : ∃ w',
  run_events short (with_plan short_plan (boot (Lit (lit "app") 0))) =
    Ok [RInt (-1); RInt 0; RStr None; RNone; RNone; RNone; RStr (Some (lit "b"))] w' ∧ well_typed w'.
Proof.
  destruct app_name as [H1 H2].
  exact (heap_typed (lit "app") short short_plan
    [RInt (-1); RInt 0; RStr None; RNone; RNone; RNone; RStr (Some (lit "b"))] (last_state short short_plan) 1 []
    H1 H2 short_valid ltac:(vm_compute; reflexivity)).
Defined.
